(* ===== verification/_CoqProject ===== *)
-Q . S2P
Prelude.v
Buffer.v
Format.v
Cmem.v
LinkedList.v
HashTable.v
BinHeap.v
TimeHeap.v
TimeWheel.v
Sys.v
StandardIO.v
Sendfile.v
Splice.v
PageCache.v
LibAio.v
SysEpoll.v
EpollFiles.v
SysStdio.v
BufferedIO.v
SysSock.v
Cat.v
Unblocking.v
Mmap.v
DirectIO.v
NonBlocking.v
EpollServer.v
TeeDemo.v
EpollEt.v
EpollEcho.v
EpollHup.v
TwoPhase.v
SockLib.v
TcpUdp.v
EpollListen.v
UpperServer.v
UpperClient.v
UpperFork.v
UpperThreads.v
TcpDemos.v
UdpDemos.v
UnixDemos.v
PipeDemos.v
Threads.v
GlibcAio.v
Mutex.v
Semaphore.v
Process.v
TwoPipe.v
ForkDemos.v
FiveChildren.v
Signals.v
ThreadDemos.v
PipeForkExec.v
Shell.v
Uring.v
BubbleSort.v
Numeric.v
Profile.v
Maths.v
ForkSum.v
Exercises.v
Arrays.v
Objects.v
Fifo.v
WellTyped.v
