(* ===== verification/Prelude.v ===== *)
(** * A verification library for the C sources of SystemProgramming

    The repository is a collection of Linux system programs in C (and a little C++):
    data structures, sorting, threads, file input and output in all its forms, epoll
    servers, sockets, signals, pipes and processes. This library models every program of it
    (more than four fifths of the lines of its C and C++ files; the others are comments,
    includes and declarations), and proves what each program is for.

    ** How code is modelled

    Code over C memory is written in the state-and-error monad [M] of this file.
    [UB] is undefined behaviour with its reason, [Throw] a C++ exception, [NoFuel] a
    loop that has run out of fuel: the theorems say that neither happens. [int] is
    [Z] with a check of its range ([int_val]), unsigned types wrap ([u32], [u64]).
    A local variable or field that is not initialised is [Indet], and using it is
    [UB Uninit]; a character buffer is a list of such cells (Buffer.v).

    - Structures in memory (Cmem.v): objects are the entries of a [gmap] from
      addresses; freeing an object twice, or using it afterwards, is [UB].
    - Calls of the system (Sys.v): a program runs in [M trace], the trace being its
      calls so far with their replies. The replies are those of an arbitrary
      environment [env], of which only [legal_env] is assumed: each reply is one
      that the manual pages allow, where [posix_step] turns the manual pages into a
      partial function on the [world] (descriptors, files with their durable
      state, pipes, mappings, memory, streams, epoll registrations, contexts of Linux AIO
      with their requests, and what was printed, received and sent). Short reads and writes, failures and
      interruptions are all among the legal replies. A call on a dead descriptor
      or a bad free is counted in [misuses]. [runs w0 m w Q] says that from [w] the
      program ends, without undefined behaviour, in a state where [Q] holds; its
      rules are the lemmas [runs_*], and [step]/[steps] apply them.
    - Threads (Threads.v): a step relation given by [move]; all interleavings, fair
      schedules, and exhaustive exploration by computation ([explore]).
    - Processes (Process.v): one program in a free monad; [fork] copies the history
      of a process; pipes with their open ends, end of file, blocking, [SIGPIPE].
    - Signals (Signals.v, FiveChildren.v): a set of pending signals, which does not
      count them, a mask that [fork] copies, handlers that run between two moves of
      the main flow.

    ** The parts

    Data structures and algorithms:
    - LinkedList.v: [11_algorithm/linked_list.c]; add, remove, iterate, over chains
      of nodes.
    - HashTable.v: [11_algorithm/hash_table.c]; [dictPut] and [dictGet] refine
      insertion into and lookup in a finite map.
    - BinHeap.v, TimeHeap.v: [09_epoll/time_heap.c]; the array code refines a heap
      by exchanges; tick, add, pop, delete, constructors and destructor.
    - TimeWheel.v: [09_epoll/time_wheel.c]; timers fire at their tick, once.
    - BubbleSort.v: [01_linux/bubble_sort.c]; equals a reference sort.
    - Numeric.v: [C/Lecture02/primes.c] prints exactly the primes, [test.c] reverses;
      [C/GProf], the [int] half of [13_profiling] and sums of squares in closed
      form, without overflow.
    - Profile.v: the whole of [13_profiling/main.c], whose [float] sum drifts by 12 percent; Maths.v:
      [C/Lecture01/change.c] and [mol.c]. Floating-point numbers are those of the standard
      library ([SpecFloat]); many additions of the same number are computed binade by binade
      ([add_fast], which equals the additions one by one).
    - ForkSum.v: [03_process/multi-process.cpp] as one process runs it; the children
      compute those sums, and the parent prints 0.
    - Exercises.v: byte order, function pointers, [calloc.c] and global variables; Arrays.v: the
      exercises of [C] on arrays, addresses and several files; Objects.v: [struct.c] and the C++
      object behind a C interface ([C/CppForC]).

    Threads:
    - Mutex.v: [06_mutex/pthread_mutex.c]; no increment is lost.
    - Semaphore.v: [06_mutex/semaphone.c]; the bounded buffer is first in, first
      out, without deadlock, and no item waits for ever under a fair scheduler.
    - ThreadDemos.v: [04_thread/pthread.c] and [03_process/multi-thread.cpp]; each
      thread prints its line once, in any order or in the order of the joins.
    - GlibcAio.v: [09_epoll/glibc_aio.c]; a request completes at any time, and its handler runs
      in a thread or interrupts [main]: the two programs of the file, which end, or wait
      for ever, or print freed memory or a buffer without NUL, according to when that is.

    Signals ([07_signal]):
    - FiveChildren.v: [five_children.c]; children, signals and handler interleave,
      signals get lost, and the theorems say exactly when the parent ends.
    - Signals.v: the other six programs; masks, timers, handlers.

    Files ([12_aio] and [02_file_io]):
    - StandardIO.v, BufferedIO.v (with SysStdio.v and Format.v for streams and
      conversions), Sendfile.v, Splice.v, PageCache.v, EpollFiles.v (with
      SysEpoll.v), LibAio.v ([libaio_demo.c]), Uring.v ([io_uring_1.c]; the replies of liburing are parameters),
      Cat.v ([open.c]), DirectIO.v; Mmap.v ([05_ipc/mmap]) and
      NonBlocking.v ([05_ipc/pipe/non_blocking.c] and its copy [non_blocking.cpp]);
      PipeDemos.v ([basic_io.cpp], [main.c] and [popen_test.c] of [05_ipc/pipe]); TeeDemo.v
      ([09_epoll/tee.c]); Fifo.v ([fifo_read.cpp], [fifo_write.cpp] and [05_ipc/mmap/mmap_test.c]).

    Servers and clients ([09_epoll], with SysSock.v):
    - EpollServer.v: the loop over events and the invariant [serving] that the
      servers share; EpollEt.v ([02_epoll_et.c]), EpollEcho.v
      ([do_two_thing_epoll.c]), EpollHup.v ([epollhup.c]), TcpUdp.v ([tcp_udp.c]);
      EpollListen.v ([01_epoll.c]); Unblocking.v ([unblocking.c]); TwoPhase.v ([2pc.c]).

    Sockets ([08_socket] and [10_project], with SockLib.v for what they share:
    addresses, [toupper] on buffers, [fgets] from the keyboard, and the facts about
    reads and writes that theorems assume):
    - UpperServer.v ([server.c]) and UpperClient.v ([client.c]), and their session;
      UpperFork.v ([multiprocess.c]) as one process runs it, [fork] being a call that
      returns 0 or not; UpperThreads.v ([multithread.c]), the accepting thread and the
      work of one thread; the call [pthread_create] carries the index and the content of the
      entry that the thread gets.
    - TcpDemos.v ([01] to [04] and [09]), UdpDemos.v ([05] and [06]), UnixDemos.v
      ([07] and [08]), the last two with the exchange of both programs.
    - The parties of a session run in worlds of their own. That a channel is
      reliable is a relation between what one logs as sent and the other as received.
    - The address of a client is the pair [r_fds] of the reply to [accept]. [live_env]
      is an environment in which sockets, reads and writes succeed; the witnesses
      run in it.

    Programs on Sys.v: WellTyped.v checks the arguments of the [printf] family against the
    formats, by rules that follow the syntax of the programs. The arguments carry their C type
    ([arg] of Format.v: [AInt] an [int], [ANum t] another integer type or a pointer), so that
    [%d], [%ld], [%zu] and [%p] are told apart.

    Processes and pipes:
    - TwoPipe.v ([05_ipc/pipe/two_pipe.c]), PipeForkExec.v
      ([05_ipc/pipe/pipe_fork_exec.c]), ForkDemos.v ([01_fork.c], [two_fork_in_if.c],
      [05_sigpipe_a.c] and [06_sigpipe_b.c] of [03_process], and
      [05_ipc/pipe/pipe_test.cpp]).
    - Shell.v ([10_project/myshell.c]): [cat file | wc -l]; the commands are
      parameters of the shell, and its theorem runs it with [cat] and [wc] as their
      manual pages describe them. A file that a process reads is opened with its
      content, as a pipe that nobody writes to.

    A definition has the name of the C function it translates; the body of a loop is
    a definition of its own, with a name that says so ([read_body], [serve]).
    Coq names that C does not have: [ctl] and [loop] for [while] with [break] and
    [return], [rounds n] for the first [n] rounds of a loop without end.

    ** What is shown

    Every modelled program ends (or does any number of rounds), without undefined
    behaviour, under hypotheses that are stated where they are needed: sizes that
    fit a buffer, a file that exists. The loop of [splice_chunked] need not end, for after
    a short [splice] out of the pipe it spins: it is cut after [n] rounds too. On top of that:
    - what success means: data durable, copied, printed, sent back, in full;
    - what failure leaves behind: descriptors, memory and streams are released on
      every path, or the theorem says what is not;
    - refinement of an abstract structure (finite map, heap, list, reference sort);
    - for concurrent programs, all interleavings;
    - where the code is wrong, a theorem with the fault: an overflow, a deadlock,
      data that is dropped. They are listed with the line of the code.

    ** Fuel and bounds

    A loop of the code takes fuel, and its theorem asks for fuel above a measure of
    the input: the bytes of the file, or the arrivals and signals that the world
    may still bring ([arrivals], [sigs]: finitely many, arbitrary). Endless loops
    are cut after [n] rounds, for every [n]. For processes the bound on the number
    of moves is part of the theorem.

    ** What is not modelled

    - The text of [errno], and the time: [sleep] does nothing, and a timeout is a
      reply like another.
    - [SIGPIPE] outside Process.v: a [send] to a closed peer fails.
    - Weak memory: the threads of Mutex.v and Semaphore.v synchronise all accesses.
    - Failures of [pthread_create] in Mutex.v and Semaphore.v.
    - A signal that interrupts a handler; the buffer of [stdout] that [fork] copies.
    - Drives: durable means that [fsync] has succeeded; what a write cache loses when the power
      fails ([docs/fsync_persistence.md]) is outside.
    - [printf] reaches the screen at once; its own failures are not modelled.
    - Named pipes and mappings without a file in Sys.v: Fifo.v takes the answers as arguments.
    - In Sys.v every call returns: one that would wait for ever fails instead. Waiting for ever is
      modelled where it is the point, in the step relations of the threads, processes and signals.
    - The declarations that no function uses ([client_data] of the timers), comments, headers
      and documents; three files of [03_process] that are empty.

    Five files do not compile as they are, and are modelled as they are meant, which each
    file of the model says: [libaio_demo.c] (with the structures of the kernel's header),
    [01_epoll.c] (the descriptor that is out of scope is an argument), [glibc_aio.c] (each
    of its two [main] by itself), [tee.c] (without the blanks in names), and
    [C/Lecture02/temp.c] (without its last statement). *)
From stdpp Require Export base list gmap strings numbers option sets sorting pretty.
From Stdlib Require Export Ascii ZifyNat.

#[global] Open Scope Z_scope.

#[global] Arguments Nat.mul : simpl never.
#[global] Arguments Nat.div : simpl never.

(** ** Undefined behaviour and results of C computations *)

Inductive ub :=
| NullDeref      (* a null pointer is dereferenced *)
| UseAfterFree   (* a pointer to a freed object is dereferenced *)
| OutOfBounds    (* an array is accessed outside its bounds *)
| Uninit         (* an indeterminate value is used *)
| BadType        (* an object is accessed with another type *)
| DivByZero      (* an integer is divided by zero *)
| IntOverflow.   (* a signed operation leaves the range of int *)

#[global] Instance ub_eq_dec : EqDecision ub.
Proof. solve_decision. Defined.

Inductive res (A : Type) :=
| Ok (a : A)
| Throw          (* a C++ exception leaves the function *)
| UB (u : ub)
| NoFuel.
Arguments Ok {A} a.
Arguments Throw {A}.
Arguments UB {A} u.
Arguments NoFuel {A}.

(** The state-and-error monad in which code over C memory is written. *)
Definition M (S A : Type) : Type := S → res (A * S).

#[global] Instance M_ret {S} : MRet (M S) := λ A a s, Ok (a, s).
#[global] Instance M_bind {S} : MBind (M S) := λ A B f m s,
  match m s with
  | Ok (a, s') => f a s'
  | Throw => Throw
  | UB u => UB u
  | NoFuel => NoFuel
  end.

Definition ub_fail {S A} (u : ub) : M S A := λ _, UB u.
Definition throw {S A} : M S A := λ _, Throw.
Definition no_fuel {S A} : M S A := λ _, NoFuel.
Definition get {S} : M S S := λ s, Ok (s, s).
Definition gets {S A} (f : S → A) : M S A := λ s, Ok (f s, s).
Definition modify {S} (f : S → S) : M S unit := λ s, Ok (tt, f s).

(** A C object or field that may still be indeterminate. *)
Inductive cell (A : Type) :=
| Indet
| Val (a : A).
Arguments Indet {A}.
Arguments Val {A} a.

#[global] Instance cell_fmap : FMap cell := λ A B f c,
  match c with Indet => Indet | Val a => Val (f a) end.

(** Using the value of a cell: undefined when it was never written. *)
Definition use {S A} (c : cell A) : M S A :=
  match c with Indet => ub_fail Uninit | Val a => mret a end.

Arguments use {S A} c : simpl never.

Lemma use_Val {S A} (a : A) (s : S) : use (Val a) s = Ok (a, s).
Proof. done. Qed.

Lemma bind_Ok {S A B} (m : M S A) (f : A → M S B) s a s' :
  m s = Ok (a, s') → (m ≫= f) s = f a s'.
Proof. intros H. unfold mbind, M_bind. by rewrite H. Qed.

(** ** Machine integers *)

Definition INT_MIN : Z := - 2 ^ 31.
Definition INT_MAX : Z := 2 ^ 31 - 1.
Definition int_ok (z : Z) : bool := bool_decide (INT_MIN ≤ z ≤ INT_MAX).
Definition u32 (z : Z) : Z := z `mod` 2 ^ 32.
Definition u64 (z : Z) : Z := z `mod` 2 ^ 64.

(** A signed [int] result: undefined when it does not fit. *)
Definition int_val {S} (z : Z) : M S Z :=
  if int_ok z then mret z else ub_fail IntOverflow.

(** ** Counting loops

    [for (int k = i; k < n; ++k) a = body(k, a)], for a bound that the body
    does not change, and its downward counterpart
    [for (int k = i; k >= 0; --k) a = body(k, a)]. *)
Fixpoint for_steps {S A} (steps : nat) (d i : Z) (body : Z → A → M S A) (a : A) : M S A :=
  match steps with
  | O => mret a
  | S steps => a ← body i a; for_steps steps d (i + d) body a
  end.
Definition for_up {S A} (i n : Z) (body : Z → A → M S A) (a : A) : M S A :=
  for_steps (Z.to_nat (n - i)) 1 i body a.
Definition for_down {S A} (i : Z) (body : Z → A → M S A) (a : A) : M S A :=
  for_steps (Z.to_nat (i + 1)) (-1) i body a.

(** ** Arrays indexed by [Z] *)

Definition zlookup {A} (l : list A) (i : Z) : option A :=
  if bool_decide (0 ≤ i) then l !! Z.to_nat i else None.
Definition zlen {A} (l : list A) : Z := Z.of_nat (length l).

(** Writing an array cell: [None] when the index is out of bounds. *)
Definition zupdate {A} (l : list A) (i : Z) (x : A) : option (list A) :=
  if bool_decide (0 ≤ i < zlen l) then Some (<[Z.to_nat i := x]> l) else None.

Definition bytes := list ascii.
Definition b (s : string) : bytes := String.list_ascii_of_string s.

Create HintDb cmem.
Create Rewrite HintDb cmem.

Lemma zlookup_Some {A} (l : list A) i x :
  zlookup l i = Some x ↔ 0 ≤ i ∧ l !! Z.to_nat i = Some x.
Proof. unfold zlookup. case_bool_decide; naive_solver. Qed.

Lemma zlookup_lt {A} (l : list A) i x : zlookup l i = Some x → 0 ≤ i < zlen l.
Proof.
  rewrite zlookup_Some. intros [H0 Hi]. apply lookup_lt_Some in Hi. unfold zlen. lia.
Qed.

Lemma zlookup_is_Some {A} (l : list A) i : is_Some (zlookup l i) ↔ 0 ≤ i < zlen l.
Proof.
  split.
  - intros [x Hx]. by eapply zlookup_lt.
  - intros [? ?]. destruct (lookup_lt_is_Some_2 l (Z.to_nat i)) as [x Hx].
    { unfold zlen in *. lia. }
    exists x. by apply zlookup_Some.
Qed.

Lemma zlen_nonneg {A} (l : list A) : 0 ≤ zlen l.
Proof. unfold zlen. lia. Qed.

Lemma zupdate_in {A} (l : list A) i x :
  0 ≤ i < zlen l → zupdate l i x = Some (<[Z.to_nat i := x]> l).
Proof. intros. unfold zupdate. by rewrite bool_decide_eq_true_2. Qed.

Lemma zlen_app {A} (l l' : list A) : zlen (l ++ l') = zlen l + zlen l'.
Proof. unfold zlen. rewrite length_app. lia. Qed.
Lemma seqZ_next z : 0 ≤ z → seqZ 0 (z + 1) = seqZ 0 z ++ [z].
Proof. intros Hz. by rewrite seqZ_app by lia. Qed.
Lemma zlen_one {A} (x : A) : zlen [x] = 1.
Proof. done. Qed.
Lemma zlookup_app_l {A} (l l' : list A) j : j < zlen l → zlookup (l ++ l') j = zlookup l j.
Proof.
  intros Hj. unfold zlookup at 1 2. unfold zlen in Hj. case_bool_decide; [|done]. apply lookup_app_l. lia.
Qed.
Lemma zlookup_snoc {A} (l : list A) x : zlookup (l ++ [x]) (zlen l) = Some x.
Proof.
  apply zlookup_Some. split; [apply zlen_nonneg|]. unfold zlen. rewrite Nat2Z.id.
  by apply list_lookup_middle.
Qed.

Lemma int_val_ok {S} z (s : S) : INT_MIN ≤ z ≤ INT_MAX → int_val z s = Ok (z, s).
Proof. intros. unfold int_val, int_ok. by rewrite bool_decide_eq_true_2. Qed.

#[export] Hint Resolve zlen_nonneg : cmem.

Lemma StronglySorted_mono {A} (R R' : A → A → Prop) l :
  (∀ x y, x ∈ l → y ∈ l → R x y → R' x y) → StronglySorted R l → StronglySorted R' l.
Proof.
  induction l as [|x l IH]; intros HR Hs; [constructor|].
  apply StronglySorted_inv in Hs as [Hs Hx]. constructor.
  - apply IH; [|done]. intros y z Hy Hz. apply HR; by right.
  - rewrite Forall_forall in Hx |- *. intros y Hy. apply HR; [by left|by right|]. by apply Hx.
Qed.

Lemma filter_ext_elem {A} (P Q : A → Prop) `{!∀ x, Decision (P x), !∀ x, Decision (Q x)} (l : list A) :
  (∀ x, x ∈ l → P x ↔ Q x) → filter P l = filter Q l.
Proof.
  induction l as [|x l IH]; intros HPQ; [done|]. rewrite !filter_cons.
  assert (P x ↔ Q x) by (apply HPQ; by left).
  rewrite IH by (intros y Hy; apply HPQ; by right). repeat case_decide; tauto.
Qed.

Lemma NoDup_filter_fmap {A B} (f : A → B) (P : A → Prop) `{!∀ x, Decision (P x)} (l : list A) :
  NoDup (f <$> l) → NoDup (f <$> filter P l).
Proof.
  induction l as [|x l IH]; [done|]. rewrite filter_cons, fmap_cons, NoDup_cons.
  intros [Hx Hl]. case_decide; [|by apply IH]. rewrite fmap_cons, NoDup_cons.
  split; [|by apply IH]. contradict Hx. apply list_elem_of_fmap in Hx as (y & -> & Hy).
  apply list_elem_of_filter in Hy as [_ Hy]. by apply list_elem_of_fmap_2.
Qed.

(** Invariant rules for the counting loops. *)
Section loops.
Context {S A : Type}.
Implicit Types (P : Z → A → S → Prop) (body : Z → A → M S A).

Lemma for_up_rule P i n body a s :
  i ≤ n → P i a s →
  (∀ k a s, i ≤ k < n → P k a s → ∃ a' s', body k a s = Ok (a', s') ∧ P (k + 1) a' s') →
  ∃ a' s', for_up i n body a s = Ok (a', s') ∧ P n a' s'.
Proof.
  intros Hi HP Hbody. unfold for_up. remember (Z.to_nat (n - i)) as m eqn:Hm.
  revert i a s Hi Hm HP Hbody. induction m as [|m IH]; intros i a s Hi Hm HP Hbody.
  - exists a, s. split; [done|]. by replace n with i by lia.
  - destruct (Hbody i a s) as (a1 & s1 & Hrun & HP1); [lia|done|].
    destruct (IH (i + 1) a1 s1) as (a2 & s2 & Hrun2 & HP2); [lia|lia|done| |].
    { intros k a0 s0 Hk. apply Hbody. lia. }
    exists a2, s2. split; [|done]. cbn. unfold mbind, M_bind. by rewrite Hrun.
Qed.

Lemma for_steps_add m1 m2 d i body a s :
  for_steps (m1 + m2) d i body a s =
    (a' ← for_steps m1 d i body a; for_steps m2 d (i + Z.of_nat m1 * d) body a') s.
Proof.
  revert i a s. induction m1 as [|m1 IH]; intros i a s; [by rewrite Z.add_0_r|].
  cbn [Nat.add for_steps]. unfold mbind, M_bind in *. destruct (body i a s) as [[a' s']| | |]; [|done..].
  rewrite IH. by replace (i + d + Z.of_nat m1 * d) with (i + Z.of_nat (Datatypes.S m1) * d) by lia.
Qed.

Lemma for_down_rule P i body a s :
  -1 ≤ i → P i a s →
  (∀ k a s, 0 ≤ k ≤ i → P k a s → ∃ a' s', body k a s = Ok (a', s') ∧ P (k - 1) a' s') →
  ∃ a' s', for_down i body a s = Ok (a', s') ∧ P (-1) a' s'.
Proof.
  intros Hi HP Hbody. unfold for_down. remember (Z.to_nat (i + 1)) as m eqn:Hm.
  revert i a s Hi Hm HP Hbody. induction m as [|m IH]; intros i a s Hi Hm HP Hbody.
  - exists a, s. split; [done|]. by replace (-1) with i by lia.
  - destruct (Hbody i a s) as (a1 & s1 & Hrun & HP1); [lia|done|].
    destruct (IH (i + -1) a1 s1) as (a2 & s2 & Hrun2 & HP2);
      [lia|lia|by replace (i + -1) with (i - 1) by lia| |].
    { intros k a0 s0 Hk. apply Hbody. lia. }
    exists a2, s2. split; [|done]. cbn. unfold mbind, M_bind. by rewrite Hrun.
Qed.
End loops.

Lemma take_S_insert {A} (l l' : list A) k x :
  l !! k = Some x → (k < length l')%nat →
  <[k := x]> (take k l ++ drop k l') = take (S k) l ++ drop (S k) l'.
Proof.
  intros Hl Hk. apply lookup_lt_Some in Hl as Hlt.
  rewrite insert_app_r_alt by (rewrite length_take; lia).
  rewrite length_take, Nat.min_l by lia. replace (k - k)%nat with O by lia.
  rewrite (take_S_r _ _ _ Hl), <- app_assoc. f_equal.
  destruct (lookup_lt_is_Some_2 l' k Hk) as [y Hy]. by rewrite (drop_S _ _ _ Hy).
Qed.

(** A loop that fills the first [n] cells of an array from [src]. *)
Lemma for_up_fill {S A} n (body : Z → list A → M S (list A)) src dst s :
  (n ≤ length src)%nat → (n ≤ length dst)%nat →
  (∀ k a, (k < n)%nat → length a = length dst →
     ∃ x, src !! k = Some x ∧ body (Z.of_nat k) a s = Ok (<[k := x]> a, s)) →
  for_up 0 (Z.of_nat n) body dst s = Ok (take n src ++ drop n dst, s).
Proof.
  intros Hsrc Hdst Hbody.
  destruct (for_up_rule
    (λ k a s', s' = s ∧ a = take (Z.to_nat k) src ++ drop (Z.to_nat k) dst)
    0 (Z.of_nat n) body dst s) as (a' & s' & -> & -> & ->); [lia|done| |by rewrite Nat2Z.id].
  intros k a s' Hk [-> ->]. destruct (Hbody (Z.to_nat k)
    (take (Z.to_nat k) src ++ drop (Z.to_nat k) dst)) as (x & Hx & Hrun); [lia| |].
  { rewrite length_app, length_take, length_drop. lia. }
  rewrite Z2Nat.id in Hrun by lia. eexists _, s. split; [done|]. split; [done|].
  rewrite (take_S_insert _ _ _ _ Hx) by lia. by replace (Z.to_nat (k + 1)) with (Datatypes.S (Z.to_nat k)) by lia.
Qed.

(** ** Tactics *)

(** [lia] on division and remainder by constants. *)
Ltac Zify.zify_post_hook ::= Z.to_euclidean_division_equations.

(** Turn the boolean tests of the code into propositions. *)
Ltac propify :=
  repeat match goal with
  | H : bool_decide _ = true |- _ => apply bool_decide_eq_true in H
  | H : bool_decide _ = false |- _ => apply bool_decide_eq_false in H
  | H : (_ <? _) = true |- _ => apply Z.ltb_lt in H
  | H : (_ <? _) = false |- _ => apply Z.ltb_ge in H
  | H : (_ <=? _) = true |- _ => apply Z.leb_le in H
  | H : (_ <=? _) = false |- _ => apply Z.leb_gt in H
  | H : (_ =? _) = true |- _ => apply Z.eqb_eq in H
  | H : (_ =? _) = false |- _ => apply Z.eqb_neq in H
  | H : (_ && _) = true |- _ => apply andb_true_iff in H; destruct H
  | H : (_ || _) = false |- _ => apply orb_false_iff in H; destruct H
  | H : negb _ = true |- _ => apply negb_true_iff in H
  | H : negb _ = false |- _ => apply negb_false_iff in H
  end.

(** Compute up to the next access to memory. *)
Ltac msimp := cbn; rewrite ?use_Val; cbn.

(** Expose the next operation of a computation in the memory monad. *)
Ltac mrun :=
  unfold mbind, M_bind, mret, M_ret, get, gets, modify, ub_fail, throw, no_fuel;
  msimp.
