(* ===== verification/Buffer.v ===== *)
(** * Character buffers: [char buffer[n]]

    A buffer is a list of cells, indeterminate until they are written; reading an
    indeterminate cell, or outside the buffer, is undefined behaviour. *)
From S2P Require Export Prelude.

Definition buffer := list (cell ascii).
Definition new_buffer (n : Z) : buffer := replicate (Z.to_nat n) Indet.

(** The buffer once a call has stored [data] at its start. *)
Definition fill (buf : buffer) (data : bytes) : buffer :=
  (Val <$> data) ++ drop (length data) buf.

(** [buffer[i] = c] *)
Definition put {S} (buf : buffer) (i : Z) (c : ascii) : M S buffer :=
  match zupdate buf i (Val c) with None => ub_fail OutOfBounds | Some buf => mret buf end.

(** The string in a buffer, as [%s] reads it: up to the first NUL. *)
Fixpoint c_str {S} (buf : buffer) : M S bytes :=
  match buf with
  | [] => ub_fail OutOfBounds
  | Indet :: _ => ub_fail Uninit
  | Val c :: buf =>
    if bool_decide (c = "000"%char) then mret [] else s ← c_str buf; mret (c :: s)
  end.

(** At most [n] characters, as [%.*s] reads them. *)
Fixpoint c_strn {S} (n : nat) (buf : buffer) : M S bytes :=
  match n, buf with
  | O, _ => mret []
  | _, [] => ub_fail OutOfBounds
  | _, Indet :: _ => ub_fail Uninit
  | S n, Val c :: buf =>
    if bool_decide (c = "000"%char) then mret [] else s ← c_strn n buf; mret (c :: s)
  end.

(** The first [n] bytes of a buffer, as [write] takes them. *)
Definition contents {S} (n : nat) (buf : buffer) : M S bytes :=
  if bool_decide (n ≤ length buf)%nat then mapM use (take n buf) else ub_fail OutOfBounds.

Arguments put : simpl never.
Arguments contents : simpl never.

(** ** Lemmas *)

(** A string without NUL is read back from a buffer as it was stored. *)
Lemma c_strn_fill {S} (d : bytes) buf (s : S) :
  "000"%char ∉ d → c_strn (length d) (fill buf d) s = Ok (d, s).
Proof.
  unfold fill. generalize (drop (length d) buf) as rest. induction d as [|c d IH]; intros rest Hd;
    [by destruct rest|].
  apply not_elem_of_cons in Hd as [Hc Hd]. cbn. rewrite bool_decide_eq_false_2 by congruence.
  unfold mbind, M_bind. rewrite IH by done. done.
Qed.

Lemma mapM_use {S} (d : bytes) (s : S) : mapM use (Val <$> d) s = Ok (d, s).
Proof.
  induction d as [|c d IH]; [done|]. rewrite fmap_cons. cbn [mapM].
  erewrite bind_Ok by apply use_Val. by erewrite bind_Ok by exact IH.
Qed.

Lemma contents_fill {S} (d : bytes) buf (s : S) :
  zlen d ≤ zlen buf → contents (length d) (fill buf d) s = Ok (d, s).
Proof.
  intros Hlen. unfold contents, fill. rewrite bool_decide_eq_true_2.
  - rewrite take_app_length' by (by rewrite length_fmap). apply mapM_use.
  - rewrite length_app, length_fmap. lia.
Qed.

Lemma length_fill (d : bytes) buf : zlen d ≤ zlen buf → zlen (fill buf d) = zlen buf.
Proof. unfold fill, zlen. rewrite length_app, length_fmap, length_drop. lia. Qed.

(** Storing [d] and then a NUL after it in a buffer that is large enough leaves a
    string that [%s] can read: [d] up to its first NUL. *)
Fixpoint upto_nul (d : bytes) : bytes :=
  match d with
  | [] => []
  | c :: d => if bool_decide (c = "000"%char) then [] else c :: upto_nul d
  end.

Lemma put_fill {S} (d : bytes) buf :
  zlen d < zlen buf →
  ∃ buf', (∀ s : S, put (fill buf d) (zlen d) "000"%char s = Ok (buf', s)) ∧
    zlen buf' = zlen buf ∧ ∀ s : S, c_str buf' s = Ok (upto_nul d, s).
Proof.
  intros Hlen. unfold put, fill.
  assert (zlen ((Val <$> d) ++ drop (length d) buf) = zlen buf) as Hl.
  { unfold zlen in *. rewrite length_app, length_fmap, length_drop. lia. }
  rewrite zupdate_in by (rewrite Hl; unfold zlen in *; lia). eexists. split; [done|]. split.
  { unfold zlen in *. by rewrite length_insert. }
  replace (Z.to_nat (zlen d)) with (length (Val <$> d : buffer) + 0)%nat
    by (rewrite length_fmap; unfold zlen; lia).
  rewrite insert_app_r. destruct (drop (length d) buf) as [|c rest] eqn:E.
  { apply (f_equal length) in E. rewrite length_drop in E. unfold zlen in Hlen. simpl in E. lia. }
  cbn [insert list_insert]. clear. intros s. induction d as [|x d IH]; cbn; [done|].
  case_bool_decide; [done|]. unfold mbind, M_bind. by rewrite IH.
Qed.

(** ** A buffer into which [d] was read and that was ended with a NUL *)

Lemma put_after {S} (d : bytes) buf c (s : S) :
  zlen d < zlen buf → put (fill buf d) (zlen d) c s = Ok (fill buf (d ++ [c]), s).
Proof.
  intros Hlen. unfold put, fill. rewrite zupdate_in.
  - replace (Z.to_nat (zlen d)) with (length (Val <$> d : buffer) + 0)%nat
      by (rewrite length_fmap; unfold zlen; lia).
    rewrite insert_app_r. destruct (drop (length d) buf) as [|x rest] eqn:E.
    { apply (f_equal length) in E. rewrite length_drop in E. unfold zlen in Hlen. simpl in E. lia. }
    rewrite fmap_app, length_app, <- app_assoc. simpl. do 4 f_equal.
    by rewrite <- drop_drop, E.
  - unfold zlen in *. rewrite length_app, length_fmap, length_drop. lia.
Qed.

Lemma c_str_terminated {S} (d : bytes) buf (s : S) :
  c_str (fill buf (d ++ ["000"%char])) s = Ok (upto_nul d, s).
Proof.
  unfold fill. generalize (drop (length (d ++ ["000"%char])) buf). intros rest.
  induction d as [|c d IH]; [done|]. cbn. case_bool_decide; [done|]. by erewrite bind_Ok by exact IH.
Qed.

(** The same for data that has a NUL of its own. *)
Lemma c_str_has_nul {S} (d : bytes) buf (s : S) :
  "000"%char ∈ d → c_str (fill buf d) s = Ok (upto_nul d, s).
Proof.
  unfold fill. generalize (drop (length d) buf). intros rest Hin.
  induction d as [|c d IH]; [by apply not_elem_of_nil in Hin|]. cbn.
  case_bool_decide; [done|]. apply elem_of_cons in Hin as [?|Hin]; [congruence|].
  by erewrite bind_Ok by exact (IH Hin).
Qed.

(** Data without NUL that fills the buffer is read beyond it. *)
Lemma c_str_full {S} (d : bytes) buf (s : S) :
  zlen d = zlen buf → "000"%char ∉ d → c_str (fill buf d) s = UB OutOfBounds.
Proof.
  intros Hlen. unfold fill. rewrite drop_ge by (unfold zlen in Hlen; lia). rewrite app_nil_r. clear Hlen.
  induction d as [|c d IH]; [done|]. intros [Hc Hn]%not_elem_of_cons. cbn.
  rewrite bool_decide_eq_false_2 by congruence. unfold mbind, M_bind. by rewrite IH.
Qed.

Lemma contents_terminated {S} (d : bytes) buf c (s : S) :
  contents (length d) (fill buf (d ++ [c])) s = Ok (d, s).
Proof.
  unfold contents, fill. rewrite fmap_app, <- app_assoc, bool_decide_eq_true_2.
  - rewrite take_app_length' by (by rewrite length_fmap). apply mapM_use.
  - rewrite length_app, length_fmap. lia.
Qed.

(** [memset(buf, '\0', n)] *)
Definition zeroed (n : Z) : buffer := replicate (Z.to_nat n) (Val "000"%char).

Lemma c_str_zeroed {S} n (d : bytes) (s : S) :
  zlen d < n → c_str (fill (zeroed n) d) s = Ok (upto_nul d, s).
Proof.
  intros Hd. unfold fill. assert (∃ k, drop (length d) (zeroed n) =
    replicate (Datatypes.S k) (Val "000"%char)) as [k ->].
  { unfold zeroed. rewrite drop_replicate. exists (Z.to_nat n - length d - 1)%nat.
    f_equal. unfold zlen in *. lia. }
  clear Hd. induction d as [|c d IH]; [done|]. rewrite fmap_cons. cbn [app c_str upto_nul].
  case_bool_decide; [done|]. by erewrite bind_Ok by exact IH.
Qed.
