(* ===== verification/Format.v ===== *)
(** * [printf] and [scanf] conversions

    The conversions that the programs use on files: [%d], [%s], [%63s], [%.2f]
    and [%f], on formats written as in the C source (with the escape for the
    newline). [format] is what [fprintf] writes, [scan] what [fscanf] makes of
    the input. A [float] is [m * 2 ^ e], exactly. *)
From S2P Require Export Prelude.

(** The integer types wider than [int], or not signed, that are printed, and the pointers;
    with what [size_t], [ssize_t] and [off_t] stand for on 64-bit Linux. *)
Inductive ctype := IUInt | ILong | IULong | ILLong | IULLong | IPtr.
#[global] Instance ctype_eq_dec : EqDecision ctype.
Proof. solve_decision. Defined.
Definition size_t : ctype := IULong.
Definition ssize_t : ctype := ILong.

(** Arguments of the [printf] family: [AInt] is an [int] (or of a smaller type, which becomes
    one), [ANum] another integer or a pointer, with its type. [AVal e n d] is the
    floating-point value [(double) n / d * e], which is only printed on the terminal. *)
Inductive arg :=
  AInt (z : Z) | ANum (t : ctype) (z : Z) | AStr (s : bytes) | AFloat (m e : Z) | AVal (e n d : Z).
#[global] Instance arg_eq_dec : EqDecision arg.
Proof. solve_decision. Defined.

Definition newline : ascii := "010"%char.

(** The characters of a C string literal. *)
Fixpoint unescape (s : bytes) : bytes :=
  match s with
  | [] => []
  | "\"%char :: "n"%char :: s => newline :: unescape s
  | c :: s => c :: unescape s
  end.
Definition lit (s : string) : bytes := unescape (b s).

(** ** Numbers *)

Definition digit (n : Z) : ascii := ascii_of_N (Z.to_N (48 + n)).
Definition digit_val (c : ascii) : option Z :=
  let n := Z.of_N (N_of_ascii c) - 48 in if (0 <=? n) && (n <=? 9) then Some n else None.

(** The digits of [n >= 0], at least one; [fuel] bounds their number. *)
Fixpoint digits_loop (fuel : nat) (n : Z) (acc : bytes) : bytes :=
  match fuel with
  | O => acc
  | S fuel =>
    let acc := digit (n `mod` 10) :: acc in
    if n / 10 =? 0 then acc else digits_loop fuel (n / 10) acc
  end.
Definition digits (n : Z) : bytes := digits_loop (S (Z.to_nat (Z.log2 n))) n [].

Definition show_int (z : Z) : bytes :=
  if z <? 0 then "-"%char :: digits (- z) else digits z.

(** [n / d] to the nearest integer, ties to even. *)
Definition round_div (n d : Z) : Z :=
  let q := n / d in
  let r := 2 * (n `mod` d) in
  if (r <? d) || ((r =? d) && Z.even q) then q else q + 1.

(** [m * 2 ^ e] in hundredths, as [%.2f] rounds it. *)
Definition hundredths (m e : Z) : Z :=
  if 0 <=? e then m * 2 ^ e * 100 else round_div (m * 100) (2 ^ (- e)).

(** The hundredths [h >= 0] with two decimals. *)
Definition show_hundredths (h : Z) : bytes :=
  digits (h / 100) ++ ["."%char; digit ((h / 10) `mod` 10); digit (h `mod` 10)].

Definition show_float2 (m e : Z) : bytes :=
  if m <? 0 then "-"%char :: show_hundredths (hundredths (- m) e)
  else show_hundredths (hundredths m e).

(** The [float] nearest to [n / d], for [n >= 0] and [d > 0]: 24 bits, ties to
    even. Subnormal and infinite values do not occur. *)
Definition nearest_float (n d : Z) : Z * Z :=
  if n =? 0 then (0, 0)
  else
    let e0 := Z.log2 n - Z.log2 d - 23 in
    let scaled e := if 0 <=? e then round_div n (d * 2 ^ e) else round_div (n * 2 ^ (- e)) d in
    let e := if scaled e0 <? 2 ^ 23 then e0 - 1 else e0 in
    (scaled e, e).

(** ** [fprintf] *)

Fixpoint format (fmt : bytes) (args : list arg) : bytes :=
  match fmt with
  | [] => []
  | "%"%char :: "d"%char :: fmt =>
    match args with AInt z :: args => show_int z ++ format fmt args | _ => [] end
  | "%"%char :: "s"%char :: fmt =>
    match args with AStr s :: args => s ++ format fmt args | _ => [] end
  | "%"%char :: "."%char :: "2"%char :: "f"%char :: fmt =>
    match args with AFloat m e :: args => show_float2 m e ++ format fmt args | _ => [] end
  | c :: fmt => c :: format fmt args
  end.

(** ** [fscanf] *)

Definition is_space (c : ascii) : bool :=
  bool_decide (c ∈ [" "%char; "009"%char; "010"%char; "011"%char; "012"%char; "013"%char]).

Fixpoint skip_space (s : bytes) : bytes :=
  match s with
  | c :: s' => if is_space c then skip_space s' else s
  | [] => []
  end.

(** The digits at the front of the input, their number and the value they continue. *)
Fixpoint take_digits (s : bytes) (count acc : Z) : Z * Z * bytes :=
  match s with
  | c :: s' =>
    match digit_val c with
    | Some d => take_digits s' (count + 1) (10 * acc + d)
    | None => (count, acc, s)
    end
  | [] => (count, acc, [])
  end.

Definition take_sign (s : bytes) : bool * bytes :=
  match s with
  | "-"%char :: s => (true, s)
  | "+"%char :: s => (false, s)
  | _ => (false, s)
  end.
Definition signed (neg : bool) (z : Z) : Z := if neg then - z else z.

(** A conversion gives the value, unless the input does not match, and what it
    leaves of the input. *)
Definition scan_int (s : bytes) : option arg * bytes :=
  let (neg, s) := take_sign (skip_space s) in
  let '(k, z, rest) := take_digits s 0 0 in
  (if k =? 0 then None else Some (AInt (signed neg z)), rest).

(** Decimal digits, optionally a point and more digits. *)
Definition scan_float (s : bytes) : option arg * bytes :=
  let (neg, s) := take_sign (skip_space s) in
  let '(k, z, rest) := take_digits s 0 0 in
  let '(k', z', rest) :=
    match rest with
    | "."%char :: rest => let '(k', z', rest) := take_digits rest 0 z in (k', z', rest)
    | _ => (0, z, rest)
    end in
  let (m, e) := nearest_float z' (10 ^ k') in
  (if k + k' =? 0 then None else Some (AFloat (signed neg m) e), rest).

Fixpoint take_word (n : nat) (s : bytes) : bytes * bytes :=
  match n, s with
  | S n, c :: s' => if is_space c then ([], s) else let (w, r) := take_word n s' in (c :: w, r)
  | _, _ => ([], s)
  end.
Definition scan_word (n : nat) (s : bytes) : option arg * bytes :=
  let (w, r) := take_word n (skip_space s) in
  (match w with [] => None | _ => Some (AStr w) end, r).

(** The values assigned before the input fails to match, and what is left of it.
    White space in the format skips any white space; a character matches itself. *)
Fixpoint scan (fmt : bytes) (s : bytes) : list arg * bytes :=
  let conv (x : option arg * bytes) (k : bytes → list arg * bytes) :=
    match x with
    | (None, s) => ([], s)
    | (Some v, s) => let (vs, s) := k s in (v :: vs, s)
    end in
  match fmt with
  | [] => ([], s)
  | "%"%char :: "d"%char :: fmt => conv (scan_int s) (scan fmt)
  | "%"%char :: "f"%char :: fmt => conv (scan_float s) (scan fmt)
  | "%"%char :: "6"%char :: "3"%char :: "s"%char :: fmt => conv (scan_word 63 s) (scan fmt)
  | c :: fmt =>
    if is_space c then scan fmt (skip_space s)
    else
      match s with
      | c' :: s' => if bool_decide (c = c') then scan fmt s' else ([], s)
      | [] => ([], [])
      end
  end.

Example format_ex : format (lit "Float: %.2f\n") [AFloat 13176784 (-22)] = lit "Float: 3.14\n".
Proof. vm_compute. reflexivity. Qed.
Example nearest_ex : nearest_float 314 100 = (13170115, -22).
Proof. vm_compute. reflexivity. Qed.
Example scan_ex : scan (lit "Float: %f\n") (lit "Float: 3.14\nString") = ([AFloat 13170115 (-22)], b "String").
Proof. vm_compute. reflexivity. Qed.

(** ** What is printed is read back *)

Definition value (ds : list Z) (acc : Z) : Z := foldl (λ a d, 10 * a + d) acc ds.

(** The input does not go on with a digit. *)
Definition no_digit (s : bytes) : Prop :=
  match s with [] => True | c :: _ => digit_val c = None end.

Lemma digit_val_digit d : 0 ≤ d ≤ 9 → digit_val (digit d) = Some d.
Proof.
  intros Hd. assert (d ∈ seqZ 0 10) as Hin by (apply elem_of_seqZ; lia).
  clear Hd. revert d Hin. apply Forall_forall. by repeat constructor.
Qed.

Lemma take_digits_app ds rest count acc :
  Forall (λ d, 0 ≤ d ≤ 9) ds → no_digit rest →
  take_digits ((digit <$> ds) ++ rest) count acc = (count + zlen ds, value ds acc, rest).
Proof.
  intros Hds Hrest. revert count acc. induction Hds as [|d ds Hd _ IH]; intros count acc.
  - rewrite Z.add_0_r. destruct rest as [|c rest]; [done|]. simpl in *. by rewrite Hrest.
  - rewrite fmap_cons. cbn [app take_digits]. rewrite digit_val_digit by done.
    rewrite IH. by replace (count + 1 + zlen ds) with (count + zlen (d :: ds))
      by (unfold zlen; simpl; lia).
Qed.

Lemma value_snoc ds d acc : value (ds ++ [d]) acc = 10 * value ds acc + d.
Proof. unfold value. by rewrite foldl_app. Qed.

Lemma digits_loop_value fuel n acc :
  0 ≤ n < 10 ^ Z.of_nat fuel → (0 < fuel)%nat →
  ∃ ds, digits_loop fuel n acc = (digit <$> ds) ++ acc ∧ ds ≠ [] ∧
    Forall (λ d, 0 ≤ d ≤ 9) ds ∧ value ds 0 = n.
Proof.
  revert n acc. induction fuel as [|fuel IH]; intros n acc Hn Hf; [lia|].
  cbn [digits_loop]. destruct (Z.eqb_spec (n / 10) 0) as [H0|H0].
  - exists [n `mod` 10]. split_and!; [done|done|rewrite Forall_singleton; lia|]. simpl. lia.
  - assert (0 < fuel)%nat as Hf'.
    { destruct fuel; [|lia]. change (10 ^ Z.of_nat 1) with 10 in Hn. lia. }
    rewrite Nat2Z.inj_succ, Z.pow_succ_r in Hn by lia.
    destruct (IH (n / 10) (digit (n `mod` 10) :: acc)) as (ds & -> & Hne & Hds & Hv); [lia|done|].
    exists (ds ++ [n `mod` 10]). rewrite fmap_app, <- app_assoc. split_and!; [done|by destruct ds| |].
    + apply Forall_app. split; [done|]. rewrite Forall_singleton. lia.
    + rewrite value_snoc, Hv. lia.
Qed.

Lemma digits_value n :
  0 ≤ n → ∃ ds, digits n = digit <$> ds ∧ ds ≠ [] ∧ Forall (λ d, 0 ≤ d ≤ 9) ds ∧ value ds 0 = n.
Proof.
  intros Hn. destruct (digits_loop_value (S (Z.to_nat (Z.log2 n))) n [])
    as (ds & Hds & ? & ? & ?); [split; [done|]|lia|exists ds; by rewrite app_nil_r in Hds].
  destruct (Z.eqb_spec n 0) as [->|H0]; [done|].
  destruct (Z.log2_spec n) as [_ Hlog]; [lia|]. pose proof (Z.log2_nonneg n).
  eapply Z.lt_le_trans; [exact Hlog|]. rewrite Nat2Z.inj_succ, Z2Nat.id by done.
  apply Z.pow_le_mono_l. lia.
Qed.

Lemma digit_not_space d : 0 ≤ d ≤ 9 → is_space (digit d) = false ∧ digit d ≠ "-"%char ∧ digit d ≠ "+"%char.
Proof.
  intros Hd. assert (d ∈ seqZ 0 10) as Hin by (apply elem_of_seqZ; lia).
  clear Hd. revert d Hin. apply Forall_forall. by repeat constructor.
Qed.

(** At the front of a number there is no space and no sign but its own. *)
Lemma front_of_digits ds rest :
  ds ≠ [] → Forall (λ d, 0 ≤ d ≤ 9) ds →
  skip_space ((digit <$> ds) ++ rest) = (digit <$> ds) ++ rest ∧
  take_sign ((digit <$> ds) ++ rest) = (false, (digit <$> ds) ++ rest).
Proof.
  intros Hne Hds. destruct Hds as [|d ds Hd _]; [done|]. rewrite fmap_cons. simpl.
  destruct (digit_not_space d Hd) as (Hs & Hm & Hp). rewrite Hs. split; [done|].
  unfold take_sign. by destruct (digit d) as [[] [] [] [] [] [] [] []].
Qed.

Lemma scan_show_int z rest : no_digit rest → scan_int (show_int z ++ rest) = (Some (AInt z), rest).
Proof.
  intros Hrest. unfold scan_int, show_int.
  destruct (digits_value (Z.abs z)) as (ds & Hd & Hne & Hds & Hv); [lia|].
  destruct (front_of_digits ds rest Hne Hds) as [Hskip Hsign].
  assert (0 + zlen ds ≠ 0) as Hlen.
  { destruct ds; [done|]. unfold zlen. simpl. lia. }
  apply Z.eqb_neq in Hlen. destruct (Z.ltb_spec z 0) as [Hz|Hz].
  - replace (- z) with (Z.abs z) by lia. rewrite Hd. cbn [app skip_space].
    change (is_space "-") with false. cbn [take_sign].
    rewrite take_digits_app, Hlen, Hv by done. do 3 f_equal. simpl. lia.
  - replace z with (Z.abs z) at 1 by lia. rewrite Hd, Hskip, Hsign.
    rewrite take_digits_app, Hlen, Hv by done. do 3 f_equal. simpl. lia.
Qed.

(** A decimal with two places is read as the [float] nearest to it. *)
Lemma scan_show_hundredths h rest :
  0 ≤ h → no_digit rest →
  scan_float (show_hundredths h ++ rest) =
    (let (m, e) := nearest_float h 100 in Some (AFloat m e), rest).
Proof.
  intros Hh Hrest. unfold scan_float, show_hundredths.
  destruct (digits_value (h / 100)) as (ds & -> & Hne & Hds & Hv); [lia|].
  rewrite <- app_assoc. destruct (front_of_digits ds
    ([("."%char : ascii); digit ((h / 10) `mod` 10); digit (h `mod` 10)] ++ rest) Hne Hds)
    as [-> ->].
  rewrite take_digits_app by done. rewrite Hv. cbn [app].
  change (digit ((h / 10) `mod` 10) :: digit (h `mod` 10) :: rest)
    with ((digit <$> [(h / 10) `mod` 10; h `mod` 10]) ++ rest).
  rewrite take_digits_app; [|repeat constructor; lia|done].
  assert (value [(h / 10) `mod` 10; h `mod` 10] (h / 100) = h) as -> by (unfold value; simpl; lia).
  change (10 ^ (0 + zlen [_; _])) with 100. destruct (nearest_float h 100) as [m e].
  rewrite (proj2 (Z.eqb_neq _ _)); [done|]. pose proof (zlen_nonneg ds). unfold zlen in *. simpl. lia.
Qed.

Lemma scan_word_app n (w rest : bytes) :
  w ≠ [] → (length w ≤ n)%nat → Forall (λ c, is_space c = false) w →
  match rest with [] => True | c :: _ => is_space c = true end →
  scan_word n (w ++ rest) = (Some (AStr w), rest).
Proof.
  intros Hne Hlen Hw Hrest. unfold scan_word.
  assert (skip_space (w ++ rest) = w ++ rest) as ->.
  { destruct Hw as [|c w Hc _]; [done|]. simpl. by rewrite Hc. }
  assert (take_word n (w ++ rest) = (w, rest)) as ->; [|by destruct w].
  clear Hne. revert n Hlen. induction Hw as [|c w Hc _ IH]; intros n Hlen.
  - simpl. destruct n, rest; try done. simpl in *. by rewrite Hrest.
  - destruct n as [|n]; simpl in *; [lia|]. rewrite Hc, IH by lia. done.
Qed.
