(* ===== verification/Cmem.v ===== *)
(** * Memory of C objects

    Heap cells addressed by pointers, the operations through which the data
    structures of [11_algorithm/] and [09_epoll/time_*.c] reach them, and the
    interfaces they rely on: where a component keeps its heap ([HasHeap]) and
    what the allocator promises ([Allocator]). *)
From S2P Require Export Prelude.

Definition loc := positive.
(** A C pointer: [None] is [NULL]. *)
Abbreviation ptr := (option loc).

(** A state [S] that contains a heap of objects [O]. *)
Class HasHeap (S O : Type) := {
  heap_of : S → gmap loc O;
  set_heap : gmap loc O → S → S;
  heap_of_set_heap h s : heap_of (set_heap h s) = h;
  set_heap_set_heap h h' s : set_heap h (set_heap h' s) = set_heap h s;
  set_heap_heap_of s : set_heap (heap_of s) s = s;
}.

(** The C library's allocator: the address it picks for a new object among the
    addresses that are not in use, [None] when it has no memory left, and
    whether there is room for an array of so many pointers. *)
Class Allocator := {
  pick : gset loc → option loc;
  room : Z → bool;
  pick_fresh X l : pick X = Some l → l ∉ X;
}.

Section ops.
Context {S O : Type} {hh : HasHeap S O}.

(** [*p] *)
Definition load (p : ptr) : M S O := λ s,
  match p with
  | None => UB NullDeref
  | Some l =>
    match heap_of s !! l with
    | None => UB UseAfterFree
    | Some o => Ok (o, s)
    end
  end.

(** [*p = o] *)
Definition store (p : ptr) (o : O) : M S unit := λ s,
  match p with
  | None => UB NullDeref
  | Some l =>
    match heap_of s !! l with
    | None => UB UseAfterFree
    | Some _ => Ok (tt, set_heap (<[l := o]> (heap_of s)) s)
    end
  end.

(** [free(p)] and [delete p]: freeing [NULL] does nothing. *)
Definition free (p : ptr) : M S unit := λ s,
  match p with
  | None => Ok (tt, s)
  | Some l =>
    match heap_of s !! l with
    | None => UB UseAfterFree
    | Some _ => Ok (tt, set_heap (delete l (heap_of s)) s)
    end
  end.

Context {alc : Allocator}.

(** [malloc]: [NULL] when there is no memory; [o] is the content the new
    object starts with. *)
Definition malloc (o : O) : M S ptr := λ s,
  match pick (dom (heap_of s)) with
  | None => Ok (None, s)
  | Some l => Ok (Some l, set_heap (<[l := o]> (heap_of s)) s)
  end.

(** [new]: throws [std::bad_alloc] when there is no memory. *)
Definition new (o : O) : M S loc := λ s,
  match pick (dom (heap_of s)) with
  | None => Throw
  | Some l => Ok (l, set_heap (<[l := o]> (heap_of s)) s)
  end.

Lemma load_ok s l o : heap_of s !! l = Some o → load (Some l) s = Ok (o, s).
Proof. intros H. unfold load. by rewrite H. Qed.

Lemma store_ok s l o o' :
  heap_of s !! l = Some o' →
  store (Some l) o s = Ok (tt, set_heap (<[l := o]> (heap_of s)) s).
Proof. intros H. unfold store. by rewrite H. Qed.

Lemma free_ok s l o :
  heap_of s !! l = Some o → free (Some l) s = Ok (tt, set_heap (delete l (heap_of s)) s).
Proof. intros H. unfold free. by rewrite H. Qed.

Lemma malloc_ok s o l :
  pick (dom (heap_of s)) = Some l →
  malloc o s = Ok (Some l, set_heap (<[l := o]> (heap_of s)) s).
Proof. intros H. unfold malloc. by rewrite H. Qed.

Lemma malloc_null s o : pick (dom (heap_of s)) = None → malloc o s = Ok (None, s).
Proof. intros H. unfold malloc. by rewrite H. Qed.

Lemma new_ok s o l :
  pick (dom (heap_of s)) = Some l →
  new o s = Ok (l, set_heap (<[l := o]> (heap_of s)) s).
Proof. intros H. unfold new. by rewrite H. Qed.

Lemma pick_None s l : pick (dom (heap_of s)) = Some l → heap_of s !! l = None.
Proof. intros H%pick_fresh. by apply not_elem_of_dom. Qed.
End ops.

Arguments load : simpl never.
Arguments store : simpl never.
Arguments free : simpl never.
Arguments malloc : simpl never.
Arguments new : simpl never.

(** An allocator with unbounded memory, for executing the models. *)
Definition bump_allocator : Allocator.
Proof.
  refine {| pick := λ X, Some (fresh X); room := λ _, true |}.
  intros X l [= <-]. apply is_fresh.
Defined.

(** A small memory with [n] addresses. *)
Definition small_allocator (n : nat) : Allocator.
Proof.
  refine {| pick := λ X, let l := fresh X in
             if bool_decide (Pos.to_nat l ≤ n)%nat then Some l else None;
             room := λ k, bool_decide (k ≤ Z.of_nat n) |}.
  intros X l H. simpl in H. case_bool_decide; [|done].
  injection H as <-. apply is_fresh.
Defined.

#[export] Hint Rewrite @heap_of_set_heap @set_heap_set_heap @set_heap_heap_of : cmem.

(** Run one heap access whose cell is known. *)
Ltac mstep :=
  mrun;
  first
    [ erewrite load_ok by (autorewrite with cmem; cbn; first [eassumption | simplify_map_eq; done])
    | erewrite store_ok by (autorewrite with cmem; cbn; first [eassumption | simplify_map_eq; done])
    | erewrite free_ok by (autorewrite with cmem; cbn; first [eassumption | simplify_map_eq; done])
    | erewrite malloc_ok by (autorewrite with cmem; eassumption)
    | erewrite new_ok by (autorewrite with cmem; eassumption) ];
  autorewrite with cmem; msimp.
