(* ===== verification/LinkedList.v ===== *)
(** * [11_algorithm/linked_list.c]: a singly linked list with a tail pointer *)
From S2P Require Export Cmem.

Record ListNode := mkNode { next : cell ptr; value : cell Z }.
Record List_ := mkList { head : cell ptr; tail : cell ptr; len : cell Z }.

(** The heap holds list nodes and list headers; [out] collects what
    [iterate_list] prints. *)
Inductive obj := ONode (n : ListNode) | OList (l : List_).
Record state := mkState { objs : gmap loc obj; out : list Z }.

#[export] Program Instance state_heap : HasHeap state obj := {|
  heap_of := objs;
  set_heap h s := mkState h (out s);
|}.
Solve Obligations with by intros; try destruct s.

Section code.
Context {alc : Allocator}.

Definition load_node (p : ptr) : M state ListNode :=
  o ← load p; match o with ONode n => mret n | _ => ub_fail BadType end.
Definition load_list (p : ptr) : M state List_ :=
  o ← load p; match o with OList l => mret l | _ => ub_fail BadType end.

(** [p->next = q], [p->value = v] *)
Definition set_next (p q : ptr) : M state unit :=
  n ← load_node p; store p (ONode (mkNode (Val q) (value n))).
Definition set_value (p : ptr) (v : Z) : M state unit :=
  n ← load_node p; store p (ONode (mkNode (next n) (Val v))).
(** [list->head = q], [list->tail = q], [list->len = f(list->len)] *)
Definition set_head (p q : ptr) : M state unit :=
  l ← load_list p; store p (OList (mkList (Val q) (tail l) (len l))).
Definition set_tail (p q : ptr) : M state unit :=
  l ← load_list p; store p (OList (mkList (head l) (Val q) (len l))).
(** [len] is unsigned: an indeterminate value stays indeterminate. *)
Definition upd_len (f : Z → Z) (p : ptr) : M state unit :=
  l ← load_list p; store p (OList (mkList (head l) (tail l) (f <$> len l))).

Definition add_node (v : Z) (list : ptr) : M state unit :=
  node ← malloc (ONode (mkNode Indet Indet));
  set_next node None;;
  set_value node v;;
  l ← load_list list;
  t ← use (tail l);
  (if bool_decide (t = None)
   then set_head list node;; set_tail list node
   else set_next t node;; set_tail list node);;
  upd_len (λ n, u32 (n + 1)) list.

(** The [while (cursor)] loop of [remove_node]. *)
Fixpoint remove_loop (fuel : nat) (v : Z) (list cursor prev : ptr) : M state unit :=
  match fuel with
  | O => no_fuel
  | S fuel =>
    if bool_decide (cursor = None) then mret tt
    else
      c ← load_node cursor;
      cv ← use (value c);
      if bool_decide (cv = v) then
        cn ← use (next c);
        (if bool_decide (prev ≠ None) then set_next prev cn else set_head list cn);;
        l ← load_list list;
        t ← use (tail l);
        (if bool_decide (t = cursor) then set_tail list prev else mret tt);;
        upd_len (λ n, u32 (n - 1)) list
      else
        cn ← use (next c);
        remove_loop fuel v list cn cursor
  end.

Definition remove_node (fuel : nat) (v : Z) (list : ptr) : M state unit :=
  if bool_decide (list = None) then mret tt
  else
    l ← load_list list;
    cursor ← use (head l);
    remove_loop fuel v list cursor None.

Definition print_value (v : Z) : M state unit :=
  modify (λ s, mkState (objs s) (out s ++ [v])).

Fixpoint iterate_loop (fuel : nat) (cursor : ptr) : M state unit :=
  match fuel with
  | O => no_fuel
  | S fuel =>
    if bool_decide (cursor = None) then mret tt
    else
      c ← load_node cursor;
      cv ← use (value c);
      print_value cv;;
      cn ← use (next c);
      iterate_loop fuel cn
  end.

Definition iterate_list (fuel : nat) (list : ptr) : M state unit :=
  l ← load_list list;
  cursor ← use (head l);
  iterate_loop fuel cursor.

Definition main : M state Z :=
  list ← malloc (OList (mkList Indet Indet Indet));
  set_head list None;;
  set_tail list None;;
  add_node 101 list;;
  add_node 102 list;;
  add_node 103 list;;
  iterate_list 4 list;;
  remove_node 4 102 list;;
  iterate_list 3 list;;
  mret 0.
End code.

Arguments load_node : simpl never.
Arguments load_list : simpl never.
Arguments set_next : simpl never.
Arguments set_value : simpl never.
Arguments set_head : simpl never.
Arguments set_tail : simpl never.
Arguments upd_len : simpl never.

Example linked_list_main_runs :
  match main (alc := bump_allocator) (mkState ∅ []) with
  | Ok (r, s) => (r, out s) = (0, [101; 102; 103; 101; 103])
  | _ => False
  end.
Proof. vm_compute. reflexivity. Qed.

(** ** Representation *)

(** [seg h p cs q]: the nodes [cs] (address and value) are linked from [p] up
    to, and not including, [q]. *)
Fixpoint seg (h : gmap loc obj) (p : ptr) (cs : list (loc * Z)) (q : ptr) : Prop :=
  match cs with
  | [] => p = q
  | (l, v) :: cs =>
    p = Some l ∧ ∃ r, h !! l = Some (ONode (mkNode (Val r) (Val v))) ∧ seg h r cs q
  end.

Definition last_loc (cs : list (loc * Z)) : ptr := fst <$> last cs.

Definition len_ok (n : cell Z) (k : Z) : Prop := n = Indet ∨ n = Val (u32 k).

(** [p] is a [List] that holds the values [xs]; its [len] is their number
    (modulo [2^32]) or was never initialised. *)
Definition list_cells (h : gmap loc obj) (p : ptr) (cs : list (loc * Z)) : Prop :=
  ∃ l hd n, p = Some l ∧
    h !! l = Some (OList (mkList (Val hd) (Val (last_loc cs)) n)) ∧
    len_ok n (zlen cs) ∧ seg h hd cs None ∧ NoDup cs.*1.

Definition list_rep (h : gmap loc obj) (p : ptr) (xs : list Z) : Prop :=
  ∃ cs, list_cells h p cs ∧ cs.*2 = xs.

Lemma seg_app h p cs1 cs2 q :
  seg h p (cs1 ++ cs2) q ↔ ∃ r, seg h p cs1 r ∧ seg h r cs2 q.
Proof.
  revert p. induction cs1 as [|[l v] cs1 IH]; intros p; simpl.
  - naive_solver.
  - setoid_rewrite IH. naive_solver.
Qed.

Lemma seg_frame h h' p cs q :
  (∀ l, l ∈ cs.*1 → h' !! l = h !! l) → seg h p cs q → seg h' p cs q.
Proof.
  revert p. induction cs as [|[l v] cs IH]; intros p Hfr; simpl; [done|].
  intros (-> & r & Hl & Hs). split; [done|]. exists r. split.
  - rewrite Hfr; [done|]. set_solver.
  - apply IH; [|done]. intros l' Hl'. apply Hfr. set_solver.
Qed.

Lemma seg_node h p cs q l : seg h p cs q → l ∈ cs.*1 → ∃ n, h !! l = Some (ONode n).
Proof.
  revert p. induction cs as [|[l' v] cs IH]; intros p; simpl; [set_solver|].
  intros (-> & r & Hl & Hs). rewrite elem_of_cons. intros [->|Hin]; eauto.
Qed.

(** Redirecting the [next] field of the last node of a segment. *)
Lemma seg_set_last h h' p cs q q' t nt :
  last_loc cs = Some t → NoDup cs.*1 → seg h p cs q →
  h !! t = Some (ONode nt) →
  h' !! t = Some (ONode (mkNode (Val q') (value nt))) →
  (∀ l, l ∈ cs.*1 → l ≠ t → h' !! l = h !! l) →
  seg h' p cs q'.
Proof.
  unfold last_loc. intros (c & Hc & ->)%fmap_Some Hnd Hseg Ht Ht' Hfr.
  apply last_Some in Hc as (cs' & ->). destruct c as [t v]. simpl in *.
  apply seg_app in Hseg as (r & Hpre & -> & r' & Hn & ->). simplify_eq. simpl in *.
  apply seg_app. exists (Some t). split; [|split; [done|by exists q']].
  rewrite fmap_app in Hnd, Hfr. apply NoDup_app in Hnd as (_ & Hnd & _).
  eapply seg_frame; [|done]. intros l Hl. apply Hfr; [set_solver|].
  intros ->. apply (Hnd t Hl). set_solver.
Qed.

Lemma last_loc_snoc cs l v : last_loc (cs ++ [(l, v)]) = Some l.
Proof. unfold last_loc. by rewrite last_snoc. Qed.

Lemma last_loc_cons c cs : cs ≠ [] → last_loc (c :: cs) = last_loc cs.
Proof. unfold last_loc. rewrite last_cons. destruct (last cs) eqn:E; [done|].
  apply last_None in E. done. Qed.

Lemma last_loc_None cs : last_loc cs = None ↔ cs = [].
Proof. unfold last_loc. rewrite fmap_None, last_None. done. Qed.

Lemma last_loc_elem cs l : last_loc cs = Some l → l ∈ cs.*1.
Proof.
  unfold last_loc. intros (c & Hc & ->)%fmap_Some.
  apply last_Some in Hc as (cs' & ->). rewrite fmap_app. set_solver.
Qed.

Lemma last_loc_app cs1 cs2 :
  last_loc (cs1 ++ cs2) = match cs2 with [] => last_loc cs1 | _ => last_loc cs2 end.
Proof.
  unfold last_loc. rewrite last_app. destruct cs2 as [|c cs2]; [done|].
  destruct (last (c :: cs2)) eqn:E; [done|]. by apply last_None in E.
Qed.

Lemma last_loc_mid pre lx x post :
  NoDup (pre ++ (lx, x) :: post).*1 →
  last_loc (pre ++ (lx, x) :: post) = Some lx ↔ post = [].
Proof.
  intros Hnd. rewrite last_loc_app. destruct post as [|c post]; [done|].
  rewrite last_loc_cons by done. split; [|done]. intros Hin%last_loc_elem.
  rewrite fmap_app in Hnd. apply NoDup_app in Hnd as (_ & _ & Hnd).
  by apply NoDup_cons in Hnd as [??].
Qed.

Lemma seg_unlink_hd h hd pre lx x post :
  seg h hd (pre ++ (lx, x) :: post) None →
  ∃ r, h !! lx = Some (ONode (mkNode (Val r) (Val x))) ∧ seg h r post None ∧
       (last_loc pre = None → hd = Some lx).
Proof.
  intros (q & Hpre & -> & r & Hlx & Hpost)%seg_app. exists r. split_and!; [done..|].
  intros ->%last_loc_None. done.
Qed.

Lemma seg_unlink_last h hd pre lx x post t :
  seg h hd (pre ++ (lx, x) :: post) None →
  NoDup (pre ++ (lx, x) :: post).*1 →
  last_loc pre = Some t →
  ∃ nt, h !! t = Some (ONode nt) ∧ ∀ r h',
    h !! lx = Some (ONode (mkNode (Val r) (Val x))) →
    h' !! t = Some (ONode (mkNode (Val r) (value nt))) →
    (∀ l, l ∈ (pre ++ post).*1 → l ≠ t → h' !! l = h !! l) →
    seg h' hd (pre ++ post) None.
Proof.
  intros (q & Hpre & -> & r & Hlx & Hpost)%seg_app Hnd Et.
  pose proof (last_loc_elem _ _ Et) as Hin.
  destruct (seg_node _ _ _ _ _ Hpre Hin) as [nt Hnt].
  exists nt. split; [done|]. intros r' h' Hlx' Ht Hfr. simplify_eq.
  rewrite fmap_app in Hnd, Hfr. apply NoDup_app in Hnd as (Hnd & Hdisj & _).
  apply seg_app. exists r. split.
  - eapply seg_set_last; [done..|]. set_solver.
  - eapply seg_frame; [|done]. intros l Hl. apply Hfr; [set_solver|].
    intros ->. apply (Hdisj t); [done|]. set_solver.
Qed.

Lemma u32_succ k : u32 (u32 k + 1) = u32 (k + 1).
Proof. unfold u32. by rewrite Zplus_mod_idemp_l. Qed.
Lemma u32_pred k : u32 (u32 k - 1) = u32 (k - 1).
Proof. unfold u32. by rewrite Zminus_mod_idemp_l. Qed.

Lemma len_ok_succ n k : len_ok n k → len_ok ((λ n, u32 (n + 1)) <$> n) (k + 1).
Proof. intros [->| ->]; [by left|]. right. simpl. by rewrite u32_succ. Qed.
Lemma len_ok_pred n k : len_ok n k → len_ok ((λ n, u32 (n - 1)) <$> n) (k - 1).
Proof. intros [->| ->]; [by left|]. right. simpl. by rewrite u32_pred. Qed.

Lemma len_ok_unlink n pre (c : loc * Z) post :
  len_ok n (zlen (pre ++ c :: post)) → len_ok ((λ n, u32 (n - 1)) <$> n) (zlen (pre ++ post)).
Proof.
  intros Hn%len_ok_pred.
  replace (zlen (pre ++ post)) with (zlen (pre ++ c :: post) - 1); [done|].
  unfold zlen. rewrite !length_app. simpl. lia.
Qed.

Lemma NoDup_unlink (pre : list (loc * Z)) lx x post :
  NoDup (pre ++ (lx, x) :: post).*1 → NoDup (pre ++ post).*1.
Proof.
  rewrite !fmap_app, !NoDup_app, !fmap_cons, NoDup_cons. set_solver.
Qed.

(** ** Effect of the operations *)

Lemma set_next_ok s l q n :
  objs s !! l = Some (ONode n) →
  set_next (Some l) q s =
    Ok (tt, mkState (<[l := ONode (mkNode (Val q) (value n))]> (objs s)) (out s)).
Proof. intros H. unfold set_next, load_node. do 2 mstep. done. Qed.

Lemma set_value_ok s l v n :
  objs s !! l = Some (ONode n) →
  set_value (Some l) v s =
    Ok (tt, mkState (<[l := ONode (mkNode (next n) (Val v))]> (objs s)) (out s)).
Proof. intros H. unfold set_value, load_node. do 2 mstep. done. Qed.

Lemma set_head_ok s l q c :
  objs s !! l = Some (OList c) →
  set_head (Some l) q s =
    Ok (tt, mkState (<[l := OList (mkList (Val q) (tail c) (len c))]> (objs s)) (out s)).
Proof. intros H. unfold set_head, load_list. do 2 mstep. done. Qed.

Lemma set_tail_ok s l q c :
  objs s !! l = Some (OList c) →
  set_tail (Some l) q s =
    Ok (tt, mkState (<[l := OList (mkList (head c) (Val q) (len c))]> (objs s)) (out s)).
Proof. intros H. unfold set_tail, load_list. do 2 mstep. done. Qed.

Lemma upd_len_ok f s l c :
  objs s !! l = Some (OList c) →
  upd_len f (Some l) s =
    Ok (tt, mkState (<[l := OList (mkList (head c) (tail c) (f <$> len c))]> (objs s)) (out s)).
Proof. intros H. unfold upd_len, load_list. do 2 mstep. done. Qed.

Lemma load_list_ok s l c :
  objs s !! l = Some (OList c) → load_list (Some l) s = Ok (c, s).
Proof. intros H. unfold load_list. by mstep. Qed.

Lemma load_node_ok s l n :
  objs s !! l = Some (ONode n) → load_node (Some l) s = Ok (n, s).
Proof. intros H. unfold load_node. by mstep. Qed.

(** Run one access to a node or a header. *)
Ltac lstep :=
  mrun;
  first
    [ erewrite set_next_ok by (cbn; first [eassumption | simplify_map_eq; done])
    | erewrite set_value_ok by (cbn; first [eassumption | simplify_map_eq; done])
    | erewrite set_head_ok by (cbn; first [eassumption | simplify_map_eq; done])
    | erewrite set_tail_ok by (cbn; first [eassumption | simplify_map_eq; done])
    | erewrite upd_len_ok by (cbn; first [eassumption | simplify_map_eq; done])
    | erewrite load_list_ok by (cbn; first [eassumption | simplify_map_eq; done])
    | erewrite load_node_ok by (cbn; first [eassumption | simplify_map_eq; done]) ];
  msimp.

(** The last steps of an unlinking: the heap that results represents the list
    without the node. *)
Ltac unlink_frame :=
  cbn; first
    [ done
    | by simplify_map_eq
    | intros; rewrite !lookup_insert_ne by
        (first [congruence | intros ?; subst; contradiction]);
      done ].
Ltac finish_unlink :=
  eexists; split; [done|]; cbn; split_and!;
  [ eexists _, _, _; split_and!; [done| |eassumption| |eassumption]
  | done
  | rewrite !dom_insert_L;
    repeat match goal with H : _ !! _ = Some _ |- _ => apply elem_of_dom_2 in H end;
    set_solver ].

Section proofs.
Context {alc : Allocator}.

Lemma add_node_cells s p cs v l :
  list_cells (objs s) p cs → pick (dom (objs s)) = Some l →
  ∃ s', add_node v p s = Ok (tt, s') ∧ list_cells (objs s') p (cs ++ [(l, v)]) ∧
        out s' = out s ∧ dom (objs s') = {[l]} ∪ dom (objs s).
Proof.
  intros (lp & hd & n & -> & Hl & Hn & Hseg & Hnd) Hpick.
  pose proof (pick_fresh _ _ Hpick) as Hfresh. apply not_elem_of_dom in Hfresh.
  assert (l ≠ lp) by congruence.
  unfold add_node. mrun. erewrite malloc_ok by done. cbn.
  do 3 lstep. mrun. case_bool_decide as Ht.
  - apply last_loc_None in Ht as ->. simpl in Hseg. subst hd.
    do 3 lstep. eexists. split; [done|]. cbn. split_and!; [|done|].
    + exists lp, (Some l), ((λ n0 : Z, u32 (n0 + 1)) <$> n).
      split_and!; [done|by simplify_map_eq|by apply (len_ok_succ _ 0)| |].
      * split; [done|]. eexists. split; [|done]. by simplify_map_eq.
      * simpl. apply NoDup_singleton.
    + rewrite !dom_insert_L. apply elem_of_dom_2 in Hl. set_solver.
  - destruct (last_loc cs) as [t|] eqn:Et; [|done].
    pose proof (last_loc_elem _ _ Et) as Hin.
    destruct (seg_node _ _ _ _ _ Hseg Hin) as [nt Hnt].
    assert (t ≠ l ∧ t ≠ lp) as [??] by (split; congruence).
    do 3 lstep. eexists. split; [done|]. cbn. split_and!; [|done|].
    + exists lp, hd, ((λ n0 : Z, u32 (n0 + 1)) <$> n).
      split_and!; [done| | | |].
      * rewrite last_loc_snoc. by simplify_map_eq.
      * unfold zlen. rewrite length_app, Nat2Z.inj_add. by apply len_ok_succ.
      * apply seg_app. exists (Some l). split.
        -- eapply seg_set_last; [done..| |].
           { by simplify_map_eq. }
           intros l' Hl' ?. destruct (seg_node _ _ _ _ _ Hseg Hl') as [? ?].
           rewrite !lookup_insert_ne; congruence.
        -- split; [done|]. exists None. split; [|done]. by simplify_map_eq.
      * rewrite fmap_app. apply NoDup_app. split_and!; [done| |apply NoDup_singleton].
        intros l' Hl'. destruct (seg_node _ _ _ _ _ Hseg Hl') as [? ?]. set_solver.
    + rewrite !dom_insert_L. apply elem_of_dom_2 in Hl, Hnt. set_solver.
Qed.

(** Unlinking the node [(lx, x)] between [pre] and [post]. *)
Lemma remove_found s lp hd n pre lx x post fuel :
  objs s !! lp = Some (OList (mkList (Val hd) (Val (last_loc (pre ++ (lx, x) :: post))) n)) →
  len_ok n (zlen (pre ++ (lx, x) :: post)) →
  seg (objs s) hd (pre ++ (lx, x) :: post) None →
  NoDup (pre ++ (lx, x) :: post).*1 →
  ∃ s', remove_loop (S fuel) x (Some lp) (Some lx) (last_loc pre) s = Ok (tt, s') ∧
        list_cells (objs s') (Some lp) (pre ++ post) ∧ out s' = out s ∧
        dom (objs s') = dom (objs s).
Proof.
  intros Hl Hn Hseg Hnd.
  destruct (seg_unlink_hd _ _ _ _ _ _ Hseg) as (r & Hlx & Hpost & Hhd).
  assert (lx ≠ lp) by congruence.
  assert (Hlp : lp ∉ (pre ++ post).*1).
  { intros Hin. destruct (seg_node _ _ _ _ lp Hseg) as [? ?]; [|congruence].
    rewrite fmap_app in *. set_solver. }
  pose proof (len_ok_unlink _ _ _ _ Hn) as Hn'.
  pose proof (NoDup_unlink _ _ _ _ Hnd) as Hnd'.
  cbn [remove_loop]. rewrite bool_decide_eq_false_2 by done. lstep.
  rewrite bool_decide_eq_true_2 by done. mrun.
  destruct (last_loc pre) as [t|] eqn:Et.
  - destruct (seg_unlink_last _ _ _ _ _ _ _ Hseg Hnd Et) as (nt & Hnt & Hfin).
    rewrite bool_decide_eq_true_2 by done. assert (t ≠ lp) by congruence.
    do 2 lstep. case_bool_decide as Hlast.
    + apply last_loc_mid in Hlast as ->; [|done].
      do 2 lstep. finish_unlink; [|apply (Hfin r); unlink_frame].
      rewrite app_nil_r, Et. by simplify_map_eq.
    + rewrite last_loc_mid in Hlast by done. mrun. lstep.
      finish_unlink; [|apply (Hfin r); unlink_frame].
      rewrite !last_loc_app. destruct post; [done|].
      rewrite last_loc_cons by done. by simplify_map_eq.
  - apply last_loc_None in Et as ->. specialize (Hhd eq_refl). subst hd. cbn [app] in *.
    rewrite bool_decide_eq_false_2 by naive_solver.
    do 2 lstep. case_bool_decide as Hlast.
    + apply (last_loc_mid [] lx x post) in Hlast as ->; [|done].
      do 2 lstep. finish_unlink; [by simplify_map_eq|].
      eapply seg_frame; [|done]. unlink_frame.
    + rewrite (last_loc_mid [] lx x post) in Hlast by done. mrun. lstep.
      finish_unlink.
      * rewrite last_loc_cons by done. by simplify_map_eq.
      * eapply seg_frame; [|done]. unlink_frame.
Qed.

Lemma remove_loop_cells s lp hd n v pre suf fuel cursor :
  objs s !! lp = Some (OList (mkList (Val hd) (Val (last_loc (pre ++ suf))) n)) →
  len_ok n (zlen (pre ++ suf)) →
  seg (objs s) hd (pre ++ suf) None →
  seg (objs s) cursor suf None →
  NoDup (pre ++ suf).*1 →
  v ∉ pre.*2 →
  (length suf < fuel)%nat →
  ∃ s' pre' suf', remove_loop fuel v (Some lp) cursor (last_loc pre) s = Ok (tt, s') ∧
        list_cells (objs s') (Some lp) (pre' ++ suf') ∧ out s' = out s ∧
        dom (objs s') = dom (objs s) ∧ (v ∉ pre'.*2) ∧
        ((pre' ++ suf' = pre ++ suf ∧ suf' = []) ∨
         (∃ lx, pre ++ suf = pre' ++ (lx, v) :: suf')).
Proof.
  intros Hl Hn Hseg. revert pre fuel cursor Hl Hn Hseg.
  induction suf as [|[lx x] suf IH]; intros pre fuel cursor Hl Hn Hseg Hcur Hnd Hv Hfuel;
    (destruct fuel as [|fuel]; [simpl in Hfuel; lia|]); cbn in Hcur.
  - subst cursor. exists s, pre, []. split_and!; try done; [|by left].
    exists lp, hd, n. done.
  - destruct Hcur as (-> & r & Hx & Hr).
    destruct (decide (x = v)) as [->|Hne].
    + destruct (remove_found s lp hd n pre lx v suf fuel) as (s' & ? & ? & ? & ?); [done..|].
      exists s', pre, suf. split_and!; try done. right. by exists lx.
    + cbn [remove_loop]. rewrite bool_decide_eq_false_2 by done.
      lstep. rewrite bool_decide_eq_false_2 by done. mrun.
      replace (Some lx) with (last_loc (pre ++ [(lx, x)])) by apply last_loc_snoc.
      replace (pre ++ (lx, x) :: suf) with ((pre ++ [(lx, x)]) ++ suf) in *
        by by rewrite <- app_assoc.
      apply IH; try done; [|simpl in Hfuel; lia].
      rewrite fmap_app. set_solver.
Qed.

Lemma iterate_loop_cells s cs p fuel :
  seg (objs s) p cs None → (length cs < fuel)%nat →
  iterate_loop fuel p s = Ok (tt, mkState (objs s) (out s ++ cs.*2)).
Proof.
  revert s p fuel. induction cs as [|[l v] cs IH]; intros s p fuel Hseg Hfuel;
    (destruct fuel as [|fuel]; [simpl in Hfuel; lia|]); cbn in Hseg.
  - subst p. cbn. rewrite app_nil_r. by destruct s.
  - destruct Hseg as (-> & r & Hl & Hr). cbn [iterate_loop].
    rewrite bool_decide_eq_false_2 by done. lstep. unfold print_value. mrun.
    rewrite IH by (simpl in Hfuel; try done; lia). cbn.
    by rewrite <- app_assoc.
Qed.
End proofs.

(** ** The contract of the list *)

(** On a well-formed list, [add_node] appends its value at the end, keeps
    the list well formed (the tail pointer and the length included) and
    allocates exactly one object; it never fails as long as the allocator
    returns memory. *)
Lemma add_node_appends {alc : Allocator} s p xs v l :
  list_rep (objs s) p xs → pick (dom (objs s)) = Some l →
  ∃ s', add_node v p s = Ok (tt, s') ∧ list_rep (objs s') p (xs ++ [v]) ∧
        out s' = out s ∧ dom (objs s') = {[l]} ∪ dom (objs s).
Proof.
  intros (cs & Hcs & <-) Hl.
  destruct (add_node_cells s p cs v l Hcs Hl) as (s' & ? & ? & ? & ?).
  exists s'. split_and!; try done. exists (cs ++ [(l, v)]). by rewrite fmap_app.
Qed.

(** The value [remove_node] is meant to leave: the list without the first
    occurrence. *)
Fixpoint remove_first (v : Z) (xs : list Z) : list Z :=
  match xs with
  | [] => []
  | x :: xs => if bool_decide (x = v) then xs else x :: remove_first v xs
  end.

Lemma remove_first_notin v xs : v ∉ xs → remove_first v xs = xs.
Proof.
  induction xs as [|x xs IH]; [done|]. rewrite not_elem_of_cons. intros [? ?]. simpl.
  rewrite bool_decide_eq_false_2 by done. by rewrite IH.
Qed.

Lemma remove_first_found v xs ys : v ∉ xs → remove_first v (xs ++ v :: ys) = xs ++ ys.
Proof.
  induction xs as [|x xs IH]; simpl.
  - by rewrite bool_decide_eq_true_2.
  - rewrite not_elem_of_cons. intros [? ?].
    rewrite bool_decide_eq_false_2 by done. by rewrite IH.
Qed.

(** C40: on a well-formed list, [remove_node] removes the first occurrence of
    its value (nothing when there is none) and keeps the list well formed,
    whether the node is the head, the tail, both or in the middle; the loop
    ends within one iteration per node. The unlinked node is not freed: the
    set of allocated objects is unchanged. *)
Theorem remove_node_removes_first s p xs v fuel :
  list_rep (objs s) p xs → (length xs < fuel)%nat →
  ∃ s', remove_node fuel v p s = Ok (tt, s') ∧
        list_rep (objs s') p (remove_first v xs) ∧
        out s' = out s ∧ dom (objs s') = dom (objs s).
Proof.
  intros (cs & Hcs & <-) Hfuel. destruct Hcs as (lp & hd & n & -> & Hl & Hn & Hseg & Hnd).
  rewrite length_fmap in Hfuel.
  unfold remove_node. rewrite bool_decide_eq_false_2 by done. lstep. mrun.
  destruct (remove_loop_cells s lp hd n v [] cs fuel hd)
    as (s' & pre & suf & Hrun & Hrep & ? & ? & Hv & Hcases); try done; [set_solver|].
  change (last_loc []) with (None : ptr) in Hrun. rewrite Hrun.
  eexists. split_and!; try done. exists (pre ++ suf). split; [done|].
  destruct Hcases as [[Heq ->] | [lx Heq]]; simpl in Heq; rewrite <- ?Heq.
  - rewrite app_nil_r in *. by rewrite remove_first_notin.
  - rewrite Heq, !fmap_app. cbn. by rewrite remove_first_found.
Qed.

(** [iterate_list] prints the values of the list from head to tail, ends
    within one iteration per node and changes nothing. *)
Lemma iterate_list_prints s p xs fuel :
  list_rep (objs s) p xs → (length xs < fuel)%nat →
  iterate_list fuel p s = Ok (tt, mkState (objs s) (out s ++ xs)).
Proof.
  intros (cs & (lp & hd & n & -> & Hl & Hn & Hseg & Hnd) & <-) Hfuel.
  rewrite length_fmap in Hfuel.
  unfold iterate_list. lstep. mrun. by apply iterate_loop_cells.
Qed.

(** ** The theorems at concrete lists *)

(** The list 7, 8, 7. *)
Definition sample : state := mkState (list_to_map [
  (1%positive, OList (mkList (Val (Some 2%positive)) (Val (Some 4%positive)) (Val 3)));
  (2%positive, ONode (mkNode (Val (Some 3%positive)) (Val 7)));
  (3%positive, ONode (mkNode (Val (Some 4%positive)) (Val 8)));
  (4%positive, ONode (mkNode (Val None) (Val 7)))]) [].

Lemma list_sample_rep : list_rep (objs sample) (Some 1%positive) [7; 8; 7].
Proof.
  exists [(2%positive, 7); (3%positive, 8); (4%positive, 7)]. split; [|done].
  eexists _, (Some 2%positive), (Val 3).
  split_and!; [done|done|by right| |by apply (bool_decide_unpack _)].
  split; [done|]. eexists. split; [done|]. split; [done|]. eexists. split; [done|].
  split; [done|]. by eexists.
Qed.

Lemma add_node_appends_witness :
  ∃ s', add_node (alc := bump_allocator) 9 (Some 1%positive) sample = Ok (tt, s') ∧
    list_rep (objs s') (Some 1%positive) [7; 8; 7; 9].
Proof.
  destruct (add_node_appends (alc := bump_allocator) sample (Some 1%positive) [7; 8; 7] 9
    (fresh (dom (objs sample))) list_sample_rep eq_refl) as (s' & Hrun & Hrep & _).
  exists s'. split_and!; assumption.
Defined.

Lemma remove_node_removes_first_witness :
  ∃ s', remove_node 4 7 (Some 1%positive) sample = Ok (tt, s') ∧
    list_rep (objs s') (Some 1%positive) [8; 7].
Proof.
  destruct (remove_node_removes_first sample (Some 1%positive) [7; 8; 7] 7 4 list_sample_rep)
    as (s' & Hrun & Hrep & _); [simpl; lia|].
  exists s'. split_and!; assumption.
Defined.

Lemma iterate_list_prints_witness :
  iterate_list 4 (Some 1%positive) sample =
    Ok (tt, mkState (objs sample) [7; 8; 7]).
Proof.
  apply (iterate_list_prints sample (Some 1%positive) [7; 8; 7] 4 list_sample_rep). simpl. lia.
Defined.
