(* ===== verification/HashTable.v ===== *)
(** * [11_algorithm/hash_table.c]: a chained hash table with dummy heads *)
From S2P Require Export Cmem.

(** [char*] keys: [None] is [NULL], otherwise the characters before the
    terminating NUL. The program never writes through a key. *)
Abbreviation cstr := (option string).

(** [void*] values are the integers the program casts to pointers; 0 is
    [NULL]. *)
Record dictEntry := mkEntry { key : cell cstr; val : cell Z; next : cell ptr }.
Record dict := mkDict {
  table : cell ptr; size : cell Z; sizemask : cell Z; used : cell Z }.

(** The heap holds entries, the [dict] and the array [table] points to. *)
Inductive obj := OEntry (e : dictEntry) | ODict (d : dict) | OTable (t : list (cell ptr)).
Record state := mkState { objs : gmap loc obj; out : list string }.

#[export] Program Instance state_heap : HasHeap state obj := {|
  heap_of := objs;
  set_heap h s := mkState h (out s);
|}.
Solve Obligations with by intros; try destruct s.

(** [char] is signed. *)
Definition schar (c : ascii) : Z :=
  let n := Z.of_N (N_of_ascii c) in if n <? 128 then n else n - 256.

(** Conversion of an [unsigned long] to [int]. *)
Definition to_int (z : Z) : Z := (z + 2 ^ 31) `mod` 2 ^ 32 - 2 ^ 31.

Fixpoint hash_loop (h : Z) (k : bytes) : Z :=
  match k with
  | [] => h
  | c :: k =>
    let h := u64 (Z.shiftl h 4 + schar c) in
    let g := Z.land h 0xF0000000 in
    let h := if negb (g =? 0) then Z.lxor h (Z.shiftr g 24) else h in
    let h := Z.land h (u64 (Z.lnot g)) in
    hash_loop h k
  end.

Section code.
Definition load_entry (p : ptr) : M state dictEntry :=
  o ← load p; match o with OEntry e => mret e | _ => ub_fail BadType end.
Definition load_dict (p : ptr) : M state dict :=
  o ← load p; match o with ODict d => mret d | _ => ub_fail BadType end.
Definition load_table (p : ptr) : M state (list (cell ptr)) :=
  o ← load p; match o with OTable t => mret t | _ => ub_fail BadType end.

Definition set_key (p : ptr) (k : cstr) : M state unit :=
  e ← load_entry p; store p (OEntry (mkEntry (Val k) (val e) (next e))).
Definition set_val (p : ptr) (v : Z) : M state unit :=
  e ← load_entry p; store p (OEntry (mkEntry (key e) (Val v) (next e))).
Definition set_next (p q : ptr) : M state unit :=
  e ← load_entry p; store p (OEntry (mkEntry (key e) (val e) (Val q))).
Definition set_size (p : ptr) (n : Z) : M state unit :=
  d ← load_dict p; store p (ODict (mkDict (table d) (Val n) (sizemask d) (used d))).
Definition set_table (p q : ptr) : M state unit :=
  d ← load_dict p; store p (ODict (mkDict (Val q) (size d) (sizemask d) (used d))).

(** [ht->table[t]] and [ht->table[t] = q] *)
Definition table_at (ht : ptr) (t : Z) : M state ptr :=
  d ← load_dict ht;
  tp ← use (table d);
  tb ← load_table tp;
  match zlookup tb t with None => ub_fail OutOfBounds | Some c => use c end.
Definition set_table_at (ht : ptr) (t : Z) (q : ptr) : M state unit :=
  d ← load_dict ht;
  tp ← use (table d);
  tb ← load_table tp;
  match zupdate tb t (Val q) with
  | None => ub_fail OutOfBounds
  | Some tb => store tp (OTable tb)
  end.

Definition hashCode (ht : ptr) (k : cstr) : M state Z :=
  match k with
  | None => ub_fail NullDeref
  | Some k =>
    d ← load_dict ht;
    n ← use (size d);
    if n =? 0 then ub_fail DivByZero else mret (to_int (hash_loop 0 (b k) `mod` n))
  end.

(** [strcmp(a, b) == 0] *)
Definition streq (x y : cstr) : M state bool :=
  match x, y with
  | Some x, Some y => mret (bool_decide (x = y))
  | _, _ => ub_fail NullDeref
  end.

(** The [while (cursor)] loop of [dictGet]. *)
Fixpoint get_loop (fuel : nat) (cursor : ptr) (k : cstr) : M state Z :=
  match fuel with
  | O => no_fuel
  | S fuel =>
    if bool_decide (cursor = None) then mret 0
    else
      e ← load_entry cursor;
      ek ← use (key e);
      c ← streq ek k;
      if (c : bool) then use (val e)
      else
        n ← use (next e);
        get_loop fuel n k
  end.

Definition dictGet (fuel : nat) (ht : ptr) (k : cstr) : M state Z :=
  t ← hashCode ht k;
  d ← table_at ht t;
  e ← load_entry d;
  cursor ← use (next e);
  get_loop fuel cursor k.

Context {alc : Allocator}.

Definition dictPut (fuel : nat) (ht : ptr) (k : cstr) (v : Z) : M state Z :=
  old ← dictGet fuel ht k;
  if negb (old =? 0) then mret 0
  else
    e ← malloc (OEntry (mkEntry Indet Indet Indet));
    set_key e k;;
    set_val e v;;
    set_next e None;;
    t ← hashCode ht k;
    d ← table_at ht t;
    de ← load_entry d;
    q ← use (next de);
    set_next e q;;
    d ← table_at ht t;
    set_next d e;;
    mret 1.

Definition puts (m : string) : M state unit :=
  modify (λ s, mkState (objs s) (out s ++ [m])).

Definition printReturnStatus (status : Z) : M state unit :=
  if status =? 0 then puts "添加失败，已存在重复元素" else puts "添加成功".

(** The loop of [main] that puts a dummy head in every slot. *)
Fixpoint init_loop (fuel : nat) (dict_ : ptr) (i : Z) : M state unit :=
  match fuel with
  | O => no_fuel
  | S fuel =>
    d ← load_dict dict_;
    n ← use (size d);
    if i <? n then
      e ← malloc (OEntry (mkEntry Indet Indet Indet));
      set_next e None;;
      set_val e 0;;
      set_key e None;;
      set_table_at dict_ i e;;
      init_loop fuel dict_ (i + 1)
    else mret tt
  end.

Definition N : Z := 10.

Definition make_dict : M state ptr :=
  dict_ ← malloc (ODict (mkDict Indet Indet Indet Indet));
  set_size dict_ N;;
  tb ← malloc (OTable (replicate (Z.to_nat N) Indet));
  set_table dict_ tb;;
  init_loop (S (Z.to_nat N)) dict_ 0;;
  mret dict_.

Definition main (fuel : nat) : M state Z :=
  dict_ ← make_dict;
  ret ← dictPut fuel dict_ (Some "yaojun") 200;
  printReturnStatus ret;;
  ret ← dictPut fuel dict_ (Some "jason") 300;
  printReturnStatus ret;;
  returnVal ← dictGet fuel dict_ (Some "jason");
  (if returnVal =? 0 then puts "查询的元素不存在" else mret tt);;
  puts ("value = " +:+ pretty returnVal);;
  mret 0.
End code.

Arguments load_entry : simpl never.
Arguments load_dict : simpl never.
Arguments load_table : simpl never.
Arguments set_key : simpl never.
Arguments set_val : simpl never.
Arguments set_next : simpl never.
Arguments set_size : simpl never.
Arguments set_table : simpl never.
Arguments table_at : simpl never.
Arguments hashCode : simpl never.

Example hash_table_main_runs :
  match main (alc := bump_allocator) 3 (mkState ∅ []) with
  | Ok (r, s) => (r, out s) = (0, ["添加成功"; "添加成功"; "value = 300"])
  | _ => False
  end.
Proof. vm_compute. reflexivity. Qed.

(** ** The hash function *)

Lemma hash_loop_nonneg h k : 0 ≤ h → 0 ≤ hash_loop h k.
Proof.
  revert h. induction k as [|c k IH]; intros h Hh; simpl; [done|].
  apply IH. apply Z.land_nonneg. right. unfold u64. apply Z.mod_pos_bound. lia.
Qed.

Definition hash_index (n : Z) (k : string) : Z := hash_loop 0 (b k) `mod` n.

Lemma hash_index_bound n k : 0 < n → 0 ≤ hash_index n k < n.
Proof. intros. apply Z.mod_pos_bound. done. Qed.

Lemma to_int_id z : 0 ≤ z < 2 ^ 31 → to_int z = z.
Proof. intros. unfold to_int. rewrite Z.mod_small by lia. lia. Qed.

(** ** Representation *)

(** [chain h p cs]: from [p] on, the linked entries are [cs]. *)
Fixpoint chain (h : gmap loc obj) (p : ptr) (cs : list (string * Z)) : Prop :=
  match cs with
  | [] => p = None
  | (k, v) :: cs =>
    ∃ l q, p = Some l ∧
      h !! l = Some (OEntry (mkEntry (Val (Some k)) (Val v) (Val q))) ∧ chain h q cs
  end.

(** A slot of the table: a dummy head, recognisable by its [NULL] key. *)
Definition slot (h : gmap loc obj) (c : cell ptr) (cs : list (string * Z)) : Prop :=
  ∃ d q, c = Val (Some d) ∧
    h !! d = Some (OEntry (mkEntry (Val None) (Val 0) (Val q))) ∧ chain h q cs.

(** [ht] points to a [dict] whose array of [n] distinct pointers is [tb]. *)
Definition heads (h : gmap loc obj) (ht : ptr) (n : Z) (tb : list (cell ptr)) : Prop :=
  ∃ lp tp sm us, ht = Some lp ∧
    h !! lp = Some (ODict (mkDict (Val (Some tp)) (Val n) sm us)) ∧
    h !! tp = Some (OTable tb) ∧ zlen tb = n ∧ 0 < n < 2 ^ 31 ∧ NoDup tb.

Definition buckets (h : gmap loc obj) (ht : ptr) (n : Z)
    (bs : list (list (string * Z))) : Prop :=
  ∃ tb, heads h ht n tb ∧ Forall2 (slot h) tb bs.

(** The value [strcmp] finds first. *)
Fixpoint assoc (k : string) (cs : list (string * Z)) : option Z :=
  match cs with
  | [] => None
  | (k', v) :: cs => if bool_decide (k' = k) then Some v else assoc k cs
  end.

Definition bucket_of (n : Z) (bs : list (list (string * Z))) (k : string) :=
  default [] (bs !! Z.to_nat (hash_index n k)).

(** [ht] represents the finite map [m], in [n] slots with [c] entries. *)
Definition dict_rep (h : gmap loc obj) (ht : ptr) (n : Z) (m : gmap string Z)
    (c : nat) : Prop :=
  ∃ bs, buckets h ht n bs ∧ sum_list (length <$> bs) = c ∧
        ∀ k, assoc k (bucket_of n bs k) = m !! k.

Lemma chain_frame h h' p cs :
  (∀ l k e, h !! l = Some (OEntry e) → key e = Val (Some k) → h' !! l = h !! l) →
  chain h p cs → chain h' p cs.
Proof.
  intros Hfr. revert p. induction cs as [|[k v] cs IH]; intros p; simpl; [done|].
  intros (l & q & -> & Hl & Hc). exists l, q. split_and!; [done| |by apply IH].
  by erewrite Hfr.
Qed.

Lemma slot_frame h h' c cs :
  (∀ l k e, h !! l = Some (OEntry e) → key e = Val (Some k) → h' !! l = h !! l) →
  (∀ d, c = Val (Some d) → h' !! d = h !! d) →
  slot h c cs → slot h' c cs.
Proof.
  intros Hfr Hd (d & q & -> & Hl & Hc). exists d, q.
  split_and!; [done|by rewrite Hd|by eapply chain_frame].
Qed.

Lemma heads_frame h h' ht n tb :
  (∀ l, (∀ e, h !! l ≠ Some (OEntry e)) → is_Some (h !! l) → h' !! l = h !! l) →
  heads h ht n tb → heads h' ht n tb.
Proof.
  intros Hfr (lp & tp & sm & us & -> & Hlp & Htp & Hrest). exists lp, tp, sm, us.
  split_and!; [done|rewrite Hfr|rewrite Hfr|..]; try naive_solver.
Qed.

Lemma hashCode_ok s ht n tb k :
  heads (objs s) ht n tb → hashCode ht (Some k) s = Ok (hash_index n k, s).
Proof.
  intros (lp & tp & sm & us & -> & Hlp & Htp & <- & Hn & _). set (n := zlen tb) in *.
  assert (0 ≤ hash_index n k < n) as Hb by (apply hash_index_bound; lia).
  unfold hashCode, load_dict. mstep. mrun.
  rewrite (proj2 (Z.eqb_neq n 0)) by lia.
  fold (hash_index n k). by rewrite to_int_id by lia.
Qed.

Lemma table_at_ok s ht n tb k d :
  heads (objs s) ht n tb → tb !! Z.to_nat (hash_index n k) = Some (Val d) →
  table_at ht (hash_index n k) s = Ok (d, s).
Proof.
  intros (lp & tp & sm & us & -> & Hlp & Htp & _ & Hn & _) Hd.
  assert (0 ≤ hash_index n k < n) as Hb by (apply hash_index_bound; lia).
  unfold table_at, load_dict. mstep. unfold load_table. mstep.
  by rewrite (proj2 (zlookup_Some tb _ (Val d))) by (split; [lia|done]).
Qed.

Lemma heads_slot h ht n tb bs k :
  heads h ht n tb → Forall2 (slot h) tb bs →
  ∃ d q, tb !! Z.to_nat (hash_index n k) = Some (Val (Some d)) ∧
    bs !! Z.to_nat (hash_index n k) = Some (bucket_of n bs k) ∧
    h !! d = Some (OEntry (mkEntry (Val None) (Val 0) (Val q))) ∧
    chain h q (bucket_of n bs k).
Proof.
  intros (lp & tp & sm & us & _ & _ & _ & <- & Hn & _) Hslots.
  pose proof (hash_index_bound (zlen tb) k).
  destruct (lookup_lt_is_Some_2 tb (Z.to_nat (hash_index (zlen tb) k))) as [c Hc].
  { unfold zlen in *. lia. }
  destruct (Forall2_lookup_l _ _ _ _ _ Hslots Hc) as (cs & Hcs & d & q & -> & Hd & Hch).
  exists d, q. unfold bucket_of. rewrite Hcs. done.
Qed.

Lemma get_loop_chain s p cs k fuel :
  chain (objs s) p cs → (length cs < fuel)%nat →
  get_loop fuel p (Some k) s = Ok (default 0 (assoc k cs), s).
Proof.
  revert p fuel. induction cs as [|[k' v] cs IH]; intros p fuel Hch Hfuel;
    (destruct fuel as [|fuel]; [simpl in Hfuel; lia|]); cbn in Hch.
  - by subst p.
  - destruct Hch as (l & q & -> & Hl & Hch). cbn [get_loop].
    rewrite bool_decide_eq_false_2 by done. unfold load_entry. mstep.
    unfold streq. mrun. case_bool_decide; [done|]. mrun.
    rewrite IH; [done..|simpl in Hfuel; lia].
Qed.

Lemma sum_list_lookup (l : list (list (string * Z))) i cs :
  l !! i = Some cs → (length cs ≤ sum_list (length <$> l))%nat.
Proof.
  revert i. induction l as [|x l IH]; intros i; [done|].
  rewrite fmap_cons. cbn [sum_list_with id].
  destruct i as [|i]; cbn [lookup list_lookup]; [intros [= ->]|intros ?%IH];
    unfold id in *; lia.
Qed.

Lemma set_key_ok s l k e :
  objs s !! l = Some (OEntry e) →
  set_key (Some l) k s =
    Ok (tt, mkState (<[l := OEntry (mkEntry (Val k) (val e) (next e))]> (objs s)) (out s)).
Proof. intros H. unfold set_key, load_entry. do 2 mstep. done. Qed.

Lemma set_val_ok s l v e :
  objs s !! l = Some (OEntry e) →
  set_val (Some l) v s =
    Ok (tt, mkState (<[l := OEntry (mkEntry (key e) (Val v) (next e))]> (objs s)) (out s)).
Proof. intros H. unfold set_val, load_entry. do 2 mstep. done. Qed.

Lemma set_entry_next_ok s l q e :
  objs s !! l = Some (OEntry e) →
  set_next (Some l) q s =
    Ok (tt, mkState (<[l := OEntry (mkEntry (key e) (val e) (Val q))]> (objs s)) (out s)).
Proof. intros H. unfold set_next, load_entry. do 2 mstep. done. Qed.

Lemma load_entry_ok s l e :
  objs s !! l = Some (OEntry e) → load_entry (Some l) s = Ok (e, s).
Proof. intros H. unfold load_entry. by mstep. Qed.

Lemma heads_new h ht n tb e x :
  heads h ht n tb → h !! e = None → heads (<[e := OEntry x]> h) ht n tb.
Proof.
  intros Hh He. eapply heads_frame; [|done]. intros l _ [o Ho].
  rewrite lookup_insert_ne; congruence.
Qed.

(** Run one access to an entry or to the table. *)
Ltac hstep :=
  mrun;
  first
    [ erewrite set_key_ok by (cbn; first [eassumption | simplify_map_eq; done])
    | erewrite set_val_ok by (cbn; first [eassumption | simplify_map_eq; done])
    | erewrite set_entry_next_ok by (cbn; first [eassumption | simplify_map_eq; done])
    | erewrite load_entry_ok by (cbn; first [eassumption | simplify_map_eq; done])
    | erewrite hashCode_ok by (cbn; eauto using heads_new)
    | erewrite table_at_ok by (cbn; eauto using heads_new) ];
  msimp; rewrite ?insert_insert_eq.

Lemma dictGet_run s ht n bs k fuel :
  buckets (objs s) ht n bs → (length (bucket_of n bs k) < fuel)%nat →
  dictGet fuel ht (Some k) s = Ok (default 0 (assoc k (bucket_of n bs k)), s).
Proof.
  intros (tb & Hh & Hslots) Hfuel.
  destruct (heads_slot _ _ _ _ _ k Hh Hslots) as (d & q & Htb & _ & Hd & Hch).
  unfold dictGet. do 3 hstep. by rewrite (get_loop_chain _ _ _ k _ Hch).
Qed.

Lemma bucket_of_length n bs k :
  (length (bucket_of n bs k) ≤ sum_list (length <$> bs))%nat.
Proof.
  unfold bucket_of. destruct (bs !! _) eqn:E; simpl; [|lia]. by eapply sum_list_lookup.
Qed.

(** The table after a new entry was linked in front of the bucket of [k]. *)
Lemma buckets_push h ht n tb bs k v d q e :
  heads h ht n tb → Forall2 (slot h) tb bs →
  tb !! Z.to_nat (hash_index n k) = Some (Val (Some d)) →
  h !! d = Some (OEntry (mkEntry (Val None) (Val 0) (Val q))) →
  chain h q (bucket_of n bs k) → h !! e = None →
  let h' := <[d := OEntry (mkEntry (Val None) (Val 0) (Val (Some e)))]>
    (<[e := OEntry (mkEntry (Val (Some k)) (Val v) (Val q))]> h) in
  heads h' ht n tb ∧
  Forall2 (slot h') tb (<[Z.to_nat (hash_index n k) := (k, v) :: bucket_of n bs k]> bs).
Proof.
  intros Hh Hslots Htb Hd Hch He h'. assert (d ≠ e) by congruence.
  assert (Hfr : ∀ l k e', h !! l = Some (OEntry e') → key e' = Val (Some k) →
    h' !! l = h !! l).
  { intros l k' e' Hl Hk. unfold h'. rewrite !lookup_insert_ne; [done|..]; intros ->;
      simplify_eq; done. }
  split.
  { eapply heads_frame; [|done]. intros l Hl [o Ho]. unfold h'.
    rewrite !lookup_insert_ne; [done|..]; intros ->; naive_solver. }
  pose proof (Forall2_length _ _ _ Hslots) as Hlen.
  destruct Hh as (lp & tp & sm & us & _ & _ & _ & _ & _ & Hnd).
  apply Forall2_lookup. intros j. rewrite list_lookup_insert. case_decide as Hj.
  - destruct Hj as [<- Hj]. rewrite Htb. constructor. exists d, (Some e).
    split_and!; [done|unfold h'; by simplify_map_eq|].
    exists e, q. split_and!; [done|unfold h'; by simplify_map_eq|]. by eapply chain_frame.
  - pose proof (proj1 (Forall2_lookup _ _ _) Hslots j) as Hj'.
    destruct (tb !! j) as [c|] eqn:Ec; inversion Hj'; subst; [|constructor].
    constructor. eapply slot_frame; [done| |done].
    intros d' ->. unfold h'. rewrite !lookup_insert_ne; [done| |].
    + intros ->. assert (slot h (Val (Some d')) y) as (? & ? & ? & ? & ?) by done. congruence.
    + intros ->. apply Hj. rewrite <- Hlen. split; [|by eapply lookup_lt_Some].
      by eapply NoDup_lookup.
Qed.

Lemma sum_list_push (bs : list (list (string * Z))) i cs x :
  bs !! i = Some cs →
  sum_list (length <$> <[i := x :: cs]> bs) = S (sum_list (length <$> bs)).
Proof.
  revert i. induction bs as [|y bs IH]; intros [|i] Hi; [done..| |].
  - injection Hi as ->. done.
  - change (<[S i := x :: cs]> (y :: bs)) with (y :: <[i := x :: cs]> bs).
    rewrite !fmap_cons. cbn [sum_list_with id]. unfold id in *. rewrite (IH _ Hi). lia.
Qed.

(** Linking [(k, v)] in front of its bucket is [insert] on the map. *)
Lemma dict_rep_push h' ht n tb bs m k v :
  heads h' ht n tb → 0 < n →
  bs !! Z.to_nat (hash_index n k) = Some (bucket_of n bs k) →
  Forall2 (slot h') tb (<[Z.to_nat (hash_index n k) := (k, v) :: bucket_of n bs k]> bs) →
  (∀ k, assoc k (bucket_of n bs k) = m !! k) →
  dict_rep h' ht n (<[k := v]> m) (S (sum_list (length <$> bs))).
Proof.
  intros Hh Hn Hbk Hslots Hm. eexists. split; [by exists tb|].
  split; [by rewrite (sum_list_push _ _ _ _ Hbk)|]. intros k'. unfold bucket_of at 1.
  rewrite list_lookup_insert, lookup_insert. apply lookup_lt_Some in Hbk.
  pose proof (hash_index_bound n k Hn). pose proof (hash_index_bound n k' Hn).
  destruct (decide (k = k')) as [->|Hk].
  - rewrite decide_True by done. simpl. by rewrite bool_decide_eq_true_2.
  - case_decide as Hi; [|by rewrite <- Hm]. simpl. rewrite bool_decide_eq_false_2 by done.
    rewrite <- Hm. unfold bucket_of.
    by replace (hash_index n k) with (hash_index n k') by lia.
Qed.

(** ** The table [main] builds *)

Definition dummy : obj := OEntry (mkEntry (Val None) (Val 0) (Val None)).

(** The table after [i] iterations of the loop of [main]. *)
Definition init_inv (h : gmap loc obj) (lp : loc) (n : Z) (i : nat) : Prop :=
  ∃ tp tb sm us, h !! lp = Some (ODict (mkDict (Val (Some tp)) (Val n) sm us)) ∧
    h !! tp = Some (OTable tb) ∧ zlen tb = n ∧ lp ≠ tp ∧
    NoDup (take i tb) ∧
    ∀ j, (j < i)%nat → ∃ d, tb !! j = Some (Val (Some d)) ∧ h !! d = Some dummy.

Lemma set_table_at_ok s lp tp tb n sm us i q :
  objs s !! lp = Some (ODict (mkDict (Val (Some tp)) n sm us)) →
  objs s !! tp = Some (OTable tb) → 0 ≤ i < zlen tb →
  set_table_at (Some lp) i q s =
    Ok (tt, mkState (<[tp := OTable (<[Z.to_nat i := Val q]> tb)]> (objs s)) (out s)).
Proof.
  intros Hlp Htp Hi. unfold set_table_at, load_dict. mstep. unfold load_table. mstep.
  rewrite zupdate_in by done. by mstep.
Qed.

Lemma init_inv_step h lp n i tp tb sm us e :
  h !! lp = Some (ODict (mkDict (Val (Some tp)) (Val n) sm us)) →
  h !! tp = Some (OTable tb) → zlen tb = n → lp ≠ tp → NoDup (take i tb) →
  (∀ j, (j < i)%nat → ∃ d, tb !! j = Some (Val (Some d)) ∧ h !! d = Some dummy) →
  Z.of_nat i < n → h !! e = None →
  init_inv (<[tp := OTable (<[i := Val (Some e)]> tb)]> (<[e := dummy]> h)) lp n (S i).
Proof.
  intros Hlp Htp Hlen Hne Hnd Hd Hi He. unfold zlen in Hlen.
  assert (tp ≠ e ∧ lp ≠ e) as [??] by (split; congruence).
  exists tp, (<[i := Val (Some e)]> tb), sm, us.
  split_and!; [by simplify_map_eq..| |done| |].
  - unfold zlen. by rewrite length_insert.
  - rewrite (take_S_r _ i (Val (Some e))) by (rewrite list_lookup_insert_eq; [done|lia]).
    rewrite take_insert_ge by lia. apply NoDup_app. split_and!; [done| |apply NoDup_singleton].
    intros c (j & Hj)%list_elem_of_lookup Hc%list_elem_of_singleton.
    apply lookup_take_Some in Hj as [Hj Hji]. destruct (Hd j Hji) as (d & ? & ?).
    simplify_eq.
  - intros j Hj. destruct (decide (j = i)) as [->|].
    + exists e. split; [by rewrite list_lookup_insert_eq by lia|by simplify_map_eq].
    + destruct (Hd j) as (d & Hjd & Hdd); [lia|]. exists d.
      rewrite list_lookup_insert_ne by done. split; [done|].
      rewrite !lookup_insert_ne; [done|..]; intros ->; unfold dummy in *; congruence.
Qed.

Lemma init_inv_rep h lp n :
  init_inv h lp n (Z.to_nat n) → 0 < n < 2 ^ 31 → dict_rep h (Some lp) n ∅ 0.
Proof.
  intros (tp & tb & sm & us & Hlp & Htp & Hlen & Hne & Hnd & Hd) Hn.
  assert (length tb = Z.to_nat n) as Hlen' by (unfold zlen in Hlen; lia).
  rewrite take_ge in Hnd by lia.
  exists (replicate (Z.to_nat n) []). split; [|split].
  - exists tb. split; [by exists lp, tp, sm, us|].
    apply Forall2_same_length_lookup. rewrite length_replicate. split; [done|].
    intros j c cs Hj [-> Hjn]%lookup_replicate. destruct (Hd j Hjn) as (d & Hc & Hdd).
    simplify_eq. by exists d, None.
  - clear. induction (Z.to_nat n) as [|k IH]; [done|]. cbn. by rewrite IH.
  - intros k. unfold bucket_of. rewrite lookup_empty.
    destruct (replicate _ _ !! _) as [cs|] eqn:E; [|done].
    by apply lookup_replicate in E as [-> _].
Qed.

Section init.
Context {alc : Allocator} (Hinf : ∀ X, is_Some (pick X)).

Lemma init_loop_inv fuel s lp n i :
  init_inv (objs s) lp n i → (Z.of_nat i ≤ n)%Z → (Z.to_nat n - i < fuel)%nat →
  ∃ s', init_loop fuel (Some lp) (Z.of_nat i) s = Ok (tt, s') ∧
        init_inv (objs s') lp n (Z.to_nat n) ∧ out s' = out s.
Proof.
  revert s i. induction fuel as [|fuel IH]; intros s i Hinv Hi Hfuel; [lia|].
  destruct Hinv as (tp & tb & sm & us & Hlp & Htp & Hlen & Hne & Hnd & Hd).
  cbn [init_loop]. unfold load_dict. mstep. mrun. destruct (Z.ltb_spec (Z.of_nat i) n).
  - destruct (Hinf (dom (objs s))) as [e Hpick].
    pose proof (pick_None _ _ Hpick) as He. simpl in He.
    assert (tp ≠ e ∧ lp ≠ e) as [??] by (split; congruence).
    mrun. erewrite malloc_ok by done. cbn. do 3 hstep.
    erewrite set_table_at_ok; [|by cbn; simplify_map_eq..|lia]. cbn.
    rewrite Nat2Z.id. replace (Z.of_nat i + 1) with (Z.of_nat (S i)) by lia.
    edestruct IH as (s' & -> & ? & ?); [|..|by exists s'].
    + by eapply init_inv_step.
    + lia.
    + lia.
  - exists s. split; [done|]. split; [|done]. replace (Z.to_nat n) with i by lia.
    by exists tp, tb, sm, us.
Qed.

#[local] Arguments init_loop : simpl never.

(** The table [main] builds, with its ten dummy heads, represents the
    empty map (when the allocator has memory). *)
Lemma make_dict_empty s :
  ∃ ht s', make_dict s = Ok (ht, s') ∧ dict_rep (objs s') ht N ∅ 0 ∧ out s' = out s.
Proof.
  destruct (Hinf (dom (objs s))) as [lp Hlp].
  unfold make_dict. mrun. erewrite malloc_ok by done. cbn.
  unfold set_size, load_dict. do 2 mstep. rewrite ?insert_insert_eq.
  destruct (Hinf (dom (<[lp := ODict (mkDict Indet (Val N) Indet Indet)]> (objs s))))
    as [tp Htp].
  pose proof (pick_None (mkState _ (out s)) _ Htp) as Htp'. simpl in Htp'.
  erewrite malloc_ok by done. cbn.
  assert (tp ≠ lp) by (intros ->; by simplify_map_eq).
  unfold set_table, load_dict. do 2 mstep.
  match goal with
  | |- context [init_loop ?f _ _ ?s1] =>
    destruct (init_loop_inv f s1 lp N 0) as (s' & Hrun & Hinv & Hout)
  end.
  - exists tp. do 3 eexists. cbn. split_and!; [by simplify_map_eq..|done|constructor|lia].
  - done.
  - lia.
  - change (Z.of_nat 0) with 0 in Hrun. cbn in Hout. rewrite Hrun. eexists _, _. split; [done|]. split; [|done].
    by apply init_inv_rep.
Qed.
End init.

(** ** The contract of the table: a finite map from strings to values *)

(** C37: on a well-formed table, [dictGet] returns the value the map associates
    with the key and [NULL] (0) when there is none; it changes nothing and its
    loop ends within one iteration per entry. *)
Theorem dictGet_lookup s ht n m c k fuel :
  dict_rep (objs s) ht n m c → (c < fuel)%nat →
  dictGet fuel ht (Some k) s = Ok (default 0 (m !! k), s).
Proof.
  intros (bs & Hbs & <- & Hm) Hfuel. pose proof (bucket_of_length n bs k).
  rewrite (dictGet_run _ _ _ _ _ _ Hbs), Hm by lia. done.
Qed.


(** C36: when the map has no value for the key (or the value [NULL]), [dictPut]
    returns 1 and the table represents the map with the new association; the
    hash function, the bucket it selects and the linking in front of the chain
    are those of the code. *)
Theorem dictPut_inserts {alc : Allocator} s ht n m c k v fuel e :
  dict_rep (objs s) ht n m c → (c < fuel)%nat → default 0 (m !! k) = 0 →
  pick (dom (objs s)) = Some e →
  ∃ s', dictPut fuel ht (Some k) v s = Ok (1, s') ∧
        dict_rep (objs s') ht n (<[k := v]> m) (S c) ∧ out s' = out s.
Proof.
  intros (bs & (tb & Hh & Hslots) & <- & Hm) Hfuel Hnone Hpick.
  destruct (heads_slot _ _ _ _ _ k Hh Hslots) as (d & q & Htb & Hbk & Hd & Hch).
  pose proof (bucket_of_length n bs k). pose proof (pick_None _ _ Hpick) as He. simpl in He.
  assert (d ≠ e) by congruence.
  destruct (buckets_push _ _ _ _ _ k v _ _ e Hh Hslots Htb Hd Hch He) as [Hh' Hslots'].
  assert (0 < n) by (destruct Hh as (?&?&?&?&?&?&?&?&?&?); lia).
  unfold dictPut. mrun. rewrite (dictGet_run s ht n bs) by (first [by exists tb|lia]).
  rewrite Hm, Hnone. mrun. erewrite malloc_ok by done. cbn.
  do 9 hstep. eexists. split; [done|]. split; [|done]. by eapply dict_rep_push.
Qed.

(** A key that is present is not overwritten: [dictPut] returns 0 and
    changes nothing, so the first value stored for a key is kept. *)
Lemma dictPut_present {alc : Allocator} s ht n m c k v fuel :
  dict_rep (objs s) ht n m c → (c < fuel)%nat → default 0 (m !! k) ≠ 0 →
  dictPut fuel ht (Some k) v s = Ok (0, s).
Proof.
  intros (bs & Hbs & <- & Hm) Hfuel Hsome. pose proof (bucket_of_length n bs k).
  unfold dictPut. mrun. rewrite (dictGet_run s ht n bs) by (done || lia).
  rewrite Hm. rewrite (proj2 (Z.eqb_neq _ 0)) by done. done.
Qed.

(** ** The theorems at the table that [main] builds *)

Lemma bump_infinite X : is_Some (pick (Allocator := bump_allocator) X).
Proof. by eexists. Qed.

Lemma make_dict_empty_witness :
  ∃ ht s', make_dict (alc := bump_allocator) (mkState ∅ []) = Ok (ht, s') ∧
    dict_rep (objs s') ht N ∅ 0.
Proof.
  destruct (make_dict_empty (alc := bump_allocator) bump_infinite (mkState ∅ []))
    as (ht & s' & Hrun & Hrep & _).
  exists ht, s'. split_and!; assumption.
Defined.

(** A table with one slot and the entry [a -> 5]. *)
Definition sample : state := mkState (list_to_map [
  (1%positive, ODict (mkDict (Val (Some 2%positive)) (Val 1) Indet Indet));
  (2%positive, OTable [Val (Some 3%positive)]);
  (3%positive, OEntry (mkEntry (Val None) (Val 0) (Val (Some 4%positive))));
  (4%positive, OEntry (mkEntry (Val (Some "a"%string)) (Val 5) (Val None)))]) [].

Lemma hash_index_1 k : hash_index 1 k = 0.
Proof. unfold hash_index. apply Z.mod_1_r. Qed.

Lemma dict_sample_rep : dict_rep (objs sample) (Some 1%positive) 1 {["a"%string := 5]} 1.
Proof.
  exists [[("a"%string, 5)]]. split_and!; [|done|].
  - exists [Val (Some 3%positive)]. split.
    + eexists _, 2%positive, Indet, Indet. split_and!; try done.
      by apply NoDup_singleton.
    + constructor; [|constructor]. eexists _, _. split_and!; [done..|]. by eexists _, _.
  - intros k. unfold bucket_of. rewrite hash_index_1. simpl. case_bool_decide as Hk.
    + subst k. by rewrite lookup_singleton_eq.
    + by rewrite lookup_singleton_ne.
Qed.

Lemma dictGet_lookup_witness :
  dictGet 2 (Some 1%positive) (Some "a"%string) sample = Ok (5, sample) ∧
  dictGet 2 (Some 1%positive) (Some "b"%string) sample = Ok (0, sample).
Proof.
  split.
  - apply (dictGet_lookup sample _ 1 {["a"%string := 5]} 1 "a" 2 dict_sample_rep). lia.
  - apply (dictGet_lookup sample _ 1 {["a"%string := 5]} 1 "b" 2 dict_sample_rep). lia.
Defined.

Lemma dictPut_inserts_witness :
  ∃ s', dictPut (alc := bump_allocator) 2 (Some 1%positive) (Some "b"%string) 6 sample = Ok (1, s') ∧
    dict_rep (objs s') (Some 1%positive) 1 (<["b"%string := 6]> {["a"%string := 5]}) 2.
Proof.
  destruct (dictPut_inserts (alc := bump_allocator) sample (Some 1%positive) 1
    {["a"%string := 5]} 1 "b" 6 2 (fresh (dom (objs sample))) dict_sample_rep)
    as (s' & Hrun & Hrep & _); [lia|done|done|].
  exists s'. split_and!; assumption.
Defined.

Lemma dictPut_present_witness :
  dictPut (alc := bump_allocator) 2 (Some 1%positive) (Some "a"%string) 6 sample = Ok (0, sample).
Proof.
  apply (dictPut_present (alc := bump_allocator) sample _ 1 {["a"%string := 5]} 1 "a" 6 2
    dict_sample_rep); [lia|done].
Defined.
