(* ===== verification/BinHeap.v ===== *)
(** * Binary heaps stored in an array

    The reference algorithms for [09_epoll/time_heap.c]: sifting an element up
    and down by exchanges, on a list with the key function [f]. The code moves
    a hole instead; [TimeHeap] relates the two. *)
From S2P Require Export Prelude.

Section heap.
Context {A : Type} (f : A → Z).
Implicit Types ps : list A.

Definition parent (i : nat) : nat := (i - 1) / 2.
Definition key ps (i : nat) : Z := from_option f 0 (ps !! i).

Definition swap ps (i j : nat) : list A :=
  match ps !! i, ps !! j with
  | Some x, Some y => <[j := x]> (<[i := y]> ps)
  | _, _ => ps
  end.

(** The child of [i] with the smaller key, the left one on ties. *)
Definition min_child ps (i : nat) : nat :=
  let c := (2 * i + 1)%nat in
  if decide (S c < length ps)%nat then
    if key ps (S c) <? key ps c then S c else c
  else c.

Fixpoint sift_down (fuel : nat) ps (i : nat) : list A :=
  match fuel with
  | O => ps
  | S fuel =>
    if decide (2 * i + 1 < length ps)%nat then
      let c := min_child ps i in
      if key ps c <? key ps i then sift_down fuel (swap ps i c) c else ps
    else ps
  end.

Fixpoint sift_up (fuel : nat) ps (i : nat) : list A :=
  match fuel with
  | O => ps
  | S fuel =>
    if decide (0 < i)%nat then
      if key ps (parent i) <=? key ps i then ps
      else sift_up fuel (swap ps i (parent i)) (parent i)
    else ps
  end.

(** The heap order between nodes whose parent is at [j] or later. *)
Definition heap_from (j : nat) ps : Prop :=
  ∀ i, (0 < i < length ps)%nat → (j ≤ parent i)%nat → key ps (parent i) ≤ key ps i.
Definition is_heap ps : Prop := heap_from 0 ps.

Lemma length_swap ps i j : length (swap ps i j) = length ps.
Proof. unfold swap. repeat case_match; rewrite ?length_insert; done. Qed.

Lemma swap_perm ps i j : swap ps i j ≡ₚ ps.
Proof.
  unfold swap. destruct (ps !! i) eqn:Ei, (ps !! j) eqn:Ej; try done.
  by apply Permutation_insert_swap.
Qed.

Lemma key_swap ps i j k :
  (i < length ps)%nat → (j < length ps)%nat →
  key (swap ps i j) k =
    if decide (k = j) then key ps i else if decide (k = i) then key ps j else key ps k.
Proof.
  intros Hi Hj. unfold key, swap.
  destruct (lookup_lt_is_Some_2 ps i Hi) as [x Hx].
  destruct (lookup_lt_is_Some_2 ps j Hj) as [y Hy]. rewrite Hx, Hy.
  rewrite !list_lookup_insert, length_insert.
  repeat case_decide; subst; simpl; try done; try (exfalso; lia); naive_solver.
Qed.

Lemma length_sift_down fuel ps i : length (sift_down fuel ps i) = length ps.
Proof.
  revert ps i. induction fuel as [|fuel IH]; intros ps i; simpl; [done|].
  repeat case_match; try done. by rewrite IH, length_swap.
Qed.

Lemma sift_down_perm fuel ps i : sift_down fuel ps i ≡ₚ ps.
Proof.
  revert ps i. induction fuel as [|fuel IH]; intros ps i; simpl; [done|].
  repeat case_match; try done. by rewrite IH, swap_perm.
Qed.

Lemma sift_up_perm fuel ps i : sift_up fuel ps i ≡ₚ ps.
Proof.
  revert ps i. induction fuel as [|fuel IH]; intros ps i; simpl; [done|].
  repeat case_match; try done. by rewrite IH, swap_perm.
Qed.

Lemma min_child_spec ps i :
  (2 * i + 1 < length ps)%nat →
  (min_child ps i < length ps)%nat ∧ parent (min_child ps i) = i ∧
  (i < min_child ps i)%nat ∧
  ∀ k, (0 < k < length ps)%nat → parent k = i → key ps (min_child ps i) ≤ key ps k.
Proof.
  intros Hi. unfold min_child, parent.
  case_decide; [destruct (Z.ltb_spec (key ps (S (2 * i + 1))) (key ps (2 * i + 1)))|];
    (split_and!; [lia|lia|lia|]); intros k Hk Hp;
    assert (k = 2 * i + 1 ∨ k = S (2 * i + 1))%nat as [-> | ->] by lia; lia.
Qed.

(** What holds while the element at [i] is being sifted down. *)
Definition down_inv (j i : nat) ps : Prop :=
  (∀ k, (0 < k < length ps)%nat → (j ≤ parent k)%nat → parent k ≠ i →
     key ps (parent k) ≤ key ps k) ∧
  (∀ k, (0 < k < length ps)%nat → parent k = i → (0 < i)%nat → (j ≤ parent i)%nat →
     key ps (parent i) ≤ key ps k).

Lemma sift_down_heap fuel j i ps :
  (length ps - i ≤ fuel)%nat → (j ≤ i)%nat →
  down_inv j i ps → heap_from j (sift_down fuel ps i).
Proof.
  revert i ps. induction fuel as [|fuel IH]; intros i ps Hfuel Hji [Hout Hgp]; cbn [sift_down].
  { intros k Hk Hjk. apply Hout; [done|done|]. unfold parent in *. lia. }
  destruct (decide (2 * i + 1 < length ps)%nat) as [Hc|Hc]; [|].
  2:{ intros k Hk Hjk. apply Hout; [done|done|]. unfold parent in *. lia. }
  destruct (min_child_spec ps i Hc) as (Hm & Hpm & Him & Hmin).
  set (c := min_child ps i) in *.
  destruct (Z.ltb_spec (key ps c) (key ps i)) as [Hlt|Hge].
  - apply IH; [rewrite length_swap; lia|lia|].
    split; rewrite length_swap; intros k Hk; intros.
    + rewrite !key_swap by lia.
      destruct (decide (k = i)) as [->|]; [|destruct (decide (k = c)) as [->|]].
      * rewrite !decide_False by (unfold parent in *; lia). apply (Hgp c); lia.
      * rewrite Hpm. rewrite decide_False by lia. rewrite decide_True by done. lia.
      * destruct (decide (parent k = i)) as [Hki|].
        -- rewrite decide_False by lia. rewrite Hki in *. apply Hmin; lia.
        -- rewrite decide_False by done. apply Hout; lia.
    + rewrite !key_swap by lia. rewrite Hpm.
      rewrite decide_False by lia. rewrite decide_True by done.
      rewrite !decide_False by (unfold parent in *; lia).
      rewrite <- H. apply Hout; unfold parent in *; lia.
  - intros k Hk Hjk. destruct (decide (parent k = i)) as [Hki|Hki].
    + rewrite Hki. specialize (Hmin k Hk Hki). lia.
    + by apply Hout.
Qed.

(** One step of building a heap from the last parent down to the root. *)
Lemma sift_down_step k ps :
  heap_from (S k) ps → heap_from k (sift_down (S (length ps)) ps k).
Proof.
  intros Hk. apply sift_down_heap; [lia|lia|]. split.
  - intros i Hi Hki Hne. apply Hk; lia.
  - unfold parent. intros. lia.
Qed.

Lemma heap_from_half ps : heap_from ((length ps - 1) / 2 + 1) ps.
Proof. intros i Hi Hp. unfold parent in *. lia. Qed.

(** What holds while the element at [i] is being sifted up. *)
Definition up_inv (i : nat) ps : Prop :=
  (∀ k, (0 < k < length ps)%nat → k ≠ i → key ps (parent k) ≤ key ps k) ∧
  (∀ k, (0 < k < length ps)%nat → parent k = i → (0 < i)%nat →
     key ps (parent i) ≤ key ps k).

Lemma sift_up_heap fuel i ps :
  (i ≤ fuel)%nat → (i < length ps)%nat → up_inv i ps → is_heap (sift_up fuel ps i).
Proof.
  revert i ps. induction fuel as [|fuel IH]; intros i ps Hfuel Hi [Hout Hgp]; cbn [sift_up].
  { intros k Hk _. apply Hout; lia. }
  case_decide as Hpos; [|intros k Hk _; apply Hout; lia].
  assert (Hpi : (parent i < i)%nat) by (unfold parent; lia).
  destruct (Z.leb_spec (key ps (parent i)) (key ps i)) as [Hle|Hgt].
  - intros k Hk _. destruct (decide (k = i)) as [->|]; [done|by apply Hout].
  - apply IH; [lia|rewrite length_swap; lia|].
    split; rewrite length_swap; intros k Hk; intros; rewrite !key_swap by lia.
    + rewrite (decide_False (P := k = parent i)) by done.
      destruct (decide (k = i)) as [->|].
      * rewrite decide_True by done. lia.
      * destruct (decide (parent k = parent i)) as [Heq|].
        -- specialize (Hout k Hk). rewrite Heq in Hout. lia.
        -- destruct (decide (parent k = i)) as [Hki|]; [by apply Hgp|by apply Hout].
    + assert (k ≠ parent i) by (unfold parent in *; lia).
      rewrite (decide_False (P := k = parent i)) by done.
      rewrite !decide_False by (unfold parent in *; lia).
      assert (key ps (parent (parent i)) ≤ key ps (parent i)).
      { apply Hout; [lia|lia]. }
      case_decide; [done|]. specialize (Hout k Hk). rewrite H in Hout. lia.
Qed.

Lemma is_heap_top ps i : is_heap ps → (i < length ps)%nat → key ps 0 ≤ key ps i.
Proof.
  intros Hh. induction (lt_wf i) as [i _ IH]. intros Hi.
  destruct (decide (i = 0%nat)) as [->|]; [done|].
  assert (parent i < i)%nat by (unfold parent; lia).
  transitivity (key ps (parent i)); [apply IH; lia|apply Hh; lia].
Qed.

Lemma is_heap_min ps x y : is_heap (x :: ps) → y ∈ x :: ps → f x ≤ f y.
Proof.
  intros Hh [i Hi]%list_elem_of_lookup.
  pose proof (is_heap_top _ i Hh (lookup_lt_Some _ _ _ Hi)) as H.
  unfold key in H. rewrite Hi in H. done.
Qed.

(** Appending at the end and sifting up inserts. *)
Lemma sift_up_snoc ps x :
  is_heap ps → is_heap (sift_up (S (length ps)) (ps ++ [x]) (length ps)).
Proof.
  intros Hh. apply sift_up_heap; [lia|rewrite length_app; simpl; lia|].
  assert (Hkey : ∀ k, (k < length ps)%nat → key (ps ++ [x]) k = key ps k).
  { intros k Hk. unfold key. by rewrite lookup_app_l. }
  split; rewrite length_app; simpl; intros k Hk; intros; [|unfold parent in *; lia].
  rewrite !Hkey by (unfold parent in *; lia). apply Hh; lia.
Qed.

(** Putting an element at the root of a heap and sifting it down. *)
Lemma sift_down_root ps y :
  is_heap ps → (0 < length ps)%nat →
  is_heap (sift_down (S (length ps)) (<[0%nat := y]> ps) 0).
Proof.
  intros Hh Hlen. apply sift_down_heap; [rewrite length_insert; lia|lia|].
  assert (Hkey : ∀ k, (k ≠ 0)%nat → key (<[0%nat := y]> ps) k = key ps k).
  { intros k Hk. unfold key. by rewrite list_lookup_insert_ne by done. }
  split; rewrite length_insert; intros k Hk; intros; [|lia].
  rewrite !Hkey by lia. by apply Hh.
Qed.

Lemma is_heap_app ps qs : is_heap (ps ++ qs) → is_heap ps.
Proof.
  intros Hh i Hi _.
  assert (Hkey : ∀ k, (k < length ps)%nat → key (ps ++ qs) k = key ps k).
  { intros k Hk. unfold key. by rewrite lookup_app_l. }
  rewrite <- !Hkey by (unfold parent; lia). apply Hh; [|lia].
  rewrite length_app. lia.
Qed.
End heap.
