(* ===== verification/TimeHeap.v ===== *)
(** * [09_epoll/time_heap.c]: timers in a binary heap *)
From S2P Require Export Cmem BinHeap.

(** [heap_timer]: the constructor only sets [expire]. [cb_func] is a function
    pointer ([None] is [NULL]) and [user_data] the pointer it is called with. *)
Record heap_timer := mkTimer {
  expire : Z; cb_func : cell (option Z); user_data : cell Z }.

Record time_heap := mkHeap { array : list (cell ptr); capacity : Z; cur_size : Z }.

Section code.
(** [World] is what the callbacks act on. *)
Context {World : Type}.

(** The timers the program has allocated, the [time_heap] object the methods
    are called on, and the rest of the program. *)
Record state := mkState { timers : gmap loc heap_timer; self : time_heap; world : World }.

#[export] Program Instance state_heap : HasHeap state heap_timer := {|
  heap_of := timers;
  set_heap h s := mkState h (self s) (world s);
|}.
Solve Obligations with by intros; try destruct s.

Definition set_self (h : time_heap) : M state unit :=
  modify (λ s, mkState (timers s) h (world s)).
Definition set_array (a : list (cell ptr)) : M state unit :=
  h ← gets self; set_self (mkHeap a (capacity h) (cur_size h)).
Definition set_cur_size (n : Z) : M state unit :=
  h ← gets self; set_self (mkHeap (array h) (capacity h) n).

(** [a[i]] and [a[i] = p] on an array of pointers. *)
Definition at_ (a : list (cell ptr)) (i : Z) : M state ptr :=
  match zlookup a i with None => ub_fail OutOfBounds | Some c => use c end.
Definition upd (a : list (cell ptr)) (i : Z) (p : ptr) : M state (list (cell ptr)) :=
  match zupdate a i (Val p) with None => ub_fail OutOfBounds | Some a => mret a end.

(** The same on the member [array]. *)
Definition get_at (i : Z) : M state ptr := h ← gets self; at_ (array h) i.
Definition set_at (i : Z) (p : ptr) : M state unit :=
  h ← gets self; a ← upd (array h) i p; set_array a.

Definition load_expire (p : ptr) : M state Z := t ← load p; mret (expire t).

Context {alc : Allocator}.

(** [new heap_timer*[n]] *)
Definition new_array (n : Z) : M state (list (cell ptr)) :=
  if (0 <=? n) && room n then mret (replicate (Z.to_nat n) Indet) else throw.

(** [heap_timer::heap_timer(int delay)] with [now] the result of [time]. *)
Definition make_timer (now delay : Z) : M state loc :=
  new (mkTimer (now + delay) Indet Indet).

(** [child < cur_size - 1 && array[child + 1]->expire < array[child]->expire] *)
Definition right_is_smaller (child : Z) : M state bool :=
  n ← gets (λ s, cur_size (self s));
  if child <? n - 1 then
    r ← get_at (child + 1);
    re ← load_expire r;
    c ← get_at child;
    ce ← load_expire c;
    mret (re <? ce)
  else mret false.

(** The loop of [percolate_down]; it returns the final [hole]. *)
Fixpoint percolate_loop (fuel : nat) (temp : ptr) (hole : Z) : M state Z :=
  match fuel with
  | O => no_fuel
  | S fuel =>
    n ← gets (λ s, cur_size (self s));
    l ← int_val (hole * 2);
    l ← int_val (l + 1);
    if l <=? n - 1 then
      let child := l in
      right ← right_is_smaller child;
      let child := if (right : bool) then child + 1 else child in
      c ← get_at child;
      ce ← load_expire c;
      te ← load_expire temp;
      if ce <? te then
        c ← get_at child;
        set_at hole c;;
        percolate_loop fuel temp child
      else mret hole
    else mret hole
  end.

Definition percolate_down (hole : Z) : M state unit :=
  temp ← get_at hole;
  n ← gets (λ s, cur_size (self s));
  hole ← percolate_loop (S (Z.to_nat n)) temp hole;
  set_at hole temp.

Definition resize : M state unit :=
  h ← gets self;
  n ← int_val (2 * capacity h);
  temp ← new_array n;
  temp ← for_up 0 n (λ i temp, upd temp i None) temp;
  temp ← for_up 0 (cur_size h) (λ i temp, p ← get_at i; upd temp i p) temp;
  set_self (mkHeap temp n (cur_size h)).

(** [time_heap(int cap)] *)
Definition make_heap (cap : Z) : M state unit :=
  a ← new_array cap;
  a ← for_up 0 cap (λ i a, upd a i None) a;
  set_self (mkHeap a cap 0).

(** [array[i] = init_array[i]] *)
Definition copy_cell (init_array : list (cell ptr)) (i : Z) : M state unit :=
  p ← at_ init_array i; set_at i p.

(** [time_heap(heap_timer** init_array, int size, int capacity)] *)
Definition make_heap_from (init_array : list (cell ptr)) (size capacity : Z) : M state unit :=
  if capacity <? size then throw
  else
    a ← new_array capacity;
    a ← for_up 0 capacity (λ i a, upd a i None) a;
    set_self (mkHeap a capacity size);;
    if negb (size =? 0) then
      for_up 0 size (λ i _, copy_cell init_array i) tt;;
      for_down ((size - 1) ÷ 2) (λ i _, percolate_down i) tt
    else mret tt.

(** [delete array[i]] *)
Definition free_cell (i : Z) : M state unit := p ← get_at i; free p.

(** [~time_heap()] *)
Definition destroy_heap : M state unit :=
  n ← gets (λ s, cur_size (self s));
  for_up 0 n (λ i _, free_cell i) tt;;
  set_self (mkHeap [] 0 0).

(** The loop of [add_timer]; it returns the final [hole]. *)
Fixpoint add_loop (fuel : nat) (timer : ptr) (hole : Z) : M state Z :=
  match fuel with
  | O => no_fuel
  | S fuel =>
    if 0 <? hole then
      let parent := (hole - 1) ÷ 2 in
      p ← get_at parent;
      pe ← load_expire p;
      te ← load_expire timer;
      if pe <=? te then mret hole
      else
        p ← get_at parent;
        set_at hole p;;
        add_loop fuel timer parent
    else mret hole
  end.

Definition add_timer (timer : ptr) : M state unit :=
  if bool_decide (timer = None) then mret tt
  else
    h ← gets self;
    (if capacity h <=? cur_size h then resize else mret tt);;
    let hole := cur_size h in
    n ← int_val (cur_size h + 1);
    set_cur_size n;;
    hole ← add_loop (S (Z.to_nat hole)) timer hole;
    set_at hole timer.

(** Lazy deletion: the timer stays in the heap without a callback. *)
Definition del_timer (timer : ptr) : M state unit :=
  if bool_decide (timer = None) then mret tt
  else
    t ← load timer;
    store timer (mkTimer (expire t) (Val None) (user_data t)).

Definition empty : M state bool :=
  n ← gets (λ s, cur_size (self s)); mret (n =? 0).

Definition top : M state ptr :=
  e ← empty; if (e : bool) then mret None else get_at 0.

Definition pop_timer : M state unit :=
  e ← empty;
  if (e : bool) then mret tt
  else
    p ← get_at 0;
    if bool_decide (p ≠ None) then
      free p;;
      n ← gets (λ s, cur_size (self s));
      set_cur_size (n - 1);;
      q ← get_at (n - 1);
      set_at 0 q;;
      percolate_down 0
    else mret tt.

(** Calling a callback through its pointer: code of the timer's owner. *)
Variable call : Z → Z → M state unit.

(** [if (array[0]->cb_func) array[0]->cb_func(array[0]->user_data);] *)
Definition run_callback : M state unit :=
  p ← get_at 0;
  t ← load p;
  cb ← use (cb_func t);
  match cb with
  | Some f =>
    p ← get_at 0;
    t ← load p;
    u ← use (user_data t);
    call f u
  | None => mret tt
  end.

Fixpoint tick_loop (fuel : nat) (cur : Z) (tmp : ptr) : M state unit :=
  match fuel with
  | O => no_fuel
  | S fuel =>
    e ← empty;
    if (e : bool) then mret tt
    else if bool_decide (tmp = None) then mret tt
    else
      te ← load_expire tmp;
      if cur <? te then mret tt
      else
        run_callback;;
        pop_timer;;
        tmp ← get_at 0;
        tick_loop fuel cur tmp
  end.

(** [now] is the result of [time(NULL)]. *)
Definition tick (fuel : nat) (now : Z) : M state unit :=
  tmp ← get_at 0;
  tick_loop fuel now tmp.
End code.
Arguments state : clear implicits.

(** Three timers fire in the order of their expiry; a deleted one is silent. *)
Example tick_runs :
  let call f u := modify (S := state (list (Z * Z)))
    (λ s, mkState (timers s) (self s) (world s ++ [(f, u)])) in
  let add k := p ← new (alc := bump_allocator)
                     (mkTimer k (Val (Some 7)) (Val k)); add_timer (alc := bump_allocator) (Some p);; mret p in
  let prog :=
    make_heap (alc := bump_allocator) 1;;
    add 30;; p ← add 10;  add 20;; add 5;; add 40;;
    del_timer (Some p);; tick call 10 35 in
  match prog (mkState ∅ (mkHeap [] 0 0) []) with
  | Ok (_, s) => (world s, cur_size (self s), capacity (self s)) = ([(7, 5); (7, 20); (7, 30)], 1, 8)
  | _ => False
  end.
Proof. vm_compute. reflexivity. Qed.

Arguments load_expire : simpl never.
Arguments get_at : simpl never.
Arguments set_at : simpl never.
Arguments set_self : simpl never.
Arguments percolate_down : simpl never.
Arguments right_is_smaller : simpl never.
Arguments copy_cell : simpl never.
Arguments free_cell : simpl never.
Arguments for_up : simpl never.
Arguments for_down : simpl never.
Arguments at_ : simpl never.
Arguments upd : simpl never.
Arguments int_val : simpl never.

(** ** Representation *)

(** The array cells that hold the pointers [ps]. *)
Definition enc (ps : list loc) : list (cell ptr) := (λ l, Val (Some l)) <$> ps.

Definition expiry (m : gmap loc heap_timer) (l : loc) : Z :=
  from_option expire 0 (m !! l).

Arguments parent : simpl never.

Section proofs.
Context {World : Type}.
Implicit Types s : state World.

Definition with_array s (a : list (cell ptr)) : state World :=
  mkState (timers s) (mkHeap a (capacity (self s)) (cur_size (self s))) (world s).

(** [array] starts with the pointers [ps], [cur_size] of them, and has
    [capacity] cells; they are distinct and point to live timers. *)
Definition heap_rep s (ps : list loc) : Prop :=
  (∃ rest, array (self s) = enc ps ++ rest ∧ Forall (λ c, c ≠ Indet) rest) ∧
  cur_size (self s) = zlen ps ∧ capacity (self s) = zlen (array (self s)) ∧
  capacity (self s) ≤ 2 ^ 30 ∧ NoDup ps ∧ ∀ l, l ∈ ps → is_Some (timers s !! l).

Definition is_timer_heap s (ps : list loc) : Prop :=
  heap_rep s ps ∧ is_heap (expiry (timers s)) ps.

Lemma enc_lookup ps i l : ps !! i = Some l → enc ps !! i = Some (Val (Some l)).
Proof. intros H. unfold enc. by rewrite list_lookup_fmap, H. Qed.

Lemma length_enc ps : length (enc ps) = length ps.
Proof. apply length_fmap. Qed.

Lemma heap_rep_size s ps : heap_rep s ps → 0 ≤ cur_size (self s) ≤ capacity (self s).
Proof.
  intros ((rest & Ha & _) & -> & -> & _). rewrite Ha. unfold zlen.
  rewrite length_app, length_enc. lia.
Qed.

Lemma enc_insert ps i l : enc (<[i := l]> ps) = <[i := Val (Some l)]> (enc ps).
Proof. exact (list_fmap_insert (λ l, Val (Some l)) ps i l). Qed.

Lemma get_at_nat s z i p :
  z = Z.of_nat i → array (self s) !! i = Some (Val p) → get_at z s = Ok (p, s).
Proof.
  intros -> Hi. unfold get_at, at_. mrun. unfold zlookup.
  rewrite bool_decide_eq_true_2 by lia. by rewrite Nat2Z.id, Hi.
Qed.

Lemma set_at_nat s z i p :
  z = Z.of_nat i → (i < length (array (self s)))%nat →
  set_at z p s = Ok (tt, with_array s (<[i := Val p]> (array (self s)))).
Proof.
  intros -> Hi. unfold set_at, upd. mrun. rewrite zupdate_in by (unfold zlen; lia).
  mrun. by rewrite Nat2Z.id.
Qed.

Lemma load_expire_ok s l :
  is_Some (timers s !! l) → load_expire (Some l) s = Ok (expiry (timers s) l, s).
Proof.
  intros [t Ht]. unfold load_expire, expiry. mstep. by rewrite Ht.
Qed.

Lemma key_lookup f ps i (l : loc) : ps !! i = Some l → key f ps i = f l.
Proof. intros H. unfold key. by rewrite H. Qed.

(** The pointer read at a position the hole is not at. *)
Lemma hole_read (a : list (cell ptr)) ps rest h t i l :
  <[h := Val (Some t)]> a = enc ps ++ rest → i ≠ h → ps !! i = Some l →
  a !! i = Some (Val (Some l)).
Proof.
  intros Ha Hne Hl. rewrite <- (list_lookup_insert_ne a h i (Val (Some t))) by done.
  rewrite Ha. by apply lookup_app_l_Some, enc_lookup.
Qed.

(** Moving the hole from [h] to [c] is the exchange of [h] and [c]. *)
Lemma hole_move (a : list (cell ptr)) ps rest h c t l :
  <[h := Val (Some t)]> a = enc ps ++ rest → ps !! h = Some t → ps !! c = Some l → h ≠ c →
  <[c := Val (Some t)]> (<[h := Val (Some l)]> a) = enc (swap ps h c) ++ rest.
Proof.
  intros Ha Hh Hc Hne. unfold swap. rewrite Hh, Hc, !enc_insert.
  apply lookup_lt_Some in Hh, Hc.
  rewrite <- !insert_app_l by (rewrite ?length_insert, length_enc; done).
  rewrite <- Ha. by rewrite (list_insert_insert_eq a h).
Qed.

Lemma load_expire_elem s ps i l :
  (∀ l, l ∈ ps → is_Some (timers s !! l)) → ps !! i = Some l →
  load_expire (Some l) s = Ok (key (expiry (timers s)) ps i, s).
Proof.
  intros Hlive Hl. rewrite load_expire_ok by (eapply Hlive, list_elem_of_lookup_2; done).
  by erewrite key_lookup.
Qed.

Lemma right_is_smaller_ok s ps rest t h c :
  <[h := Val (Some t)]> (array (self s)) = enc ps ++ rest →
  cur_size (self s) = zlen ps → (∀ l, l ∈ ps → is_Some (timers s !! l)) →
  (2 * h + 1 < length ps)%nat → c = Z.of_nat (2 * h + 1) →
  ∃ b : bool, right_is_smaller c s = Ok (b, s) ∧
    (if b then c + 1 else c) = Z.of_nat (min_child (expiry (timers s)) ps h).
Proof.
  intros Ha Hn Hlive Hlt ->. unfold right_is_smaller, min_child. mrun.
  rewrite Hn. unfold zlen. case_decide as Hr.
  - rewrite (proj2 (Z.ltb_lt _ _)) by lia. mrun.
    destruct (lookup_lt_is_Some_2 ps _ Hlt) as [c Hc].
    destruct (lookup_lt_is_Some_2 ps _ Hr) as [r Hr'].
    rewrite (get_at_nat _ _ (S (2 * h + 1)) (Some r))
      by (first [lia | eapply hole_read; [done|lia|done]]).
    rewrite (load_expire_elem _ _ _ _ Hlive Hr').
    rewrite (get_at_nat _ _ (2 * h + 1) (Some c))
      by (first [lia | eapply hole_read; [done|lia|done]]).
    rewrite (load_expire_elem _ _ _ _ Hlive Hc).
    eexists. split; [done|]. case_match; lia.
  - rewrite (proj2 (Z.ltb_ge _ _)) by lia. mrun. by exists false.
Qed.

Lemma with_array_self s : with_array s (array (self s)) = s.
Proof. by destruct s as [? [] ?]. Qed.

Lemma percolate_loop_ok fuel s ps rest t h :
  <[h := Val (Some t)]> (array (self s)) = enc ps ++ rest → ps !! h = Some t →
  cur_size (self s) = zlen ps → zlen ps ≤ 2 ^ 30 →
  (∀ l, l ∈ ps → is_Some (timers s !! l)) → (length ps - h < fuel)%nat →
  ∃ a h', percolate_loop fuel (Some t) (Z.of_nat h) s = Ok (Z.of_nat h', with_array s a) ∧
    <[h' := Val (Some t)]> a = enc (sift_down (expiry (timers s)) fuel ps h) ++ rest ∧
    length a = length (array (self s)) ∧ (h' < length ps)%nat.
Proof.
  revert s ps h. induction fuel as [|fuel IH]; intros s ps h Ha Hh Hn Hmax Hlive Hfuel; [lia|].
  pose proof (lookup_lt_Some _ _ _ Hh) as Hlt.
  assert (length (array (self s)) = (length ps + length rest)%nat) as Hlen.
  { rewrite <- (length_enc ps), <- length_app, <- Ha. by rewrite length_insert. }
  unfold zlen in Hmax. cbn [percolate_loop sift_down]. mrun.
  rewrite int_val_ok by (unfold INT_MIN, INT_MAX; lia). mrun.
  rewrite int_val_ok by (unfold INT_MIN, INT_MAX; lia). mrun.
  rewrite Hn. unfold zlen.
  destruct (Z.leb_spec (Z.of_nat h * 2 + 1) (Z.of_nat (length ps) - 1)); mrun.
  2:{ exists (array (self s)), h. rewrite with_array_self, decide_False by lia. done. }
  rewrite decide_True by lia.
  destruct (right_is_smaller_ok s ps rest t h (Z.of_nat h * 2 + 1)) as (b & -> & ->);
    [done..|lia|lia|].
  set (f := expiry (timers s)). destruct (min_child_spec f ps h) as (Hc & _ & Hhc & _); [lia|].
  set (c := min_child f ps h) in *. destruct (lookup_lt_is_Some_2 ps c Hc) as [l Hl].
  rewrite (get_at_nat _ _ c (Some l)) by (first [done | eapply hole_read; [done|lia|done]]).
  rewrite (load_expire_elem _ _ _ _ Hlive Hl), (load_expire_elem _ _ _ _ Hlive Hh).
  fold f. destruct (key f ps c <? key f ps h); mrun.
  - rewrite (get_at_nat _ _ c (Some l)) by (first [done | eapply hole_read; [done|lia|done]]).
    rewrite (set_at_nat _ _ h) by lia.
    edestruct (IH (with_array s (<[h:=Val (Some l)]> (array (self s)))) (swap ps h c) c)
      as (a & h' & Hrun & Ha' & Hlen' & Hh').
    + eapply hole_move; [done..|lia].
    + unfold swap. rewrite Hh, Hl. by rewrite list_lookup_insert_eq by (rewrite length_insert; done).
    + cbn. rewrite Hn. unfold zlen. by rewrite length_swap.
    + unfold zlen. by rewrite length_swap.
    + cbn. intros l'. rewrite swap_perm. apply Hlive.
    + rewrite length_swap. lia.
    + exists a, h'. rewrite Hrun. split; [done|]. rewrite length_swap in Hh'.
      cbn in Ha', Hlen'. rewrite length_insert in Hlen'. done.
  - exists (array (self s)), h. by rewrite with_array_self.
Qed.

(** Percolating down an element that is not there does nothing but rewrite
    the cell. *)
Lemma percolate_down_empty s p :
  array (self s) !! 0%nat = Some (Val p) → cur_size (self s) = 0 →
  percolate_down 0 s = Ok (tt, s).
Proof.
  intros Ha Hn. unfold percolate_down. mrun. rewrite (get_at_nat _ _ 0 p) by done.
  rewrite Hn. change (Z.to_nat 0) with O. cbn [percolate_loop]. mrun.
  rewrite !int_val_ok by (unfold INT_MIN, INT_MAX; lia). mrun. rewrite Hn.
  rewrite (proj2 (Z.leb_gt _ _)) by lia. mrun.
  rewrite (set_at_nat _ _ 0) by (first [done | by eapply lookup_lt_Some]).
  rewrite list_insert_id by done. by rewrite with_array_self.
Qed.

#[local] Arguments percolate_loop : simpl never.

(** [percolate_down] on an array that starts with [ps] sifts down. *)
Lemma percolate_down_ok s ps rest h z :
  z = Z.of_nat h → array (self s) = enc ps ++ rest → cur_size (self s) = zlen ps → zlen ps ≤ 2 ^ 30 →
  (∀ l, l ∈ ps → is_Some (timers s !! l)) → (h < length ps)%nat →
  percolate_down z s =
    Ok (tt, with_array s
      (enc (sift_down (expiry (timers s)) (S (length ps)) ps h) ++ rest)).
Proof.
  intros -> Ha Hn Hmax Hlive Hh. destruct (lookup_lt_is_Some_2 ps h Hh) as [t Ht].
  assert (Hat : array (self s) !! h = Some (Val (Some t))).
  { rewrite Ha. by apply lookup_app_l_Some, enc_lookup. }
  unfold percolate_down. mrun. rewrite (get_at_nat _ _ h (Some t)) by done. rewrite Hn.
  replace (Z.to_nat (zlen ps)) with (length ps) by (unfold zlen; lia).
  destruct (percolate_loop_ok (S (length ps)) s ps rest t h)
    as (a & h' & Hrun & Ha' & Hlen & Hh'); [|done..|lia|].
  { by rewrite list_insert_id. }
  rewrite Hrun. rewrite (set_at_nat _ _ h'); [|done|].
  - cbn [with_array self array]. by rewrite Ha'.
  - cbn. rewrite Hlen, Ha, length_app, length_enc. lia.
Qed.

Lemma add_loop_ok fuel s ps rest t h :
  <[h := Val (Some t)]> (array (self s)) = enc ps ++ rest → ps !! h = Some t →
  (∀ l, l ∈ ps → is_Some (timers s !! l)) → (h < fuel)%nat →
  ∃ a h', add_loop fuel (Some t) (Z.of_nat h) s = Ok (Z.of_nat h', with_array s a) ∧
    <[h' := Val (Some t)]> a = enc (sift_up (expiry (timers s)) fuel ps h) ++ rest ∧
    length a = length (array (self s)) ∧ (h' < length ps)%nat.
Proof.
  revert s ps h. induction fuel as [|fuel IH]; intros s ps h Ha Hh Hlive Hfuel; [lia|].
  pose proof (lookup_lt_Some _ _ _ Hh) as Hlt.
  assert (length (array (self s)) = (length ps + length rest)%nat) as Hlen.
  { rewrite <- (length_enc ps), <- length_app, <- Ha. by rewrite length_insert. }
  cbn [add_loop sift_up]. destruct (Z.ltb_spec 0 (Z.of_nat h)); mrun.
  2:{ exists (array (self s)), h. rewrite with_array_self, decide_False by lia. done. }
  rewrite decide_True by lia.
  replace ((Z.of_nat h - 1) ÷ 2) with (Z.of_nat (parent h)) by (unfold parent; lia).
  assert (parent h < h)%nat by (unfold parent; lia).
  set (f := expiry (timers s)). remember (parent h) as c eqn:Hc.
  destruct (lookup_lt_is_Some_2 ps c) as [l Hl]; [lia|].
  rewrite (get_at_nat _ _ c (Some l)) by (first [done | eapply hole_read; [done|lia|done]]).
  rewrite (load_expire_elem _ _ _ _ Hlive Hl), (load_expire_elem _ _ _ _ Hlive Hh).
  fold f. destruct (key f ps c <=? key f ps h); mrun.
  - exists (array (self s)), h. by rewrite with_array_self.
  - rewrite (get_at_nat _ _ c (Some l)) by (first [done | eapply hole_read; [done|lia|done]]).
    rewrite (set_at_nat _ _ h) by lia.
    edestruct (IH (with_array s (<[h:=Val (Some l)]> (array (self s)))) (swap ps h c) c)
      as (a & h' & Hrun & Ha' & Hlen' & Hh').
    + eapply hole_move; [done..|lia].
    + unfold swap. rewrite Hh, Hl. rewrite list_lookup_insert_eq; [done|].
      rewrite length_insert. lia.
    + cbn. intros l'. rewrite swap_perm. apply Hlive.
    + lia.
    + exists a, h'. rewrite Hrun. split; [done|]. rewrite length_swap in Hh'.
      cbn in Ha', Hlen'. rewrite length_insert in Hlen'. done.
Qed.

#[local] Arguments add_loop : simpl never.

Lemma upd_ok (a : list (cell ptr)) k p s :
  (k < length a)%nat → upd a (Z.of_nat k) p s = Ok (<[k := Val p]> a, s).
Proof.
  intros Hk. unfold upd. rewrite zupdate_in by (unfold zlen; lia). by rewrite Nat2Z.id.
Qed.

Lemma null_loop_ok n (a : list (cell ptr)) s :
  n = Z.of_nat (length a) →
  for_up 0 n (λ i a, upd a i None) a s = Ok (replicate (length a) (Val None), s).
Proof.
  intros ->. rewrite (for_up_fill _ _ (replicate (length a) (Val None))).
  - by rewrite take_ge, drop_ge, app_nil_r by (rewrite ?length_replicate; lia).
  - rewrite length_replicate. lia.
  - lia.
  - intros k a' Hk Hlen. exists (Val None). split; [by apply lookup_replicate|].
    apply upd_ok. lia.
Qed.

Context {alc : Allocator}.

Lemma new_array_ok n s :
  0 ≤ n → room n → new_array n s = Ok (replicate (Z.to_nat n) Indet, s).
Proof.
  intros Hn Hroom. unfold new_array. rewrite (proj2 (Z.leb_le 0 n)) by done.
  apply Is_true_true in Hroom. by rewrite Hroom.
Qed.

Lemma resize_ok s ps :
  heap_rep s ps → capacity (self s) < 2 ^ 30 → room (2 * capacity (self s)) →
  resize s = Ok (tt, mkState (timers s)
    (mkHeap (enc ps ++ replicate (Z.to_nat (2 * capacity (self s)) - length ps) (Val None))
      (2 * capacity (self s)) (cur_size (self s))) (world s)).
Proof.
  intros ((rest & Ha & _) & Hn & Hcap & _ & _ & _) Hmax Hroom.
  pose proof (zlen_nonneg (array (self s))).
  assert (length ps ≤ length (array (self s)))%nat.
  { rewrite Ha, length_app, length_enc. lia. }
  unfold resize. mrun. rewrite int_val_ok by (unfold INT_MIN, INT_MAX; lia). mrun.
  rewrite new_array_ok by (done || lia).
  rewrite null_loop_ok by (rewrite length_replicate; lia).
  rewrite Hn. unfold zlen. rewrite (for_up_fill _ _ (enc ps)).
  - rewrite take_ge by (rewrite length_enc; lia). rewrite drop_replicate, !length_replicate.
    done.
  - by rewrite length_enc.
  - rewrite !length_replicate. unfold zlen in *. lia.
  - intros k a Hk Hlen. destruct (lookup_lt_is_Some_2 ps k Hk) as [l Hl].
    exists (Val (Some l)). split; [by apply enc_lookup|]. mrun.
    rewrite (get_at_nat _ _ k (Some l)); [|done|].
    + apply upd_ok. rewrite Hlen, !length_replicate. unfold zlen in *. lia.
    + rewrite Ha. by apply lookup_app_l_Some, enc_lookup.
Qed.

(** [add_timer] on an array with a free cell. *)
Lemma add_timer_room s ps t c rest :
  array (self s) = enc ps ++ c :: rest → cur_size (self s) = zlen ps →
  cur_size (self s) < capacity (self s) → zlen ps < 2 ^ 30 →
  (∀ l, l ∈ ps → is_Some (timers s !! l)) → is_Some (timers s !! t) →
  add_timer (Some t) s = Ok (tt, mkState (timers s)
    (mkHeap (enc (sift_up (expiry (timers s)) (S (length ps)) (ps ++ [t]) (length ps)) ++ rest)
      (capacity (self s)) (cur_size (self s) + 1)) (world s)).
Proof.
  intros Ha Hn Hcap Hmax Hlive Ht. unfold zlen in *.
  unfold add_timer. rewrite bool_decide_eq_false_2 by done. mrun.
  rewrite (proj2 (Z.leb_gt _ _)) by lia. mrun.
  rewrite int_val_ok by (unfold INT_MIN, INT_MAX; lia). unfold set_cur_size, set_self. mrun.
  rewrite Hn, Nat2Z.id.
  set (s1 := mkState (timers s) (mkHeap (array (self s)) (capacity (self s))
    (Z.of_nat (length ps) + 1)) (world s)).
  destruct (add_loop_ok (S (length ps)) s1 (ps ++ [t]) rest t (length ps))
    as (a & h' & Hrun & Ha' & Hlen & Hh').
  - cbn. rewrite Ha. unfold enc. rewrite fmap_app, <- app_assoc.
    rewrite insert_app_r_alt by (rewrite length_fmap; lia).
    by rewrite length_fmap, Nat.sub_diag.
  - by rewrite lookup_app_r, Nat.sub_diag by lia.
  - cbn. intros l. rewrite elem_of_app, list_elem_of_singleton. intros [?| ->]; [|done].
    by apply Hlive.
  - lia.
  - rewrite Hrun. rewrite (set_at_nat _ _ h'); [|done|].
    + cbn. by rewrite Ha'.
    + cbn in *. rewrite Hlen, Ha, length_app, length_enc. rewrite length_app in Hh'.
      simpl in *. lia.
Qed.

(** The heap that [add_timer] leaves when a cell is free. *)
Lemma add_timer_heap s ps t c rest :
  is_timer_heap s ps → array (self s) = enc ps ++ c :: rest → t ∉ ps →
  is_Some (timers s !! t) → Forall (λ c, c ≠ Indet) rest →
  ∃ s' ps', add_timer (Some t) s = Ok (tt, s') ∧ is_timer_heap s' ps' ∧
    ps' ≡ₚ t :: ps ∧ timers s' = timers s ∧ world s' = world s ∧
    capacity (self s') = capacity (self s).
Proof.
  intros [(_ & Hn & Hcap & Hmax & Hnd & Hlive) Hh] Ha Ht Htl Hrest.
  pose proof Hcap as Hcap'. rewrite Ha in Hcap'. unfold zlen in *.
  rewrite length_app, length_enc in Hcap'. simpl in Hcap'.
  pose proof (sift_up_snoc _ _ t Hh) as Hh'.
  pose proof (add_timer_room s ps t c rest) as Hrun.
  remember (sift_up (expiry (timers s)) (S (length ps)) (ps ++ [t]) (length ps)) as ps' eqn:Eps.
  assert (Hperm : ps' ≡ₚ t :: ps).
  { rewrite Eps, sift_up_perm. by rewrite Permutation_app_comm. }
  eexists _, ps'. split; [eapply Hrun; unfold zlen; try done; lia|].
  split_and!; try done. split; [|done].
  unfold heap_rep. cbn. split_and!.
  - by exists rest.
  - unfold zlen. rewrite Hperm. simpl. lia.
  - unfold zlen. rewrite length_app, length_enc. rewrite Hperm. simpl. lia.
  - done.
  - rewrite Hperm. by constructor.
  - intros l. rewrite Hperm. rewrite elem_of_cons. intros [->|?]; [done|by apply Hlive].
Qed.

Lemma add_timer_resize s s1 t :
  capacity (self s) ≤ cur_size (self s) → resize s = Ok (tt, s1) →
  cur_size (self s1) = cur_size (self s) → cur_size (self s1) < capacity (self s1) →
  add_timer (Some t) s = add_timer (Some t) s1.
Proof.
  intros Hfull Hrun Hsize Hfree. unfold add_timer.
  rewrite !bool_decide_eq_false_2 by done. mrun.
  rewrite (proj2 (Z.leb_le _ _)) by done. rewrite Hrun.
  rewrite (proj2 (Z.leb_gt _ _)) by done. mrun. by rewrite Hsize.
Qed.

(** Doubling keeps the heap and frees a cell. *)
Lemma resize_heap s ps :
  is_timer_heap s ps → 0 < capacity (self s) < 2 ^ 29 → capacity (self s) ≤ cur_size (self s) →
  room (2 * capacity (self s)) →
  ∃ s1 rest, resize s = Ok (tt, s1) ∧ is_timer_heap s1 ps ∧
    array (self s1) = enc ps ++ Val None :: rest ∧ Forall (λ c, c ≠ Indet) rest ∧
    capacity (self s1) = 2 * capacity (self s) ∧ cur_size (self s1) = cur_size (self s) ∧
    timers s1 = timers s ∧ world s1 = world s.
Proof.
  intros [Hrep Hh] Hcap Hfull Hroom. pose proof (resize_ok s ps Hrep) as Hrun.
  destruct Hrep as ((rest & Ha & Hrest) & Hn & Hc & Hmax & Hnd & Hlive).
  pose proof Hc as Hc'. rewrite Ha in Hc'. unfold zlen in Hn, Hc'.
  rewrite length_app, length_enc in Hc'.
  assert (Hrepl : replicate (Z.to_nat (2 * capacity (self s)) - length ps) (Val (None : ptr)) =
    Val None :: replicate (Z.to_nat (2 * capacity (self s)) - length ps - 1) (Val None)).
  { destruct (Z.to_nat (2 * capacity (self s)) - length ps)%nat eqn:E; [lia|].
    simpl. by rewrite Nat.sub_0_r. }
  rewrite Hrepl in Hrun.
  eexists _, _. split; [apply Hrun; [lia|done]|]. cbn.
  assert (Forall (λ c : cell ptr, c ≠ Indet)
    (replicate (Z.to_nat (2 * capacity (self s)) - length ps - 1) (Val None))).
  { by apply Forall_replicate. }
  split_and!; try done. split; [|done]. unfold heap_rep. cbn. split_and!; try done; [| |lia].
  - eexists. split; [done|]. by constructor.
  - unfold zlen. rewrite length_app, length_enc. cbn. rewrite length_replicate. lia.
Qed.

(** C38: [add_timer] puts its timer into the heap, which stays in heap order;
    when the array is full it is first doubled, and nothing is lost. *)
Theorem add_timer_inserts s ps t :
  is_timer_heap s ps → t ∉ ps → is_Some (timers s !! t) →
  0 < capacity (self s) < 2 ^ 29 → room (2 * capacity (self s)) →
  ∃ s' ps', add_timer (Some t) s = Ok (tt, s') ∧ is_timer_heap s' ps' ∧
    ps' ≡ₚ t :: ps ∧ timers s' = timers s ∧ world s' = world s ∧
    capacity (self s') =
      if bool_decide (cur_size (self s) < capacity (self s)) then capacity (self s)
      else 2 * capacity (self s).
Proof.
  intros Hheap Ht Htl Hcap Hroom. case_bool_decide as Hfree.
  - pose proof Hheap as [((rest & Ha & Hrest) & Hn & Hc & _) _].
    destruct rest as [|c rest].
    { exfalso. rewrite Ha in Hc. unfold zlen in *. rewrite app_nil_r, length_enc in Hc. lia. }
    apply Forall_cons in Hrest as [_ Hrest]. by eapply add_timer_heap.
  - destruct (resize_heap s ps) as (s1 & rest & Hrun & Hheap1 & Ha & Hrest & Hc & Hn & Htm & Hw);
      [done|done|lia|done|].
    pose proof (heap_rep_size _ _ (proj1 Hheap)).
    rewrite (add_timer_resize s s1) by (done || lia). rewrite <- Htm, <- Hw, <- Hc.
    eapply add_timer_heap; try done. by rewrite Htm.
Qed.

Lemma is_timer_heap_min s x ps l :
  is_timer_heap s (x :: ps) → l ∈ x :: ps → expiry (timers s) x ≤ expiry (timers s) l.
Proof. intros [_ Hh]. by apply is_heap_min. Qed.

Lemma top_ok s x ps : heap_rep s (x :: ps) → top s = Ok (Some x, s).
Proof.
  intros ((rest & Ha & _) & Hn & _). unfold top, empty. mrun. rewrite Hn.
  rewrite (proj2 (Z.eqb_neq _ _)) by (unfold zlen; simpl; lia).
  by rewrite (get_at_nat _ _ 0 (Some x)) by (rewrite ?Ha; done).
Qed.

Lemma expiry_delete m x l : x ≠ l → expiry (delete x m) l = expiry m l.
Proof. intros. unfold expiry. by rewrite lookup_delete_ne. Qed.

Lemma key_ext (f g : loc → Z) ps i :
  (∀ l, l ∈ ps → f l = g l) → key f ps i = key g ps i.
Proof.
  intros Hfg. unfold key. destruct (ps !! i) eqn:E; [|done]. simpl.
  apply Hfg. by eapply list_elem_of_lookup_2.
Qed.

Lemma is_heap_ext (f g : loc → Z) ps :
  (∀ l, l ∈ ps → f l = g l) → is_heap f ps → is_heap g ps.
Proof.
  intros Hfg Hh i Hi Hp. rewrite <- !(key_ext f g ps _ Hfg). by apply Hh.
Qed.

(** Removing the root: the last element replaces it and is sifted down. *)
Lemma heap_remove_root m x qs y :
  is_heap (expiry m) (x :: qs ++ [y]) → NoDup (x :: qs ++ [y]) →
  is_heap (expiry (delete x m))
    (sift_down (expiry (delete x m)) (S (length (y :: qs))) (y :: qs) 0).
Proof.
  intros Hh Hnd. apply (is_heap_app _ (x :: qs) [y]) in Hh.
  apply NoDup_cons in Hnd as [Hx _].
  pose proof (sift_down_root (expiry m) (x :: qs) y Hh) as Hroot. simpl in Hroot.
  apply (sift_down_heap (expiry (delete x m)) _ 0 0); [simpl; lia|lia|].
  split; simpl; intros k Hk; intros; [|lia].
  assert (Hkey : ∀ i, (0 < i)%nat →
    key (expiry (delete x m)) (y :: qs) i = key (expiry m) (x :: qs) i).
  { intros [|i] Hi; [lia|]. unfold key. simpl. destruct (qs !! i) eqn:E; [|done]. simpl.
    apply expiry_delete. intros ->. apply Hx, elem_of_app. left.
    by eapply list_elem_of_lookup_2. }
  rewrite !Hkey by (unfold parent in *; lia). apply Hh; simpl; lia.
Qed.

(** What [pop_timer] leaves: the root is freed, the rest is a heap. *)
Lemma pop_timer_heap s x ps :
  is_timer_heap s (x :: ps) →
  ∃ s' ps', pop_timer s = Ok (tt, s') ∧ is_timer_heap s' ps' ∧ ps' ≡ₚ ps ∧
    timers s' = delete x (timers s) ∧ world s' = world s ∧
    capacity (self s') = capacity (self s).
Proof.
  intros [((rest & Ha & Hrest) & Hn & Hcap & Hmax & Hnd & Hlive) Hh].
  pose proof Hnd as [Hx Hnd']%NoDup_cons.
  destruct (Hlive x) as [tx Htx]; [by left|].
  unfold zlen in *. rewrite Ha, length_app, length_enc in Hcap. simpl in Hcap, Hn.
  unfold pop_timer, empty. mrun. rewrite (proj2 (Z.eqb_neq _ _)) by lia. mrun.
  rewrite (get_at_nat _ _ 0 (Some x)) by (rewrite ?Ha; done).
  rewrite bool_decide_eq_true_2 by done. mrun.
  rewrite (free_ok _ _ tx) by done. unfold set_cur_size, set_self. mrun. rewrite Hn.
  assert (Hlive' : ∀ l, l ∈ ps → is_Some (delete x (timers s) !! l)).
  { intros l Hl. rewrite lookup_delete_ne by (intros ->; done). apply Hlive. by right. }
  destruct ps as [|y qs _] using rev_ind.
  - rewrite (get_at_nat _ _ 0 (Some x)); [|simpl; lia|by cbn; rewrite Ha].
    rewrite (set_at_nat _ _ 0); [|done|cbn; rewrite Ha; simpl; lia].
    rewrite (percolate_down_empty _ (Some x)); [|by cbn; rewrite Ha|done].
    eexists _, []. split; [done|]. split_and!; try done.
    split; [|intros i Hi; simpl in Hi; lia]. unfold heap_rep. cbn. rewrite Ha. cbn.
    split_and!; [|done|unfold zlen; simpl in *; lia|done|constructor|done].
    exists (Val (Some x) :: rest). split; [done|]. by constructor.
  - assert (Hlast : array (self s) !! S (length qs) = Some (Val (Some y))).
    { rewrite Ha. simpl. unfold enc. rewrite fmap_app, <- app_assoc.
      by rewrite lookup_app_r, length_fmap, Nat.sub_diag by (rewrite length_fmap; lia). }
    rewrite length_app in *. simpl in *.
    rewrite (get_at_nat _ _ (S (length qs)) (Some y)) by (cbn; first [done|lia]).
    rewrite (set_at_nat _ _ 0); [|done|cbn; rewrite Ha; simpl; lia].
    unfold with_array. cbn.
    assert (Ha' : <[0%nat := Val (Some y)]> (array (self s)) =
      enc (y :: qs) ++ Val (Some y) :: rest).
    { rewrite Ha. simpl. unfold enc. by rewrite fmap_app, <- app_assoc. }
    rewrite Ha'.
    assert (Hperm : y :: qs ≡ₚ qs ++ [y]) by (by rewrite Permutation_app_comm).
    rewrite (percolate_down_ok _ (y :: qs) (Val (Some y) :: rest) 0);
      [|done|done|cbn; unfold zlen; simpl; lia|unfold zlen; simpl; lia| |simpl; lia].
    2:{ cbn. intros l. rewrite Hperm. apply Hlive'. }
    cbn -[sift_down]. pose proof (heap_remove_root (timers s) x qs y Hh Hnd) as Hh'.
    remember (sift_down _ _ _ _) as ps' eqn:Eps.
    assert (Hps : ps' ≡ₚ qs ++ [y]) by (by rewrite Eps, sift_down_perm).
    eexists _, ps'. split; [done|].
    split_and!; try done. split; [|done]. unfold heap_rep. cbn.
    split_and!; [|unfold zlen| |done| |].
    + exists (Val (Some y) :: rest). split; [done|]. by constructor.
    + rewrite Hps, length_app. simpl. lia.
    + unfold zlen. rewrite length_app, length_enc, Hps, length_app. simpl. lia.
    + by rewrite Hps.
    + intros l. rewrite Hps. apply Hlive'.
Qed.

(** [top] is a timer that expires no later than any other; [pop_timer]
    frees it, and the others are in heap order again. *)
Lemma pop_timer_removes_min s x ps :
  is_timer_heap s (x :: ps) →
  top s = Ok (Some x, s) ∧
  (∀ l, l ∈ ps → expiry (timers s) x ≤ expiry (timers s) l) ∧
  ∃ s' ps', pop_timer s = Ok (tt, s') ∧ is_timer_heap s' ps' ∧ ps' ≡ₚ ps ∧
    timers s' = delete x (timers s) ∧ world s' = world s ∧
    capacity (self s') = capacity (self s).
Proof.
  intros Hheap. split_and!.
  - apply (top_ok s x ps), Hheap.
  - intros l Hl. eapply is_timer_heap_min; [done|by right].
  - by apply pop_timer_heap.
Qed.

Lemma is_timer_heap_nil s :
  Forall (λ c, c ≠ Indet) (array (self s)) → cur_size (self s) = 0 →
  capacity (self s) = zlen (array (self s)) → capacity (self s) ≤ 2 ^ 30 →
  is_timer_heap s [].
Proof.
  intros Ha Hn Hc Hmax. split; [|intros i Hi; simpl in Hi; lia].
  split_and!; try done; [by exists (array (self s))|constructor|set_solver].
Qed.

Lemma make_heap_empty cap s :
  0 ≤ cap ≤ 2 ^ 30 → room cap →
  ∃ s', make_heap cap s = Ok (tt, s') ∧ is_timer_heap s' [] ∧
    capacity (self s') = cap ∧ timers s' = timers s ∧ world s' = world s.
Proof.
  intros Hcap Hroom. unfold make_heap. mrun.
  rewrite new_array_ok by (done || lia).
  rewrite null_loop_ok by (rewrite length_replicate; lia).
  rewrite length_replicate. eexists. split; [done|]. split_and!; try done.
  apply is_timer_heap_nil; cbn; [by apply Forall_replicate|done| |lia].
  unfold zlen. rewrite length_replicate. lia.
Qed.

Lemma at_nat (a : list (cell ptr)) z i p s :
  z = Z.of_nat i → a !! i = Some (Val p) → at_ a z s = Ok (p, s).
Proof.
  intros -> Hi. unfold at_, zlookup. rewrite bool_decide_eq_true_2 by lia.
  by rewrite Nat2Z.id, Hi.
Qed.

(** The two loops of the second constructor. *)
Lemma copy_init_ok s init ps rest :
  init = enc ps ++ rest → (length ps ≤ length (array (self s)))%nat →
  ∃ u, for_up 0 (zlen ps) (λ i _, copy_cell init i) tt s =
    Ok (u, with_array s (enc ps ++ drop (length ps) (array (self s)))).
Proof.
  intros -> Hlen.
  destruct (for_up_rule
    (λ k (_ : unit) s', s' = with_array s
       (take (Z.to_nat k) (enc ps) ++ drop (Z.to_nat k) (array (self s))))
    0 (zlen ps) (λ i _, copy_cell (enc ps ++ rest) i) tt s)
    as (u & s' & -> & ->).
  - apply zlen_nonneg.
  - simpl. by rewrite with_array_self.
  - unfold zlen. intros k [] s' Hk ->. 
    destruct (lookup_lt_is_Some_2 ps (Z.to_nat k)) as [l Hl]; [lia|].
    apply enc_lookup in Hl. pose proof (length_enc ps).
    eexists tt, _. unfold copy_cell. mrun. rewrite (at_nat _ _ (Z.to_nat k) (Some l));
      [|lia|by apply lookup_app_l_Some].
    rewrite (set_at_nat _ _ (Z.to_nat k)); [|lia|].
    + split; [done|]. unfold with_array. cbn.
      rewrite (take_S_insert _ _ _ _ Hl) by lia.
      by replace (Z.to_nat (k + 1)) with (S (Z.to_nat k)) by lia.
    + cbn. rewrite length_app, length_take, length_drop. lia.
  - exists u. unfold zlen. rewrite Nat2Z.id.
    by rewrite (take_ge (enc ps)) by (rewrite length_enc; lia).
Qed.

Lemma build_loop_ok s ps rest :
  array (self s) = enc ps ++ rest → cur_size (self s) = zlen ps → 0 < zlen ps ≤ 2 ^ 30 →
  (∀ l, l ∈ ps → is_Some (timers s !! l)) →
  ∃ u qs, for_down ((zlen ps - 1) ÷ 2) (λ i _, percolate_down i) tt s =
      Ok (u, with_array s (enc qs ++ rest)) ∧
    qs ≡ₚ ps ∧ is_heap (expiry (timers s)) qs.
Proof.
  intros Ha Hn Hmax Hlive.
  destruct (for_down_rule
    (λ k (_ : unit) s', ∃ qs, s' = with_array s (enc qs ++ rest) ∧ qs ≡ₚ ps ∧
       heap_from (expiry (timers s)) (Z.to_nat (k + 1)) qs)
    ((zlen ps - 1) ÷ 2) (λ i _, percolate_down i) tt s)
    as (u & s' & Hrun & qs & -> & Hperm & Hh).
  - lia.
  - exists ps. split_and!; [by rewrite <- Ha, with_array_self|done|].
    unfold zlen in *.
    replace (Z.to_nat _) with ((length ps - 1) / 2 + 1)%nat by lia. apply heap_from_half.
  - intros k [] s' Hk (qs & -> & Hperm & Hh).
    assert (Hlen : length qs = length ps) by (by rewrite Hperm).
    unfold zlen in *. rewrite (percolate_down_ok _ qs rest (Z.to_nat k));
      [|lia|done|cbn; unfold zlen; by rewrite Hlen|unfold zlen; lia| |lia].
    2:{ cbn. intros l. rewrite Hperm. apply Hlive. }
    eexists tt, _. split; [done|]. eexists. split; [done|].
    split; [by rewrite sift_down_perm|]. cbn.
    replace (Z.to_nat (k - 1 + 1)) with (Z.to_nat k) by lia. apply sift_down_step.
    by replace (S (Z.to_nat k)) with (Z.to_nat (k + 1)) by lia.
  - exists u, qs. by rewrite Hrun.
Qed.

(** The constructor that is given an array of timers makes a heap of exactly
    these timers. *)
Lemma make_heap_from_builds s init ps rest size cap :
  init = enc ps ++ rest → size = zlen ps → NoDup ps →
  (∀ l, l ∈ ps → is_Some (timers s !! l)) →
  size ≤ cap ≤ 2 ^ 30 → room cap →
  ∃ s' qs, make_heap_from init size cap s = Ok (tt, s') ∧ is_timer_heap s' qs ∧
    qs ≡ₚ ps ∧ timers s' = timers s ∧ world s' = world s ∧ capacity (self s') = cap.
Proof.
  intros Hinit -> Hnd Hlive Hcap Hroom. pose proof (zlen_nonneg ps).
  unfold make_heap_from. rewrite (proj2 (Z.ltb_ge _ _)) by lia. mrun.
  rewrite new_array_ok by (done || lia).
  rewrite null_loop_ok by (rewrite length_replicate; lia).
  rewrite length_replicate. unfold set_self. mrun.
  set (s1 := mkState (timers s) (mkHeap (replicate (Z.to_nat cap) (Val None)) cap (zlen ps))
    (world s)).
  destruct (Z.eqb_spec (zlen ps) 0) as [Hz|Hnz].
  - destruct ps; [|unfold zlen in Hz; simpl in Hz; lia]. mrun.
    exists s1, []. split_and!; try done. unfold s1. apply is_timer_heap_nil; cbn; try done; [| |lia].
    + by apply Forall_replicate.
    + unfold zlen. rewrite length_replicate. lia.
  - mrun. destruct (copy_init_ok s1 init ps rest Hinit) as (u & Hrun).
    { cbn. rewrite length_replicate. unfold zlen in *. lia. }
    rewrite Hrun. cbn [self s1 array] in *. rewrite drop_replicate in *.
    set (r := replicate (Z.to_nat cap - length ps) (Val None)) in *.
    destruct (build_loop_ok (with_array s1 (enc ps ++ r)) ps r)
      as ([] & qs & Hrun' & Hperm & Hh); [done|done|lia|done|].
    rewrite Hrun'. eexists _, qs. split; [done|]. split_and!; try done. split; [|done].
    unfold heap_rep. cbn. split_and!; [|unfold zlen; by rewrite Hperm| |lia|by rewrite Hperm|].
    + exists r. split; [done|]. by apply Forall_replicate.
    + unfold zlen, r in *. rewrite length_app, length_enc, length_replicate, Hperm. lia.
    + intros l. rewrite Hperm. apply Hlive.
Qed.

(** The destructor frees the timers in the heap and no others. *)
Lemma destroy_frees_all s ps :
  heap_rep s ps →
  ∃ s', destroy_heap s = Ok (tt, s') ∧ timers s' = foldl (λ m l, delete l m) (timers s) ps ∧
    cur_size (self s') = 0 ∧ world s' = world s.
Proof.
  intros ((rest & Ha & _) & Hn & _ & _ & Hnd & Hlive). unfold destroy_heap. mrun. rewrite Hn.
  destruct (for_up_rule
    (λ k (_ : unit) s', s' = mkState (foldl (λ m l, delete l m) (timers s)
       (take (Z.to_nat k) ps)) (self s) (world s))
    0 (zlen ps) (λ i _, free_cell i) tt s) as (u & s' & Hrun & ->).
  - apply zlen_nonneg.
  - by destruct s.
  - unfold zlen. intros k [] s' Hk ->.
    destruct (lookup_lt_is_Some_2 ps (Z.to_nat k)) as [l Hl]; [lia|].
    unfold free_cell. mrun. rewrite (get_at_nat _ _ (Z.to_nat k) (Some l));
      [|lia|cbn; rewrite Ha; by apply lookup_app_l_Some, enc_lookup].
    destruct (Hlive l) as [t Ht]; [by eapply list_elem_of_lookup_2|].
    assert (Hnot : l ∉ take (Z.to_nat k) ps).
    { intros (j & Hj)%list_elem_of_lookup. apply lookup_take_Some in Hj as [Hj Hjk].
      pose proof (NoDup_lookup _ _ _ _ Hnd Hj Hl). lia. }
    eexists tt, _. rewrite (free_ok _ _ t).
    + split; [done|]. cbn. replace (Z.to_nat (k + 1)) with (S (Z.to_nat k)) by lia.
      by rewrite (take_S_r _ _ _ Hl), foldl_app.
    + cbn. clear -Hnot Ht. revert Hnot Ht. generalize (timers s).
      induction (take (Z.to_nat k) ps) as [|x xs IH]; intros m Hnot Ht; [done|].
      rewrite not_elem_of_cons in Hnot. destruct Hnot. simpl. apply IH; [done|].
      by rewrite lookup_delete_ne.
  - mrun. rewrite Hrun. eexists. split; [done|]. cbn. unfold zlen.
    by rewrite Nat2Z.id, take_ge by lia.
Qed.

(** A heap made with capacity 0 cannot grow: doubling leaves it empty and
    the first insertion writes out of bounds. *)
Lemma zero_capacity_overflows s t :
  array (self s) = [] → capacity (self s) = 0 → cur_size (self s) = 0 → room 0 →
  add_timer (Some t) s = UB OutOfBounds.
Proof.
  intros Ha Hc Hn Hroom. unfold add_timer. mrun. rewrite Hc, Hn. mrun.
  unfold resize. mrun. rewrite Hc, Hn. rewrite int_val_ok by (unfold INT_MIN, INT_MAX; lia).
  mrun. rewrite (new_array_ok (2 * 0)) by done. mrun.
  unfold for_up. change (Z.to_nat (2 * 0 - 0)) with O. change (Z.to_nat (0 - 0)) with O.
  unfold set_self. mrun. rewrite int_val_ok by (unfold INT_MIN, INT_MAX; lia).
  unfold set_cur_size, set_self. mrun. done.
Qed.

(** ** [tick] *)

Lemma first_cell s ps :
  heap_rep s ps → 0 < capacity (self s) →
  ∃ p, get_at 0 s = Ok (p, s) ∧ ∀ x qs, ps = x :: qs → p = Some x.
Proof.
  intros ((rest & Ha & Hrest) & Hn & Hcap & _) Hpos. rewrite Ha in Hcap.
  destruct ps as [|x qs].
  - destruct rest as [|[|p] rest]; [unfold zlen in Hcap; simpl in Hcap; lia| |].
    + apply Forall_cons in Hrest as [? _]. done.
    + exists p. rewrite (get_at_nat _ _ 0 p) by (rewrite ?Ha; done). split; naive_solver.
  - exists (Some x). rewrite (get_at_nat _ _ 0 (Some x)) by (rewrite ?Ha; done).
    split; [done|]. by intros ? ? [= -> _].
Qed.

(** The callbacks are code of the timers' owners. They are assumed to act on
    the rest of the program only: they neither add nor remove timers. *)
Variable call : Z → Z → M (state World) unit.
Variable act : Z → Z → World → World.
Hypothesis call_act : ∀ f u s,
  call f u s = Ok (tt, mkState (timers s) (self s) (act f u (world s))).

(** What running the callback of a timer does to the rest of the program. *)
Definition fire (m : gmap loc heap_timer) (w : World) (l : loc) : World :=
  match m !! l with
  | Some (mkTimer _ (Val (Some f)) (Val u)) => act f u w
  | _ => w
  end.

Definition ready (t : heap_timer) : Prop :=
  (∃ cb, cb_func t = Val cb) ∧ ∃ u, user_data t = Val u.

Lemma fire_delete m w x l : x ≠ l → fire (delete x m) w l = fire m w l.
Proof. intros. unfold fire. by rewrite lookup_delete_ne. Qed.

Lemma foldl_fire_delete m w x ls :
  x ∉ ls → foldl (fire (delete x m)) w ls = foldl (fire m) w ls.
Proof.
  revert w. induction ls as [|l ls IH]; intros w; [done|]. rewrite not_elem_of_cons.
  intros [? ?]. simpl. by rewrite fire_delete, IH.
Qed.

#[local] Arguments pop_timer : simpl never.

Lemma run_callback_ok s x t :
  get_at 0 s = Ok (Some x, s) → timers s !! x = Some t → ready t →
  run_callback call s = Ok (tt, mkState (timers s) (self s) (fire (timers s) (world s) x)).
Proof.
  intros Hp Ht [[cb Hcb] [u Hu]]. unfold run_callback, fire. mrun. rewrite Hp, Ht.
  rewrite (load_ok _ x t) by done. destruct t as [e cb' u']. simpl in Hcb, Hu. subst cb' u'.
  msimp. destruct cb as [f|]; [|by destruct s].
  rewrite Hp. erewrite load_ok by done. msimp. apply call_act.
Qed.

#[local] Arguments run_callback : simpl never.

(** One iteration on a non-empty heap whose root has expired. *)
Lemma tick_loop_step fuel now s x ps :
  is_timer_heap s (x :: ps) → 0 < capacity (self s) → expiry (timers s) x ≤ now →
  (∀ t, timers s !! x = Some t → ready t) →
  ∃ s' ps' p, tick_loop call (S fuel) now (Some x) s = tick_loop call fuel now p s' ∧
    is_timer_heap s' ps' ∧ ps' ≡ₚ ps ∧ timers s' = delete x (timers s) ∧
    world s' = fire (timers s) (world s) x ∧ capacity (self s') = capacity (self s) ∧
    get_at 0 s' = Ok (p, s') ∧ ∀ y qs, ps' = y :: qs → p = Some y.
Proof.
  intros Hheap Hcap Hexp Hready. pose proof Hheap as [Hrep _].
  destruct (first_cell s _ Hrep Hcap) as (p & Hp & Hpx). rewrite (Hpx x ps eq_refl) in Hp.
  destruct Hrep as (_ & Hn & _ & _ & _ & Hlive). destruct (Hlive x) as [t Ht]; [by left|].
  cbn [tick_loop]. unfold empty. mrun. rewrite Hn.
  rewrite (proj2 (Z.eqb_neq _ _)) by (unfold zlen; simpl; lia). mrun.
  rewrite load_expire_ok by done. rewrite (proj2 (Z.ltb_ge _ _)) by done. mrun.
  rewrite (run_callback_ok s x t Hp Ht (Hready t Ht)).
  set (s1 := mkState (timers s) (self s) (fire (timers s) (world s) x)).
  destruct (pop_timer_heap s1 x ps) as (s' & ps' & Hpop & Hheap' & Hperm & Htm & Hw & Hc);
    [done|].
  rewrite Hpop. destruct (first_cell s' ps') as (p' & Hp' & Hpx'); [apply Hheap'| |].
  { rewrite Hc. done. }
  rewrite Hp'. exists s', ps', p'. rewrite Htm, Hw, Hc. done.
Qed.

Lemma tick_loop_fires fuel now s ps p :
  is_timer_heap s ps → 0 < capacity (self s) → (length ps < fuel)%nat →
  (∀ x qs, ps = x :: qs → p = Some x) →
  (∀ l t, l ∈ ps → timers s !! l = Some t → ready t) →
  ∃ s' fired left, tick_loop call fuel now p s = Ok (tt, s') ∧ is_timer_heap s' left ∧
    fired ++ left ≡ₚ ps ∧
    Forall (λ l, expiry (timers s) l ≤ now) fired ∧
    Forall (λ l, now < expiry (timers s) l) left ∧
    StronglySorted (λ l l', expiry (timers s) l ≤ expiry (timers s) l') fired ∧
    world s' = foldl (fire (timers s)) (world s) fired ∧
    timers s' = foldr delete (timers s) fired.
Proof.
  revert s ps p. induction fuel as [|fuel IH]; intros s ps p Hheap Hcap Hfuel Hp Hready; [lia|].
  destruct ps as [|x ps].
  { exists s, [], []. split_and!; try done; [|constructor].
    cbn [tick_loop]. unfold empty. mrun. destruct Hheap as [(_ & -> & _) _]. done. }
  rewrite (Hp x ps eq_refl). pose proof Hheap as [(_ & Hn & _ & _ & Hnd & Hlive) Hh].
  destruct (Z_le_gt_dec (expiry (timers s) x) now) as [Hle|Hgt].
  2:{ exists s, [], (x :: ps). split_and!; try done; [| |constructor].
      - cbn [tick_loop]. unfold empty. mrun. rewrite Hn.
        rewrite (proj2 (Z.eqb_neq _ _)) by (unfold zlen; simpl; lia). mrun.
        rewrite load_expire_ok by (apply Hlive; by left).
        by rewrite (proj2 (Z.ltb_lt _ _)) by lia.
      - apply Forall_forall. intros l Hl. pose proof (is_timer_heap_min _ _ _ _ Hheap Hl). lia. }
  destruct (tick_loop_step fuel now s x ps)
    as (s1 & ps1 & p1 & -> & Hheap1 & Hperm & Htm & Hw & Hc & _ & Hp1); [done..| |].
  { intros t. apply Hready. by left. }
  apply NoDup_cons in Hnd as [Hx _].
  assert (Hxps : ∀ l, l ∈ ps1 → x ≠ l) by (intros l Hl ->; apply Hx; by rewrite <- Hperm).
  destruct (IH s1 ps1 p1) as (s' & fired & left & Hrun & Hheap' & Hp' & Hf & Hl & Hs & Hw' & Ht');
    [done|by rewrite Hc|rewrite Hperm; simpl in Hfuel; lia|done| |].
  { intros l t Hl. rewrite Htm, lookup_delete_ne by auto. apply Hready. right. by rewrite <- Hperm. }
  rewrite Htm in *. exists s', (x :: fired), left.
  assert (Hxf : ∀ l, l ∈ fired ++ left → x ≠ l) by (intros l; rewrite Hp'; auto).
  split_and!; [done|done| | | | | |].
  - simpl. by rewrite Hp', Hperm.
  - constructor; [done|]. rewrite Forall_forall in Hf |- *. intros l Hin.
    rewrite <- (expiry_delete _ x) by (apply Hxf, elem_of_app; by left). by apply Hf.
  - rewrite Forall_forall in Hl |- *. intros l Hin.
    rewrite <- (expiry_delete _ x) by (apply Hxf, elem_of_app; by right). by apply Hl.
  - constructor.
    + eapply StronglySorted_mono; [|done]. intros l l' Hin Hin' Hle'. simpl in Hle'.
      by rewrite !expiry_delete in Hle' by (apply Hxf, elem_of_app; by left).
    + apply Forall_forall. intros l Hin. eapply is_timer_heap_min; [done|].
      right. rewrite <- Hperm, <- Hp'. apply elem_of_app. by left.
  - simpl. rewrite Hw', Hw. apply foldl_fire_delete. intros Hin.
    by apply (Hxf x); [apply elem_of_app; left|].
  - simpl. rewrite Ht'. clear. induction fired as [|l ls IH]; [done|]. simpl.
    by rewrite IH, delete_delete.
Qed.

(** C3: [tick] runs the callbacks of the timers that have expired, earliest
    first, skips the deleted ones, frees exactly these timers, and leaves the
    others in heap order. *)
Theorem tick_fires_expired fuel now s ps :
  is_timer_heap s ps → 0 < capacity (self s) → (length ps < fuel)%nat →
  (∀ l t, l ∈ ps → timers s !! l = Some t → ready t) →
  ∃ s' fired left, tick call fuel now s = Ok (tt, s') ∧ is_timer_heap s' left ∧
    fired ++ left ≡ₚ ps ∧
    Forall (λ l, expiry (timers s) l ≤ now) fired ∧
    Forall (λ l, now < expiry (timers s) l) left ∧
    StronglySorted (λ l l', expiry (timers s) l ≤ expiry (timers s) l') fired ∧
    world s' = foldl (fire (timers s)) (world s) fired ∧
    timers s' = foldr delete (timers s) fired.
Proof.
  intros Hheap Hcap Hfuel Hready.
  destruct (first_cell s ps (proj1 Hheap) Hcap) as (p & Hp & Hpx).
  unfold tick. mrun. rewrite Hp. by apply tick_loop_fires.
Qed.
End proofs.

(** ** The theorems at concrete heaps *)

Definition timer_at (k : Z) : heap_timer := mkTimer k (Val (Some 1)) (Val k).

(** Two timers in an array of three cells; a third timer is not in the heap. *)
Definition sample : state (list Z) := mkState
  (list_to_map [(1%positive, timer_at 5); (2%positive, timer_at 9); (3%positive, timer_at 2)])
  (mkHeap [Val (Some 1%positive); Val (Some 2%positive); Val None] 3 2) [].

Lemma heap_sample_rep : is_timer_heap sample [1%positive; 2%positive].
Proof.
  split.
  - split_and!; [|done|done|done|by apply (bool_decide_unpack _)|].
    + exists [Val None]. split; [done|]. by repeat constructor.
    + intros l Hl. rewrite !elem_of_cons, elem_of_nil in Hl.
      destruct Hl as [->|[->|[]]]; by eexists.
  - intros i Hi _. simpl in Hi. assert (i = 1%nat) as -> by lia. done.
Qed.

Lemma add_timer_inserts_witness :
  ∃ s' ps', add_timer (alc := bump_allocator) (Some 3%positive) sample = Ok (tt, s') ∧
    is_timer_heap s' ps' ∧ ps' ≡ₚ [3; 1; 2]%positive.
Proof.
  destruct (add_timer_inserts (alc := bump_allocator) sample [1%positive; 2%positive] 3%positive
    heap_sample_rep) as (s' & ps' & Hrun & Hrep & Hperm & _);
    [set_solver|by eexists|simpl; lia|done|].
  exists s', ps'. split_and!; assumption.
Defined.

Lemma pop_timer_removes_min_witness :
  ∃ s' ps', pop_timer sample = Ok (tt, s') ∧ is_timer_heap s' ps' ∧ ps' ≡ₚ [2%positive] ∧
    timers s' = delete 1%positive (timers sample).
Proof.
  destruct (pop_timer_removes_min sample 1%positive [2%positive] heap_sample_rep)
    as (_ & _ & s' & ps' & Hrun & Hrep & Hperm & Ht & _).
  exists s', ps'. split_and!; assumption.
Defined.

Lemma make_heap_from_builds_witness :
  ∃ s' qs, make_heap_from (alc := bump_allocator) [Val (Some 1); Val (Some 2); Val (Some 3)]%positive 3 4
      sample = Ok (tt, s') ∧ is_timer_heap s' qs ∧ qs ≡ₚ [1; 2; 3]%positive.
Proof.
  destruct (make_heap_from_builds (alc := bump_allocator) sample
    [Val (Some 1); Val (Some 2); Val (Some 3)]%positive [1; 2; 3]%positive [] 3 4)
    as (s' & qs & Hrun & Hrep & Hperm & _); [done|done|by apply (bool_decide_unpack _)| |lia|done|].
  { intros l Hl. rewrite !elem_of_cons, elem_of_nil in Hl.
    destruct Hl as [->|[->|[->|[]]]]; by eexists. }
  exists s', qs. split_and!; assumption.
Defined.

Lemma destroy_frees_all_witness :
  ∃ s', destroy_heap sample = Ok (tt, s') ∧
    timers s' = delete 2%positive (delete 1%positive (timers sample)).
Proof.
  destruct (destroy_frees_all sample [1%positive; 2%positive] (proj1 heap_sample_rep))
    as (s' & Hrun & Ht & _).
  exists s'. split_and!; assumption.
Defined.

Lemma zero_capacity_overflows_witness :
  add_timer (alc := bump_allocator) (Some 1%positive)
    (mkState (timers sample) (mkHeap [] 0 0) ([] : list Z)) = UB OutOfBounds.
Proof.
  by apply (zero_capacity_overflows (alc := bump_allocator)
    (mkState (timers sample) (mkHeap [] 0 0) ([] : list Z)) 1%positive).
Defined.

Definition record_call (f u : Z) : M (state (list Z)) unit :=
  modify (λ s, mkState (timers s) (self s) (world s ++ [u])).

(** At time 6 the first timer fires and the second one is left. *)
Lemma tick_fires_expired_witness :
  ∃ s' fired left, tick record_call 3 6 sample = Ok (tt, s') ∧ is_timer_heap s' left ∧
    fired ++ left ≡ₚ [1; 2]%positive ∧
    Forall (λ l, expiry (timers sample) l ≤ 6) fired ∧
    Forall (λ l, 6 < expiry (timers sample) l) left.
Proof.
  destruct (tick_fires_expired record_call (λ _ u w, w ++ [u]) (λ f u s, eq_refl) 3 6 sample
    [1; 2]%positive heap_sample_rep) as (s' & fired & left & Hrun & Hrep & Hperm & Hf & Hl & _);
    [simpl; lia|simpl; lia| |].
  { intros l t Hl Ht. rewrite !elem_of_cons, elem_of_nil in Hl.
    destruct Hl as [->|[->|[]]]; vm_compute in Ht; injection Ht as <-; split; by eexists. }
  exists s', fired, left. split_and!; assumption.
Defined.
