(* ===== verification/TimeWheel.v ===== *)
(** * [09_epoll/time_wheel.c]: timers in a wheel of doubly linked lists *)
From S2P Require Export Cmem.

(** [tw_timer]: the constructor sets [rotation], [time_slot] and the two links;
    [cb_func] ([None] is [NULL]) and [user_data] are set by its user. *)
Record tw_timer := mkTimer {
  rotation : Z; time_slot : Z; cb_func : cell (option Z); user_data : cell Z;
  next : ptr; prev : ptr }.

Definition with_rotation (r : Z) (t : tw_timer) : tw_timer :=
  mkTimer r (time_slot t) (cb_func t) (user_data t) (next t) (prev t).
Definition with_next (q : ptr) (t : tw_timer) : tw_timer :=
  mkTimer (rotation t) (time_slot t) (cb_func t) (user_data t) q (prev t).
Definition with_prev (q : ptr) (t : tw_timer) : tw_timer :=
  mkTimer (rotation t) (time_slot t) (cb_func t) (user_data t) (next t) q.

Definition N : Z := 60.
Definition TI : Z := 1.

Section code.
(** [World] is what the callbacks act on. *)
Context {World : Type}.

(** The allocated timers, the fields of the [time_wheel] object, what the
    methods printed and the rest of the program. *)
Record state := mkState {
  timers : gmap loc tw_timer; slots : list ptr; cur_slot : Z;
  out : list (string * list Z); world : World }.

#[export] Program Instance state_heap : HasHeap state tw_timer := {|
  heap_of := timers;
  set_heap h s := mkState h (slots s) (cur_slot s) (out s) (world s);
|}.
Solve Obligations with by intros; try destruct s.

Definition printf (fmt : string) (args : list Z) : M state unit :=
  modify (λ s, mkState (timers s) (slots s) (cur_slot s) (out s ++ [(fmt, args)]) (world s)).

(** [slots[i]] and [slots[i] = p] *)
Definition get_slot (i : Z) : M state ptr :=
  a ← gets slots;
  match zlookup a i with None => ub_fail OutOfBounds | Some p => mret p end.
Definition set_slot (i : Z) (p : ptr) : M state unit :=
  a ← gets slots;
  match zupdate a i p with
  | None => ub_fail OutOfBounds
  | Some a => modify (λ s, mkState (timers s) a (cur_slot s) (out s) (world s))
  end.
Definition set_cur_slot (i : Z) : M state unit :=
  modify (λ s, mkState (timers s) (slots s) i (out s) (world s)).

(** [p->f = v] for a field [f] *)
Definition update (p : ptr) (f : tw_timer → tw_timer) : M state unit :=
  t ← load p; store p (f t).

(** [time_wheel()] *)
Definition make_wheel : M state unit :=
  modify (λ s, mkState (timers s) (replicate (Z.to_nat N) None) 0 (out s) (world s)).

(** The inner loop of [~time_wheel()]. *)
Fixpoint destroy_slot (fuel : nat) (i : Z) (tmp : ptr) : M state unit :=
  match fuel with
  | O => no_fuel
  | S fuel =>
    if bool_decide (tmp = None) then mret tt
    else
      t ← load tmp;
      set_slot i (next t);;
      free tmp;;
      tmp ← get_slot i;
      destroy_slot fuel i tmp
  end.

Definition destroy_wheel (fuel : nat) : M state unit :=
  for_up 0 N (λ i _, tmp ← get_slot i; destroy_slot fuel i tmp) tt.

Context {alc : Allocator}.

Definition add_timer (timeout : Z) : M state ptr :=
  if timeout <? 0 then mret None
  else
    let ticks := if timeout <? TI then 1 else timeout ÷ TI in
    let rotation := ticks ÷ N in
    c ← gets cur_slot;
    let ts := Z.rem (c + Z.rem ticks N) N in
    timer ← new (mkTimer rotation ts Indet Indet None None);
    h ← get_slot ts;
    (if bool_decide (h = None) then
       printf "add timer, rotation is %d, ts is %d, cur_slot is %d" [rotation; ts; c];;
       set_slot ts (Some timer)
     else
       h ← get_slot ts;
       update (Some timer) (with_next h);;
       h ← get_slot ts;
       update h (with_prev (Some timer));;
       set_slot ts (Some timer));;
    mret (Some timer).

Definition del_timer (timer : ptr) : M state unit :=
  if bool_decide (timer = None) then mret tt
  else
    t ← load timer;
    let ts := time_slot t in
    h ← get_slot ts;
    if bool_decide (timer = h) then
      ht ← load h;
      set_slot ts (next ht);;
      h ← get_slot ts;
      (if bool_decide (h ≠ None) then update h (with_prev None) else mret tt);;
      free timer
    else
      t ← load timer;
      update (prev t) (with_next (next t));;
      t ← load timer;
      (if bool_decide (next t ≠ None) then update (next t) (with_prev (prev t)) else mret tt);;
      free timer.

(** Calling a callback through its pointer: code of the timer's owner. *)
Variable call : Z → Z → M state unit.

(** [tmp->cb_func(tmp->user_data)]: the pointer is not tested. *)
Definition run_callback (tmp : ptr) : M state unit :=
  t ← load tmp;
  cb ← use (cb_func t);
  u ← use (user_data t);
  match cb with Some f => call f u | None => ub_fail NullDeref end.

(** The [while (tmp)] loop of [tick]. *)
Fixpoint tick_loop (fuel : nat) (tmp : ptr) : M state unit :=
  match fuel with
  | O => no_fuel
  | S fuel =>
    if bool_decide (tmp = None) then mret tt
    else
      printf "tick the timer once" [];;
      t ← load tmp;
      if 0 <? rotation t then
        update tmp (with_rotation (rotation t - 1));;
        t ← load tmp;
        tick_loop fuel (next t)
      else
        run_callback tmp;;
        c ← gets cur_slot;
        h ← get_slot c;
        if bool_decide (tmp = h) then
          printf "delete header in cur_slot" [];;
          t ← load tmp;
          set_slot c (next t);;
          free tmp;;
          h ← get_slot c;
          (if bool_decide (h ≠ None) then update h (with_prev None) else mret tt);;
          tmp ← get_slot c;
          tick_loop fuel tmp
        else
          t ← load tmp;
          update (prev t) (with_next (next t));;
          t ← load tmp;
          (if bool_decide (next t ≠ None) then update (next t) (with_prev (prev t))
           else mret tt);;
          t ← load tmp;
          let tmp2 := next t in
          free tmp;;
          tick_loop fuel tmp2
  end.

Definition tick (fuel : nat) : M state unit :=
  c ← gets cur_slot;
  tmp ← get_slot c;
  printf "current slot is %d" [c];;
  tick_loop fuel tmp;;
  c ← gets cur_slot;
  set_cur_slot (Z.rem (c + 1) N).
End code.
Arguments state : clear implicits.

Arguments get_slot : simpl never.
Arguments set_slot : simpl never.
Arguments update : simpl never.
Arguments printf : simpl never.
Arguments run_callback : simpl never.

(** The timers of timeouts 0, 1 and 2 fire on the 2nd, 2nd and 3rd tick; the
    deleted one does not. *)
Example ticks_run :
  let al := bump_allocator in
  let call f u := modify (S := state (list Z))
    (λ s, mkState (timers s) (slots s) (cur_slot s) (out s) (world s ++ [u])) in
  let add k :=
    p ← add_timer (alc := al) k;
    t ← load p; store p (mkTimer (rotation t) (time_slot t) (Val (Some 0)) (Val k) (next t) (prev t));;
    mret p in
  let prog :=
    make_wheel;; add 0;; p ← add 1; add 1;; add 2;; add 61;; del_timer p;;
    tick call 9;; tick call 9;; tick call 9 in
  match prog (mkState ∅ [] 0 [] []) with
  | Ok (_, s) => (world s, cur_slot s) = ([1; 0; 2], 3)
  | _ => False
  end.
Proof. vm_compute. reflexivity. Qed.

(** ** Representation *)

(** What a timer holds apart from its links. *)
Record info := mkInfo { i_rot : Z; i_slot : Z; i_cb : cell (option Z); i_data : cell Z }.
Definition node (d : info) (q pv : ptr) : tw_timer :=
  mkTimer (i_rot d) (i_slot d) (i_cb d) (i_data d) q pv.

Implicit Types (ls pre post : list (loc * info)) (w : list (list (loc * info))).

(** The addresses of the first and last timer of a list, [q] and [pv] when it
    is empty. *)
Definition firstp ls (q : ptr) : ptr := match ls with [] => q | x :: _ => Some x.1 end.
Fixpoint lastp (pv : ptr) ls : ptr :=
  match ls with [] => pv | x :: ls => lastp (Some x.1) ls end.

(** The timers [ls] are doubly linked, [pv] before the first and [q] after the
    last one. *)
Fixpoint dseg (h : gmap loc tw_timer) (pv : ptr) ls (q : ptr) : Prop :=
  match ls with
  | [] => True
  | x :: ls => h !! x.1 = Some (node x.2 (firstp ls q) pv) ∧ dseg h (Some x.1) ls q
  end.

(** The wheel holds in slot [i] the timers [w !! i], and no other timer is
    allocated. *)
Record wheel_rep {World} (s : state World) w : Prop := {
  wr_slots : slots s = (λ ls, firstp ls None) <$> w;
  wr_len : length w = 60%nat;
  wr_cur : 0 ≤ cur_slot s < 60;
  wr_seg i ls : w !! i = Some ls → dseg (timers s) None ls None;
  wr_nodup i ls : w !! i = Some ls → NoDup ls.*1;
  wr_info i ls l d : w !! i = Some ls → (l, d) ∈ ls → i_slot d = Z.of_nat i ∧ 0 ≤ i_rot d;
  wr_all l : is_Some (timers s !! l) → ∃ i ls d, w !! i = Some ls ∧ (l, d) ∈ ls;
}.

(** In how many ticks a timer fires when the wheel is at slot [c]. *)
Definition due (c : Z) (d : info) : Z := i_rot d * 60 + (i_slot d - c) `mod` 60 + 1.

Lemma firstp_app a c q : firstp (a ++ c) q = firstp a (firstp c q).
Proof. by destruct a. Qed.

Lemma lastp_app pv a c : lastp pv (a ++ c) = lastp (lastp pv a) c.
Proof. revert pv. induction a; intros; simpl; auto. Qed.

Lemma dseg_app h pv a c q :
  dseg h pv (a ++ c) q ↔ dseg h pv a (firstp c q) ∧ dseg h (lastp pv a) c q.
Proof.
  revert pv. induction a as [|x a IH]; intros pv; simpl; [naive_solver|].
  rewrite IH, firstp_app. naive_solver.
Qed.

Lemma dseg_frame h h' pv ls q :
  (∀ l, l ∈ ls.*1 → h' !! l = h !! l) → dseg h pv ls q → dseg h' pv ls q.
Proof.
  revert pv. induction ls as [|x ls IH]; intros pv Hfr; simpl; [done|].
  intros [Hx Hs]. split; [rewrite Hfr; [done|set_solver]|].
  apply IH; [|done]. set_solver.
Qed.

Lemma dseg_lookup h pv ls q l d :
  dseg h pv ls q → (l, d) ∈ ls → ∃ n p, h !! l = Some (node d n p).
Proof.
  revert pv. induction ls as [|x ls IH]; intros pv; simpl; [set_solver|].
  intros [Hx Hs]. rewrite elem_of_cons. intros [<-|Hin]; eauto.
Qed.

Lemma elem_of_fst ls l : l ∈ ls.*1 ↔ ∃ d, (l, d) ∈ ls.
Proof.
  rewrite list_elem_of_fmap. split.
  - intros ([l' d] & -> & H). by exists d.
  - intros [d H]. by exists (l, d).
Qed.

(** Redirecting the [next] of the last timer, and the [prev] of the first. *)
Lemma dseg_set_next h pv a t dt q q' :
  NoDup (a ++ [(t, dt)]).*1 → dseg h pv (a ++ [(t, dt)]) q →
  h !! t = Some (node dt q (lastp pv a)) ∧
  dseg (<[t := node dt q' (lastp pv a)]> h) pv (a ++ [(t, dt)]) q'.
Proof.
  rewrite fmap_app, NoDup_app, !dseg_app. intros (_ & Hd & _) (Ha & Ht & _).
  simpl in *. split; [done|]. split; [|by rewrite lookup_insert_eq].
  eapply dseg_frame; [|done]. intros l Hl. rewrite lookup_insert_ne; [done|].
  intros ->. eapply Hd; [done|]. set_solver.
Qed.

Lemma dseg_set_prev h pv pv' u du c q :
  NoDup ((u, du) :: c).*1 → dseg h pv ((u, du) :: c) q →
  h !! u = Some (node du (firstp c q) pv) ∧
  dseg (<[u := node du (firstp c q) pv']> h) pv' ((u, du) :: c) q.
Proof.
  simpl. rewrite NoDup_cons. intros [Hu _] [Hl Hc]. split; [done|].
  rewrite lookup_insert_eq. split; [done|]. eapply dseg_frame; [|done].
  intros l Hin. rewrite lookup_insert_ne; [done|]. intros ->. done.
Qed.

Section wheel.
Context {World : Type}.
Implicit Types (s : state World).

Lemma update_ok s l f t :
  timers s !! l = Some t →
  update (Some l) f s = Ok (tt, set_heap (<[l := f t]> (timers s)) s).
Proof. intros H. unfold update. by do 2 mstep. Qed.

Lemma get_slot_ok s w i ls :
  slots s = (λ ls, firstp ls None) <$> w → 0 ≤ i → w !! Z.to_nat i = Some ls →
  get_slot i s = Ok (firstp ls None, s).
Proof.
  intros Hs Hi Hw. unfold get_slot. mrun. unfold zlookup.
  rewrite bool_decide_eq_true_2, Hs, list_lookup_fmap, Hw by done. done.
Qed.

Lemma set_slot_ok s w i ls :
  slots s = (λ ls, firstp ls None) <$> w → 0 ≤ i < zlen w →
  set_slot i (firstp ls None) s =
    Ok (tt, mkState (timers s) ((λ ls, firstp ls None) <$> (<[Z.to_nat i := ls]> w))
              (cur_slot s) (out s) (world s)).
Proof.
  intros Hs Hi. unfold set_slot. mrun. rewrite zupdate_in.
  - by rewrite Hs, list_fmap_insert.
  - rewrite Hs. unfold zlen in *. by rewrite length_fmap.
Qed.

(** [if (p) p->prev = pv'] for the first timer of a segment. *)
Lemma fix_prev s pv pv' c :
  NoDup c.*1 → dseg (timers s) pv c None →
  ∃ h', (if bool_decide (firstp c None ≠ None)
         then update (firstp c None) (with_prev pv') else mret tt) s
        = Ok (tt, set_heap h' s) ∧
    dseg h' pv' c None ∧ dom h' = dom (timers s) ∧
    ∀ l, l ∉ c.*1 → h' !! l = timers s !! l.
Proof.
  intros Hnd Hseg. destruct c as [|[u du] c]; simpl firstp.
  - exists (timers s). rewrite bool_decide_eq_false_2 by naive_solver.
    mrun. destruct s. naive_solver.
  - rewrite bool_decide_eq_true_2 by done. cbn.
    destruct (dseg_set_prev _ _ pv' _ _ _ _ Hnd Hseg) as [Hu Hset].
    erewrite update_ok by done. eexists. split; [done|]. split; [exact Hset|].
    split; [apply elem_of_dom_2 in Hu; set_solver|].
    intros l Hl. rewrite lookup_insert_ne; [done|]. set_solver.
Qed.

(** A timer is in one slot only. *)
Lemma wheel_disjoint s w i j ls ls' l :
  wheel_rep s w → w !! i = Some ls → w !! j = Some ls' → l ∈ ls.*1 → l ∈ ls'.*1 → i = j.
Proof.
  intros Hr Hi Hj [d Hd]%elem_of_fst [d' Hd']%elem_of_fst.
  destruct (dseg_lookup _ _ _ _ _ _ (wr_seg _ _ Hr _ _ Hi) Hd) as (n & p & Hl).
  destruct (dseg_lookup _ _ _ _ _ _ (wr_seg _ _ Hr _ _ Hj) Hd') as (n' & p' & Hl').
  destruct (wr_info _ _ Hr _ _ _ _ Hi Hd) as [Hs _].
  destruct (wr_info _ _ Hr _ _ _ _ Hj Hd') as [Hs' _].
  assert (i_slot d = i_slot d') by (unfold node in *; congruence). lia.
Qed.

(** Replacing the timers of one slot. *)
Lemma wheel_rep_set s w i ls ls' h' c o (wd : World) :
  wheel_rep s w → w !! i = Some ls → 0 ≤ c < 60 →
  dseg h' None ls' None → NoDup ls'.*1 →
  (∀ l d, (l, d) ∈ ls' → i_slot d = Z.of_nat i ∧ 0 ≤ i_rot d) →
  (∀ l, l ∉ ls.*1 → is_Some (timers s !! l) → h' !! l = timers s !! l) →
  (∀ l, is_Some (h' !! l) → l ∈ ls'.*1 ∨ ((l ∉ ls.*1) ∧ is_Some (timers s !! l))) →
  wheel_rep (mkState h' ((λ ls, firstp ls None) <$> (<[i := ls']> w)) c o wd)
    (<[i := ls']> w).
Proof.
  intros Hr Hi Hc Hseg Hnd Hinfo Hfr Hdom.
  assert (Hlt := lookup_lt_Some _ _ _ Hi). split; cbn.
  - done.
  - rewrite length_insert. apply Hr.
  - done.
  - intros j lsj [(-> & <- & _)|[Hne Hj]]%list_lookup_insert_Some; [done|].
    apply (dseg_frame (timers s)); [|by eapply wr_seg]. intros l Hl. apply Hfr.
    + intros Hl'. apply Hne. by eapply wheel_disjoint.
    + apply elem_of_fst in Hl as [d Hd].
      destruct (dseg_lookup _ _ _ _ _ _ (wr_seg _ _ Hr _ _ Hj) Hd) as (n & p & ->). done.
  - intros j lsj [(-> & <- & _)|[Hne Hj]]%list_lookup_insert_Some; [done|]. by eapply wr_nodup.
  - intros j lsj l d [(-> & <- & _)|[Hne Hj]]%list_lookup_insert_Some; [by apply Hinfo|].
    by eapply wr_info.
  - intros l Hl. destruct (Hdom l Hl) as [[d Hd]%elem_of_fst|[Hn Hs]].
    + exists i, ls', d. by rewrite list_lookup_insert_eq.
    + destruct (wr_all _ _ Hr _ Hs) as (j & lsj & d & Hj & Hd).
      exists j, lsj, d. rewrite list_lookup_insert_ne; [done|]. intros ->.
      apply Hn, elem_of_fst. exists d. by simplify_eq.
Qed.

(** Unlinking a timer that is not the first of its slot, as [del_timer] and
    [tick] do before they free it. *)
Lemma unlink_mid s l d pre post :
  pre ≠ [] → NoDup (pre ++ (l, d) :: post).*1 →
  dseg (timers s) None (pre ++ (l, d) :: post) None →
  ∃ h1, (∀ A (K : M (state World) A),
    (update (lastp None pre) (with_next (firstp post None));;
     t ← load (Some l);
     (if bool_decide (next t ≠ None) then update (next t) (with_prev (prev t)) else mret tt);;
     K) s = K (set_heap h1 s)) ∧
    h1 !! l = Some (node d (firstp post None) (lastp None pre)) ∧
    dseg h1 None (pre ++ post) None ∧ dom h1 = dom (timers s) ∧
    ∀ k, k ∉ (pre ++ post).*1 → h1 !! k = timers s !! k.
Proof.
  intros Hpre Hnd Hseg. destruct (exists_last Hpre) as (pre' & [t dt] & ->).
  rewrite fmap_app in Hnd. apply NoDup_app in Hnd as (Hnd1 & Hdis & Hnd2).
  apply dseg_app in Hseg as [Hs1 [Hl Hs2]]. rewrite fmap_cons, NoDup_cons in Hnd2.
  destruct Hnd2 as [Hlp Hnd2]. cbn [fst snd firstp] in *.
  destruct (dseg_set_next _ _ _ _ _ _ (firstp post None) Hnd1 Hs1) as [Ht Hs1'].
  assert (t ∉ l :: post.*1) as Htp by (apply Hdis; rewrite fmap_app; set_solver).
  assert (lastp None (pre' ++ [(t, dt)]) = Some t) as Elast by (rewrite lastp_app; done).
  rewrite Elast in *.
  set (h := <[t := node dt (firstp post None) (lastp None pre')]> (timers s)) in *.
  assert (h !! l = Some (node d (firstp post None) (Some t))) as Hl'.
  { unfold h. rewrite lookup_insert_ne; [done|]. set_solver. }
  destruct (fix_prev (set_heap h s) (Some l) (Some t) post Hnd2)
    as (h1 & Hrun & Hseg1 & Hdom & Hfr).
  { eapply dseg_frame; [|exact Hs2]. intros k Hk. cbn. unfold h.
    rewrite lookup_insert_ne; [done|]. set_solver. }
  cbn in Hdom, Hfr. exists h1. split_and!.
  - intros A K. mrun. erewrite update_ok by done. cbn.
    change (<[t := _]> (timers s)) with h. mrun. erewrite load_ok by done. cbn.
    change (mret tt) with (λ s : state World, @Ok (unit * state World) (tt, s)) in Hrun.
    unfold mret, M_ret in Hrun. cbn in Hrun. rewrite Hrun. done.
  - by rewrite Hfr.
  - apply dseg_app. rewrite Elast. split; [|done].
    eapply dseg_frame; [|exact Hs1']. intros k Hk. apply Hfr.
    intros Hkp. apply (Hdis k Hk). set_solver.
  - rewrite Hdom. unfold h. apply elem_of_dom_2 in Ht. set_solver.
  - intros k Hk. rewrite fmap_app in Hk. rewrite Hfr by set_solver. unfold h.
    rewrite lookup_insert_ne; [done|]. rewrite fmap_app in Hk. set_solver.
Qed.

Lemma wheel_rep_ext s s' w :
  timers s' = timers s → slots s' = slots s → cur_slot s' = cur_slot s →
  wheel_rep s w → wheel_rep s' w.
Proof. intros Ht Hs Hc []. by split; rewrite ?Ht, ?Hs, ?Hc. Qed.

Lemma slots_same w i ls ls' :
  w !! i = Some ls → firstp ls' None = firstp ls None →
  (λ ls, firstp ls None) <$> (<[i := ls']> w) = (λ ls, firstp ls None) <$> w.
Proof.
  intros Hi He. rewrite list_fmap_insert. apply list_insert_id.
  rewrite list_lookup_fmap, Hi. simpl. by rewrite He.
Qed.

Lemma dseg_set_info h pre l d d' post :
  NoDup (pre ++ (l, d) :: post).*1 → dseg h None (pre ++ (l, d) :: post) None →
  h !! l = Some (node d (firstp post None) (lastp None pre)) ∧
  dseg (<[l := node d' (firstp post None) (lastp None pre)]> h) None
    (pre ++ (l, d') :: post) None.
Proof.
  rewrite fmap_app, fmap_cons, NoDup_app, NoDup_cons, !dseg_app. simpl.
  intros (_ & Hdis & Hl & _) (Hpre & Hx & Hpost). split; [done|].
  rewrite lookup_insert_eq. split; [|split; [done|]].
  - eapply dseg_frame; [|done]. intros k Hk. rewrite lookup_insert_ne; [done|].
    intros ->. apply (Hdis k Hk). by left.
  - eapply dseg_frame; [|done]. intros k Hk. rewrite lookup_insert_ne; [done|].
    by intros ->.
Qed.

(** The wheel once the timer [l] of slot [i] has been unlinked and freed. *)
Lemma rep_unlink s w i pre l d post h1 c o (wd : World) :
  wheel_rep s w → w !! i = Some (pre ++ (l, d) :: post) → 0 ≤ c < 60 →
  dseg h1 None (pre ++ post) None → dom h1 ∖ {[l]} = dom (timers s) ∖ {[l]} →
  (∀ k, k ∉ (pre ++ post).*1 → k ≠ l → h1 !! k = timers s !! k) →
  wheel_rep (mkState (delete l h1) ((λ ls, firstp ls None) <$> (<[i := pre ++ post]> w)) c o wd)
    (<[i := pre ++ post]> w).
Proof.
  intros Hr Hi Hc Hseg Hdom Hfr. pose proof (wr_nodup _ _ Hr _ _ Hi) as Hnd.
  rewrite fmap_app, fmap_cons in Hnd.
  assert (l ∉ pre.*1 ++ post.*1) as Hl.
  { apply NoDup_app in Hnd as (_ & Hdis & [Hn _]%NoDup_cons).
    rewrite elem_of_app. intros [H|H]; [|done]. apply (Hdis _ H). by left. }
  eapply wheel_rep_set; [done|done|done| | | | |].
  - eapply dseg_frame; [|done]. intros k Hk. rewrite fmap_app in Hk.
    rewrite lookup_delete_ne; [done|]. by intros ->.
  - rewrite fmap_app. apply NoDup_app in Hnd as (? & Hdis & [_ ?]%NoDup_cons).
    apply NoDup_app. split_and!; [done| |done]. intros k Hk Hp. apply (Hdis k Hk). by right.
  - intros k dk Hk. apply (wr_info _ _ Hr _ _ k dk Hi).
    rewrite elem_of_app, elem_of_cons in *. tauto.
  - intros k Hk _. rewrite fmap_app, elem_of_app, fmap_cons, elem_of_cons in Hk. simpl in Hk.
    rewrite lookup_delete_ne by (intros ->; naive_solver). apply Hfr; [|intros ->; naive_solver].
    rewrite fmap_app, elem_of_app. tauto.
  - intros k Hk. rewrite fmap_app, elem_of_app, fmap_app, elem_of_app, fmap_cons, elem_of_cons.
    simpl. destruct (decide (k ∈ pre.*1)); [tauto|]. destruct (decide (k ∈ post.*1)); [tauto|].
    right. destruct (decide (k = l)) as [->|Hne].
    { rewrite lookup_delete_eq in Hk. by destruct Hk. }
    split; [tauto|]. rewrite lookup_delete_ne in Hk by done.
    apply elem_of_dom. apply elem_of_dom in Hk. set_solver.
Qed.

Lemma wheel_slot s w i : wheel_rep s w → 0 ≤ i < 60 → ∃ ls, w !! Z.to_nat i = Some ls.
Proof.
  intros Hr Hi. apply lookup_lt_is_Some_2. rewrite (wr_len _ _ Hr). lia.
Qed.
End wheel.

(** [(l, d)] is a timer of the wheel. *)
Definition timer_in w (l : loc) (d : info) : Prop := ∃ i ls, w !! i = Some ls ∧ (l, d) ∈ ls.

Lemma timer_in_insert w i ls l d :
  (i < length w)%nat →
  timer_in (<[i := ls]> w) l d ↔
  (l, d) ∈ ls ∨ ∃ j ls', j ≠ i ∧ w !! j = Some ls' ∧ (l, d) ∈ ls'.
Proof.
  intros Hlt. split.
  - intros (j & ls' & [(-> & <- & _)|[Hne Hj]]%list_lookup_insert_Some & Hin); eauto 10.
  - intros [Hin|(j & ls' & Hne & Hj & Hin)].
    + exists i, ls. by rewrite list_lookup_insert_eq.
    + exists j, ls'. by rewrite list_lookup_insert_ne.
Qed.

Lemma timer_in_slot w i ls l d :
  w !! i = Some ls →
  timer_in w l d ↔ (l, d) ∈ ls ∨ ∃ j ls', j ≠ i ∧ w !! j = Some ls' ∧ (l, d) ∈ ls'.
Proof.
  intros Hi. rewrite <- (list_insert_id w i ls Hi) at 1. apply timer_in_insert.
  by eapply lookup_lt_Some.
Qed.

(** The timer [l] fires on the [n]th tick from now. *)
Definition due_in w (c : Z) (l : loc) (n : Z) : Prop := ∃ d, timer_in w l d ∧ n = due c d.

Section theorems.
Context {World : Type} {alc : Allocator}.
Implicit Types (s : state World).

Lemma ticks_eq timeout :
  0 ≤ timeout → (if timeout <? TI then 1 else timeout ÷ TI) = Z.max 1 timeout.
Proof. intros. unfold TI. rewrite Z.quot_1_r. destruct (Z.ltb_spec timeout 1); lia. Qed.

Definition slot_of (c t : Z) : Z := Z.rem (c + Z.rem t N) N.
Definition new_info (c t : Z) : info := mkInfo (t ÷ N) (slot_of c t) Indet Indet.

Lemma slot_of_bound c t : 0 ≤ c → 0 ≤ t → 0 ≤ slot_of c t < 60.
Proof.
  intros. apply Z.rem_bound_pos; [|done]. apply Z.add_nonneg_nonneg; [done|].
  by apply Z.rem_bound_pos.
Qed.

Lemma due_new c t : 0 ≤ c < 60 → 1 ≤ t → due c (new_info c t) = t + 1.
Proof.
  intros. unfold due, new_info, slot_of, N. simpl.
  rewrite (Z.quot_div_nonneg t), !Z.rem_mod_nonneg by lia. lia.
Qed.

(** What [add_timer] does to memory. *)
Lemma add_timer_run s w timeout l ls :
  let ts := slot_of (cur_slot s) (Z.max 1 timeout) in
  let d := new_info (cur_slot s) (Z.max 1 timeout) in
  wheel_rep s w → 0 ≤ timeout → pick (dom (timers s)) = Some l →
  w !! Z.to_nat ts = Some ls → 0 ≤ ts < 60 → l ∉ ls.*1 →
  ∃ h' o', dseg h' None ((l, d) :: ls) None ∧
    (∀ k, k ≠ l → k ∉ ls.*1 → h' !! k = timers s !! k) ∧
    add_timer timeout s = Ok (Some l,
      mkState h' ((λ ls, firstp ls None) <$> (<[Z.to_nat ts := (l, d) :: ls]> w))
        (cur_slot s) o' (world s)).
Proof.
  intros ts d Hr Hpos Hp Hls Hts Hln.
  assert (zlen w = 60) as Hwl by (unfold zlen; rewrite (wr_len _ _ Hr); done).
  set (h0 := <[l := node d None None]> (timers s)).
  assert (dseg h0 None ls None) as Hseg0.
  { eapply dseg_frame; [|by eapply (wr_seg _ _ Hr)]. intros k Hk. unfold h0.
    rewrite lookup_insert_ne; [done|]. by intros ->. }
  destruct ls as [|[u du] ls'].
  - exists h0. eexists. split_and!.
    + split; [|done]. apply lookup_insert_eq.
    + intros k Hk _. unfold h0. by rewrite lookup_insert_ne.
    + unfold add_timer. rewrite (proj2 (Z.ltb_ge _ _) Hpos), ticks_eq by done.
      mrun. fold (slot_of (cur_slot s) (Z.max 1 timeout)). fold ts. erewrite new_ok by done. cbn. mrun.
      erewrite get_slot_ok by (cbn; first [exact (wr_slots _ _ Hr)|lia|exact Hls]). cbn.
      mrun. unfold printf. mrun.
      rewrite (set_slot_ok _ w ts [(l, d)]) by (cbn; first [exact (wr_slots _ _ Hr)|rewrite Hwl; lia]).
      done.
  - exists (<[u := node du (firstp ls' None) (Some l)]> (<[l := node d (Some u) None]> h0)), (out s).
    assert (u ≠ l) as Hul by (intros ->; apply Hln; by left).
    pose proof (wr_nodup _ _ Hr _ _ Hls) as Hnd.
    destruct (dseg_set_prev _ _ (Some l) _ _ _ _ Hnd Hseg0) as [Hu Hseg1]. split_and!.
    + split; [rewrite lookup_insert_ne by done; apply lookup_insert_eq|].
      eapply dseg_frame; [|exact Hseg1]. intros k Hk.
      destruct (decide (k = u)) as [->|]; [by rewrite !lookup_insert_eq|].
      rewrite !(lookup_insert_ne _ u), lookup_insert_ne by (done || (intros <-; done)). done.
    + intros k Hk Hin. unfold h0. rewrite !lookup_insert_ne; [done..|].
      intros ->. apply Hin. by left.
    + unfold add_timer. rewrite (proj2 (Z.ltb_ge _ _) Hpos), ticks_eq by done.
      mrun. fold (slot_of (cur_slot s) (Z.max 1 timeout)). fold ts. erewrite new_ok by done. cbn. mrun.
      do 2 (erewrite get_slot_ok by (cbn; first [exact (wr_slots _ _ Hr)|lia|exact Hls]); mrun).
      erewrite update_ok by (cbn; apply lookup_insert_eq). cbn.
      erewrite get_slot_ok by (cbn; first [exact (wr_slots _ _ Hr)|lia|exact Hls]). mrun.
      erewrite update_ok.
      2: { cbn. rewrite lookup_insert_ne by done. exact Hu. }
      cbn. rewrite (set_slot_ok _ w ts ((l, d) :: (u, du) :: ls'))
        by (cbn; first [exact (wr_slots _ _ Hr)|rewrite Hwl; lia]).
      done.
Qed.

(** C39: adding a timer with timeout [t >= 0] puts a new timer at the front of
    its slot, due to fire on the [max 1 t + 1]st tick from now, and leaves the
    other timers as they are; a negative timeout adds nothing and returns
    [NULL]; when there is no memory the exception leaves the wheel as it was. *)
Theorem wheel_add_timer s w timeout :
  wheel_rep s w →
  (timeout < 0 → add_timer timeout s = Ok (None, s)) ∧
  (0 ≤ timeout → pick (dom (timers s)) = None → add_timer timeout s = Throw) ∧
  ∀ l, 0 ≤ timeout → pick (dom (timers s)) = Some l →
    ∃ s' w', add_timer timeout s = Ok (Some l, s') ∧ wheel_rep s' w' ∧
      cur_slot s' = cur_slot s ∧ world s' = world s ∧
      (∃ d, timer_in w' l d ∧ due (cur_slot s) d = Z.max 1 timeout + 1) ∧
      ∀ k d, k ≠ l → timer_in w' k d ↔ timer_in w k d.
Proof.
  intros Hr. pose proof (wr_cur _ _ Hr) as Hc. split_and!.
  { intros Hneg. unfold add_timer. by rewrite (proj2 (Z.ltb_lt _ _) Hneg). }
  { intros Hpos Hp. unfold add_timer. rewrite (proj2 (Z.ltb_ge _ _) Hpos). mrun. unfold new. cbn. by rewrite Hp. }
  intros l Hpos Hp.
  assert (0 ≤ slot_of (cur_slot s) (Z.max 1 timeout) < 60) as Hts by (apply slot_of_bound; lia).
  destruct (wheel_slot _ _ _ Hr Hts) as [ls Hls].
  pose proof (pick_None s l Hp) as Hfresh. cbn in Hfresh.
  assert (l ∉ ls.*1) as Hln.
  { intros [dl Hdl]%elem_of_fst.
    destruct (dseg_lookup _ _ _ _ _ _ (wr_seg _ _ Hr _ _ Hls) Hdl) as (? & ? & ?). congruence. }
  destruct (add_timer_run s w timeout l ls) as (h' & o' & Hseg' & Hfr & Hrun); [done..|].
  assert (Z.of_nat (Z.to_nat (slot_of (cur_slot s) (Z.max 1 timeout))) =
          slot_of (cur_slot s) (Z.max 1 timeout)) as Hid by (apply Z2Nat.id; apply Hts).
  assert (0 ≤ Z.max 1 timeout ÷ N) as Hq by (apply Z.quot_pos; unfold N; lia).
  eexists _, _.
  split_and!; [exact Hrun| |done|done| |].
  - eapply wheel_rep_set; [done|exact Hls|done|done| | | |].
    + rewrite fmap_cons, NoDup_cons. split; [done|]. by eapply (wr_nodup _ _ Hr).
    + intros k dk [[= -> ->]|Hin]%elem_of_cons; [|by eapply (wr_info _ _ Hr)].
      by rewrite Hid.
    + intros k Hk [t Ht]. apply Hfr; [|done]. intros ->. congruence.
    + intros k Hk. rewrite fmap_cons, elem_of_cons. simpl.
      destruct (decide (k = l)); [tauto|]. destruct (decide (k ∈ ls.*1)); [tauto|].
      right. by rewrite <- Hfr.
  - eexists. split; [|apply due_new; [done|lia]].
    apply timer_in_insert; [rewrite (wr_len _ _ Hr); lia|left; by left].
  - intros k dk Hk. rewrite timer_in_insert by (rewrite (wr_len _ _ Hr); lia).
    rewrite (timer_in_slot w _ _ _ _ Hls), elem_of_cons. naive_solver.
Qed.

Lemma timer_in_unlink s w i pre l d post k dk :
  wheel_rep s w → w !! i = Some (pre ++ (l, d) :: post) →
  timer_in (<[i := pre ++ post]> w) k dk ↔ timer_in w k dk ∧ k ≠ l.
Proof.
  intros Hr Hi. pose proof (wr_nodup _ _ Hr _ _ Hi) as Hnd.
  rewrite fmap_app, fmap_cons, NoDup_app, NoDup_cons in Hnd. simpl in Hnd.
  destruct Hnd as (_ & Hdis & Hlp & _).
  rewrite timer_in_insert by (by eapply lookup_lt_Some).
  rewrite (timer_in_slot _ _ _ _ _ Hi). rewrite !elem_of_app, elem_of_cons.
  assert (∀ x, (x, dk) ∈ pre → x ≠ l) as Hp.
  { intros x Hx ->. apply (Hdis l); [apply elem_of_fst; by exists dk|by left]. }
  assert (∀ x, (x, dk) ∈ post → x ≠ l) as Hq.
  { intros x Hx ->. apply Hlp, elem_of_fst. by exists dk. }
  assert (∀ j lsj x, j ≠ i → w !! j = Some lsj → (x, dk) ∈ lsj → x ≠ l) as Ho.
  { intros j lsj x Hj Hw Hx ->. apply Hj. eapply (wheel_disjoint s w _ _ _ _ l Hr Hw Hi).
    - apply elem_of_fst. by exists dk.
    - rewrite fmap_app. apply elem_of_app. right. by left. }
  split.
  - intros [[H|H]|(j & lsj & Hj & Hw & H)]; naive_solver.
  - intros [[[H|[[= -> ->]|H]]|H] Hne]; naive_solver.
Qed.

Lemma wheel_member s w i pre l d post :
  wheel_rep s w → w !! i = Some (pre ++ (l, d) :: post) →
  timers s !! l = Some (node d (firstp post None) (lastp None pre)) ∧
  NoDup (pre ++ (l, d) :: post).*1 ∧ dseg (timers s) None (pre ++ (l, d) :: post) None ∧
  i_slot d = Z.of_nat i ∧ 0 ≤ i_rot d ∧
  slots s = (λ ls, firstp ls None) <$> w ∧ (i < 60)%nat ∧ zlen w = 60.
Proof.
  intros Hr Hi. pose proof (wr_seg _ _ Hr _ _ Hi) as Hseg.
  destruct (wr_info _ _ Hr i (pre ++ (l, d) :: post) l d) as [Hs Hrot];
    [done|apply elem_of_app; right; by left|].
  pose proof (wr_nodup _ _ Hr _ _ Hi) as Hnd.
  destruct (dseg_set_info _ _ _ _ d _ Hnd Hseg) as [Hl _].
  split_and!; try done; [apply Hr| |unfold zlen; by rewrite (wr_len _ _ Hr)].
  rewrite <- (wr_len _ _ Hr). by eapply lookup_lt_Some.
Qed.

(** The head of a slot with the timer [l] in it is [l] exactly when nothing
    precedes [l]. *)
Lemma head_is pre l d post :
  NoDup (pre ++ (l, d) :: post).*1 →
  bool_decide (Some l = firstp (pre ++ (l, d) :: post) None) = bool_decide (pre = []).
Proof.
  intros Hnd. apply bool_decide_ext. destruct pre as [|x pre]; [done|]. simpl.
  split; [|done]. intros [= ->]. apply NoDup_cons in Hnd as [Hn _].
  contradict Hn. apply elem_of_fst. exists d. apply elem_of_app. right. by left.
Qed.

(** Deleting a timer of the wheel unlinks it from its slot, frees it and
    leaves every other timer as it was; deleting [NULL] does nothing. *)
Lemma wheel_del_timer s w l d :
  wheel_rep s w → timer_in w l d →
  del_timer None s = Ok (tt, s) ∧
  ∃ s' w', del_timer (Some l) s = Ok (tt, s') ∧ wheel_rep s' w' ∧
    cur_slot s' = cur_slot s ∧ world s' = world s ∧ timers s' !! l = None ∧
    ∀ k dk, timer_in w' k dk ↔ timer_in w k dk ∧ k ≠ l.
Proof.
  intros Hr (i & ls & Hi & (pre & post & ->)%list_elem_of_split). split; [done|].
  destruct (wheel_member _ _ _ _ _ _ _ Hr Hi)
    as (Hl & Hnd & Hseg & Hs & _ & Hslots & Hi60 & Hwl).
  pose proof (wr_cur _ _ Hr) as Hc.
  assert (Z.to_nat (i_slot d) = i) as Ei by lia.
  unfold del_timer. mstep.
  erewrite get_slot_ok by (first [exact Hslots|rewrite Hs; lia|rewrite Ei; exact Hi]).
  mrun. rewrite head_is by done.
  case_bool_decide as Hpre.
  - subst pre. cbn [app] in *. destruct Hseg as [_ Hpost]. apply NoDup_cons in Hnd as [Hlp Hnd].
    mstep. erewrite (set_slot_ok _ w) by (first [exact Hslots|rewrite Hwl; lia]).
    mrun. rewrite Ei. erewrite (get_slot_ok _ (<[i := post]> w) _ post)
      by (first [done|lia|rewrite Ei; apply list_lookup_insert_eq; rewrite (wr_len _ _ Hr); lia]).
    mrun. edestruct (fix_prev (mkState (timers s)
      ((λ ls, firstp ls None) <$> (<[i := post]> w)) (cur_slot s) (out s) (world s))
      (Some l) None post) as (h1 & Hrun & Hseg1 & Hdom & Hfr); [done..|].
    mrun. unfold mret, M_ret in Hrun. cbn in Hrun, Hfr, Hdom. rewrite Hrun. cbn.
    erewrite free_ok by (cbn; rewrite Hfr; [exact Hl|done]). eexists _, _. split; [done|].
    cbn. split_and!; [|done|done|by rewrite lookup_delete_eq|].
    + eapply (rep_unlink _ _ _ []); [exact Hr|done|done|done| |by intros; apply Hfr].
      by rewrite Hdom.
    + intros k dk. by apply (timer_in_unlink s w i [] l d).
  - mstep. destruct (unlink_mid s l d pre post) as (h1 & Hrun & Hl1 & Hseg1 & Hdom & Hfr); [done..|].
    eexists _, (<[i := pre ++ post]> w). split.
    { etrans; [exact (Hrun _ (free (Some l)))|]. by erewrite free_ok by exact Hl1. }
    cbn. split_and!; [|done|done|by rewrite lookup_delete_eq|].
    + erewrite Hslots, <- slots_same; [eapply rep_unlink; try done|exact Hi|].
      * by rewrite Hdom.
      * intros. by apply Hfr.
      * by destruct pre.
    + intros k dk. by apply (timer_in_unlink s w i pre l d).
Qed.
End theorems.

(** ** Ticking *)

Definition older (d : info) : info := mkInfo (i_rot d - 1) (i_slot d) (i_cb d) (i_data d).

(** The callback of a timer has been set. *)
Definition ready (d : info) : Prop := ∃ f u, i_cb d = Val (Some f) ∧ i_data d = Val u.

(** Of the timers of the current slot, those that stay and those that fire. *)
Definition kept ls : list (loc * info) :=
  (λ x, (x.1, older x.2)) <$> filter (λ x, 0 < i_rot x.2) ls.
Definition fired ls : list (loc * info) := filter (λ x, ¬ 0 < i_rot x.2) ls.

Section tick.
Context {World : Type}.
Implicit Types (s : state World).
Variable call : Z → Z → M (state World) unit.
Variable act : Z → Z → World → World.

(** The callbacks do not touch the wheel. *)
Hypothesis call_act : ∀ f u s, call f u s =
  Ok (tt, mkState (timers s) (slots s) (cur_slot s) (out s) (act f u (world s))).

Definition fire (wd : World) (x : loc * info) : World :=
  match i_cb x.2, i_data x.2 with
  | Val (Some f), Val u => act f u wd
  | _, _ => wd
  end.

Lemma wheel_callback_ok s l d n p :
  timers s !! l = Some (node d n p) → ready d →
  run_callback call (Some l) s =
    Ok (tt, mkState (timers s) (slots s) (cur_slot s) (out s) (fire (world s) (l, d))).
Proof.
  intros Hl (f & u & Hf & Hu). unfold run_callback, fire. mstep. cbn. rewrite Hf, Hu.
  mrun. by rewrite call_act.
Qed.

Lemma printf_ok fmt args s :
  printf fmt args s =
    Ok (tt, mkState (timers s) (slots s) (cur_slot s) (out s ++ [(fmt, args)]) (world s)).
Proof. done. Qed.

(** One round of the loop on a timer with rotations left. *)
Lemma tick_loop_keep s w i pre l d post fuel :
  wheel_rep s w → w !! i = Some (pre ++ (l, d) :: post) → 0 < i_rot d →
  ∃ s', tick_loop call (S fuel) (Some l) s = tick_loop call fuel (firstp post None) s' ∧
    wheel_rep s' (<[i := pre ++ (l, older d) :: post]> w) ∧
    cur_slot s' = cur_slot s ∧ world s' = world s.
Proof.
  intros Hr Hi Hrot. destruct (wheel_member _ _ _ _ _ _ _ Hr Hi)
    as (Hl & Hnd & Hseg & Hs & _ & Hslots & Hi60 & Hwl).
  cbn [tick_loop]. mrun. rewrite printf_ok. mstep. rewrite (proj2 (Z.ltb_lt _ _) Hrot).
  mrun. erewrite update_ok by (cbn; exact Hl). mrun.
  erewrite load_ok by (cbn; apply lookup_insert_eq). cbn.
  destruct (dseg_set_info _ _ _ _ (older d) _ Hnd Hseg) as [_ Hseg'].
  eexists. split; [reflexivity|]. split; [|done]. cbn.
  erewrite Hslots, <- slots_same; [|exact Hi|].
  2: { instantiate (1 := pre ++ (l, older d) :: post). by destruct pre. }
  eapply wheel_rep_set; [exact Hr|exact Hi|apply Hr|exact Hseg'| | | |].
  - rewrite fmap_app in Hnd |- *. exact Hnd.
  - intros k dk Hk.
    assert ((k, dk) = (l, older d) ∨ (k, dk) ∈ pre ++ (l, d) :: post) as [[= -> ->]|Hin].
    { rewrite !elem_of_app, !elem_of_cons in *. tauto. }
    + simpl. lia.
    + by eapply (wr_info _ _ Hr).
  - intros k Hk _. rewrite lookup_insert_ne; [done|]. intros ->. apply Hk.
    rewrite fmap_app. apply elem_of_app. right. by left.
  - intros k Hk. rewrite !fmap_app, !fmap_cons. cbn.
    destruct (decide (k ∈ pre.*1 ++ l :: post.*1)); [tauto|]. right. split; [done|].
    rewrite lookup_insert_ne in Hk; [done|]. intros ->. set_solver.
Qed.

(** One round of the loop on a timer that fires. *)
Lemma tick_loop_fire s w i pre l d post fuel :
  wheel_rep s w → cur_slot s = Z.of_nat i →
  w !! i = Some (pre ++ (l, d) :: post) → ¬ 0 < i_rot d → ready d →
  ∃ s', tick_loop call (S fuel) (Some l) s = tick_loop call fuel (firstp post None) s' ∧
    wheel_rep s' (<[i := pre ++ post]> w) ∧
    cur_slot s' = cur_slot s ∧ world s' = fire (world s) (l, d).
Proof.
  intros Hr Hc Hi Hrot Hready. destruct (wheel_member _ _ _ _ _ _ _ Hr Hi)
    as (Hl & Hnd & Hseg & Hs & _ & Hslots & Hi60 & Hwl).
  cbn [tick_loop]. mrun. rewrite printf_ok. mstep.
  rewrite (proj2 (Z.ltb_ge _ _)) by lia. mrun.
  erewrite wheel_callback_ok by (cbn; done). mrun.
  assert (Z.to_nat (cur_slot s) = i) as Ei by lia.
  erewrite get_slot_ok by (cbn; first [exact Hslots|lia|rewrite Ei; exact Hi]).
  mrun. rewrite head_is by done. case_bool_decide as Hpre.
  - subst pre. cbn [app] in *. destruct Hseg as [_ Hpost]. apply NoDup_cons in Hnd as [Hlp Hnd].
    mrun. rewrite printf_ok. mstep.
    erewrite (set_slot_ok _ w) by (cbn; first [exact Hslots|rewrite Hwl; lia]).
    mrun. rewrite Ei. erewrite free_ok by (cbn; exact Hl).
    edestruct (fix_prev (mkState (delete l (timers s))
      ((λ ls, firstp ls None) <$> (<[i := post]> w)) (cur_slot s)
      ((out s ++ [("tick the timer once"%string, [])]) ++
         [("delete header in cur_slot"%string, [])]) (fire (world s) (l, d)))
      (Some l) None post) as (h1 & Hrun & Hseg1 & Hdom & Hfr); [done| |].
    { cbn. eapply dseg_frame; [|done]. intros k Hk. rewrite lookup_delete_ne; [done|].
      by intros ->. }
    cbn. do 2 (erewrite (get_slot_ok _ (<[i := post]> w) _ post)
      by (first [done|lia|rewrite Ei; apply list_lookup_insert_eq; rewrite (wr_len _ _ Hr); lia]);
      mrun; try (unfold mret, M_ret in Hrun; cbn in Hrun; rewrite Hrun; cbn)).
    cbn in Hfr, Hdom. eexists. split; [done|]. cbn. split_and!; [|done|done].
    rewrite <- (delete_id h1 l) by (rewrite Hfr by done; apply lookup_delete_eq).
    eapply (rep_unlink _ _ _ []); [exact Hr|done|apply Hr|done|rewrite Hdom; set_solver|].
    intros k Hk Hne. rewrite Hfr by done. by rewrite lookup_delete_ne.
  - mstep. edestruct (unlink_mid (mkState (timers s) (slots s) (cur_slot s)
      (out s ++ [("tick the timer once"%string, [])]) (fire (world s) (l, d))) l d pre post)
      as (h1 & Hrun & Hl1 & Hseg1 & Hdom & Hfr); [done..|].
    eexists. split.
    { etrans; [exact (Hrun _ (t ← load (Some l);
        let tmp2 := next t in free (Some l);; tick_loop call fuel tmp2))|]. 
      do 2 mstep. reflexivity. }
    cbn. split_and!; [|done|done]. erewrite Hslots, <- slots_same.
    + eapply rep_unlink; [exact Hr|exact Hi|apply Hr|done|by rewrite Hdom|].
      intros. by apply Hfr.
    + exact Hi.
    + by destruct pre.
Qed.

#[local] Arguments tick_loop : simpl never.

Lemma fired_cons x ls :
  fired (x :: ls) = if decide (0 < i_rot x.2) then fired ls else x :: fired ls.
Proof. unfold fired. rewrite filter_cons. by repeat case_decide. Qed.
Lemma kept_cons x ls :
  kept (x :: ls) = if decide (0 < i_rot x.2) then (x.1, older x.2) :: kept ls else kept ls.
Proof. unfold kept. rewrite filter_cons. by repeat case_decide. Qed.

Lemma tick_loop_ok fuel s w i pre rest :
  wheel_rep s w → cur_slot s = Z.of_nat i → w !! i = Some (pre ++ rest) →
  (length rest < fuel)%nat → (∀ x, x ∈ fired rest → ready x.2) →
  ∃ s', tick_loop call fuel (firstp rest None) s = Ok (tt, s') ∧
    wheel_rep s' (<[i := pre ++ kept rest]> w) ∧
    cur_slot s' = cur_slot s ∧ world s' = fold_left fire (fired rest) (world s).
Proof.
  revert fuel s w pre. induction rest as [|[l d] rest IH];
    intros [|fuel] s w pre Hr Hc Hi Hfuel Hready; simpl in Hfuel; try lia.
  { eexists. split; [done|]. cbn. by rewrite (list_insert_id w) by done. }
  assert (Hlt := lookup_lt_Some _ _ _ Hi). simpl firstp.
  rewrite fired_cons, kept_cons in *. simpl in *. case_decide as Hrot.
  - destruct (tick_loop_keep s w i pre l d rest fuel) as (s1 & -> & Hr1 & Hc1 & Hw1); [done..|].
    destruct (IH fuel s1 (<[i := pre ++ (l, older d) :: rest]> w) (pre ++ [(l, older d)]))
      as (s2 & -> & Hr2 & Hc2 & Hw2); [done|lia| |lia|done|].
    { rewrite list_lookup_insert_eq by done. by rewrite <- app_assoc. }
    eexists. split; [done|]. rewrite list_insert_insert_eq, <- app_assoc in Hr2.
    by rewrite Hc2, Hw2, Hc1, Hw1.
  - destruct (tick_loop_fire s w i pre l d rest fuel) as (s1 & -> & Hr1 & Hc1 & Hw1); [done..| |].
    { apply (Hready (l, d)). by left. }
    destruct (IH fuel s1 (<[i := pre ++ rest]> w) pre)
      as (s2 & -> & Hr2 & Hc2 & Hw2); [done|lia| |lia| |].
    { by rewrite list_lookup_insert_eq. }
    { intros x Hx. apply Hready. by right. }
    eexists. split; [done|]. rewrite list_insert_insert_eq in Hr2.
    by rewrite Hc2, Hw2, Hc1, Hw1.
Qed.

Lemma due_pos s w l d : wheel_rep s w → timer_in w l d → 1 ≤ due (cur_slot s) d.
Proof.
  intros Hr (i & ls & Hi & Hin). destruct (wr_info _ _ Hr _ _ _ _ Hi Hin) as [_ Hrot].
  unfold due. lia.
Qed.

Lemma due_here c d : 0 ≤ i_rot d → i_slot d = c → due c d = i_rot d * 60 + 1.
Proof. intros ? <-. unfold due. rewrite Z.sub_diag, Z.mod_0_l by done. lia. Qed.

Lemma due_next_other c d :
  0 ≤ c < 60 → 0 ≤ i_slot d < 60 → i_slot d ≠ c →
  due ((c + 1) `mod` 60) d = due c d - 1 ∧ due c d ≠ 1.
Proof. intros. unfold due. split; lia. Qed.

Lemma due_next_here c d :
  0 ≤ c < 60 → i_slot d = c → due ((c + 1) `mod` 60) (older d) = due c d - 1.
Proof. intros ? <-. unfold due, older. simpl. lia. Qed.

(** The timers that fire on the next tick, in the order of their slot. *)
Definition now_due (c : Z) w : list (loc * info) :=
  filter (λ x, due c x.2 = 1) (default [] (w !! Z.to_nat c)).

Lemma now_due_fired s w ls :
  wheel_rep s w → w !! Z.to_nat (cur_slot s) = Some ls → now_due (cur_slot s) w = fired ls.
Proof.
  intros Hr Hi. unfold now_due, fired. rewrite Hi. simpl. apply filter_ext_elem.
  intros [l d] Hj. pose proof (wr_cur _ _ Hr).
  destruct (wr_info _ _ Hr _ _ _ _ Hi Hj) as [Hs Hrot]. simpl.
  rewrite (due_here (cur_slot s)) by lia. lia.
Qed.

Lemma elem_of_kept l d' ls :
  (l, d') ∈ kept ls ↔ ∃ d, (l, d) ∈ ls ∧ 0 < i_rot d ∧ d' = older d.
Proof.
  unfold kept. rewrite list_elem_of_fmap. split.
  - intros ([k d] & [= -> ->] & Hin). apply list_elem_of_filter in Hin as [Hrot Hin]. eauto.
  - intros (d & Hin & Hrot & ->). exists (l, d). rewrite list_elem_of_filter. done.
Qed.

(** What is left of a timer that did not fire. *)
Definition after_tick (c : Z) (d : info) : info := if decide (i_slot d = c) then older d else d.

Lemma due_after_tick s w l d :
  wheel_rep s w → timer_in w l d →
  due ((cur_slot s + 1) `mod` 60) (after_tick (cur_slot s) d) = due (cur_slot s) d - 1.
Proof.
  intros Hr (i & ls & Hi & Hin). destruct (wr_info _ _ Hr _ _ _ _ Hi Hin) as [Hs Hrot].
  pose proof (lookup_lt_Some _ _ _ Hi) as Hlt. rewrite (wr_len _ _ Hr) in Hlt.
  pose proof (wr_cur _ _ Hr). unfold after_tick. case_decide.
  - by apply due_next_here.
  - apply due_next_other; lia.
Qed.

Lemma elem_of_now_due s w l d :
  wheel_rep s w →
  (l, d) ∈ now_due (cur_slot s) w ↔ timer_in w l d ∧ due (cur_slot s) d = 1.
Proof.
  intros Hr. pose proof (wr_cur _ _ Hr) as Hc.
  destruct (wheel_slot _ _ _ Hr Hc) as [ls Hls].
  unfold now_due. rewrite Hls. simpl. rewrite list_elem_of_filter. simpl. split.
  - intros [Hd Hin]. split; [|done]. by exists (Z.to_nat (cur_slot s)), ls.
  - intros [(i & ls' & Hi & Hin) Hd]. split; [done|].
    destruct (wr_info _ _ Hr _ _ _ _ Hi Hin) as [Hs Hrot].
    pose proof (lookup_lt_Some _ _ _ Hi) as Hlt. rewrite (wr_len _ _ Hr) in Hlt.
    destruct (decide (i_slot d = cur_slot s)) as [He|He].
    + replace i with (Z.to_nat (cur_slot s)) in Hi by lia. by simplify_eq.
    + exfalso. destruct (due_next_other (cur_slot s) d); lia.
Qed.

(** Every list of the wheel is shorter than [fuel]. *)
Definition slots_lt (fuel : nat) w : Prop := ∀ i ls, w !! i = Some ls → (length ls < fuel)%nat.

Lemma tick_ok fuel s w :
  wheel_rep s w → slots_lt fuel w → (∀ x, x ∈ now_due (cur_slot s) w → ready x.2) →
  ∃ s' w', tick call fuel s = Ok (tt, s') ∧ wheel_rep s' w' ∧ slots_lt fuel w' ∧
    cur_slot s' = (cur_slot s + 1) `mod` 60 ∧
    world s' = fold_left fire (now_due (cur_slot s) w) (world s) ∧
    (∀ l d', timer_in w' l d' ↔
       ∃ d, timer_in w l d ∧ due (cur_slot s) d ≠ 1 ∧ d' = after_tick (cur_slot s) d).
Proof.
  intros Hr Hfuel Hready. pose proof (wr_cur _ _ Hr) as Hc.
  destruct (wheel_slot _ _ _ Hr Hc) as [ls Hls].
  rewrite (now_due_fired _ _ _ Hr Hls) in *. unfold tick. mrun.
  erewrite get_slot_ok by (first [exact (wr_slots _ _ Hr)|lia|exact Hls]). mrun.
  rewrite printf_ok.
  edestruct (tick_loop_ok fuel (mkState (timers s) (slots s) (cur_slot s)
    (out s ++ [("current slot is %d"%string, [cur_slot s])]) (world s)) w
    (Z.to_nat (cur_slot s)) [] ls) as (s1 & -> & Hr1 & Hc1 & Hw1).
  { by eapply wheel_rep_ext, Hr. }
  { cbn. lia. }
  { done. }
  { by eapply Hfuel. }
  { done. }
  cbn in Hc1, Hw1, Hr1. unfold set_cur_slot. mrun.
  assert (Z.rem (cur_slot s1 + 1) N = (cur_slot s + 1) `mod` 60) as Hmod.
  { rewrite Hc1. unfold N. apply Z.rem_mod_nonneg; lia. }
  eexists _, _. split; [done|]. cbn. split_and!; [|..|exact Hmod|done|].
  - destruct Hr1 as [H1 H2 H3 H4 H5 H6 H7]. split; try done. cbn. rewrite Hmod.
    by apply Z.mod_pos_bound.
  - intros i ls' [(<- & <- & _)|[_ Hi]]%list_lookup_insert_Some; [|by eapply Hfuel].
    unfold kept. rewrite length_fmap. eapply Nat.le_lt_trans; [apply length_filter|].
    by eapply Hfuel.
  - intros l d'. rewrite timer_in_insert by (by eapply lookup_lt_Some). rewrite elem_of_kept.
    setoid_rewrite (timer_in_slot _ _ _ _ _ Hls). unfold after_tick. split.
    + intros [(d & Hin & Hrot & ->)|(j & lsj & Hj & Hw & Hin)].
      * exists d. destruct (wr_info _ _ Hr _ _ _ _ Hls Hin) as [Hs _].
        rewrite due_here, decide_True by lia. split; [by left|]. split; [lia|done].
      * exists d'. destruct (wr_info _ _ Hr _ _ _ _ Hw Hin) as [Hs _].
        pose proof (lookup_lt_Some _ _ _ Hw) as Hlt. rewrite (wr_len _ _ Hr) in Hlt.
        rewrite decide_False by lia. split; [eauto 10|]. split; [|done].
        apply due_next_other; lia.
    + intros (d & [Hin|(j & lsj & Hj & Hw & Hin)] & Hd & ->).
      * left. destruct (wr_info _ _ Hr _ _ _ _ Hls Hin) as [Hs Hrot].
        rewrite due_here in Hd by lia. exists d. rewrite decide_True by lia. split; [done|]. split; [lia|done].
      * right. exists j, lsj. destruct (wr_info _ _ Hr _ _ _ _ Hw Hin) as [Hs Hrot].
        pose proof (lookup_lt_Some _ _ _ Hw) as Hlt. rewrite (wr_len _ _ Hr) in Hlt.
        rewrite decide_False by lia. done.
Qed.

Definition before_tick (c : Z) (d : info) : info :=
  if decide (i_slot d = c) then mkInfo (i_rot d + 1) (i_slot d) (i_cb d) (i_data d) else d.

Lemma before_after c d : before_tick c (after_tick c d) = d.
Proof.
  unfold before_tick, after_tick, older. destruct (decide (i_slot d = c)) as [He|]; simpl.
  - rewrite decide_True by done. destruct d; simpl in *. f_equal; lia.
  - by rewrite decide_False.
Qed.

Lemma fire_after c wd l d : fire wd (l, after_tick c d) = fire wd (l, d).
Proof. unfold after_tick. by case_decide. Qed.
Lemma ready_after c d : ready d → ready (after_tick c d).
Proof. unfold after_tick. by case_decide. Qed.

Lemma timer_in_fun s w l d d' : wheel_rep s w → timer_in w l d → timer_in w l d' → d = d'.
Proof.
  intros Hr (i & ls & Hi & Hin) (j & ls' & Hj & Hin').
  destruct (dseg_lookup _ _ _ _ _ _ (wr_seg _ _ Hr _ _ Hi) Hin) as (? & ? & Hl).
  destruct (dseg_lookup _ _ _ _ _ _ (wr_seg _ _ Hr _ _ Hj) Hin') as (? & ? & Hl').
  rewrite Hl in Hl'. destruct d, d'. by injection Hl' as -> -> -> -> _ _.
Qed.

Lemma now_due_nodup s w : wheel_rep s w → NoDup (now_due (cur_slot s) w).*1.
Proof.
  intros Hr. destruct (wheel_slot _ _ _ Hr (wr_cur _ _ Hr)) as [ls Hls].
  unfold now_due. rewrite Hls. simpl. by eapply NoDup_filter_fmap, wr_nodup.
Qed.

Lemma fold_fire_before c evs wd :
  (∀ x, x ∈ evs → ∃ d, x.2 = after_tick c d) →
  fold_left fire ((λ x, (x.1, before_tick c x.2)) <$> evs) wd = fold_left fire evs wd.
Proof.
  revert wd. induction evs as [|[l d'] evs IH]; intros wd Hx; [done|]. simpl.
  destruct (Hx (l, d')) as [d Hd]; [by left|]. simpl in Hd. subst d'.
  rewrite IH by (intros x ?; apply Hx; by right). by rewrite before_after, fire_after.
Qed.

Fixpoint ticks (k : nat) (fuel : nat) : M (state World) unit :=
  match k with
  | O => mret tt
  | S k => tick call fuel;; ticks k fuel
  end.

(** [evs] are the timers that [k] ticks from [c] fire, in this order. *)
Definition fires_within (k : Z) (c : Z) w (evs : list (loc * info)) : Prop :=
  NoDup evs.*1 ∧ StronglySorted (λ x y, due c x.2 ≤ due c y.2) evs ∧
  ∀ l d, (l, d) ∈ evs ↔ timer_in w l d ∧ due c d ≤ k.

Lemma fires_within_step k s s1 w w1 evs :
  wheel_rep s w → wheel_rep s1 w1 → cur_slot s1 = (cur_slot s + 1) `mod` 60 →
  (∀ l d', timer_in w1 l d' ↔
     ∃ d, timer_in w l d ∧ due (cur_slot s) d ≠ 1 ∧ d' = after_tick (cur_slot s) d) →
  0 ≤ k → fires_within k (cur_slot s1) w1 evs →
  fires_within (k + 1) (cur_slot s) w
    (now_due (cur_slot s) w ++ ((λ x, (x.1, before_tick (cur_slot s) x.2)) <$> evs)).
Proof.
  intros Hr Hr1 Hc1 Hin1 Hk (Hnd & Hsort & Hevs).
  assert (∀ l d, (l, d) ∈ ((λ x, (x.1, before_tick (cur_slot s) x.2)) <$> evs) ↔
    timer_in w l d ∧ due (cur_slot s) d ≠ 1 ∧ due (cur_slot s) d ≤ k + 1) as Hback.
  { intros l d. rewrite list_elem_of_fmap. split.
    - intros ([l' d'] & [= -> ->] & [Ht Hd]%Hevs). apply Hin1 in Ht as (d0 & Ht & Hne & ->).
      rewrite before_after. rewrite Hc1, (due_after_tick s w l' d0) in Hd by done.
      split_and!; [done..|lia].
    - intros (Ht & Hne & Hd). exists (l, after_tick (cur_slot s) d). simpl.
      rewrite before_after. split; [done|]. apply Hevs. split; [apply Hin1; eauto|].
      rewrite Hc1, (due_after_tick s w l d) by done. lia. }
  assert (∀ l d, (l, d) ∈ now_due (cur_slot s) w ↔ timer_in w l d ∧ due (cur_slot s) d = 1)
    as Hnow by (intros; by apply elem_of_now_due).
  split_and!.
  - rewrite fmap_app, <- list_fmap_compose. apply NoDup_app.
    split_and!; [by apply now_due_nodup| |exact Hnd].
    intros l [d [Ht Hd]%Hnow]%elem_of_fst Hl. change (l ∈ evs.*1) in Hl.
    apply elem_of_fst in Hl as [d' [Ht' _]%Hevs]. apply Hin1 in Ht' as (d0 & Ht' & Hne & _).
    apply Hne. by rewrite (timer_in_fun _ _ _ _ _ Hr Ht' Ht).
  - apply StronglySorted_app. split_and!.
    + intros [l d] [l' d'] [_ Hd]%Hnow [Ht' _]%Hback. simpl. rewrite Hd.
      by eapply due_pos.
    + assert (∀ x, x ∈ now_due (cur_slot s) w → due (cur_slot s) x.2 = 1) as H1.
      { intros [l d] Hx. by apply Hnow in Hx as [??]. }
      revert H1. generalize (now_due (cur_slot s) w). intros evs'.
      induction evs' as [|x evs' IH]; intros H1; constructor.
      * apply IH. intros y ?. apply H1. by right.
      * apply Forall_forall. intros y ?. rewrite (H1 x), (H1 y); [lia|by right|by left].
    + eapply (StronglySorted_fmap _ (λ x y, due (cur_slot s) (before_tick (cur_slot s) x.2) ≤
        due (cur_slot s) (before_tick (cur_slot s) y.2))); [done|]. eapply StronglySorted_mono; [|exact Hsort].
      intros [l d] [l' d'] [Hd _]%Hevs [Hd' _]%Hevs. simpl.
      apply Hin1 in Hd as (d1 & Ht1 & _ & ->), Hd' as (d2 & Ht2 & _ & ->).
      rewrite !before_after, Hc1, !(due_after_tick s w l d1), !(due_after_tick s w l' d2) by done.
      lia.
  - intros l d. rewrite elem_of_app, Hnow, Hback.
    destruct (decide (due (cur_slot s) d = 1)); intuition lia.
Qed.

(** C2: running the wheel for [k] ticks runs the callback of every timer due
    within [k] ticks exactly once, in the order in which they are due, removes
    and frees these timers, and brings every other timer [k] ticks closer. *)
Theorem ticks_fire_on_time k fuel s w :
  wheel_rep s w → slots_lt fuel w →
  (∀ l d, timer_in w l d → due (cur_slot s) d ≤ Z.of_nat k → ready d) →
  ∃ s' w' evs, ticks k fuel s = Ok (tt, s') ∧ wheel_rep s' w' ∧
    cur_slot s' = (cur_slot s + Z.of_nat k) `mod` 60 ∧
    world s' = fold_left fire evs (world s) ∧ fires_within (Z.of_nat k) (cur_slot s) w evs ∧
    ∀ l n, due_in w' (cur_slot s') l n ↔ 1 ≤ n ∧ due_in w (cur_slot s) l (n + Z.of_nat k).
Proof.
  revert s w. induction k as [|k IH]; intros s w Hr Hfuel Hready.
  - pose proof (due_pos s w) as Hpos. exists s, w, []. split_and!; try done.
    + rewrite Z.mod_small; pose proof (wr_cur _ _ Hr); lia.
    + split_and!; [constructor..|]. intros l d. split; [set_solver|].
      intros [Hin Hd]. specialize (Hpos l d Hr Hin). lia.
    + intros l n. rewrite Z.add_0_r. split; [|tauto]. intros (d & Hin & ->).
      split; [by eapply Hpos|by exists d].
  - destruct (tick_ok fuel s w Hr Hfuel) as (s1 & w1 & Hrun & Hr1 & Hf1 & Hc1 & Hw1 & Hin1).
    { intros [l d] [Hin Hd]%elem_of_now_due; [|done]. apply (Hready l d Hin). lia. }
    destruct (IH s1 w1 Hr1 Hf1) as (s2 & w2 & evs & Hrun2 & Hr2 & Hc2 & Hw2 & Hevs & Hin2).
    { intros l d' (d & Hin & Hne & ->)%Hin1 Hd.
      rewrite Hc1, (due_after_tick s w l d) in Hd by done.
      apply ready_after, (Hready l d Hin). lia. }
    exists s2, w2, (now_due (cur_slot s) w ++
      ((λ x, (x.1, before_tick (cur_slot s) x.2)) <$> evs)). split_and!.
    + cbn [ticks]. mrun. by rewrite Hrun.
    + done.
    + rewrite Hc2, Hc1, Z.add_mod_idemp_l by done. f_equal. lia.
    + rewrite fold_left_app, <- Hw1, fold_fire_before; [done|].
      intros [l d'] [Ht _]%Hevs. apply Hin1 in Ht as (d & _ & _ & ->). by exists d.
    + replace (Z.of_nat (S k)) with (Z.of_nat k + 1) by lia.
      eapply (fires_within_step _ s s1 w w1); [done..|lia|done].
    + intros l n. rewrite Hin2. split.
      * intros [Hn (d' & (d & Hin & Hne & ->)%Hin1 & Hd)]. split; [done|]. exists d.
        split; [done|]. rewrite Hc1, (due_after_tick s w l d) in Hd by done. lia.
      * intros [Hn (d & Hin & Hd)]. split; [done|]. exists (after_tick (cur_slot s) d).
        split; [apply Hin1; exists d; split_and!; [done|lia|done]|].
        rewrite Hc1, (due_after_tick s w l d) by done. lia.
Qed.
End tick.

(** ** The constructor and the destructor *)

Section lifetime.
Context {World : Type}.
Implicit Types (s : state World).

(** The constructor makes an empty wheel. *)
Lemma make_wheel_rep s :
  timers s = ∅ →
  ∃ s', make_wheel s = Ok (tt, s') ∧ wheel_rep s' (replicate 60 []) ∧ world s' = world s.
Proof.
  intros Ht. eexists. split; [done|]. split; [|done]. split.
  - done.
  - done.
  - cbn. lia.
  - by intros i ls [-> _]%lookup_replicate.
  - intros i ls [-> _]%lookup_replicate. constructor.
  - intros i ls l d [-> _]%lookup_replicate. set_solver.
  - intros l [? Hl]. cbn in Hl. by rewrite Ht in Hl.
Qed.

Lemma destroy_slot_ok fuel s i pv ls :
  slots s !! i = Some (firstp ls None) → dseg (timers s) pv ls None → NoDup ls.*1 →
  (length ls < fuel)%nat →
  ∃ s', destroy_slot fuel (Z.of_nat i) (firstp ls None) s = Ok (tt, s') ∧
    slots s' = <[i := None]> (slots s) ∧ world s' = world s ∧
    (∀ l, l ∈ ls.*1 → timers s' !! l = None) ∧
    ∀ l, l ∉ ls.*1 → timers s' !! l = timers s !! l.
Proof.
  revert fuel s pv. induction ls as [|[l d] ls IH]; intros [|fuel] s pv Hi Hseg Hnd Hf;
    cbn [length] in Hf; try lia.
  { eexists. split; [done|]. rewrite list_insert_id by done. set_solver. }
  destruct Hseg as [Hl Hseg]. rewrite fmap_cons in Hnd. apply NoDup_cons in Hnd as [Hln Hnd].
  pose proof (lookup_lt_Some _ _ _ Hi) as Hlt. cbn [fst firstp] in *.
  cbn [destroy_slot]. mstep. unfold set_slot at 1. mrun.
  rewrite zupdate_in by (unfold zlen; lia). mrun. rewrite Nat2Z.id.
  erewrite free_ok by (cbn; exact Hl). cbn. unfold get_slot at 1. mrun.
  unfold zlookup. rewrite bool_decide_eq_true_2, Nat2Z.id, list_lookup_insert_eq by (done || lia).
  mrun. edestruct (IH fuel (mkState (delete l (timers s)) (<[i := firstp ls None]> (slots s))
    (cur_slot s) (out s) (world s)) (Some l)) as (s' & Hrun & Hs & Hw & Hgone & Hfr).
  - cbn. by apply list_lookup_insert_eq.
  - cbn. eapply dseg_frame; [|done]. intros k Hk. rewrite lookup_delete_ne; [done|].
    by intros ->.
  - done.
  - lia.
  - exists s'. split; [exact Hrun|]. cbn in Hs, Hw, Hfr. rewrite list_insert_insert_eq in Hs.
    split_and!; [done|done| |].
    + intros k [->|Hk]%elem_of_cons; [|by apply Hgone].
      rewrite Hfr by done. apply lookup_delete_eq.
    + intros k [Hne Hk]%not_elem_of_cons. rewrite Hfr by done. by rewrite lookup_delete_ne.
Qed.

(** The destructor frees every timer of the wheel, in all its slots, and
    touches no freed timer on the way. *)
Lemma destroy_wheel_frees_all fuel s w :
  wheel_rep s w → slots_lt fuel w →
  ∃ s', destroy_wheel fuel s = Ok (tt, s') ∧ timers s' = ∅ ∧
    slots s' = replicate 60 None ∧ world s' = world s.
Proof.
  intros Hr Hf. unfold destroy_wheel.
  destruct (for_up_rule (λ k _ s',
    slots s' = replicate (Z.to_nat k) None ++ drop (Z.to_nat k) (slots s) ∧
    (∀ i ls, k ≤ Z.of_nat i → w !! i = Some ls → dseg (timers s') None ls None) ∧
    (∀ l, is_Some (timers s' !! l) → ∃ i ls, k ≤ Z.of_nat i ∧ w !! i = Some ls ∧ l ∈ ls.*1) ∧
    world s' = world s) 0 N (λ i _, tmp ← get_slot i; destroy_slot fuel i tmp) tt s)
    as ([] & s' & Hrun & Hs & _ & Hall & Hw); [done| | |].
  - split_and!; [done|intros; by eapply wr_seg| |done].
    intros l (i & ls & d & Hi & Hin)%(wr_all _ _ Hr). exists i, ls.
    split_and!; [lia|done|]. apply elem_of_fst. eauto.
  - intros k [] s1 Hk (Hs & Hseg & Hall & Hw).
    destruct (wheel_slot _ _ k Hr Hk) as [ls Hls].
    assert (slots s1 !! Z.to_nat k = Some (firstp ls None)) as Hk1.
    { rewrite Hs, lookup_app_r; rewrite length_replicate; [|lia].
      rewrite lookup_drop, (wr_slots _ _ Hr), list_lookup_fmap.
      replace (Z.to_nat k + (Z.to_nat k - Z.to_nat k))%nat with (Z.to_nat k) by lia.
      by rewrite Hls. }
    destruct (destroy_slot_ok fuel s1 (Z.to_nat k) None ls)
      as (s2 & Hrun & Hs2 & Hw2 & Hgone & Hfr); [done|apply (Hseg (Z.to_nat k)); [lia|done]| | |].
    { by eapply (wr_nodup _ _ Hr). }
    { by eapply Hf. }
    exists tt, s2. split.
    { mrun. unfold get_slot. mrun. unfold zlookup. rewrite bool_decide_eq_true_2, Hk1 by lia.
      mrun. by rewrite Z2Nat.id in Hrun by lia. }
    replace (Z.to_nat (k + 1)) with (S (Z.to_nat k)) by lia. split_and!.
    + rewrite Hs2, Hs, insert_app_r_alt by (rewrite length_replicate; lia).
      rewrite length_replicate, Nat.sub_diag, replicate_S_end, <- app_assoc.
      destruct (drop (Z.to_nat k) (slots s)) as [|x xs] eqn:E.
      { rewrite Hs, app_nil_r in Hk1. apply lookup_lt_Some in Hk1.
        rewrite length_replicate in Hk1. lia. }
      cbn. do 2 f_equal. by rewrite <- Nat.add_1_r, <- drop_drop, E.
    + intros i ls' Hi Hw'. eapply dseg_frame; [|apply (Hseg i ls'); [lia|done]].
      intros l Hl. apply Hfr. intros Hl'.
      assert (i = Z.to_nat k) by (by eapply (wheel_disjoint s w)). lia.
    + intros l Hl. destruct (decide (l ∈ ls.*1)) as [Hin|Hin].
      { rewrite Hgone in Hl by done. by destruct Hl. }
      rewrite Hfr in Hl by done. destruct (Hall l Hl) as (i & ls' & Hi & Hw' & Hl').
      exists i, ls'. split_and!; [|done..]. destruct (decide (i = Z.to_nat k)) as [->|]; [|lia].
      naive_solver.
    + by rewrite Hw2.
  - exists s'. split; [done|]. split_and!; [|  |done].
    + apply map_empty. intros l. destruct (timers s' !! l) eqn:E; [|done].
      destruct (Hall l) as (i & ls & Hi & Hw' & _); [by rewrite E|].
      apply lookup_lt_Some in Hw'. rewrite (wr_len _ _ Hr) in Hw'. unfold N in Hi. lia.
    + rewrite Hs. rewrite drop_ge; [done|]. rewrite (wr_slots _ _ Hr), length_fmap, (wr_len _ _ Hr). 
      unfold N; lia.
Qed.
End lifetime.

(** ** The theorems at a concrete wheel *)

Definition info_at (r s : Z) : info := mkInfo r s (Val (Some 1)) (Val s).

(** Slot 0 holds a timer with a rotation left, slot 1 two timers that fire when
    the wheel gets there. *)
Definition sample_wheel : list (list (loc * info)) :=
  [(1%positive, info_at 1 0)] :: [(2%positive, info_at 0 1); (3%positive, info_at 0 1)] ::
  replicate 58 [].
Definition sample : state (list Z) := mkState
  (list_to_map [(1%positive, node (info_at 1 0) None None);
                (2%positive, node (info_at 0 1) (Some 3%positive) None);
                (3%positive, node (info_at 0 1) None (Some 2%positive))])
  ((λ ls, firstp ls None) <$> sample_wheel) 0 [] [].

Lemma sample_slots i ls :
  sample_wheel !! i = Some ls →
  (i = 0%nat ∧ ls = [(1%positive, info_at 1 0)]) ∨
  (i = 1%nat ∧ ls = [(2%positive, info_at 0 1); (3%positive, info_at 0 1)]) ∨ ls = [].
Proof.
  unfold sample_wheel. destruct i as [|[|i]]; cbn [lookup list_lookup].
  - intros [= <-]. by left.
  - intros [= <-]. by right; left.
  - intros [-> _]%lookup_replicate. by right; right.
Qed.

Lemma wheel_sample_rep : wheel_rep sample sample_wheel.
Proof.
  split.
  - done.
  - done.
  - simpl. lia.
  - intros i ls [[-> ->]|[[-> ->]| ->]]%sample_slots; by repeat split.
  - intros i ls [[-> ->]|[[-> ->]| ->]]%sample_slots; by apply (bool_decide_unpack _).
  - intros i ls l d [[-> ->]|[[-> ->]| ->]]%sample_slots; rewrite ?elem_of_cons, elem_of_nil;
      intros H; repeat destruct H as [[= -> ->]|H]; try done; split; (done || (simpl; lia)).
  - intros l [t Ht]. apply elem_of_list_to_map_2 in Ht. rewrite !elem_of_cons, elem_of_nil in Ht.
    destruct Ht as [[= -> _]|[[= -> _]|[[= -> _]|[]]]].
    + exists 0%nat, [(1%positive, info_at 1 0)], (info_at 1 0). split; [done|]. by left.
    + exists 1%nat, [(2%positive, info_at 0 1); (3%positive, info_at 0 1)], (info_at 0 1).
      split; [done|]. by left.
    + exists 1%nat, [(2%positive, info_at 0 1); (3%positive, info_at 0 1)], (info_at 0 1).
      split; [done|]. right. by left.
Qed.

Lemma sample_lt : slots_lt 3 sample_wheel.
Proof. intros i ls [[-> ->]|[[-> ->]| ->]]%sample_slots; simpl; lia. Qed.

Lemma wheel_add_timer_witness :
  add_timer (alc := bump_allocator) (-1) sample = Ok (None, sample) ∧
  ∃ l s' w' d, add_timer (alc := bump_allocator) 61 sample = Ok (Some l, s') ∧
    wheel_rep s' w' ∧ timer_in w' l d ∧ due 0 d = 62.
Proof.
  destruct (wheel_add_timer (alc := bump_allocator) sample sample_wheel (-1) wheel_sample_rep)
    as (Hneg & _ & _).
  destruct (wheel_add_timer (alc := bump_allocator) sample sample_wheel 61 wheel_sample_rep)
    as (_ & _ & Hpos).
  split; [apply Hneg; lia|].
  destruct (Hpos (fresh (dom (timers sample)))) as (s' & w' & Hrun & Hr & _ & _ & (d & Hin & Hd) & _);
    [lia|done|].
  exists (fresh (dom (timers sample))), s', w', d. split_and!; assumption.
Defined.

Lemma wheel_del_timer_witness :
  ∃ s' w', del_timer (Some 3%positive) sample = Ok (tt, s') ∧ wheel_rep s' w' ∧
    timers s' !! 3%positive = None.
Proof.
  destruct (wheel_del_timer sample sample_wheel 3%positive (info_at 0 1) wheel_sample_rep)
    as (_ & s' & w' & Hrun & Hr & _ & _ & Hnone & _).
  { exists 1%nat, [(2%positive, info_at 0 1); (3%positive, info_at 0 1)].
    split; [done|]. right. by left. }
  exists s', w'. split_and!; assumption.
Defined.

Definition record_call (f u : Z) : M (state (list Z)) unit :=
  modify (λ s, mkState (timers s) (slots s) (cur_slot s) (out s) (world s ++ [u])).

Lemma sample_ready l d : timer_in sample_wheel l d → ready d.
Proof.
  intros (i & ls & [[-> ->]|[[-> ->]| ->]]%sample_slots & Hin);
    rewrite ?elem_of_cons, elem_of_nil in Hin;
    repeat destruct Hin as [[= -> ->]|Hin]; try done; by eexists _, _.
Qed.

Lemma ticks_fire_on_time_witness :
  ∃ s' w' evs, ticks record_call 2 3 sample = Ok (tt, s') ∧ wheel_rep s' w' ∧ cur_slot s' = 2 ∧
    fires_within 2 0 sample_wheel evs ∧ due_in w' 2 1%positive 59.
Proof.
  destruct (ticks_fire_on_time record_call (λ _ u wd, wd ++ [u]) (λ f u s, eq_refl) 2 3 sample
    sample_wheel wheel_sample_rep sample_lt) as (s' & w' & evs & Hrun & Hr & Hc & _ & Hevs & Hdue).
  { intros l d Hin _. by eapply sample_ready. }
  exists s', w', evs. split_and!; [exact Hrun|exact Hr|exact Hc|exact Hevs|].
  rewrite Hc in Hdue. apply Hdue. split; [lia|]. exists (info_at 1 0). split; [|done].
  exists 0%nat, [(1%positive, info_at 1 0)]. split; [done|]. by left.
Defined.

Lemma destroy_wheel_frees_all_witness :
  ∃ s', destroy_wheel 3 sample = Ok (tt, s') ∧ timers s' = ∅.
Proof.
  destruct (destroy_wheel_frees_all 3 sample sample_wheel wheel_sample_rep sample_lt)
    as (s' & Hrun & Ht & _).
  exists s'. split_and!; assumption.
Defined.
