(* ===== verification/Sys.v ===== *)
(** * Programs that call the system

    Code that talks to the kernel and to the C library runs in [M trace]: the
    trace is the calls made so far with their replies, and the replies come from
    an environment [env] that may look at the whole history. Nothing is known of
    [env] but [legal_env], which says that each of its replies is one that the
    manual pages allow: [posix_step] turns the manual pages into a partial
    function on the state of the system as far as a program can see it. *)
From S2P Require Export Buffer Format.

(** ** Calls and replies *)

Inductive oflag := O_RDONLY | O_WRONLY | O_RDWR | O_CREAT | O_TRUNC | O_APPEND | O_SYNC
  | O_DIRECT | O_NONBLOCK.
#[global] Instance oflag_eq_dec : EqDecision oflag.
Proof. solve_decision. Defined.

Inductive whence := SEEK_SET | SEEK_CUR | SEEK_END.

Inductive output :=
| Printf (fmt : string) (args : list arg)
| Eprintf (fmt : string) (args : list arg)     (* [fprintf(stderr, ...)] *)
| Perror (msg : string)
| Received (fd : Z) (data : bytes)             (* what was read from a socket or terminal *)
| Sent (fd : Z) (data : bytes).                (* what was written to one *)

(** Calls on an epoll instance; an [epoll_event] is [events] and [data.fd]. *)
Inductive epoll_call :=
| Epoll_create
| Epoll_add (fd events data : Z)               (* [epoll_ctl], [EPOLL_CTL_ADD] *)
| Epoll_del (fd : Z)                           (* [epoll_ctl], [EPOLL_CTL_DEL] *)
| Epoll_wait (maxevents timeout : Z).

(** Calls on a [FILE*]; [Fopen] is made of a path and a mode. *)
Inductive fmode := FRead | FWrite | FAppend.
Inductive stdio_call :=
| Setvbuf
| Fwrite (data : bytes)
| Fread (n : Z)
| Fgets (n : Z)
| Fprintf (fmt : string) (args : list arg)
| Fscanf (fmt : string)
| Fflush
| Ferror
| Feof
| Fileno
| Fclose.

(** Linux AIO: a request on a descriptor, at an offset of its file; the calls are
    given the requests that the array of pointers leads to, [None] for a null pointer. *)
Inductive aio_op := Pread (n : Z) | Pwrite (data : bytes).
Record aio_req := mkAio { a_fd : Z; a_op : aio_op; a_off : Z }.
Inductive aio_call :=
| Io_setup (nr : Z)                            (* the context is [r_off] *)
| Io_submit (ctx : Z) (reqs : list (option aio_req))
| Io_getevents (ctx min_nr nr : Z)             (* without a time-out *)
| Io_destroy (ctx : Z).

Inductive call :=
| Output (o : output)
| Open (path : string) (flags : list oflag)
| Close (fd : Z)
| Read (fd n : Z)
| Write (fd : Z) (data : bytes)
| Fsync (fd : Z)
| Fdatasync (fd : Z)
| Sync_file_range (fd off n : Z)
| Lseek (fd off : Z) (wh : whence)
| Fstat (fd : Z)
| Ftruncate (fd n : Z)
| Pipe
| Splice (fd_in fd_out len : Z)                (* with both offsets [NULL] *)
| Tee (fd_in fd_out len : Z)
| Sendfile (out_fd in_fd off len : Z)
| Mmap (len fd : Z)                            (* shared, readable and writable *)
| Msync (addr len : Z)
| Munmap (addr len : Z)
| Poke (addr off : Z) (data : bytes)           (* a store into a mapping *)
| Alloc (n : Z)                                (* [malloc], [posix_memalign] *)
| Free (p : Z)
| Socket
| Sockcall (name : string) (fd : Z) (args : list Z)  (* [bind], [listen], ... *)
| Accept (fd : Z)
| Recvfrom (fd n : Z)                          (* the sender's address is [r_off] *)
| Sendto (fd : Z) (data : bytes) (addr : Z)    (* a datagram is sent as a whole *)
| Getfl (fd : Z)                               (* [fcntl(fd, F_GETFL)] *)
| Setfl (fd flags : Z)                         (* [fcntl(fd, F_SETFL, flags)] *)
| Sleep (seconds : Z)
| Epoll (epfd : Z) (c : epoll_call)
| Fopen (path : string) (mode : fmode)
| Stdio (fp : Z) (c : stdio_call)
| Gets (n : Z)                                 (* [fgets(buf, n, stdin)] *)
| Libcall (name : string) (args : list Z)      (* [fork], [unlink], [pthread_create], ... *)
| Aio (c : aio_call).

(** What a call gives back: its return value, [errno], the bytes it stored into
    the caller's buffer, and what it stored through its other result pointers:
    an offset, size or address, two descriptors, epoll events and the values
    that [fscanf] assigns. *)
Record reply := mkReply {
  r_ret : Z; r_errno : Z; r_data : bytes; r_off : Z; r_fds : Z * Z;
  r_events : list (Z * Z); r_vals : list arg }.

Definition EINTR : Z := 4.
Definition EBADF : Z := 9.
Definition EAGAIN : Z := 11.

Definition event : Type := call * reply.
Definition trace : Type := list event.

Class Env := env : trace → call → reply.

Section calls.
Context {e : Env}.

Definition sys (c : call) : M trace reply := λ tr,
  let r := env tr c in Ok (r, tr ++ [(c, r)]).

Definition printf (fmt : string) (args : list arg) : M trace unit :=
  sys (Output (Printf fmt args));; mret tt.
Definition eprintf (fmt : string) (args : list arg) : M trace unit :=
  sys (Output (Eprintf fmt args));; mret tt.
Definition perror (msg : string) : M trace unit :=
  sys (Output (Perror msg));; mret tt.
Definition close (fd : Z) : M trace unit := sys (Close fd);; mret tt.
End calls.

Arguments sys {e} c : simpl never.
Arguments printf {e} fmt args : simpl never.
Arguments eprintf {e} fmt args : simpl never.
Arguments perror {e} msg : simpl never.
Arguments close {e} fd : simpl never.

(** ** Loops with [break] and [return] *)

Inductive ctl (A B : Type) := Next (a : A) | Break (b : B) | Return (z : Z).
Arguments Next {A B} a.
Arguments Break {A B} b.
Arguments Return {A B} z.

Inductive loop_exit (B : Type) := Left (b : B) | Returned (z : Z).
Arguments Left {B} b.
Arguments Returned {B} z.

Fixpoint loop {S A B} (fuel : nat) (body : A → M S (ctl A B)) (a : A) : M S (loop_exit B) :=
  match fuel with
  | O => no_fuel
  | S fuel =>
    c ← body a;
    match c with
    | Next a => loop fuel body a
    | Break b => mret (Left b)
    | Return z => mret (Returned z)
    end
  end.

(** The code after a loop, reached unless the loop returned. *)
Definition after {S B} (m : M S (loop_exit B)) (k : B → M S Z) : M S Z :=
  e ← m; match e with Left b => k b | Returned z => mret z end.

(** The first [n] rounds of a loop that need not end: it stands at [Next a] before
    its next round, or it has been left. *)
Fixpoint rounds {S A B} (n : nat) (body : A → M S (ctl A B)) (a : A) : M S (ctl A B) :=
  match n with
  | O => mret (Next a)
  | S n =>
    c ← body a;
    match c with Next a => rounds n body a | c => mret c end
  end.

(** The code after such a loop; [None] when it has not been left yet. *)
Definition after_rounds {S A B} (m : M S (ctl A B)) (k : B → M S Z) : M S (option Z) :=
  c ← m;
  match c with
  | Next _ => mret None
  | Break b => z ← k b; mret (Some z)
  | Return z => mret (Some z)
  end.

(** ** The system as a program sees it *)

Inductive kind :=
| KFile (path : string)
| KPipeR (p : positive)
| KPipeW (p : positive)
| KSocket
| KTty                                         (* the terminal: descriptors 0, 1 and 2 *)
| KEpoll.
#[global] Instance kind_eq_dec : EqDecision kind.
Proof. solve_decision. Defined.

(** An open file description. *)
Record ofile := mkOF { of_kind : kind; of_off : Z; of_flags : list oflag }.

(** A regular file: its content, and whether all of it has reached the disk. *)
Record file := mkFile { content : bytes; synced : bool }.

(** A [FILE*]: its descriptor, the output that is still in its buffer, and its
    error and end-of-file indicators. *)
Record stream := mkStream { s_fd : Z; s_pending : bytes; s_err : bool; s_eof : bool }.

(** [watches] has, for an epoll instance and a descriptor that it watches, the
    events and the data they were registered with. [sigs] bounds the signals that
    still interrupt a call and [arrivals] the reads of sockets and terminals that
    still find data; [outs] is what was printed, received and sent, and [misuses]
    counts the calls on a descriptor, mapping, allocation or AIO context that was not
    live. [aios] has, for an AIO context, the file, operation and offset of each request
    that was submitted and has not completed. *)
Record world := mkWorld {
  fds : gmap Z ofile; files : gmap string file; pipes : gmap positive bytes;
  maps : gmap Z (string * Z); mem : gset Z;
  sigs : nat; outs : list output; misuses : nat;
  watches : gmap (Z * Z) (Z * Z); streams : gmap Z stream; arrivals : nat;
  aios : gmap Z (list (string * aio_op * Z)) }.

Definition set_fds (x : gmap Z ofile) (w : world) : world :=
  mkWorld x (files w) (pipes w) (maps w) (mem w)
    (sigs w) (outs w) (misuses w) (watches w) (streams w) (arrivals w) (aios w).
Definition set_files (x : gmap string file) (w : world) : world :=
  mkWorld (fds w) x (pipes w) (maps w) (mem w)
    (sigs w) (outs w) (misuses w) (watches w) (streams w) (arrivals w) (aios w).
Definition set_pipes (x : gmap positive bytes) (w : world) : world :=
  mkWorld (fds w) (files w) x (maps w) (mem w)
    (sigs w) (outs w) (misuses w) (watches w) (streams w) (arrivals w) (aios w).
Definition set_maps (x : gmap Z (string * Z)) (w : world) : world :=
  mkWorld (fds w) (files w) (pipes w) x (mem w)
    (sigs w) (outs w) (misuses w) (watches w) (streams w) (arrivals w) (aios w).
Definition set_mem (x : gset Z) (w : world) : world :=
  mkWorld (fds w) (files w) (pipes w) (maps w) x
    (sigs w) (outs w) (misuses w) (watches w) (streams w) (arrivals w) (aios w).
Definition set_sigs (x : nat) (w : world) : world :=
  mkWorld (fds w) (files w) (pipes w) (maps w) (mem w) x
    (outs w) (misuses w) (watches w) (streams w) (arrivals w) (aios w).
Definition set_watches (x : gmap (Z * Z) (Z * Z)) (w : world) : world :=
  mkWorld (fds w) (files w) (pipes w) (maps w) (mem w)
    (sigs w) (outs w) (misuses w) x (streams w) (arrivals w) (aios w).
Definition set_streams (x : gmap Z stream) (w : world) : world :=
  mkWorld (fds w) (files w) (pipes w) (maps w) (mem w)
    (sigs w) (outs w) (misuses w) (watches w) x (arrivals w) (aios w).
Definition set_arrivals (x : nat) (w : world) : world :=
  mkWorld (fds w) (files w) (pipes w) (maps w) (mem w)
    (sigs w) (outs w) (misuses w) (watches w) (streams w) x (aios w).
Definition set_aios (x : gmap Z (list (string * aio_op * Z))) (w : world) : world :=
  mkWorld (fds w) (files w) (pipes w) (maps w) (mem w)
    (sigs w) (outs w) (misuses w) (watches w) (streams w) (arrivals w) x.
Definition print (x : output) (w : world) : world :=
  mkWorld (fds w) (files w) (pipes w) (maps w) (mem w) (sigs w) (outs w ++ [x]) (misuses w)
    (watches w) (streams w) (arrivals w) (aios w).
Definition misuse (w : world) : world :=
  mkWorld (fds w) (files w) (pipes w) (maps w) (mem w) (sigs w) (outs w) (S (misuses w))
    (watches w) (streams w) (arrivals w) (aios w).

(** Closing a descriptor takes it out of every epoll instance. *)
Definition unwatch (fd : Z) (w : world) : world :=
  set_watches (filter (λ x, x.1.1 ≠ fd ∧ x.1.2 ≠ fd) (watches w)) w.

(** The bytes that can be read from a description. *)
Definition avail (w : world) (o : ofile) : option bytes :=
  match of_kind o with
  | KFile p => f ← files w !! p; Some (drop (Z.to_nat (of_off o)) (content f))
  | KPipeR p => pipes w !! p
  | _ => None
  end.

(** [fd] after [n] bytes have been read from it. *)
Definition consume (fd : Z) (o : ofile) (n : Z) (w : world) : world :=
  match of_kind o with
  | KFile p => set_fds (<[fd := mkOF (of_kind o) (of_off o + n) (of_flags o)]> (fds w)) w
  | KPipeR p => set_pipes (alter (drop (Z.to_nat n)) p (pipes w)) w
  | _ => w
  end.

(** A file's content once [data] has been written at offset [off]. *)
Definition write_at (c : bytes) (off : nat) (data : bytes) : bytes :=
  take off (c ++ replicate (off - length c) "000"%char) ++ data ++ drop (off + length data) c.

(** [fd] after [data] has been written to it. *)
Definition deliver (fd : Z) (o : ofile) (data : bytes) (w : world) : world :=
  match of_kind o with
  | KFile p =>
    match files w !! p with
    | None => w
    | Some f =>
      let off := if bool_decide (O_APPEND ∈ of_flags o) then zlen (content f) else of_off o in
      set_fds (<[fd := mkOF (of_kind o) (off + zlen data) (of_flags o)]> (fds w))
        (set_files (<[p := mkFile (write_at (content f) (Z.to_nat off) data)
                            (bool_decide (O_SYNC ∈ of_flags o))]> (files w)) w)
    end
  | KPipeW p => set_pipes (alter (λ d, d ++ data) p (pipes w)) w
  | KSocket | KTty => print (Sent fd data) w
  | _ => w
  end.

Arguments new_buffer : simpl never.
Arguments fill : simpl never.
Arguments write_at : simpl never.

(** ** What the manual pages allow

    [posix_step w (c, r)] is the system after the call [c] was answered by [r],
    [None] when [r] is no answer to [c] in [w]. A failing call returns -1 and changes nothing;
    [EINTR] uses up one of the signals. Reads and writes of regular files and
    pipes may be short, but make progress unless they ask for nothing or there
    is nothing left. *)

Definition interrupted (w : world) (r : reply) : option world :=
  if negb (r_ret r =? -1) then None
  else if r_errno r =? EINTR then
    match sigs w with O => None | S n => Some (set_sigs n w) end
  else Some w.

Definition guard_opt {A} (b : bool) (x : A) : option A := if b then Some x else None.

(** A call on a descriptor that is not open fails with [EBADF]. *)
Definition dead_fd (w : world) (r : reply) : option world :=
  guard_opt ((r_ret r =? -1) && (r_errno r =? EBADF)) (misuse w).

(** A call on a live descriptor. *)
Definition on_fd (w : world) (fd : Z) (r : reply) (k : ofile → option world) : option world :=
  match fds w !! fd with
  | None => dead_fd w r
  | Some o => if r_ret r <? 0 then interrupted w r else k o
  end.

(** [ret] bytes [d] arrive at a socket or terminal, from which [n] were asked for. *)
Definition arrive (fd ret n : Z) (d : bytes) (w : world) : option world :=
  if (ret <=? n) && (zlen d =? ret) then
    if ret =? 0 then Some w
    else match arrivals w with O => None | S k => Some (print (Received fd d) (set_arrivals k w)) end
  else None.

Definition talks (k : kind) : bool := match k with KSocket | KTty => true | _ => false end.

(** A call on two live descriptors. *)
Definition on_fds (w : world) (a d : Z) (r : reply) (k : ofile → ofile → option world)
    : option world :=
  match fds w !! a, fds w !! d with
  | Some i, Some o => if r_ret r <? 0 then interrupted w r else k i o
  | _, _ => dead_fd w r
  end.

Definition new_fd (w : world) (fd : Z) (o : ofile) (w' : world) : option world :=
  guard_opt (bool_decide (fds w !! fd = None)) (set_fds (<[fd := o]> (fds w')) w').

(** [ret] bytes of [d], of which [n] were asked for. *)
Definition moved (ret n : Z) (d : bytes) : bool :=
  (ret <=? n) && (ret <=? zlen d) && ((0 <? ret) || (n =? 0) || (zlen d =? 0)).

Definition sink (o : ofile) : bool :=
  match of_kind o with KPipeR _ => false | _ => true end.

Definition sync_file (o : ofile) (w : world) : option world :=
  match of_kind o with
  | KFile p => Some (set_files (alter (λ f, mkFile (content f) true) p (files w)) w)
  | _ => None
  end.

Definition resize (n : Z) (c : bytes) : bytes :=
  take (Z.to_nat n) (c ++ replicate (Z.to_nat n - length c) "000"%char).

Definition seek (w : world) (o : ofile) (off : Z) (wh : whence) : option Z :=
  match of_kind o with
  | KFile p =>
    f ← files w !! p;
    let new := match wh with
      | SEEK_SET => off
      | SEEK_CUR => of_off o + off
      | SEEK_END => zlen (content f) + off
      end in
    guard_opt (0 <=? new) new
  | _ => None
  end.

(** The file [p] opened with [fl] as descriptor [fd]. *)
Definition open_file (w : world) (p : string) (fl : list oflag) (fd : Z) : option world :=
  match files w !! p with
  | None =>
    if bool_decide (O_CREAT ∈ fl) then
      new_fd w fd (mkOF (KFile p) 0 fl) (set_files (<[p := mkFile [] false]> (files w)) w)
    else None
  | Some f =>
    let f := if bool_decide (O_TRUNC ∈ fl) then mkFile [] false else f in
    new_fd w fd (mkOF (KFile p) 0 fl) (set_files (<[p := f]> (files w)) w)
  end.

(** The status flags that [fcntl] reads and writes, with their bits. *)
Definition status_bits : list (oflag * Z) := [(O_APPEND, 10); (O_NONBLOCK, 11); (O_DIRECT, 14)].
Definition flags_value (fl : list oflag) (z : Z) : bool :=
  forallb (λ x, bool_decide (Z.testbit z x.2 = bool_decide (x.1 ∈ fl))) status_bits.
Definition with_flags (z : Z) (fl : list oflag) : list oflag :=
  (filter (λ x, Z.testbit z x.2 = true) status_bits).*1 ++
  filter (λ x, x ∉ status_bits.*1) fl.

(** *** epoll *)

Definition EPOLLIN : Z := 1.
Definition EPOLLERR : Z := 8.
Definition EPOLLHUP : Z := 16.
Definition EPOLLRDHUP : Z := 8192.
Definition EPOLLET : Z := 2 ^ 31.

(** An event that some watched descriptor can give: what it was registered for,
    an error or a hang-up, with the data of the registration. *)
Definition event_of (epfd : Z) (ev : Z * Z) (x : (Z * Z) * (Z * Z)) : bool :=
  let '((ep, _), (mask, data)) := x in
  (ep =? epfd) && (data =? ev.2) && negb (ev.1 =? 0) &&
  (Z.land ev.1 (Z.lor mask (Z.lor EPOLLERR EPOLLHUP)) =? ev.1).

(** Regular files cannot be watched. An event is given at most once by one
    [epoll_wait], which gives none only when its time is up. *)
Definition epoll_step (w : world) (epfd : Z) (c : epoll_call) (r : reply) : option world :=
  let ret := r_ret r in
  match c with
  | Epoll_create =>
    if ret <? 0 then interrupted w r else new_fd w ret (mkOF KEpoll 0 []) (unwatch ret w)
  | Epoll_add fd events data => on_fds w epfd fd r (λ i o,
    guard_opt (bool_decide (of_kind i = KEpoll ∧ watches w !! (epfd, fd) = None) &&
               match of_kind o with KFile _ => false | _ => true end)
      (set_watches (<[(epfd, fd) := (events, data)]> (watches w)) w))
  | Epoll_del fd => on_fds w epfd fd r (λ i _,
    guard_opt (bool_decide (of_kind i = KEpoll ∧ is_Some (watches w !! (epfd, fd))))
      (set_watches (delete (epfd, fd) (watches w)) w))
  | Epoll_wait n timeout => on_fd w epfd r (λ i,
    guard_opt (bool_decide (of_kind i = KEpoll) && (ret <=? n) && (zlen (r_events r) =? ret) &&
               ((0 <? ret) || (0 <=? timeout)) && bool_decide (NoDup (r_events r).*2) &&
               forallb (λ ev, existsb (event_of epfd ev) (map_to_list (watches w))) (r_events r))
      w)
  end.

(** *** Buffered streams

    A stream's position in its file is the offset of its descriptor: what the
    library reads ahead is not seen by anything else. Output may leave the buffer
    at any time. *)

Definition mode_flags (m : fmode) : list oflag :=
  match m with
  | FRead => [O_RDONLY]
  | FWrite => [O_WRONLY; O_CREAT; O_TRUNC]
  | FAppend => [O_WRONLY; O_CREAT; O_APPEND]
  end.

(** The first [k] pending bytes go to the descriptor. *)
Definition flush (fp : Z) (st : stream) (k : nat) (w : world) : world :=
  let w := set_streams (<[fp := mkStream (s_fd st) (drop k (s_pending st)) (s_err st) (s_eof st)]>
             (streams w)) w in
  if bool_decide (take k (s_pending st) = []) then w
  else
    match fds w !! s_fd st with
    | None => w
    | Some o => deliver (s_fd st) o (take k (s_pending st)) w
    end.

(** [data] is put into the buffer, with [err] if not all of it fit, and [k]
    bytes leave the buffer. *)
Definition buffered (fp : Z) (st : stream) (data : bytes) (err : bool) (k : Z) (w : world)
    : option world :=
  let st := mkStream (s_fd st) (s_pending st ++ data) (s_err st || err) (s_eof st) in
  guard_opt ((0 <=? k) && (k <=? zlen (s_pending st))) (flush fp st (Z.to_nat k) w).

(** What a stream can still read. *)
Definition stream_input (w : world) (st : stream) : bytes :=
  if s_eof st then []
  else
    match fds w !! s_fd st with
    | None => []
    | Some o => default [] (avail w o)
    end.

(** The stream after it has taken [k] bytes of its input. *)
Definition take_input (fp : Z) (st : stream) (k : nat) (err eof : bool) (w : world) : world :=
  let w := set_streams (<[fp := mkStream (s_fd st) (s_pending st) (s_err st || err) (s_eof st || eof)]>
             (streams w)) w in
  match fds w !! s_fd st with
  | None => w
  | Some o => consume (s_fd st) o (Z.of_nat k) w
  end.

(** The first line of the input, with its newline, and at most [n] characters. *)
Fixpoint first_line (n : nat) (s : bytes) : bytes :=
  match n, s with
  | S n, c :: s => if bool_decide (c = newline) then [c] else c :: first_line n s
  | _, _ => []
  end.

Definition stdio_step (w : world) (fp : Z) (c : stdio_call) (r : reply) : option world :=
  let ret := r_ret r in
  match streams w !! fp with
  | None => Some (misuse w)
  | Some st =>
    let input := stream_input w st in
    match c with
    | Setvbuf => Some w
    | Fwrite data =>
      if (0 <=? ret) && (ret <=? zlen data) then
        buffered fp st (take (Z.to_nat ret) data) (ret <? zlen data) (r_off r) w
      else None
    | Fprintf fmt args =>
      let text := format (lit fmt) args in
      if ret <? 0 then buffered fp st (r_data r) true (r_off r) w
      else if ret =? zlen text then buffered fp st text false (r_off r) w
      else None
    | Fread n =>
      let n := Z.max 0 n in
      if (ret =? Z.min n (zlen input)) && bool_decide (r_data r = take (Z.to_nat ret) input) then
        Some (take_input fp st (Z.to_nat ret) false (ret <? n) w)
      else
        guard_opt ((0 <=? ret) && (ret <? n) && (ret <=? zlen input) &&
                   bool_decide (r_data r = take (Z.to_nat ret) input))
          (take_input fp st (Z.to_nat ret) true false w)
    | Fgets n =>
      let line := first_line (Z.to_nat (n - 1)) input in
      if ret =? 0 then
        Some (take_input fp st 0 (negb (bool_decide (input = []))) (bool_decide (input = [])) w)
      else
        guard_opt (bool_decide (line ≠ [] ∧ r_data r = line))
          (take_input fp st (length line) false
             (bool_decide (length line = length input) &&
              bool_decide (last line ≠ Some newline ∧ (length line < Z.to_nat (n - 1))%nat)) w)
    | Fscanf fmt =>
      let (vs, rest) := scan (lit fmt) input in
      if (ret =? -1) && bool_decide (r_vals r = []) then
        let eof := (r_off r =? 0) && bool_decide (vs = [] ∧ rest = []) in
        Some (take_input fp st (if eof then length input else 0) (negb eof) eof w)
      else
        guard_opt ((ret =? zlen vs) && bool_decide (vs ≠ [] ∨ rest ≠ []) &&
                   bool_decide (r_vals r = vs))
          (take_input fp st (length input - length rest) false (bool_decide (rest = [])) w)
    | Fflush =>
      if ret =? 0 then Some (flush fp st (length (s_pending st)) w)
      else buffered fp st [] true (r_off r) w
    | Ferror => guard_opt (bool_decide (ret ≠ 0 ↔ s_err st = true)) w
    | Feof => guard_opt (bool_decide (ret ≠ 0 ↔ s_eof st = true)) w
    | Fileno => guard_opt (ret =? s_fd st) w
    | Fclose =>
      w ← (if ret =? 0 then Some (flush fp st (length (s_pending st)) w)
           else buffered fp st [] true (r_off r) w);
      Some (unwatch (s_fd st)
        (set_fds (delete (s_fd st) (fds w)) (set_streams (delete fp (streams w)) w)))
    end
  end.

(** A mapping covers whole pages. A store beyond the last page of the file is a
    fault; one after the end of the file, in its last page, is not kept. *)
Definition pages (n : Z) : Z := (n + 4095) / 4096 * 4096.
Definition poke (c : bytes) (off : Z) (data : bytes) : bytes :=
  take (length c) (write_at c (Z.to_nat off) data).

(** *** Linux AIO

    The calls return a negative error instead of setting [errno]. [io_submit] starts
    the first [ret] of the requests. They complete when [io_getevents] or [io_destroy]
    says so, in any order, each with a result; [io_destroy] cancels the others. *)

Definition aio_start (w : world) (x : option aio_req) : option (string * aio_op * Z) :=
  q ← x;
  o ← fds w !! a_fd q;
  match of_kind o with KFile p => Some (p, a_op q, a_off q) | _ => None end.

(** The request [x] completes with [res]; the data that it has read. *)
Definition aio_complete (x : string * aio_op * Z) (res : Z) (w : world) : option (bytes * world) :=
  let '(p, op, off) := x in
  if res <? 0 then Some ([], w)
  else
    f ← files w !! p;
    match op with
    | Pread n =>
      let d := take (Z.to_nat res) (drop (Z.to_nat off) (content f)) in
      guard_opt ((res <=? n) && (zlen d =? res)) (d, w)
    | Pwrite data =>
      guard_opt (res <=? zlen data)
        ([], set_files (<[p := mkFile (write_at (content f) (Z.to_nat off) (take (Z.to_nat res) data)) false]>
               (files w)) w)
    end.

(** The events [evs]: the position of a request among [reqs], and its result. *)
Fixpoint aio_events (reqs : list (string * aio_op * Z)) (evs : list (Z * Z)) (w : world)
    : option (bytes * world) :=
  match evs with
  | [] => Some ([], w)
  | (i, res) :: evs =>
    x ← zlookup reqs i;
    '(d, w) ← aio_complete x res w;
    '(d', w) ← aio_events reqs evs w;
    Some (d ++ d', w)
  end.
Definition aio_left (reqs : list (string * aio_op * Z)) (evs : list (Z * Z)) :=
  omap (λ ix, if bool_decide (Z.of_nat ix.1 ∈ evs.*1) then None else Some ix.2) (imap pair reqs).

Definition aio_step (w : world) (c : aio_call) (r : reply) : option world :=
  let ret := r_ret r in
  match c with
  | Io_setup _ =>
    if ret <? 0 then Some w
    else guard_opt ((ret =? 0) && bool_decide (aios w !! r_off r = None))
           (set_aios (<[r_off r := []]> (aios w)) w)
  | Io_submit ctx reqs =>
    match aios w !! ctx with
    | None => guard_opt (ret <? 0) (misuse w)
    | Some old =>
      if ret <? 0 then Some w
      else if (ret <=? zlen reqs) && ((0 <? ret) || (zlen reqs =? 0)) then
        new ← mapM (aio_start w) (take (Z.to_nat ret) reqs);
        Some (set_aios (<[ctx := old ++ new]> (aios w)) w)
      else None
    end
  | Io_getevents ctx min_nr nr =>
    match aios w !! ctx with
    | None => guard_opt (ret <? 0) (misuse w)
    | Some reqs =>
      let evs := r_events r in
      if ret <? 0 then Some w
      else if (min_nr <=? ret) && (ret <=? nr) && (zlen evs =? ret) && bool_decide (NoDup evs.*1) then
        '(d, w) ← aio_events reqs evs w;
        guard_opt (bool_decide (r_data r = d)) (set_aios (<[ctx := aio_left reqs evs]> (aios w)) w)
      else None
    end
  | Io_destroy ctx =>
    match aios w !! ctx with
    | None => guard_opt (ret <? 0) (misuse w)
    | Some reqs =>
      if bool_decide (NoDup (r_events r).*1) then
        '(_, w) ← aio_events reqs (r_events r) w;
        Some (set_aios (delete ctx (aios w)) w)
      else None
    end
  end.

Definition posix_step (w : world) (ev : event) : option world :=
  let (c, r) := ev in
  let ret := r_ret r in
  match c with
  | Output o => Some (print o w)
  | Open p fl => if ret <? 0 then interrupted w r else open_file w p fl ret
  | Close fd =>
    match fds w !! fd with
    | None => dead_fd w r
    | Some _ => Some (unwatch fd (set_fds (delete fd (fds w)) w))
    end
  | Read fd n => on_fd w fd r (λ o,
    if talks (of_kind o) then arrive fd ret n (r_data r) w
    else
      d ← avail w o;
      guard_opt (moved ret n d && bool_decide (r_data r = take (Z.to_nat ret) d))
        (consume fd o ret w))
  | Write fd data => on_fd w fd r (λ o,
    guard_opt (sink o && (ret <=? zlen data) && ((0 <? ret) || (zlen data =? 0)))
      (deliver fd o (take (Z.to_nat ret) data) w))
  | Fsync fd | Fdatasync fd => on_fd w fd r (λ o, sync_file o w)
  | Sync_file_range fd _ _ => on_fd w fd r (λ _, Some w)
  | Lseek fd off wh => on_fd w fd r (λ o,
    new ← seek w o off wh;
    guard_opt (ret =? new) (set_fds (<[fd := mkOF (of_kind o) new (of_flags o)]> (fds w)) w))
  | Fstat fd => on_fd w fd r (λ o,
    match of_kind o with
    | KFile p => f ← files w !! p; guard_opt (r_off r =? zlen (content f)) w
    | _ => Some w
    end)
  | Ftruncate fd n => on_fd w fd r (λ o,
    match of_kind o with
    | KFile p =>
      guard_opt (0 <=? n)
        (set_files (alter (λ f, mkFile (resize n (content f)) false) p (files w)) w)
    | _ => None
    end)
  | Pipe =>
    if ret <? 0 then interrupted w r
    else
      let p := fresh (dom (pipes w)) in
      let (rd, wr) := r_fds r in
      guard_opt (bool_decide (0 ≤ rd ∧ 0 ≤ wr ∧ rd ≠ wr ∧ fds w !! rd = None ∧ fds w !! wr = None))
        (set_pipes (<[p := []]> (pipes w))
          (set_fds (<[wr := mkOF (KPipeW p) 0 []]> (<[rd := mkOF (KPipeR p) 0 []]> (fds w))) w))
  | Splice fd_in fd_out len => on_fds w fd_in fd_out r (λ i o,
    d ← avail w i;
    guard_opt (sink o && moved ret len d && negb (fd_in =? fd_out))
      (deliver fd_out o (take (Z.to_nat ret) d) (consume fd_in i ret w)))
  | Tee fd_in fd_out len => on_fds w fd_in fd_out r (λ i o,
    d ← avail w i;
    guard_opt (sink o && moved ret len d && negb (fd_in =? fd_out))
      (deliver fd_out o (take (Z.to_nat ret) d) w))
  | Sendfile fd_out fd_in off len => on_fds w fd_in fd_out r (λ i o,
    d ← avail w (mkOF (of_kind i) off (of_flags i));
    guard_opt (sink o && moved ret len d && (r_off r =? off + ret))
      (deliver fd_out o (take (Z.to_nat ret) d) w))
  | Mmap len fd => on_fd w fd r (λ o,
    match of_kind o with
    | KFile p => guard_opt (bool_decide (maps w !! ret = None))
                   (set_maps (<[ret := (p, len)]> (maps w)) w)
    | _ => None
    end)
  | Msync a _ =>
    match maps w !! a with
    | None => guard_opt (ret =? -1) (misuse w)
    | Some (p, _) =>
      if ret <? 0 then interrupted w r
      else Some (set_files (alter (λ f, mkFile (content f) true) p (files w)) w)
    end
  | Munmap a _ =>
    match maps w !! a with
    | None => guard_opt (ret =? -1) (misuse w)
    | Some _ => Some (set_maps (delete a (maps w)) w)
    end
  | Poke a off data =>
    match maps w !! a with
    | None => Some (misuse w)
    | Some (p, len) =>
      match files w !! p with
      | None => Some (misuse w)
      | Some f =>
        if (0 <=? off) && (off + zlen data <=? pages len) && (off + zlen data <=? pages (zlen (content f)))
        then Some (set_files (<[p := mkFile (poke (content f) off data) false]> (files w)) w)
        else Some (misuse w)
      end
    end
  | Alloc n =>
    if r_off r =? 0 then guard_opt (negb (ret =? 0)) w
    else guard_opt ((ret =? 0) && bool_decide (r_off r ∉ mem w))
           (set_mem ({[r_off r]} ∪ mem w) w)
  | Free p =>
    if p =? 0 then Some w
    else if bool_decide (p ∈ mem w) then Some (set_mem (mem w ∖ {[p]}) w)
    else Some (misuse w)
  | Socket => if ret <? 0 then interrupted w r else new_fd w ret (mkOF KSocket 0 []) w
  | Sockcall _ fd _ => on_fd w fd r (λ _, Some w)
  | Accept fd => on_fd w fd r (λ _, new_fd w ret (mkOF KSocket 0 []) w)
  | Recvfrom fd n => on_fd w fd r (λ o,
    if bool_decide (of_kind o = KSocket) then arrive fd ret n (r_data r) w else None)
  | Sendto fd data _ => on_fd w fd r (λ o,
    guard_opt (bool_decide (of_kind o = KSocket) && (ret =? zlen data)) (print (Sent fd data) w))
  | Getfl fd => on_fd w fd r (λ o, guard_opt (flags_value (of_flags o) ret) w)
  | Setfl fd z => on_fd w fd r (λ o,
    Some (set_fds (<[fd := mkOF (of_kind o) (of_off o) (with_flags z (of_flags o))]> (fds w)) w))
  | Sleep _ => Some w
  | Epoll epfd c => epoll_step w epfd c r
  | Fopen p m =>
    (* the stream is [r_off], [NULL] is 0; its descriptor is the first of [r_fds] *)
    if r_off r =? 0 then interrupted w r
    else if bool_decide (streams w !! r_off r = None) then
      w ← open_file w p (mode_flags m) (r_fds r).1;
      Some (set_streams (<[r_off r := mkStream (r_fds r).1 [] false false]> (streams w)) w)
    else None
  | Stdio fp c => stdio_step w fp c r
  | Gets n =>
    (* [NULL] is 0; else at most [n - 1] characters have come, up to a newline *)
    if ret <=? 0 then Some w
    else if bool_decide (r_data r ≠ [] ∧ first_line (Z.to_nat (n - 1)) (r_data r) = r_data r) then
      match arrivals w with O => None | S k => Some (print (Received 0 (r_data r)) (set_arrivals k w)) end
    else None
  | Libcall _ _ => guard_opt (-1 <=? ret) w
  | Aio c => aio_step w c r
  end.

Arguments posix_step : simpl never.
Arguments flush : simpl never.
Arguments take_input : simpl never.
Arguments scan : simpl never.
Arguments format : simpl never.
Arguments resize : simpl never.

Fixpoint replay (w : world) (tr : trace) : option world :=
  match tr with
  | [] => Some w
  | ev :: tr => w ← posix_step w ev; replay w tr
  end.

(** The environment answers every call as the manual pages allow, from the
    system [w0] on. *)
Definition legal_env `{Env} (w0 : world) : Prop :=
  ∀ tr w c, replay w0 tr = Some w → is_Some (posix_step w (c, env tr c)).

(** [m], run in a system [w] that was reached from [w0], ends without undefined
    behaviour and within its fuel, in a system and with a result for which [Q]
    holds: total correctness, whatever legal answers it gets. *)
Definition runs {A} (w0 : world) (m : M trace A) (w : world) (Q : A → world → Prop) : Prop :=
  ∀ tr, replay w0 tr = Some w →
    ∃ a tr' w', m tr = Ok (a, tr') ∧ replay w0 tr' = Some w' ∧ Q a w'.

Lemma replay_app w tr1 tr2 :
  replay w (tr1 ++ tr2) = w' ← replay w tr1; replay w' tr2.
Proof.
  revert w. induction tr1 as [|ev tr1 IH]; intros w; [done|]. simpl.
  destruct (posix_step w ev); simpl; auto.
Qed.

Section rules.
Context {e : Env} {w0 : world}.
Abbreviation runs := (runs w0).

Lemma runs_ret {A} (a : A) w (Q : A → world → Prop) : Q a w → runs (mret a) w Q.
Proof. intros HQ tr Htr. by exists a, tr, w. Qed.

Lemma runs_ext {A} (m m' : M trace A) w Q : (∀ tr, m' tr = m tr) → runs m w Q → runs m' w Q.
Proof. intros Heq Hm tr Htr. rewrite Heq. by apply Hm. Qed.

Lemma runs_bind {A B} (m : M trace A) (f : A → M trace B) w Q :
  runs m w (λ a w', runs (f a) w' Q) → runs (m ≫= f) w Q.
Proof.
  intros Hm tr Htr. destruct (Hm tr Htr) as (a & tr1 & w1 & Hrun & Hw1 & Hf).
  destruct (Hf tr1 Hw1) as (r & tr2 & w2 & Hrun2 & Hw2 & HQ).
  exists r, tr2, w2. split; [|done]. unfold mbind, M_bind. by rewrite Hrun.
Qed.

Lemma runs_mono {A} (m : M trace A) w (Q Q' : A → world → Prop) :
  runs m w Q → (∀ a w', Q a w' → Q' a w') → runs m w Q'.
Proof. intros Hm HQ tr Htr. destruct (Hm tr Htr) as (a & tr1 & w1 & ? & ? & ?). eauto 10. Qed.

(** A step that does not call the system. *)
Lemma runs_pure {A} (m : M trace A) a w (Q : A → world → Prop) :
  (∀ tr, m tr = Ok (a, tr)) → Q a w → runs m w Q.
Proof. intros Hm HQ tr Htr. exists a, tr, w. by rewrite Hm. Qed.

Context (Henv : legal_env w0).

Lemma runs_sys c w (Q : reply → world → Prop) :
  (∀ r w', posix_step w (c, r) = Some w' → Q r w') → runs (sys c) w Q.
Proof.
  intros HQ tr Htr. destruct (Henv tr w c Htr) as [w' Hw'].
  exists (env tr c), (tr ++ [(c, env tr c)]), w'. split; [done|].
  rewrite replay_app, Htr. cbn. rewrite Hw'. split; [done|]. by apply HQ.
Qed.

(** Something known of the answer to [c] beyond its being legal. *)
Lemma runs_fact c w (F : reply → Prop) (Q : reply → world → Prop) :
  (∀ tr, replay w0 tr = Some w → F (env tr c)) →
  runs (sys c) w (λ r w', F r → Q r w') → runs (sys c) w Q.
Proof.
  intros HF HQ tr Htr. destruct (HQ tr Htr) as (r & tr' & w' & Hrun & Hw' & H).
  exists r, tr', w'. split; [done|]. split; [done|]. apply H.
  unfold sys in Hrun. injection Hrun as <- _. by apply HF.
Qed.

Lemma runs_void c w (Q : unit → world → Prop) :
  (∀ r w', posix_step w (c, r) = Some w' → Q tt w') → runs (sys c;; mret tt) w Q.
Proof. intros HQ. apply runs_bind, runs_sys. intros r w' H. apply runs_ret. by eapply HQ. Qed.

Lemma runs_printf fmt args w (Q : unit → world → Prop) :
  Q tt (print (Printf fmt args) w) → runs (printf fmt args) w Q.
Proof. intros HQ. apply runs_void. intros r w' H. unfold posix_step in H. by simplify_eq. Qed.
Lemma runs_eprintf fmt args w (Q : unit → world → Prop) :
  Q tt (print (Eprintf fmt args) w) → runs (eprintf fmt args) w Q.
Proof. intros HQ. apply runs_void. intros r w' H. unfold posix_step in H. by simplify_eq. Qed.
Lemma runs_perror msg w (Q : unit → world → Prop) :
  Q tt (print (Perror msg) w) → runs (perror msg) w Q.
Proof. intros HQ. apply runs_void. intros r w' H. unfold posix_step in H. by simplify_eq. Qed.

Lemma runs_close fd w (Q : unit → world → Prop) :
  is_Some (fds w !! fd) → Q tt (unwatch fd (set_fds (delete fd (fds w)) w)) →
  runs (close fd) w Q.
Proof.
  intros [o Ho] HQ. apply runs_void. intros r w' H. unfold posix_step in H. rewrite Ho in H.
  by simplify_eq.
Qed.

(** Loops: an invariant, and a measure that every round decreases. *)
Lemma runs_loop {A B} (I : A → world → Prop) (measure : A → world → nat)
    (body : A → M trace (ctl A B)) fuel a w (Q : loop_exit B → world → Prop) :
  I a w → (measure a w < fuel)%nat →
  (∀ a w, I a w → runs (body a) w (λ c w', match c with
     | Next a' => I a' w' ∧ (measure a' w' < measure a w)%nat
     | Break b => Q (Left b) w'
     | Return z => Q (Returned z) w'
     end)) →
  runs (loop fuel body a) w Q.
Proof.
  intros HI Hm Hbody. revert a w HI Hm. induction fuel as [|fuel IH]; intros a w HI Hm; [lia|].
  cbn [loop]. apply runs_bind. eapply runs_mono; [by apply Hbody|].
  intros [a'|b|z] w' Hc; simpl in Hc.
  - destruct Hc as [HI' Hm']. apply IH; [done|lia].
  - by apply runs_ret.
  - by apply runs_ret.
Qed.

(** Rounds of a loop that keep the invariant [I], which may count them. *)
Lemma runs_rounds_count {A B} (I : nat → A → world → Prop) (body : A → M trace (ctl A B)) n a w
    (Q : ctl A B → world → Prop) :
  I O a w → (∀ a w, I n a w → Q (Next a) w) →
  (∀ k a w, (k < n)%nat → I k a w →
     runs (body a) w (λ c w', match c with Next a' => I (S k) a' w' | c => Q c w' end)) →
  runs (rounds n body a) w Q.
Proof.
  intros HI HQ Hbody. revert I a w HI HQ Hbody. induction n as [|n IH]; intros I a w HI HQ Hbody; cbn [rounds].
  { apply runs_ret. by apply HQ. }
  apply runs_bind. eapply runs_mono; [apply (Hbody O); [lia|done]|].
  intros [a'|b|z] w' Hc; simpl in Hc; [|by apply runs_ret..].
  apply (IH (λ k, I (S k))); [done|done|]. intros k a1 w1 Hk. apply Hbody. lia.
Qed.
Lemma runs_rounds {A B} (I : A → world → Prop) (body : A → M trace (ctl A B)) n a w
    (Q : ctl A B → world → Prop) :
  I a w → (∀ a w, I a w → Q (Next a) w) →
  (∀ a w, I a w → runs (body a) w (λ c w', match c with Next a' => I a' w' | c => Q c w' end)) →
  runs (rounds n body a) w Q.
Proof. intros HI HQ Hbody. eapply (runs_rounds_count (λ _, I)); [done|done|]. intros k a1 w1 _. apply Hbody. Qed.

Lemma runs_after_rounds {A B} (m : M trace (ctl A B)) k w (Q : option Z → world → Prop) :
  runs m w (λ c w', match c with
    | Next _ => Q None w' | Break b => runs (k b) w' (λ z, Q (Some z)) | Return z => Q (Some z) w'
    end) →
  runs (after_rounds m k) w Q.
Proof.
  intros Hm. apply runs_bind. eapply runs_mono; [done|]. intros [a|b|z] w' H; [by apply runs_ret| |by apply runs_ret].
  apply runs_bind. eapply runs_mono; [done|]. intros z w2 HQ. by apply runs_ret.
Qed.

Lemma runs_after {B} (m : M trace (loop_exit B)) k w (Q : Z → world → Prop) :
  runs m w (λ x w', match x with Left b => runs (k b) w' Q | Returned z => Q z w' end) →
  runs (after m k) w Q.
Proof.
  intros Hm. apply runs_bind. eapply runs_mono; [done|].
  intros [b|z] w' H; [done|by apply runs_ret].
Qed.

(** *** Single calls *)

(** The system after a failed call: at most fewer signals are pending. *)
Lemma interrupted_Some w r w' :
  interrupted w r = Some w' →
  ∃ n, w' = set_sigs n w ∧ (n ≤ sigs w)%nat ∧ (r_errno r = EINTR → n < sigs w)%nat ∧
    r_ret r = -1.
Proof.
  unfold interrupted. destruct (Z.eqb_spec (r_ret r) (-1)) as [H1|]; [|done]. cbn.
  destruct (Z.eqb_spec (r_errno r) EINTR) as [Hr|Hr].
  - destruct (sigs w) as [|n] eqn:E; intros; simplify_eq. exists n. split_and!; [done|lia..].
  - intros [= <-]. exists (sigs w). destruct w. split_and!; [done..|tauto|done].
Qed.

Lemma guard_Some {A} b (x y : A) : guard_opt b x = Some y → b = true ∧ x = y.
Proof. destruct b; cbn; intros; by simplify_eq. Qed.

Lemma moved_true ret n d :
  moved ret n d = true → ret ≤ n ∧ ret ≤ zlen d ∧ (0 < ret ∨ n = 0 ∨ d = []).
Proof.
  unfold moved. intros H. apply andb_true_iff in H as [H H']. propify.
  split_and!; [done..|]. apply orb_true_iff in H' as [H'|H'];
    [apply orb_true_iff in H' as [H'|H']|]; propify; [by left|by auto|].
  right. right. destruct d; [done|]. unfold zlen in H'. simpl in H'. lia.
Qed.

(** The cases of a call on a live descriptor. *)
Lemma runs_on_fd c fd o k w (Q : reply → world → Prop) :
  (∀ r, posix_step w (c, r) = on_fd w fd r (k r)) → fds w !! fd = Some o →
  (∀ r n, r_ret r = -1 → (n ≤ sigs w)%nat → (r_errno r = EINTR → n < sigs w)%nat →
     Q r (set_sigs n w)) →
  (∀ r w', 0 ≤ r_ret r → k r o = Some w' → Q r w') →
  runs (sys c) w Q.
Proof.
  intros Hstep Hfd Hfail Hok. apply runs_sys. intros r w' Hw'.
  rewrite Hstep in Hw'. unfold on_fd in Hw'. rewrite Hfd in Hw'.
  destruct (Z.ltb_spec (r_ret r) 0); [|by apply Hok].
  apply interrupted_Some in Hw' as (n & -> & ? & ? & ?). by apply Hfail.
Qed.

(** Opening a file that is created or truncated, or only read. *)
Lemma runs_creat p fl w (Q : reply → world → Prop) :
  bool_decide (O_CREAT ∈ fl) = true → bool_decide (O_TRUNC ∈ fl) = true →
  (∀ r n, r_ret r = -1 → (n ≤ sigs w)%nat → Q r (set_sigs n w)) →
  (∀ r, 0 ≤ r_ret r → fds w !! r_ret r = None →
     Q r (set_fds (<[r_ret r := mkOF (KFile p) 0 fl]> (fds w))
            (set_files (<[p := mkFile [] false]> (files w)) w))) →
  runs (sys (Open p fl)) w Q.
Proof.
  intros Hc Ht Hfail Hok. apply runs_sys. intros r w' Hw'. unfold posix_step, open_file in Hw'.
  rewrite Hc, Ht in Hw'. destruct (Z.ltb_spec (r_ret r) 0).
  - apply interrupted_Some in Hw' as (n & -> & ? & ? & ?). by apply Hfail.
  - assert (fds w !! r_ret r = None ∧ w' = set_fds (<[r_ret r := mkOF (KFile p) 0 fl]> (fds w))
      (set_files (<[p := mkFile [] false]> (files w)) w)) as [? ->]; [|by apply Hok].
    destruct (files w !! p); apply guard_Some in Hw' as [Hb <-]; by propify.
Qed.

Lemma runs_open p fl w (Q : reply → world → Prop) :
  bool_decide (O_CREAT ∈ fl) = false → bool_decide (O_TRUNC ∈ fl) = false →
  (∀ r n, r_ret r = -1 → (n ≤ sigs w)%nat → Q r (set_sigs n w)) →
  (∀ r f, 0 ≤ r_ret r → fds w !! r_ret r = None → files w !! p = Some f →
     Q r (set_fds (<[r_ret r := mkOF (KFile p) 0 fl]> (fds w)) w)) →
  runs (sys (Open p fl)) w Q.
Proof.
  intros Hc Ht Hfail Hok. apply runs_sys. intros r w' Hw'. unfold posix_step, open_file in Hw'.
  rewrite Hc, Ht in Hw'. destruct (Z.ltb_spec (r_ret r) 0).
  - apply interrupted_Some in Hw' as (n & -> & ? & ? & ?). by apply Hfail.
  - destruct (files w !! p) as [f|] eqn:E; [|done].
    apply guard_Some in Hw' as [Hb <-]. propify. rewrite (insert_id (files w)) by done.
    replace (set_files (files w) w) with w by (by destruct w). by eapply Hok.
Qed.

Lemma runs_read fd n p off fl f w (Q : reply → world → Prop) :
  fds w !! fd = Some (mkOF (KFile p) off fl) → files w !! p = Some f →
  (∀ r n, r_ret r = -1 → (n ≤ sigs w)%nat → (r_errno r = EINTR → n < sigs w)%nat →
     Q r (set_sigs n w)) →
  (∀ r, 0 ≤ r_ret r ≤ n → r_ret r ≤ zlen (drop (Z.to_nat off) (content f)) →
     (0 < r_ret r ∨ n = 0 ∨ drop (Z.to_nat off) (content f) = []) →
     r_data r = take (Z.to_nat (r_ret r)) (drop (Z.to_nat off) (content f)) →
     Q r (set_fds (<[fd := mkOF (KFile p) (off + r_ret r) fl]> (fds w)) w)) →
  runs (sys (Read fd n)) w Q.
Proof.
  intros Hfd Hf Hfail Hok. eapply runs_on_fd; [done|exact Hfd|done|].
  intros r w' Hr Hk. cbn in Hk. unfold avail in Hk. cbn in Hk. rewrite Hf in Hk. cbn in Hk.
  apply guard_Some in Hk as [Hb <-]. apply andb_true_iff in Hb as [Hm Hd]. propify.
  apply moved_true in Hm as (? & ? & ?). by apply Hok.
Qed.

Lemma runs_write fd data p off fl f w (Q : reply → world → Prop) :
  fds w !! fd = Some (mkOF (KFile p) off fl) → files w !! p = Some f →
  O_APPEND ∉ fl →
  (∀ r n, r_ret r = -1 → (n ≤ sigs w)%nat → (r_errno r = EINTR → n < sigs w)%nat →
     Q r (set_sigs n w)) →
  (∀ r, 0 ≤ r_ret r ≤ zlen data → (0 < r_ret r ∨ data = []) →
     Q r (set_fds (<[fd := mkOF (KFile p) (off + r_ret r) fl]> (fds w))
       (set_files (<[p := mkFile
          (write_at (content f) (Z.to_nat off) (take (Z.to_nat (r_ret r)) data))
          (bool_decide (O_SYNC ∈ fl))]> (files w)) w))) →
  runs (sys (Write fd data)) w Q.
Proof.
  intros Hfd Hf Ha Hfail Hok. eapply runs_on_fd; [done|exact Hfd|done|].
  intros r w' Hr Hk. cbn in Hk. apply guard_Some in Hk as [Hb <-].
  apply andb_true_iff in Hb as [Hb H0].
  unfold deliver. cbn [of_kind of_off of_flags]. rewrite Hf, (bool_decide_eq_false_2 _ Ha). propify.
  replace (zlen (take (Z.to_nat (r_ret r)) data)) with (r_ret r)
    by (unfold zlen in *; rewrite length_take; lia).
  apply Hok; [done|]. apply orb_true_iff in H0 as [?|H0]; propify; [by left|right].
  destruct data; [done|]. unfold zlen in H0. simpl in H0. lia.
Qed.

Lemma runs_sync c fd p off fl f w (Q : reply → world → Prop) :
  c = Fsync fd ∨ c = Fdatasync fd →
  fds w !! fd = Some (mkOF (KFile p) off fl) → files w !! p = Some f →
  (∀ r n, r_ret r = -1 → (n ≤ sigs w)%nat → (r_errno r = EINTR → n < sigs w)%nat →
     Q r (set_sigs n w)) →
  (∀ r, 0 ≤ r_ret r → Q r (set_files (<[p := mkFile (content f) true]> (files w)) w)) →
  runs (sys c) w Q.
Proof.
  intros Hc Hfd Hf Hfail Hok. eapply (runs_on_fd _ _ _ (λ _ o, sync_file o w));
    [by destruct Hc as [-> | ->]|exact Hfd|done|].
  intros r w' Hr Hk. cbn in Hk. simplify_eq. rewrite (alter_alt_Some _ _ _ _ Hf). by apply Hok.
Qed.

Lemma runs_lseek fd off wh p off0 fl w (Q : reply → world → Prop) :
  fds w !! fd = Some (mkOF (KFile p) off0 fl) →
  (∀ r n, r_ret r = -1 → (n ≤ sigs w)%nat → Q r (set_sigs n w)) →
  (∀ r new, r_ret r = new → 0 ≤ new → seek w (mkOF (KFile p) off0 fl) off wh = Some new →
     Q r (set_fds (<[fd := mkOF (KFile p) new fl]> (fds w)) w)) →
  runs (sys (Lseek fd off wh)) w Q.
Proof.
  intros Hfd Hfail Hok. eapply runs_on_fd; [done|exact Hfd|by intros; apply Hfail|].
  intros r w' Hr Hk. cbn beta in Hk.
  destruct (seek w _ off wh) as [new|] eqn:E; [|done].
  apply guard_Some in Hk as [Hb <-]. propify. eapply Hok; [done|lia|done].
Qed.

Lemma runs_fstat fd p off fl f w (Q : reply → world → Prop) :
  fds w !! fd = Some (mkOF (KFile p) off fl) → files w !! p = Some f →
  (∀ r n, r_ret r = -1 → (n ≤ sigs w)%nat → Q r (set_sigs n w)) →
  (∀ r, 0 ≤ r_ret r → r_off r = zlen (content f) → Q r w) →
  runs (sys (Fstat fd)) w Q.
Proof.
  intros Hfd Hf Hfail Hok. eapply runs_on_fd; [done|exact Hfd|by intros; apply Hfail|].
  intros r w' Hr Hk. cbn in Hk. rewrite Hf in Hk. cbn in Hk.
  apply guard_Some in Hk as [Hb <-]. propify. by apply Hok.
Qed.

Lemma runs_pipe_nonneg w (Q : reply → world → Prop) :
  (∀ r n, r_ret r = -1 → (n ≤ sigs w)%nat → Q r (set_sigs n w)) →
  (∀ r rd wr p, 0 ≤ r_ret r → r_fds r = (rd, wr) → rd ≠ wr →
     fds w !! rd = None → fds w !! wr = None → pipes w !! p = None → 0 ≤ rd ∧ 0 ≤ wr →
     Q r (set_pipes (<[p := []]> (pipes w))
       (set_fds (<[wr := mkOF (KPipeW p) 0 []]> (<[rd := mkOF (KPipeR p) 0 []]> (fds w))) w))) →
  runs (sys Pipe) w Q.
Proof.
  intros Hfail Hok. apply runs_sys. intros r w' Hw'. unfold posix_step in Hw'.
  destruct (Z.ltb_spec (r_ret r) 0).
  - apply interrupted_Some in Hw' as (n & -> & ? & ? & ?). by apply Hfail.
  - destruct (r_fds r) as [rd wr] eqn:E. cbn in Hw'.
    apply guard_Some in Hw' as [Hb <-]. propify. destruct Hb as (? & ? & ? & ? & ?).
    apply Hok; try done. apply not_elem_of_dom, is_fresh.
Qed.
Lemma runs_pipe w (Q : reply → world → Prop) :
  (∀ r n, r_ret r = -1 → (n ≤ sigs w)%nat → Q r (set_sigs n w)) →
  (∀ r rd wr p, 0 ≤ r_ret r → r_fds r = (rd, wr) → rd ≠ wr →
     fds w !! rd = None → fds w !! wr = None → pipes w !! p = None →
     Q r (set_pipes (<[p := []]> (pipes w))
       (set_fds (<[wr := mkOF (KPipeW p) 0 []]> (<[rd := mkOF (KPipeR p) 0 []]> (fds w))) w))) →
  runs (sys Pipe) w Q.
Proof. intros Hfail Hok. apply runs_pipe_nonneg; [done|]. intros. by apply Hok. Qed.

(** A [splice], [tee] or [sendfile] from [i] to [o]. *)
Lemma runs_on_fds c fd_i fd_o i o k w (Q : reply → world → Prop) :
  (∀ r, posix_step w (c, r) = on_fds w fd_i fd_o r (k r)) →
  fds w !! fd_i = Some i → fds w !! fd_o = Some o →
  (∀ r n, r_ret r = -1 → (n ≤ sigs w)%nat → Q r (set_sigs n w)) →
  (∀ r w', 0 ≤ r_ret r → k r i o = Some w' → Q r w') →
  runs (sys c) w Q.
Proof.
  intros Hstep Hi Ho Hfail Hok. apply runs_sys. intros r w' Hw'.
  rewrite Hstep in Hw'. unfold on_fds in Hw'. rewrite Hi, Ho in Hw'.
  destruct (Z.ltb_spec (r_ret r) 0); [|by apply Hok].
  apply interrupted_Some in Hw' as (n & -> & ? & ? & ?). by apply Hfail.
Qed.

Lemma runs_splice_read fd p off fl f fd_o o pp (d : bytes) n w (Q : reply → world → Prop) :
  fds w !! fd = Some (mkOF (KFile p) off fl) → files w !! p = Some f →
  fds w !! fd_o = Some o → of_kind o = KPipeW pp → pipes w !! pp = Some d →
  (∀ r n, r_ret r = -1 → (n ≤ sigs w)%nat → Q r (set_sigs n w)) →
  (∀ r, let rest := drop (Z.to_nat off) (content f) in
     0 ≤ r_ret r ≤ n → r_ret r ≤ zlen rest → (0 < r_ret r ∨ n = 0 ∨ rest = []) →
     Q r (set_pipes (<[pp := d ++ take (Z.to_nat (r_ret r)) rest]> (pipes w))
            (set_fds (<[fd := mkOF (KFile p) (off + r_ret r) fl]> (fds w)) w))) →
  runs (sys (Splice fd fd_o n)) w Q.
Proof.
  intros Hfd Hf Ho Hko Hpp Hfail Hok. eapply runs_on_fds; [done|exact Hfd|exact Ho|done|].
  intros r w' Hr Hk. cbn beta in Hk. unfold avail in Hk. cbn [of_kind of_off] in Hk.
  rewrite Hf in Hk. cbn in Hk. apply guard_Some in Hk as [Hb <-].
  apply andb_true_iff in Hb as [Hb _]. apply andb_true_iff in Hb as [_ Hm].
  apply moved_true in Hm as (? & ? & ?). unfold deliver. rewrite Hko. cbn.
  rewrite (alter_alt_Some _ _ _ _ Hpp). by apply Hok.
Qed.

Lemma runs_splice_write fd p off fl f fd_i i pp (d : bytes) n w (Q : reply → world → Prop) :
  fds w !! fd_i = Some i → of_kind i = KPipeR pp → pipes w !! pp = Some d →
  fds w !! fd = Some (mkOF (KFile p) off fl) → files w !! p = Some f → O_APPEND ∉ fl →
  (∀ r n, r_ret r = -1 → (n ≤ sigs w)%nat → Q r (set_sigs n w)) →
  (∀ r, 0 ≤ r_ret r ≤ n → r_ret r ≤ zlen d → (0 < r_ret r ∨ n = 0 ∨ d = []) →
     Q r (set_fds (<[fd := mkOF (KFile p) (off + r_ret r) fl]> (fds w))
           (set_files (<[p := mkFile
              (write_at (content f) (Z.to_nat off) (take (Z.to_nat (r_ret r)) d))
              (bool_decide (O_SYNC ∈ fl))]> (files w))
           (set_pipes (<[pp := drop (Z.to_nat (r_ret r)) d]> (pipes w)) w)))) →
  runs (sys (Splice fd_i fd n)) w Q.
Proof.
  intros Hi Hki Hpp Hfd Hf Ha Hfail Hok. eapply runs_on_fds; [done|exact Hi|exact Hfd|done|].
  intros r w' Hr Hk. cbn beta in Hk. unfold avail in Hk. rewrite Hki in Hk.
  cbn in Hk. rewrite Hpp in Hk. cbn in Hk. apply guard_Some in Hk as [Hb <-].
  apply andb_true_iff in Hb as [Hm _]. apply moved_true in Hm as (? & ? & ?).
  unfold deliver, consume. rewrite Hki. cbn [of_kind of_off of_flags files set_pipes].
  rewrite Hf, (bool_decide_eq_false_2 _ Ha), (alter_alt_Some _ _ _ _ Hpp).
  replace (zlen (take (Z.to_nat (r_ret r)) d)) with (r_ret r)
    by (unfold zlen in *; rewrite length_take; lia).
  by apply Hok.
Qed.

Lemma runs_sendfile fd_i p off0 fl0 f fd q off fl g soff n w (Q : reply → world → Prop) :
  fds w !! fd_i = Some (mkOF (KFile p) off0 fl0) → files w !! p = Some f →
  fds w !! fd = Some (mkOF (KFile q) off fl) → files w !! q = Some g → O_APPEND ∉ fl →
  (∀ r n, r_ret r = -1 → (n ≤ sigs w)%nat → Q r (set_sigs n w)) →
  (∀ r, let rest := drop (Z.to_nat soff) (content f) in
     0 ≤ r_ret r ≤ n → r_ret r ≤ zlen rest → (0 < r_ret r ∨ n = 0 ∨ rest = []) →
     r_off r = soff + r_ret r →
     Q r (set_fds (<[fd := mkOF (KFile q) (off + r_ret r) fl]> (fds w))
           (set_files (<[q := mkFile
              (write_at (content g) (Z.to_nat off) (take (Z.to_nat (r_ret r)) rest))
              (bool_decide (O_SYNC ∈ fl))]> (files w)) w))) →
  runs (sys (Sendfile fd fd_i soff n)) w Q.
Proof.
  intros Hi Hf Hfd Hg Ha Hfail Hok. eapply runs_on_fds; [done|exact Hi|exact Hfd|done|].
  intros r w' Hr Hk. cbn beta in Hk. unfold avail in Hk. cbn [of_kind of_off] in Hk.
  rewrite Hf in Hk. cbn in Hk. apply guard_Some in Hk as [Hb <-].
  apply andb_true_iff in Hb as [Hm Hoff]. apply moved_true in Hm as (? & ? & ?). propify.
  unfold deliver. cbn [of_kind of_off of_flags]. rewrite Hg, (bool_decide_eq_false_2 _ Ha).
  replace (zlen (take _ _)) with (r_ret r)
    by (unfold zlen in *; rewrite length_take; lia).
  by apply Hok.
Qed.

(** *** Pipes *)

Lemma runs_write_pipe fd o p (d data : bytes) w (Q : reply → world → Prop) :
  fds w !! fd = Some o → of_kind o = KPipeW p → pipes w !! p = Some d →
  (∀ r n, r_ret r = -1 → (n ≤ sigs w)%nat → Q r (set_sigs n w)) →
  (∀ r, 0 ≤ r_ret r ≤ zlen data →
     Q r (set_pipes (<[p := d ++ take (Z.to_nat (r_ret r)) data]> (pipes w)) w)) →
  runs (sys (Write fd data)) w Q.
Proof.
  intros Hfd Ho Hp Hfail Hok. eapply runs_on_fd; [done|exact Hfd|by intros; apply Hfail|].
  intros r w' Hr Hk. cbn beta in Hk. apply guard_Some in Hk as [Hb <-]. propify.
  unfold deliver. rewrite Ho, (alter_alt_Some _ _ _ _ Hp). by apply Hok.
Qed.

(** Writing to a pipe when the result is not looked at. *)
Lemma runs_write_pipe_any fd o p (d data : bytes) w (Q : reply → world → Prop) :
  fds w !! fd = Some o → of_kind o = KPipeW p → pipes w !! p = Some d →
  (∀ r n k, Q r (set_pipes (<[p := d ++ take k data]> (pipes w)) (set_sigs n w))) →
  runs (sys (Write fd data)) w Q.
Proof.
  intros Hfd Ho Hp HQ. eapply runs_write_pipe; [exact Hfd|exact Ho|exact Hp|..].
  - intros r n _ _. specialize (HQ r n 0%nat). rewrite take_0, app_nil_r, insert_id in HQ by done.
    by destruct w.
  - intros r _. specialize (HQ r (sigs w) (Z.to_nat (r_ret r))). by destruct w.
Qed.

Lemma runs_read_pipe fd n o p (d : bytes) w (Q : reply → world → Prop) :
  fds w !! fd = Some o → of_kind o = KPipeR p → pipes w !! p = Some d →
  (∀ r k, r_ret r = -1 → (k ≤ sigs w)%nat → Q r (set_sigs k w)) →
  (∀ r, 0 ≤ r_ret r ≤ n → r_ret r ≤ zlen d → r_data r = take (Z.to_nat (r_ret r)) d →
     Q r (set_pipes (<[p := drop (Z.to_nat (r_ret r)) d]> (pipes w)) w)) →
  runs (sys (Read fd n)) w Q.
Proof.
  intros Hfd Ho Hp Hfail Hok. eapply runs_on_fd; [done|exact Hfd|by intros; apply Hfail|].
  intros r w' Hr Hk. cbn beta in Hk. unfold avail in Hk. rewrite Ho in Hk. cbn in Hk. rewrite Hp in Hk. cbn in Hk.
  apply guard_Some in Hk as [Hb <-]. propify.
  match goal with H : moved _ _ _ = true |- _ => apply moved_true in H as (? & ? & _) end.
  unfold consume. rewrite Ho, (alter_alt_Some _ _ _ _ Hp). by apply Hok.
Qed.

(** [splice] and [tee] from one pipe to another. *)
Lemma runs_splice_pipes fd_i fd_o i o p q (d dq : bytes) n w (Q : reply → world → Prop) :
  fds w !! fd_i = Some i → of_kind i = KPipeR p → pipes w !! p = Some d →
  fds w !! fd_o = Some o → of_kind o = KPipeW q → pipes w !! q = Some dq → p ≠ q →
  (∀ r k, r_ret r = -1 → (k ≤ sigs w)%nat → Q r (set_sigs k w)) →
  (∀ r, 0 ≤ r_ret r ≤ n → r_ret r ≤ zlen d →
     Q r (set_pipes (<[q := dq ++ take (Z.to_nat (r_ret r)) d]>
            (<[p := drop (Z.to_nat (r_ret r)) d]> (pipes w))) w)) →
  runs (sys (Splice fd_i fd_o n)) w Q.
Proof.
  intros Hi Hki Hp Ho Hko Hq Hne Hfail Hok. eapply runs_on_fds; [done|exact Hi|exact Ho|done|].
  intros r w' Hr Hk. cbn beta in Hk. unfold avail in Hk. rewrite Hki in Hk. cbn in Hk.
  rewrite Hp in Hk. cbn in Hk. apply guard_Some in Hk as [Hb <-].
  apply andb_true_iff in Hb as [Hb _]. apply andb_true_iff in Hb as [_ Hm].
  apply moved_true in Hm as (? & ? & _). unfold deliver, consume. rewrite Hki, Hko.
  rewrite (alter_alt_Some _ _ _ _ Hp). cbn. erewrite alter_alt_Some;
    [|by rewrite lookup_insert_ne]. by apply Hok.
Qed.

Lemma runs_tee fd_i fd_o i o p q (d dq : bytes) n w (Q : reply → world → Prop) :
  fds w !! fd_i = Some i → of_kind i = KPipeR p → pipes w !! p = Some d →
  fds w !! fd_o = Some o → of_kind o = KPipeW q → pipes w !! q = Some dq →
  (∀ r k, r_ret r = -1 → (k ≤ sigs w)%nat → Q r (set_sigs k w)) →
  (∀ r, 0 ≤ r_ret r ≤ n → r_ret r ≤ zlen d →
     Q r (set_pipes (<[q := dq ++ take (Z.to_nat (r_ret r)) d]> (pipes w)) w)) →
  runs (sys (Tee fd_i fd_o n)) w Q.
Proof.
  intros Hi Hki Hp Ho Hko Hq Hfail Hok. eapply runs_on_fds; [done|exact Hi|exact Ho|done|].
  intros r w' Hr Hk. cbn beta in Hk. unfold avail in Hk. rewrite Hki in Hk. cbn in Hk.
  rewrite Hp in Hk. cbn in Hk. apply guard_Some in Hk as [Hb <-].
  apply andb_true_iff in Hb as [Hb _]. apply andb_true_iff in Hb as [_ Hm].
  apply moved_true in Hm as (? & ? & _). unfold deliver. rewrite Hko.
  rewrite (alter_alt_Some _ _ _ _ Hq). by apply Hok.
Qed.

(** *** Mappings and memory *)

Lemma runs_range fd off n o w (Q : reply → world → Prop) :
  fds w !! fd = Some o →
  (∀ r k, r_ret r = -1 → (k ≤ sigs w)%nat → Q r (set_sigs k w)) →
  (∀ r, 0 ≤ r_ret r → Q r w) → runs (sys (Sync_file_range fd off n)) w Q.
Proof.
  intros Hfd Hfail Hok. eapply runs_on_fd; [done|exact Hfd|by intros; apply Hfail|].
  intros r w' Hr [= <-]. by apply Hok.
Qed.

Lemma runs_ftruncate fd n p off fl f w (Q : reply → world → Prop) :
  fds w !! fd = Some (mkOF (KFile p) off fl) → files w !! p = Some f →
  (∀ r k, r_ret r = -1 → (k ≤ sigs w)%nat → Q r (set_sigs k w)) →
  (∀ r, 0 ≤ r_ret r → 0 ≤ n →
     Q r (set_files (<[p := mkFile (resize n (content f)) false]> (files w)) w)) →
  runs (sys (Ftruncate fd n)) w Q.
Proof.
  intros Hfd Hf Hfail Hok. eapply runs_on_fd; [done|exact Hfd|by intros; apply Hfail|].
  intros r w' Hr Hk. cbn in Hk. apply guard_Some in Hk as [Hb <-]. propify.
  rewrite (alter_alt_Some _ _ _ _ Hf). by apply Hok.
Qed.

Lemma runs_mmap fd len p off fl w (Q : reply → world → Prop) :
  fds w !! fd = Some (mkOF (KFile p) off fl) →
  (∀ r k, r_ret r = -1 → (k ≤ sigs w)%nat → Q r (set_sigs k w)) →
  (∀ r, 0 ≤ r_ret r → maps w !! r_ret r = None →
     Q r (set_maps (<[r_ret r := (p, len)]> (maps w)) w)) →
  runs (sys (Mmap len fd)) w Q.
Proof.
  intros Hfd Hfail Hok. eapply runs_on_fd; [done|exact Hfd|by intros; apply Hfail|].
  intros r w' Hr Hk. cbn in Hk. apply guard_Some in Hk as [Hb <-]. propify. by apply Hok.
Qed.

Lemma runs_poke a data off p len f w (Q : reply → world → Prop) :
  maps w !! a = Some (p, len) → files w !! p = Some f →
  0 ≤ off → off + zlen data ≤ pages len → off + zlen data ≤ pages (zlen (content f)) →
  (∀ r, Q r (set_files (<[p := mkFile (poke (content f) off data) false]> (files w)) w)) →
  runs (sys (Poke a off data)) w Q.
Proof.
  intros Ha Hf Hoff Hlen Hsize HQ. apply runs_sys. intros r w' Hw'. unfold posix_step in Hw'.
  rewrite Ha, Hf, (proj2 (Z.leb_le _ _) Hoff), (proj2 (Z.leb_le _ _) Hlen),
    (proj2 (Z.leb_le _ _) Hsize) in Hw'. cbn in Hw'. by simplify_eq.
Qed.

(** A store that is not within the mapping and the file faults. *)
Lemma runs_poke_fault a data off p len f w (Q : reply → world → Prop) :
  maps w !! a = Some (p, len) → files w !! p = Some f →
  pages (zlen (content f)) < off + zlen data → (∀ r, Q r (misuse w)) →
  runs (sys (Poke a off data)) w Q.
Proof.
  intros Ha Hf Hsize HQ. apply runs_sys. intros r w' Hw'. unfold posix_step in Hw'.
  rewrite Ha, Hf, (proj2 (Z.leb_gt _ _) Hsize), andb_false_r in Hw'. by simplify_eq.
Qed.

Lemma runs_msync a n p len f w (Q : reply → world → Prop) :
  maps w !! a = Some (p, len) → files w !! p = Some f →
  (∀ r k, r_ret r = -1 → (k ≤ sigs w)%nat → Q r (set_sigs k w)) →
  (∀ r, 0 ≤ r_ret r → Q r (set_files (<[p := mkFile (content f) true]> (files w)) w)) →
  runs (sys (Msync a n)) w Q.
Proof.
  intros Ha Hf Hfail Hok. apply runs_sys. intros r w' Hw'. unfold posix_step in Hw'.
  rewrite Ha in Hw'. destruct (Z.ltb_spec (r_ret r) 0).
  - apply interrupted_Some in Hw' as (n' & -> & ? & ? & ?). by apply Hfail.
  - rewrite (alter_alt_Some _ _ _ _ Hf) in Hw'. simplify_eq. by apply Hok.
Qed.

Lemma runs_munmap a n w (Q : reply → world → Prop) :
  is_Some (maps w !! a) → (∀ r, Q r (set_maps (delete a (maps w)) w)) →
  runs (sys (Munmap a n)) w Q.
Proof.
  intros [x Ha] HQ. apply runs_sys. intros r w' Hw'. unfold posix_step in Hw'.
  rewrite Ha in Hw'. by simplify_eq.
Qed.

(** An allocation: [r_off] is the address, [0] on failure. *)
Lemma runs_alloc n w (Q : reply → world → Prop) :
  (∀ r, r_off r = 0 → r_ret r ≠ 0 → Q r w) →
  (∀ r, r_off r ≠ 0 → r_ret r = 0 → r_off r ∉ mem w →
     Q r (set_mem ({[r_off r]} ∪ mem w) w)) →
  runs (sys (Alloc n)) w Q.
Proof.
  intros Hfail Hok. apply runs_sys. intros r w' Hw'. unfold posix_step in Hw'.
  destruct (Z.eqb_spec (r_off r) 0); apply guard_Some in Hw' as [Hb <-].
  - propify. by apply Hfail.
  - propify. by apply Hok.
Qed.
Lemma runs_free p w (Q : reply → world → Prop) :
  p ≠ 0 → p ∈ mem w → (∀ r, Q r (set_mem (mem w ∖ {[p]}) w)) → runs (sys (Free p)) w Q.
Proof.
  intros Hp Hin HQ. apply runs_sys. intros r w' Hw'. unfold posix_step in Hw'.
  rewrite (proj2 (Z.eqb_neq _ _) Hp), bool_decide_eq_true_2 in Hw' by done. by simplify_eq.
Qed.

(** *** Rules that follow the descriptors only *)

(** The same system but for the files, pipes and descriptor [fd]'s state. *)
Definition touched (fd : Z) (w w' : world) : Prop :=
  (∃ o, fds w' = <[fd := o]> (fds w)) ∧
  maps w' = maps w ∧ mem w' = mem w ∧ misuses w' = misuses w.

Definition on_one (c : call) : option Z :=
  match c with
  | Read fd _ | Write fd _ | Fsync fd | Fdatasync fd | Sync_file_range fd _ _
  | Lseek fd _ _ | Fstat fd | Ftruncate fd _ | Sockcall _ fd _ | Getfl fd | Setfl fd _
  | Recvfrom fd _ | Sendto fd _ _ => Some fd
  | _ => None
  end.
Definition on_two (c : call) : option (Z * Z) :=
  match c with
  | Splice a b _ | Tee a b _ | Sendfile b a _ _ => Some (a, b)
  | _ => None
  end.

Lemma touched_same fd o w w' :
  fds w !! fd = Some o → fds w' = fds w → maps w' = maps w → mem w' = mem w →
  misuses w' = misuses w → touched fd w w'.
Proof. intros Hfd Hf ???. split; [|done]. exists o. by rewrite insert_id, Hf. Qed.

Lemma consume_touched fd o n w : fds w !! fd = Some o → touched fd w (consume fd o n w).
Proof.
  intros Hfd. unfold consume. destruct (of_kind o);
    first [by eapply touched_same | split; [by eexists|done]].
Qed.
Lemma deliver_touched fd o d w : fds w !! fd = Some o → touched fd w (deliver fd o d w).
Proof.
  intros Hfd. unfold deliver. destruct (of_kind o); [destruct (files w !! path)|..];
    first [by eapply touched_same | split; [by eexists|done]].
Qed.

Lemma one_touched c fd w r w' :
  on_one c = Some fd → is_Some (fds w !! fd) → posix_step w (c, r) = Some w' → touched fd w w'.
Proof.
  intros Hc [o Ho] Hw'. unfold posix_step in Hw'.
  destruct c; simplify_eq/=; unfold on_fd in Hw'; rewrite Ho in Hw';
    (destruct (Z.ltb_spec (r_ret r) 0);
     [apply interrupted_Some in Hw' as (n' & -> & _); by eapply touched_same|]);
    unfold sync_file, arrive in Hw'; cbn in Hw'; repeat case_match; simplify_eq/=;
    repeat match goal with
    | H : guard_opt _ _ = Some _ |- _ => apply guard_Some in H as [? <-]
    | H : mbind _ _ = Some _ |- _ => apply bind_Some in H as (? & ? & H)
    end;
    first [by eapply touched_same | by apply consume_touched | by apply deliver_touched
          | split; [by eexists|done]].
Qed.

Lemma runs_one c fd w (Q : reply → world → Prop) :
  on_one c = Some fd → is_Some (fds w !! fd) →
  (∀ r w', touched fd w w' → Q r w') → runs (sys c) w Q.
Proof.
  intros Hc Hfd HQ. apply runs_sys. intros r w' Hw'. apply HQ. by eapply one_touched.
Qed.

Lemma runs_two c a d w (Q : reply → world → Prop) :
  on_two c = Some (a, d) → is_Some (fds w !! a) → is_Some (fds w !! d) → a ≠ d →
  (∀ r w1 w2, touched a w w1 → touched d w1 w2 → Q r w2) → runs (sys c) w Q.
Proof.
  intros Hc [i Hi] [o Ho] Hne HQ. apply runs_sys. intros r w' Hw'.
  assert (∀ n, touched a w (set_sigs n w)) as Hsig by (intros; by eapply touched_same).
  assert (∀ n, touched d (set_sigs n w) (set_sigs n w)) as Hsig'
    by (intros; by eapply (touched_same _ o)).
  assert (∀ x, touched a w w ∧ touched d w (deliver d o x w)) as Hdel.
  { intros x. split; [by eapply touched_same|by apply deliver_touched]. }
  unfold posix_step in Hw'. destruct c; simplify_eq/=; unfold on_fds in Hw'; rewrite Hi, Ho in Hw';
    (destruct (Z.ltb_spec (r_ret r) 0);
     [apply interrupted_Some in Hw' as (n' & -> & _); by eapply HQ|]);
    repeat match goal with
    | H : guard_opt _ _ = Some _ |- _ => apply guard_Some in H as [? <-]
    | H : mbind _ _ = Some _ |- _ => apply bind_Some in H as (? & ? & H)
    end; try (by eapply HQ; apply Hdel).
  assert (touched a w (consume a i (r_ret r) w)) as Hcon by (by apply consume_touched).
  eapply HQ; [exact Hcon|]. apply deliver_touched.
  destruct Hcon as [[o' ->] _]. by rewrite lookup_insert_ne.
Qed.

(** Calls on a descriptor that is not open fail. *)
Lemma runs_dead c fd w (Q : reply → world → Prop) :
  on_one c = Some fd ∨ c = Close fd ∨ (∃ d, on_two c = Some (fd, d) ∨ on_two c = Some (d, fd)) →
  fds w !! fd = None → (∀ r, r_ret r = -1 → r_errno r = EBADF → Q r (misuse w)) →
  runs (sys c) w Q.
Proof.
  intros Hc Hfd HQ. apply runs_sys. intros r w' Hw'.
  assert (dead_fd w r = Some w') as [Hr <-]%guard_Some.
  { unfold posix_step in Hw'. destruct Hc as [Hc|[Hc|[d [Hc|Hc]]]]; destruct c; simplify_eq/=;
      unfold on_fd, on_fds in Hw'; rewrite Hfd in Hw'; by repeat case_match. }
  propify. by apply HQ.
Qed.

(** Opening a file, whatever becomes of it. *)
Lemma runs_open_any p fl w (Q : reply → world → Prop) :
  (∀ r n, r_ret r = -1 → (n ≤ sigs w)%nat → Q r (set_sigs n w)) →
  (∀ r w' o, 0 ≤ r_ret r → fds w !! r_ret r = None → fds w' = <[r_ret r := o]> (fds w) →
     maps w' = maps w → mem w' = mem w → misuses w' = misuses w → Q r w') →
  runs (sys (Open p fl)) w Q.
Proof.
  intros Hfail Hok. apply runs_sys. intros r w' Hw'. unfold posix_step, open_file in Hw'.
  destruct (Z.ltb_spec (r_ret r) 0).
  - apply interrupted_Some in Hw' as (n & -> & ? & ? & ?). by apply Hfail.
  - unfold new_fd in Hw'. repeat case_match; try done;
      apply guard_Some in Hw' as [Hb <-]; propify; by eapply Hok.
Qed.

(** A new socket, or a connection accepted from one. *)
Lemma runs_socket w (Q : reply → world → Prop) :
  (∀ r n, r_ret r = -1 → (n ≤ sigs w)%nat → Q r (set_sigs n w)) →
  (∀ r, 0 ≤ r_ret r → fds w !! r_ret r = None →
     Q r (set_fds (<[r_ret r := mkOF KSocket 0 []]> (fds w)) w)) →
  runs (sys Socket) w Q.
Proof.
  intros Hfail Hok. apply runs_sys. intros r w' Hw'. unfold posix_step in Hw'.
  destruct (Z.ltb_spec (r_ret r) 0).
  - apply interrupted_Some in Hw' as (n & -> & ? & ? & ?). by apply Hfail.
  - apply guard_Some in Hw' as [Hb <-]. propify. by apply Hok.
Qed.
Lemma runs_accept fd w (Q : reply → world → Prop) :
  is_Some (fds w !! fd) →
  (∀ r n, r_ret r = -1 → (n ≤ sigs w)%nat → Q r (set_sigs n w)) →
  (∀ r, 0 ≤ r_ret r → fds w !! r_ret r = None →
     Q r (set_fds (<[r_ret r := mkOF KSocket 0 []]> (fds w)) w)) →
  runs (sys (Accept fd)) w Q.
Proof.
  intros [o Ho] Hfail Hok. eapply runs_on_fd; [done|exact Ho|by intros; apply Hfail|].
  intros r w' Hr Hk. apply guard_Some in Hk as [Hb <-]. propify. by apply Hok.
Qed.

(** *** Calls whose descriptors need not be open *)

Definition same_but (X : gset Z) (w w' : world) : Prop :=
  (∀ k, k ∉ X → fds w' !! k = fds w !! k) ∧ maps w' = maps w ∧ mem w' = mem w.

Lemma touched_same_but fd X w w' : touched fd w w' → fd ∈ X → same_but X w w'.
Proof.
  intros ([o Ho] & ? & ? & _) HX. split; [|done]. intros k Hk. rewrite Ho.
  rewrite lookup_insert_ne; [done|]. intros ->. done.
Qed.
Lemma same_but_mono X Y w w' : same_but X w w' → X ⊆ Y → same_but Y w w'.
Proof using Type. intros (H & ? & ?) HXY. split; [|by split]. intros k Hk. apply H. contradict Hk. by apply HXY. Qed.
Lemma same_but_trans X w1 w2 w3 : same_but X w1 w2 → same_but X w2 w3 → same_but X w1 w3.
Proof.
  intros (H1 & ? & ?) (H2 & ? & ?). split; [|split; congruence].
  intros k Hk. rewrite H2, H1 by done. done.
Qed.

Lemma runs_any_one c fd w (Q : reply → world → Prop) :
  on_one c = Some fd → (∀ r w', same_but {[fd]} w w' → Q r w') → runs (sys c) w Q.
Proof.
  intros Hc HQ. destruct (fds w !! fd) eqn:E.
  - eapply runs_one; [done|by eexists|]. intros r w' Ht. eapply HQ, touched_same_but; set_solver.
  - eapply runs_dead; [by left|done|]. intros r _ _. by apply HQ.
Qed.
Lemma runs_any_two c a d w (Q : reply → world → Prop) :
  on_two c = Some (a, d) → (∀ r w', same_but {[a; d]} w w' → Q r w') → runs (sys c) w Q.
Proof.
  intros Hc HQ. destruct (fds w !! a) as [i|] eqn:Ea.
  2: { eapply (runs_dead _ a); [right; right; exists d; by left|done|].
       intros r _ _. by apply HQ. }
  destruct (fds w !! d) as [o|] eqn:Ed.
  2: { eapply (runs_dead _ d); [right; right; exists a; by right|done|].
       intros r _ _. by apply HQ. }
  destruct (decide (a = d)) as [<-|Hne].
  - apply runs_sys. intros r w' Hw'. apply HQ.
    assert (∀ n x w', w' = set_sigs n w ∨ w' = deliver a o x w → same_but {[a; a]} w w') as Hd.
    { intros n x ? [-> | ->]; [done|]. eapply touched_same_but; [by apply deliver_touched|].
      set_solver. }
    unfold posix_step in Hw'. destruct c; simplify_eq/=; unfold on_fds in Hw';
      rewrite Ea in Hw'; (destruct (Z.ltb_spec (r_ret r) 0);
       [apply interrupted_Some in Hw' as (n' & -> & _); apply (Hd n' []); by left|]);
      apply bind_Some in Hw' as (? & ? & [Hb <-]%guard_Some);
      try (eapply (Hd 0%nat); by right);
      rewrite Z.eqb_refl, andb_false_r in Hb; done.
  - eapply runs_two; [done|by eexists|by eexists|done|]. intros r w1 w2 H1 H2.
    apply HQ. eapply same_but_trans; eapply touched_same_but; try done; set_solver.
Qed.
Lemma runs_any_close fd w (Q : unit → world → Prop) :
  (∀ w', fds w' = delete fd (fds w) → maps w' = maps w → mem w' = mem w → Q tt w') →
  runs (close fd) w Q.
Proof.
  intros HQ. destruct (fds w !! fd) eqn:E.
  - apply runs_close; [by eexists|]. by apply HQ.
  - apply runs_bind. eapply runs_dead; [right; by left|done|]. intros r _ _. apply runs_ret.
    apply HQ; [|done..]. cbn. by rewrite delete_id.
Qed.
Lemma runs_any_open p fl w (Q : reply → world → Prop) :
  (∀ k, k < 0 → fds w !! k = None) →
  (∀ r w', fds w !! r_ret r = None → same_but {[r_ret r]} w w' →
     (∀ k, k < 0 → fds w' !! k = None) → Q r w') →
  runs (sys (Open p fl)) w Q.
Proof.
  intros Hneg HQ. apply runs_open_any.
  - intros r n Hr _. apply HQ; [apply Hneg; lia|done|done].
  - intros r w' o Hr Hfd Hfds Hmaps Hmem _. apply HQ; [done|split; [|done]|].
    + intros k Hk. rewrite Hfds, lookup_insert_ne; [done|]. set_solver.
    + intros k Hk. rewrite Hfds, lookup_insert_ne by lia. by apply Hneg.
Qed.
End rules.

(** ** What programs are asked to keep *)

(** The same descriptors, mappings and allocations are live after as before, and
    nothing dead was used in between. *)
Definition balanced (w w' : world) : Prop :=
  fds w' = fds w ∧ maps w' = maps w ∧ mem w' = mem w ∧ misuses w' = misuses w.

(** Only the file [p] may have changed. *)
Definition only_file (p : string) (w w' : world) : Prop :=
  ∀ q, q ≠ p → files w' !! q = files w !! q.

Lemma write_at_append (c data : bytes) : write_at c (length c) data = c ++ data.
Proof.
  unfold write_at. rewrite Nat.sub_diag, app_nil_r, firstn_all, drop_ge by lia.
  by rewrite app_nil_r.
Qed.

Lemma write_at_nil (d : bytes) : write_at [] (Z.to_nat 0) d = d.
Proof. apply (write_at_append []). Qed.

Lemma write_at_take (d : bytes) n k :
  (n ≤ length d)%nat → write_at (take n d) n (take k (drop n d)) = take (n + k) d.
Proof.
  intros Hn. pose proof (write_at_append (take n d) (take k (drop n d))) as H.
  rewrite length_take, Nat.min_l in H by done. by rewrite H, take_take_drop.
Qed.

(** Facts about the maps of a world built by the rules. *)
Ltac expand_world :=
  cbn; repeat match goal with
  | H : fds ?w = _ |- context [fds ?w] => is_var w; rewrite H
  | H : files ?w = _ |- context [files ?w] => is_var w; rewrite H
  | H : pipes ?w = _ |- context [pipes ?w] => is_var w; rewrite H
  | H : maps ?w = _ |- context [maps ?w] => is_var w; rewrite H
  | H : mem ?w = _ |- context [mem ?w] => is_var w; rewrite H
  | H : watches ?w = _ |- context [watches ?w] => is_var w; rewrite H
  | H : streams ?w = _ |- context [streams ?w] => is_var w; rewrite H
  | H : aios ?w = _ |- context [aios ?w] => is_var w; rewrite H
  end.
Ltac look :=
  expand_world; solve
    [ eassumption | done
    | repeat first [ rewrite lookup_insert_eq | rewrite lookup_delete_eq
                   | rewrite lookup_insert_ne by congruence
                   | rewrite lookup_delete_ne by congruence ]; eauto ].

(** Two tables of descriptors (or mappings) are equal: by moving the deletions to
    the insertions that they undo, else entry by entry. *)
Ltac map_norm :=
  repeat first
    [ rewrite insert_insert_eq | rewrite delete_insert_eq
    | rewrite delete_insert_ne by congruence | rewrite delete_id by assumption ].
Ltac map_pointwise :=
  apply map_eq; intros ?k; rewrite ?lookup_delete, ?lookup_insert;
  repeat (case_decide; [subst|]; rewrite ?lookup_delete, ?lookup_insert);
  simplify_eq; first [done | congruence].
Ltac map_solve := expand_world; first [solve [map_norm; done] | map_pointwise].

(** The claims about the final state of a program. *)
Ltac settle :=
  unfold balanced, only_file;
  repeat match goal with
  | |- _ ∧ _ => split
  | |- _ ∨ _ => first [by left | by right]
  | |- fds _ = fds _ => map_solve
  | |- (_ = _ → _) => first [lia | intros _]
  | |- ∀ q, q ≠ _ → _ =>
      let q := fresh "q" in let Hq := fresh "Hq" in intros q Hq; expand_world;
      rewrite ?lookup_insert_ne by (intros <-; done); done
  | |- maps _ = _ => cbn; first [done | congruence | map_solve]
  | |- mem _ = _ => cbn; first [done | congruence | set_solver]
  | |- misuses _ = _ => cbn; first [done | congruence]
  | |- files _ = _ => cbn; first [done | congruence]
  end; try done.

(** One call on an open descriptor, of which only the descriptor matters. *)
Ltac one :=
  eapply runs_one; [assumption|reflexivity|try look|];
  intros ? ? ([? ?] & ? & ? & ?); cbn in *.

(** A descriptor that was just opened differs from those that were open. *)
Ltac fresh_fds :=
  cbn in *; repeat match goal with
  | H : fds ?w !! _ = None, H' : fds ?w = _ |- _ => is_var w; rewrite H' in H
  | H : <[_ := _]> _ !! _ = None |- _ => apply lookup_insert_None in H as [? ?]
  | H : delete ?k (<[?k := _]> _) !! _ = None |- _ => rewrite delete_insert_id in H by look
  | H : delete ?k (<[?l := _]> _) !! _ = None |- _ =>
      rewrite (delete_insert_ne _ k l) in H by congruence
  end.

(** One step of a program without calls that have several outcomes. *)
Ltac step :=
  lazymatch goal with
  | |- runs _ (mret _) _ _ => apply runs_ret
  | |- runs _ (after _ _) _ _ => apply runs_after
  | |- runs _ (after_rounds _ _) _ _ => apply runs_after_rounds
  | |- runs _ (printf _ _) _ _ => apply runs_printf; [assumption|]
  | |- runs _ (eprintf _ _) _ _ => apply runs_eprintf; [assumption|]
  | |- runs _ (perror _) _ _ => apply runs_perror; [assumption|]
  | |- runs _ (close _) _ _ => apply runs_close; [assumption|try look|]
  | |- runs _ (_ ≫= _) _ _ => apply runs_bind
  | |- runs _ (if ?c then _ else _) _ _ => destruct c eqn:?; propify
  end; cbn beta iota.
Ltac steps := repeat step.

(** ** An executable system

    A system that does what it is asked when it can, [lim] bytes at a time (all at
    once when [lim] is negative), and fails otherwise: it answers as the manual pages allow ([kenv_legal]). *)

Definition answer (ret : Z) (data : bytes) (off : Z) : reply :=
  mkReply ret 0 data off (-1, -1) [] [].

(** An answer that is always allowed. *)
Definition refuse (w : world) (c : call) : reply :=
  let ret :=
    match c with
    | Stdio fp c =>
      match streams w !! fp, c with
      | Some st, Ferror => Z.b2z (s_err st)
      | Some st, Feof => Z.b2z (s_eof st)
      | Some st, Fileno => s_fd st
      | _, (Fwrite _ | Fread _ | Fgets _) => 0
      | _, _ => -1
      end
    | _ => -1
    end in
  mkReply ret EBADF [] 0 (-1, -1) [] [].

Definition next_key {A} (m : gmap Z A) : Z := map_fold (λ k _ n, Z.max n (k + 1)) 3 m.

Lemma next_key_fresh {A} (m : gmap Z A) : 3 ≤ next_key m ∧ m !! next_key m = None.
Proof.
  assert (3 ≤ next_key m ∧ ∀ k, is_Some (m !! k) → k < next_key m) as [H1 H2].
  { unfold next_key. apply (map_fold_weak_ind (λ r m, 3 ≤ r ∧ ∀ k, is_Some (m !! k) → k < r)).
    - split; [lia|]. intros k [x Hx]. by rewrite lookup_empty in Hx.
    - intros k x m' r Hm' [Hr IH]. split; [lia|]. intros k' [y Hy].
      apply lookup_insert_Some in Hy as [[<- _]|[_ Hy]]; [lia|]. specialize (IH k' (mk_is_Some _ _ Hy)). lia. }
  split; [done|]. destruct (m !! next_key m) eqn:E; [|done].
  specialize (H2 _ (mk_is_Some _ _ E)). lia.
Qed.

Definition readable (w : world) (fd : Z) : bytes :=
  default [] (o ← fds w !! fd; avail w o).

(** All of a request is done. *)
Definition aio_full (w : world) (i : nat) (x : string * aio_op * Z) : Z * Z :=
  let '(p, op, off) := x in
  (Z.of_nat i, match op with
    | Pwrite d => zlen d
    | Pread n => Z.min n (zlen (drop (Z.to_nat off) (default [] (content <$> files w !! p))))
    end).

Definition attempt (lim : Z) (w : world) (c : call) : reply :=
  let fd := next_key (fds w) in
  let count n d := if lim <? 0 then Z.min n (zlen d) else Z.min lim (Z.min n (zlen d)) in
  match c with
  | Open _ _ | Socket | Accept _ | Epoll _ Epoll_create => answer fd [] 0
  | Sendto _ d _ => answer (zlen d) [] 0
  | Read fd n =>
    let d := readable w fd in
    answer (count n d) (take (Z.to_nat (count n d)) d) 0
  | Write _ d => answer (count (zlen d) d) [] 0
  | Lseek fd off wh => answer (default (-1) (o ← fds w !! fd; seek w o off wh)) [] 0
  | Fstat fd =>
    answer 0 [] (zlen (default [] (o ← fds w !! fd;
      match of_kind o with KFile p => content <$> files w !! p | _ => None end)))
  | Pipe => mkReply 0 0 [] 0 (fd, fd + 1) [] []
  | Splice i _ n | Tee i _ n => answer (count n (readable w i)) [] 0
  | Sendfile _ i off n =>
    let d := default [] (o ← fds w !! i; avail w (mkOF (of_kind o) off (of_flags o))) in
    answer (count n d) [] (off + count n d)
  | Mmap _ _ => answer (next_key (maps w)) [] 0
  | Alloc _ => answer 0 [] (next_key (gset_to_gmap tt (mem w)))
  | Getfl fd =>
    let fl := default [] (o ← fds w !! fd; Some (of_flags o)) in
    answer (foldr (λ x z, (if bool_decide (x.1 ∈ fl) then 2 ^ x.2 else 0) + z) 0 status_bits) [] 0
  | Epoll epfd (Epoll_wait n _) =>
    let ready := take (Z.to_nat n) (filter (λ x, x.1.1 = epfd) (map_to_list (watches w))) in
    mkReply (zlen ready) 0 [] 0 (-1, -1) ready.*2 []
  | Fopen _ _ => mkReply 0 0 [] (next_key (streams w)) (fd, -1) [] []
  | Stdio fp c =>
    match streams w !! fp with
    | None => answer 0 [] 0
    | Some st =>
      let input := stream_input w st in
      match c with
      | Fwrite d => answer (zlen d) [] 0
      | Fprintf fmt args => answer (zlen (format (lit fmt) args)) [] 0
      | Fread n => let k := Z.min n (zlen input) in answer k (take (Z.to_nat k) input) 0
      | Fgets n =>
        let line := first_line (Z.to_nat (n - 1)) input in
        answer (Z.b2z (negb (bool_decide (line = [])))) line 0
      | Fscanf fmt =>
        let (vs, rest) := scan (lit fmt) input in
        if bool_decide (vs = [] ∧ rest = []) then answer (-1) [] 0
        else mkReply (zlen vs) 0 [] 0 (-1, -1) [] vs
      | Ferror | Feof | Fileno => refuse w (Stdio fp c)
      | Setvbuf | Fflush | Fclose => answer 0 [] 0
      end
    end
  | Aio (Io_setup _) => answer 0 [] (next_key (aios w))
  | Aio (Io_submit _ reqs) => answer (zlen reqs) [] 0
  | Aio (Io_getevents ctx _ nr) =>
    let reqs := default [] (aios w !! ctx) in
    let evs := imap (aio_full w) (take (Z.to_nat nr) reqs) in
    mkReply (zlen evs) 0 (default [] (fst <$> aio_events reqs evs w)) 0 (-1, -1) evs []
  | _ => answer 0 [] 0
  end.

Definition kern (lim : Z) (w : world) (c : call) : reply :=
  match posix_step w (c, attempt lim w c) with
  | Some _ => attempt lim w c
  | None => refuse w c
  end.

Definition kenv (lim : Z) (w0 : world) : Env := λ tr c,
  match replay w0 tr with Some w => kern lim w c | None => answer (-1) [] 0 end.

Lemma zlen_leb {A} (l : list A) : (0 <=? zlen l) = true.
Proof. apply Z.leb_le, zlen_nonneg. Qed.

Lemma refuse_stdio_legal w fp c :
  is_Some (stdio_step w fp c (refuse w (Stdio fp c))).
Proof.
  unfold stdio_step, refuse. destruct (streams w !! fp) as [st|]; [|by eexists].
  assert (∀ st d err w, is_Some (buffered fp st d err 0 w)) as Hb.
  { intros st' d err w'. unfold buffered. rewrite zlen_leb.
    by eexists. }
  destruct c; cbn -[scan format Z.eqb Z.ltb Z.leb Z.min Z.max].
  - by eexists.
  - rewrite zlen_leb. apply Hb.
  - case_match eqn:E; [by eexists|]. rewrite take_0, bool_decide_eq_true_2, andb_true_r in * by done.
    rewrite zlen_leb. pose proof (zlen_nonneg (stream_input w st)).
    rewrite (proj2 (Z.ltb_lt 0 _)); [by eexists|]. propify. lia.
  - by eexists.
  - apply Hb.
  - destruct (scan _ _). by eexists.
  - apply Hb.
  - destruct (s_err st); by eexists.
  - destruct (s_eof st); by eexists.
  - rewrite Z.eqb_refl. by eexists.
  - destruct (Hb st [] true w) as [w' ->]. by eexists.
Qed.

Lemma refuse_legal w c : is_Some (posix_step w (c, refuse w c)).
Proof.
  unfold posix_step, on_fd, on_fds, interrupted.
  destruct c as [| | | | | | | | | | | | | | | | | | | | | | | | | | | | |epfd c| |fp c| | |c];
    [..|by apply refuse_stdio_legal| | |]; cbn; repeat case_match; cbn; eauto; try done.
  - unfold epoll_step, on_fd, on_fds, interrupted. cbn. repeat case_match; cbn; eauto; done.
  - unfold aio_step. cbn. repeat case_match; cbn; eauto; done.
Qed.

Lemma kenv_legal lim w0 : @legal_env (kenv lim w0) w0.
Proof.
  intros tr w c Htr. unfold env, kenv. rewrite Htr. unfold kern.
  destruct (posix_step w (c, attempt lim w c)) eqn:E; [by rewrite E|apply refuse_legal].
Qed.

(** The same with input: the reads of sockets and terminals are answered from
    [inputs], an empty one of which is an end of file; when they are used up,
    there is nothing to read for now. Other calls move 512 bytes at a time. *)
Definition fed (inputs : list bytes) (w : world) (c : call) : reply :=
  let used := length (filter (λ o, match o with Received _ _ => true | _ => false end = true) (outs w)) in
  match c with
  | Read fd n | Recvfrom fd n =>
    if talks (default KEpoll (of_kind <$> fds w !! fd)) then
      match inputs !! used with
      | None => mkReply (-1) EAGAIN [] 0 (-1, -1) [] []
      | Some d => answer (Z.min n (zlen d)) (take (Z.to_nat n) d) 0
      end
    else attempt 512 w c
  | Gets n =>
    let line := first_line (Z.to_nat (n - 1)) (default [] (inputs !! used)) in
    answer (Z.b2z (negb (bool_decide (line = [])))) line 0
  | _ => attempt 512 w c
  end.

Definition fed_env (inputs : list bytes) (w0 : world) : Env := λ tr c,
  match replay w0 tr with
  | Some w =>
    match posix_step w (c, fed inputs w c) with Some _ => fed inputs w c | None => refuse w c end
  | None => answer (-1) [] 0
  end.

Lemma fed_env_legal inputs w0 : @legal_env (fed_env inputs w0) w0.
Proof.
  intros tr w c Htr. unfold env, fed_env. rewrite Htr.
  destruct (posix_step w (c, fed inputs w c)) eqn:E; [by rewrite E|apply refuse_legal].
Qed.

(** A system where nothing is open and the given files exist. *)
Definition boot (fs : gmap string file) : world := mkWorld ∅ fs ∅ ∅ ∅ 0 [] 0 ∅ ∅ 0 ∅.
