(* ===== verification/StandardIO.v ===== *)
(** * [12_aio/standard_io.c]: reading and writing a file with [read] and [write] *)
From S2P Require Export Sys.

Definition BUFFER_SIZE : Z := 4096.

Section code.
Context {e : Env}.

(** One round of the [while] loop of [write_file]. *)
Definition write_body (fd : Z) (data : bytes) (total_written : Z) : M trace (ctl Z Z) :=
  let data_len := zlen data in
  if negb (total_written <? data_len) then mret (Break total_written)
  else
    bytes_written ← sys (Write fd (drop (Z.to_nat total_written) data));
    if r_ret bytes_written <? 0 then
      if r_errno bytes_written =? EINTR then mret (Next total_written)
      else
        perror "write";;
        close fd;;
        mret (Return (-1))
    else mret (Next (u64 (total_written + r_ret bytes_written))).

Definition write_file (fuel : nat) (filename : string) (data : bytes) : M trace Z :=
  printf "=== 标准 I/O 写入示例 ===\n" [];;
  fd ← sys (Open filename [O_WRONLY; O_CREAT; O_TRUNC]);
  let fd := r_ret fd in
  if fd <? 0 then
    perror "open";;
    mret (-1)
  else
    after (loop fuel (write_body fd data) 0) (λ total_written,
      printf "写入 %zu 字节到文件 %s\n" [ANum size_t total_written; AStr (b filename)];;
      r ← sys (Fsync fd);
      if r_ret r <? 0 then
        perror "fsync";;
        close fd;;
        mret (-1)
      else
        printf "fsync 完成，数据已刷新到磁盘\n" [];;
        close fd;;
        mret 0).

(** One round of the [while (1)] loop of [read_file]; the loop carries
    [buffer] and [total_read]. *)
Definition read_body (fd : Z) (a : buffer * Z) : M trace (ctl (buffer * Z) Z) :=
  let '(buf, total_read) := a in
  bytes_read ← sys (Read fd BUFFER_SIZE);
  if r_ret bytes_read <? 0 then
    if r_errno bytes_read =? EINTR then mret (Next (buf, total_read))
    else
      perror "read";;
      close fd;;
      mret (Return (-1))
  else if r_ret bytes_read =? 0 then mret (Break total_read)
  else
    let buf := fill buf (r_data bytes_read) in
    let total_read := u64 (total_read + r_ret bytes_read) in
    s ← c_strn (Z.to_nat (r_ret bytes_read)) buf;
    printf "读取 %zd 字节: %.*s\n" [ANum ssize_t (r_ret bytes_read); AInt (r_ret bytes_read); AStr s];;
    mret (Next (buf, total_read)).

Definition read_file (fuel : nat) (filename : string) : M trace Z :=
  printf "\n=== 标准 I/O 读取示例 ===\n" [];;
  fd ← sys (Open filename [O_RDONLY]);
  let fd := r_ret fd in
  if fd <? 0 then
    perror "open";;
    mret (-1)
  else
    after (loop fuel (read_body fd) (new_buffer BUFFER_SIZE, 0)) (λ total_read,
      printf "总共读取 %zu 字节\n" [ANum size_t total_read];;
      close fd;;
      mret 0).

(** [bytes_read = read(fd, buffer, 10); if (bytes_read > 0) { ... }], the part
    that the three steps of [lseek_example] share. *)
Definition show_10 (fd : Z) (fmt : string) (buf : buffer) : M trace buffer :=
  bytes_read ← sys (Read fd 10);
  if 0 <? r_ret bytes_read then
    let buf := fill buf (r_data bytes_read) in
    buf ← put buf (r_ret bytes_read) "000"%char;
    s ← c_str buf;
    printf fmt [AStr s];;
    mret buf
  else mret buf.

Definition lseek_example (filename : string) : M trace Z :=
  printf "\n=== lseek 定位示例 ===\n" [];;
  fd ← sys (Open filename [O_RDONLY]);
  let fd := r_ret fd in
  if fd <? 0 then
    perror "open";;
    mret (-1)
  else
    let buf := new_buffer 128 in
    sys (Lseek fd 0 SEEK_SET);;
    buf ← show_10 fd "文件开头 10 字节: %s\n" buf;
    sys (Lseek fd (-10) SEEK_END);;
    buf ← show_10 fd "文件末尾 10 字节: %s\n" buf;
    sys (Lseek fd 10 SEEK_CUR);;
    show_10 fd "当前位置 +10 字节: %s\n" buf;;
    close fd;;
    mret 0.

Definition main_filename : string := "standard_io_test.txt".
(** The two newlines of the literal. *)
Definition main_data : bytes :=
  b "Hello, Standard I/O!" ++ ["010"%char] ++
  b "This is a test file for standard I/O operations." ++ ["010"%char].

Definition main (fuel : nat) : M trace Z :=
  r ← write_file fuel main_filename main_data;
  if r <? 0 then eprintf "写入文件失败\n" [];; mret 1
  else
    r ← read_file fuel main_filename;
    if r <? 0 then eprintf "读取文件失败\n" [];; mret 1
    else
      r ← lseek_example main_filename;
      if r <? 0 then eprintf "lseek 示例失败\n" [];; mret 1
      else printf "\n所有示例完成\n" [];; mret 0.
End code.

(** ** Correctness *)

Section proofs.
Context {e : Env} {w0 : world} (Henv : legal_env w0).

(** The state in which [write_file] is in its loop, [total] bytes written. *)
Definition writing (w : world) (fd : Z) (f : string) fl (data : bytes) (total : Z)
    (w1 : world) : Prop :=
  0 ≤ total ≤ zlen data ∧ (sigs w1 ≤ sigs w)%nat ∧
  fds w1 = <[fd := mkOF (KFile f) total fl]> (fds w) ∧
  (∃ s, files w1 = <[f := mkFile (take (Z.to_nat total) data) s]> (files w)) ∧
  maps w1 = maps w ∧ mem w1 = mem w ∧ misuses w1 = misuses w.

Lemma write_loop_ok fuel fd f fl w w1 data :
  fds w !! fd = None → O_APPEND ∉ fl → zlen data < 2 ^ 63 →
  writing w fd f fl data 0 w1 → (length data + sigs w < fuel)%nat →
  runs w0 (loop fuel (write_body fd data) 0) w1 (λ x w2, match x with
    | Left total => total = zlen data ∧ writing w fd f fl data total w2
    | Returned z => z = -1 ∧ balanced w w2 ∧ only_file f w w2
    end).
Proof.
  intros Hfd Hfl Hlen HI Hfuel.
  apply (runs_loop (writing w fd f fl data)
    (λ total w1, Z.to_nat (zlen data - total) + sigs w1)%nat); [done| |].
  { destruct HI as (_ & Hs & _). unfold zlen. lia. }
  intros total w2 HI2. pose proof HI2 as (Ht & Hs & Hfds & (sy & Hfiles) & Hmaps & Hmem & Hmis).
  unfold write_body. step; [steps|]. { split; [lia|done]. }
  step. eapply runs_write; [done|look
    |look|done|..].
  - intros r n Hr Hn Hintr. step; [|lia]. step; steps.
    + unfold writing. cbn. split; [split_and!; eauto; lia|].
      specialize (Hintr ltac:(assumption)). lia.
    + split; [done|]. unfold balanced, only_file. cbn.
      rewrite Hfds, delete_insert_id, Hfiles by done. split_and!; try done.
      intros q Hq. by rewrite lookup_insert_ne.
  - intros r Hr Hpos. step; [lia|]. steps. unfold writing. cbn.
    unfold zlen in *. rewrite length_drop in Hr.
    assert (0 < r_ret r).
    { destruct Hpos as [|Hd]; [done|]. apply (f_equal length) in Hd.
      rewrite length_drop in Hd. simpl in Hd. lia. }
    unfold u64. rewrite Z.mod_small by lia. split; [|lia]. split_and!; try done; try lia.
    + by rewrite Hfds, insert_insert_eq.
    + eexists. rewrite Hfiles, insert_insert_eq, write_at_take by lia.
      by rewrite <- Z2Nat.inj_add by lia.
Qed.
(** C1: [write_file] ends, whatever short writes, interruptions and errors it
    meets. It returns 0 or -1, touches no other file, leaves no descriptor
    open, and returns 0 only when the file holds exactly the data and all of it
    has reached the disk. *)
Theorem write_file_correct fuel filename data w :
  zlen data < 2 ^ 63 → (length data + sigs w < fuel)%nat →
  runs w0 (write_file fuel filename data) w (λ r w',
    (r = 0 ∨ r = -1) ∧ balanced w w' ∧ only_file filename w w' ∧
    (r = 0 → files w' !! filename = Some (mkFile data true))).
Proof.
  intros Hlen Hfuel. unfold write_file. do 3 step. eapply runs_creat; [done..| |].
  { intros r n Hr Hn. step; [|lia]. steps. unfold balanced, only_file. cbn.
    split; [by right|]. by split_and!. }
  intros r Hr Hfd. step; [lia|]. cbn in Hfd. step. eapply runs_mono.
  { eapply (write_loop_ok _ _ filename [O_WRONLY; O_CREAT; O_TRUNC] w);
      [done|set_solver|done| |done].
    unfold writing. cbn. split_and!; try done; [apply zlen_nonneg|]. by exists false. }
  intros [total|z] w2; cbn beta iota.
  2: { intros (-> & Hb & Ho). split; [by right|]. split_and!; [done..|lia]. }
  intros (-> & Ht & Hs & Hfds & (sy & Hfiles) & Hmaps & Hmem & Hmis).
  rewrite take_ge in Hfiles by (unfold zlen; lia).
  do 3 step. eapply runs_sync; [done|by left|look
    |look|..].
  - intros r' n Hr' Hn _. step; [|lia]. steps; cbn.
    unfold balanced, only_file. cbn. rewrite Hfds, delete_insert_id, Hfiles by done.
    split; [by right|]. split_and!; [done..| |lia]. intros q Hq. by rewrite lookup_insert_ne.
  - intros r' Hr'. step; [lia|]. steps; cbn.
    unfold balanced, only_file. cbn. rewrite Hfds, delete_insert_id, Hfiles, insert_insert_eq by done.
    split; [by left|]. split_and!; [done..| |by rewrite lookup_insert_eq].
    intros q Hq. by rewrite lookup_insert_ne.
Qed.

(** What [read_file] prints for the chunks it reads. *)
Definition chunk_line (c : bytes) : output :=
  Printf "读取 %zd 字节: %.*s\n" [ANum ssize_t (zlen c); AInt (zlen c); AStr c].

Definition reading (w : world) (fd : Z) (f : string) (d : bytes) (chunks : list bytes)
    (w1 : world) : Prop :=
  (sigs w1 ≤ sigs w)%nat ∧ concat chunks = take (length (concat chunks)) d ∧
  (length (concat chunks) ≤ length d)%nat ∧
  fds w1 = <[fd := mkOF (KFile f) (zlen (concat chunks)) [O_RDONLY]]> (fds w) ∧
  files w1 = files w ∧ outs w1 = outs w ++ (chunk_line <$> chunks) ∧
  maps w1 = maps w ∧ mem w1 = mem w ∧ misuses w1 = misuses w.

Lemma read_loop_ok fuel fd f fi w w1 :
  fds w !! fd = None → files w !! f = Some fi → "000"%char ∉ content fi →
  zlen (content fi) < 2 ^ 63 → reading w fd f (content fi) [] w1 →
  (length (content fi) + sigs w < fuel)%nat →
  runs w0 (loop fuel (read_body fd) (new_buffer BUFFER_SIZE, 0)) w1 (λ x w2, match x with
    | Left total => total = zlen (content fi) ∧
        ∃ chunks, concat chunks = content fi ∧ reading w fd f (content fi) chunks w2
    | Returned z => z = -1 ∧ balanced w w2 ∧ files w2 = files w
    end).
Proof.
  intros Hfd Hf Hnul Hlen HI Hfuel.
  apply (runs_loop (λ (a : buffer * Z) w1, ∃ chunks, reading w fd f (content fi) chunks w1 ∧
      a.2 = zlen (concat chunks))
    (λ a w1, Z.to_nat (zlen (content fi) - a.2) + sigs w1)%nat).
  { by exists []. }
  { destruct HI as (Hs & _). cbn. unfold zlen. lia. }
  intros [buf total] w2 (chunks & HI2 & Htot). cbn in Htot. subst total.
  pose proof HI2 as (Hs & Hpre & Hle & Hfds & Hfiles & Houts & Hmaps & Hmem & Hmis).
  set (d := concat chunks) in *. assert (Z.to_nat (zlen d) = length d) as Hzd by (unfold zlen; lia).
  unfold read_body. step. eapply runs_read; [done|look
    |look|..].
  - intros r n Hr Hn Hintr. step; [|lia]. step; steps.
    + specialize (Hintr ltac:(assumption)). cbn. split; [|lia]. exists chunks.
      split; [|done]. unfold reading. cbn. split_and!; auto; lia.
    + split; [done|]. unfold balanced. cbn. rewrite Hfds, delete_insert_id by done. done.
  - rewrite Hzd. intros r Hr Hrd Hpos Hdata. step; [lia|]. step.
    + step. assert (drop (length d) (content fi) = []) as Hend.
      { destruct Hpos as [?|[?|Hd]]; [lia|done|done]. }
      assert (d = content fi) as Hd.
      { rewrite Hpre. apply take_ge. apply (f_equal length) in Hend.
        rewrite length_drop in Hend. simpl in Hend. lia. }
      split; [by rewrite Hd|]. exists chunks. split; [done|].
      unfold reading. cbn. replace (r_ret r) with 0 by done. rewrite Z.add_0_r.
      rewrite Hfds, insert_insert_eq. by split_and!.
    + set (c := r_data r) in *. set (rest := drop (length d) (content fi)) in *.
      assert (length c = Z.to_nat (r_ret r)) as Hlc.
      { rewrite Hdata, length_take. unfold zlen in Hrd. lia. }
      assert ("000"%char ∉ c) as Hc.
      { intros Hin. apply Hnul. rewrite <- (take_drop (length d) (content fi)).
        apply elem_of_app. right. fold rest. rewrite <- (take_drop (Z.to_nat (r_ret r)) rest).
        rewrite <- Hdata. apply elem_of_app. by left. }
      step. eapply runs_pure; [intros tr; rewrite <- Hlc; by apply c_strn_fill|].
      steps. assert (zlen c = r_ret r) as Hzc by (unfold zlen; lia). rewrite <- Hzc.
      assert (d ++ c = take (length (d ++ c)) (content fi)) as Hpre'.
      { rewrite length_app. rewrite <- take_take_drop. fold rest. rewrite Hlc, <- Hdata.
        by rewrite <- Hpre. }
      assert (length d + length c ≤ length (content fi))%nat as Hle'.
      { unfold rest, zlen in Hrd. rewrite length_drop in Hrd. lia. }
      assert (u64 (zlen d + zlen c) = zlen d + zlen c) as Hu.
      { unfold u64. apply Z.mod_small. unfold zlen in *. lia. }
      rewrite Hu. cbn. split; [|unfold zlen in *; lia].
      exists (chunks ++ [c]). unfold reading. cbn.
      rewrite concat_app. cbn. rewrite app_nil_r. fold d.
      split; [|unfold zlen; rewrite length_app; lia]. split_and!; try done.
      * rewrite length_app. lia.
      * rewrite Hfds, insert_insert_eq. unfold zlen. rewrite length_app. by rewrite Nat2Z.inj_add.
      * by rewrite Houts, fmap_app, app_assoc.
Qed.

(** [read_file] ends; it returns 0 or -1, changes no file and leaves no
    descriptor open. When it returns 0 the file exists, and the chunks it
    printed are, one after the other, the content of the file, followed by a
    line with its size. *)
Lemma read_file_correct fuel filename w :
  (∀ fi, files w !! filename = Some fi →
     ("000"%char ∉ content fi) ∧ zlen (content fi) < 2 ^ 63 ∧
     (length (content fi) + sigs w < fuel)%nat) →
  runs w0 (read_file fuel filename) w (λ r w',
    (r = 0 ∨ r = -1) ∧ balanced w w' ∧ files w' = files w ∧
    (r = 0 → ∃ fi chunks, files w !! filename = Some fi ∧ concat chunks = content fi ∧
       outs w' = outs w ++ [Printf "\n=== 标准 I/O 读取示例 ===\n" []] ++ (chunk_line <$> chunks) ++
         [Printf "总共读取 %zu 字节\n" [ANum size_t (zlen (content fi))]])).
Proof.
  intros Hfile. unfold read_file. do 3 step. eapply runs_open; [done..| |].
  { intros r n Hr Hn. step; [|lia]. steps. unfold balanced. cbn.
    split; [by right|]. by split_and!. }
  intros r fi Hr Hfd Hf. step; [lia|]. cbn in Hfd, Hf.
  destruct (Hfile fi Hf) as (Hnul & Hlen & Hfuel). step. eapply runs_mono.
  { eapply (read_loop_ok _ _ filename fi
      (print (Printf "\n=== 标准 I/O 读取示例 ===\n" []) w)); [done..| |done].
    unfold reading. cbn. split_and!; try done; [lia|by rewrite app_nil_r]. }
  intros [total|z] w2; cbn beta iota.
  2: { intros (-> & Hb & Ho). split; [by right|]. by split_and!. }
  intros (-> & chunks & Hchunks & Hs & _ & _ & Hfds & Hfiles & Houts & Hmaps & Hmem & Hmis).
  steps. unfold balanced. cbn. rewrite Hfds, delete_insert_id by done.
  split; [by left|]. split_and!; [done..|]. intros _. exists fi, chunks.
  rewrite Houts. cbn. by rewrite <- !app_assoc.
Qed.

(** The state between two steps of [lseek_example]. *)
Definition seeking (w : world) (fd : Z) (f : string) (w1 : world) : Prop :=
  (∃ off, 0 ≤ off ∧ fds w1 = <[fd := mkOF (KFile f) off [O_RDONLY]]> (fds w)) ∧
  files w1 = files w ∧ maps w1 = maps w ∧ mem w1 = mem w ∧ misuses w1 = misuses w.

Lemma seek_ok w fd f off wh w1 :
  seeking w fd f w1 → runs w0 (sys (Lseek fd off wh)) w1 (λ _ w2, seeking w fd f w2).
Proof.
  intros ((off1 & Hoff & Hfds) & Hfiles & Hmaps & Hmem & Hmis).
  eapply runs_lseek; [done|look|..].
  - intros r n Hr Hn. split_and!; eauto.
  - intros r new Hr Hnew _. split_and!; [|done..]. exists new. cbn.
    by rewrite Hfds, insert_insert_eq.
Qed.

Lemma show_10_ok w fd f fi fmt buf w1 :
  files w !! f = Some fi → 10 < zlen buf → seeking w fd f w1 →
  runs w0 (show_10 fd fmt buf) w1 (λ buf' w2, zlen buf' = zlen buf ∧ seeking w fd f w2).
Proof.
  intros Hf Hbuf ((off1 & Hoff & Hfds) & Hfiles & Hmaps & Hmem & Hmis).
  unfold show_10. step. eapply runs_read; [done|look|look|..].
  - intros r n Hr Hn _. step; [lia|]. steps. split; [done|]. split_and!; eauto.
  - intros r Hr Hrd _ Hdata. step; steps.
    + assert (r_ret r = zlen (r_data r)) as ->.
      { rewrite Hdata. unfold zlen in *. rewrite length_take. lia. }
      destruct (put_fill (S := trace) (r_data r) buf) as (buf' & Hput & Hbl & Hstr).
      { rewrite Hdata. unfold zlen in *. rewrite length_take. lia. }
      eapply runs_pure; [exact Hput|]. step. eapply runs_pure; [exact Hstr|].
      steps. split; [done|]. split_and!; try done. cbn. eexists. split; [|by rewrite Hfds, insert_insert_eq].
      unfold zlen. lia.
    + split; [done|]. split_and!; try done. cbn. eexists. split; [|by rewrite Hfds, insert_insert_eq].
      lia.
Qed.

(** [lseek_example] ends without overflowing its buffer, whatever it reads
    and wherever the seeks lead; it returns 0 or -1, changes no file and leaves
    no descriptor open. *)
Lemma lseek_example_safe filename w :
  runs w0 (lseek_example filename) w (λ r w',
    (r = 0 ∨ r = -1) ∧ balanced w w' ∧ files w' = files w).
Proof.
  unfold lseek_example. do 3 step. eapply runs_open; [done..| |].
  { intros r n Hr Hn. step; [|lia]. steps. unfold balanced. cbn. auto 10. }
  intros r fi Hr Hfd Hf. step; [lia|]. cbn in Hfd, Hf.
  assert (10 < zlen (new_buffer 128)) as Hbuf by done.
  assert (∀ fmt buf w1, 10 < zlen buf → seeking w (r_ret r) filename w1 →
    runs w0 (show_10 (r_ret r) fmt buf) w1 (λ buf' w2,
      10 < zlen buf' ∧ seeking w (r_ret r) filename w2)) as Hshow.
  { intros. eapply runs_mono; [by eapply show_10_ok|]. by intros ?? [-> ?]. }
  step. eapply runs_mono; [apply (seek_ok w)|].
  { unfold seeking. cbn. split_and!; eauto. by exists 0. }
  intros ? w2 H2. step. eapply runs_mono; [by apply Hshow|]. intros buf2 w3 [Hb3 H3].
  step. eapply runs_mono; [by apply (seek_ok w)|]. intros ? w4 H4.
  step. eapply runs_mono; [by apply Hshow|]. intros buf4 w5 [Hb5 H5].
  step. eapply runs_mono; [by apply (seek_ok w)|]. intros ? w6 H6.
  step. eapply runs_mono; [by apply Hshow|].
  intros buf6 w7 (_ & (off & _ & Hfds) & Hfiles & Hmaps & Hmem & Hmis).
  steps. unfold balanced. cbn. rewrite Hfds, delete_insert_id by done. auto 10.
Qed.
End proofs.

(** On a system that moves at most 64 bytes at a time the program succeeds. *)
Example standard_io_main_runs :
  match main (e := kenv 64 (boot ∅)) 100 [] with
  | Ok (r, tr) => Some (r, w ← replay (boot ∅) tr; files w !! main_filename)
  | _ => None
  end = Some (0, Some (mkFile main_data true)).
Proof. vm_compute. reflexivity. Qed.

(** ** The theorems on that system *)

Lemma write_file_correct_witness :
  ∃ r tr w', write_file (e := kenv 2 (boot ∅)) 20 "f" (b "hello") [] = Ok (r, tr) ∧
    replay (boot ∅) tr = Some w' ∧ (r = 0 ∨ r = -1) ∧ balanced (boot ∅) w' ∧
    (r = 0 → files w' !! "f"%string = Some (mkFile (b "hello") true)).
Proof.
  destruct (write_file_correct (kenv_legal 2 (boot ∅)) 20 "f" (b "hello") (boot ∅)
    ltac:(done) ltac:(simpl; lia) [] eq_refl) as (r & tr & w' & Hrun & Hw & Hr & Hb & _ & Hf).
  exists r, tr, w'. split_and!; assumption.
Defined.

Definition sample_file : world := boot {["f"%string := mkFile (b "twelve bytes") true]}.

Lemma read_file_correct_witness :
  ∃ r tr w', read_file (e := kenv 5 sample_file) 20 "f" [] = Ok (r, tr) ∧
    replay sample_file tr = Some w' ∧ (r = 0 ∨ r = -1) ∧ balanced sample_file w'.
Proof.
  assert (∀ fi, files sample_file !! "f"%string = Some fi → ("000"%char ∉ content fi) ∧
    zlen (content fi) < 2 ^ 63 ∧ (length (content fi) + sigs sample_file < 20)%nat) as Hf.
  { intros fi Hfi. vm_compute in Hfi. injection Hfi as <-.
    split_and!; [by apply (bool_decide_unpack _)|done|simpl; lia]. }
  destruct (read_file_correct (kenv_legal 5 sample_file) 20 "f" sample_file Hf [] eq_refl)
    as (r & tr & w' & Hrun & Hw & Hr & Hb & _).
  exists r, tr, w'. split_and!; assumption.
Defined.

Lemma lseek_example_safe_witness :
  ∃ r tr w', lseek_example (e := kenv (-1) sample_file) "f" [] = Ok (r, tr) ∧
    replay sample_file tr = Some w' ∧ (r = 0 ∨ r = -1) ∧ balanced sample_file w'.
Proof.
  destruct (lseek_example_safe (kenv_legal (-1) sample_file) "f" sample_file [] eq_refl)
    as (r & tr & w' & Hrun & Hw & Hr & Hb & _).
  exists r, tr, w'. split_and!; assumption.
Defined.
