(* ===== verification/Sendfile.v ===== *)
(** * [12_aio/sendfile_demo.c]: copying files with [sendfile] *)
From S2P Require Export Sys.

Definition BUFFER_SIZE : Z := 4096.
Definition PORT : Z := 8888.
Definition chunk_size : Z := 1024 * 1024.

(** [O_WRONLY | O_CREAT | O_TRUNC], with which every destination is opened. *)
Definition creat_flags : list oflag := [O_WRONLY; O_CREAT; O_TRUNC].

Section code.
Context {e : Env}.

Definition sendfile_file_to_file (src_file dst_file : string) : M trace Z :=
  printf "=== sendfile 文件到文件传输示例 ===\n" [];;
  src_fd ← sys (Open src_file [O_RDONLY]);
  let src_fd := r_ret src_fd in
  if src_fd <? 0 then
    perror "open src file";;
    mret (-1)
  else
  stat_buf ← sys (Fstat src_fd);
  if r_ret stat_buf <? 0 then
    perror "fstat";;
    close src_fd;;
    mret (-1)
  else
  let st_size := r_off stat_buf in
  printf "源文件大小: %ld 字节\n" [ANum ILong st_size];;
  dst_fd ← sys (Open dst_file creat_flags);
  let dst_fd := r_ret dst_fd in
  if dst_fd <? 0 then
    perror "open dst file";;
    close src_fd;;
    mret (-1)
  else
  sent_bytes ← sys (Sendfile dst_fd src_fd 0 st_size);
  if r_ret sent_bytes <? 0 then
    perror "sendfile";;
    close src_fd;;
    close dst_fd;;
    mret (-1)
  else
  printf "sendfile 传输了 %zd 字节\n" [ANum ssize_t (r_ret sent_bytes)];;
  r ← sys (Fsync dst_fd);
  if r_ret r <? 0 then
    perror "fsync";;
    close src_fd;;
    close dst_fd;;
    mret (-1)
  else
  printf "fsync 完成\n" [];;
  close src_fd;;
  close dst_fd;;
  mret 0.

Definition sendfile_file_to_socket (filename : string) : M trace Z :=
  printf "\n=== sendfile 文件到 Socket 传输示例 ===\n" [];;
  server_fd ← sys Socket;
  let server_fd := r_ret server_fd in
  if server_fd <? 0 then
    perror "socket";;
    mret (-1)
  else
  sys (Sockcall "setsockopt" server_fd [1]);;
  r ← sys (Sockcall "bind" server_fd [PORT]);
  if r_ret r <? 0 then
    perror "bind";;
    close server_fd;;
    mret (-1)
  else
  r ← sys (Sockcall "listen" server_fd [1]);
  if r_ret r <? 0 then
    perror "listen";;
    close server_fd;;
    mret (-1)
  else
  printf "服务器监听端口 %d\n" [AInt PORT];;
  printf "等待客户端连接...\n" [];;
  client ← sys (Accept server_fd);
  let client_fd := r_ret client in
  if client_fd <? 0 then
    perror "accept";;
    close server_fd;;
    mret (-1)
  else
  printf "客户端已连接: %s:%d\n" [AStr (r_data client); AInt (r_off client)];;
  file_fd ← sys (Open filename [O_RDONLY]);
  let file_fd := r_ret file_fd in
  if file_fd <? 0 then
    perror "open file";;
    close client_fd;;
    close server_fd;;
    mret (-1)
  else
  stat_buf ← sys (Fstat file_fd);
  if r_ret stat_buf <? 0 then
    perror "fstat";;
    close file_fd;;
    close client_fd;;
    close server_fd;;
    mret (-1)
  else
  let st_size := r_off stat_buf in
  printf "文件大小: %ld 字节\n" [ANum ILong st_size];;
  sent_bytes ← sys (Sendfile client_fd file_fd 0 st_size);
  if r_ret sent_bytes <? 0 then
    perror "sendfile";;
    close file_fd;;
    close client_fd;;
    close server_fd;;
    mret (-1)
  else
  printf "sendfile 传输了 %zd 字节到客户端\n" [ANum ssize_t (r_ret sent_bytes)];;
  close file_fd;;
  close client_fd;;
  close server_fd;;
  mret 0.

(** One round of the [while] loop of [sendfile_chunked], which carries [offset]
    and [total_sent]. *)
Definition chunk_body (src_fd dst_fd st_size : Z) (a : Z * Z) : M trace (ctl (Z * Z) Z) :=
  let '(offset, total_sent) := a in
  if negb (offset <? st_size) then mret (Break total_sent)
  else
    let to_send :=
      if u64 (st_size - offset) <? chunk_size then u64 (st_size - offset) else chunk_size in
    sent_bytes ← sys (Sendfile dst_fd src_fd offset to_send);
    if r_ret sent_bytes <? 0 then
      perror "sendfile";;
      close src_fd;;
      close dst_fd;;
      mret (Return (-1))
    else
      let offset := r_off sent_bytes in
      let total_sent := u64 (total_sent + r_ret sent_bytes) in
      printf "已传输 %zu / %ld 字节 (%.1f%%)\n"
        [ANum size_t total_sent; ANum ILong st_size; AVal 100 total_sent st_size];;
      mret (Next (offset, total_sent)).

Definition sendfile_chunked (fuel : nat) (src_file dst_file : string) : M trace Z :=
  printf "\n=== sendfile 分块传输示例 ===\n" [];;
  src_fd ← sys (Open src_file [O_RDONLY]);
  let src_fd := r_ret src_fd in
  if src_fd <? 0 then
    perror "open src file";;
    mret (-1)
  else
  stat_buf ← sys (Fstat src_fd);
  if r_ret stat_buf <? 0 then
    perror "fstat";;
    close src_fd;;
    mret (-1)
  else
  let st_size := r_off stat_buf in
  printf "源文件大小: %ld 字节\n" [ANum ILong st_size];;
  dst_fd ← sys (Open dst_file creat_flags);
  let dst_fd := r_ret dst_fd in
  if dst_fd <? 0 then
    perror "open dst file";;
    close src_fd;;
    mret (-1)
  else
  after (loop fuel (chunk_body src_fd dst_fd st_size) (0, 0)) (λ total_sent,
    printf "分块传输完成，总共 %zu 字节\n" [ANum size_t total_sent];;
    r ← sys (Fsync dst_fd);
    if r_ret r <? 0 then
      perror "fsync";;
      close src_fd;;
      close dst_fd;;
      mret (-1)
    else
      close src_fd;;
      close dst_fd;;
      mret 0).

(** One round of the [read]/[write] loop; the loop carries the buffer. *)
Definition rw_body (src_fd dst_fd : Z) (buf : buffer) : M trace (ctl buffer unit) :=
  bytes_read ← sys (Read src_fd BUFFER_SIZE);
  if negb (0 <? r_ret bytes_read) then mret (Break tt)
  else
    let buf := fill buf (r_data bytes_read) in
    data ← contents (Z.to_nat (r_ret bytes_read)) buf;
    bytes_written ← sys (Write dst_fd data);
    if r_ret bytes_written <? 0 then
      perror "write";;
      close src_fd;;
      close dst_fd;;
      mret (Return (-1))
    else mret (Next buf).

Definition compare_performance (fuel : nat)
    (src_file dst_file_traditional dst_file_sendfile : string) : M trace Z :=
  printf "\n=== 性能对比示例 ===\n" [];;
  src_fd ← sys (Open src_file [O_RDONLY]);
  let src_fd := r_ret src_fd in
  if src_fd <? 0 then
    perror "open src file";;
    mret (-1)
  else
  stat_buf ← sys (Fstat src_fd);
  if r_ret stat_buf <? 0 then
    perror "fstat";;
    close src_fd;;
    mret (-1)
  else
  let st_size := r_off stat_buf in
  printf "文件大小: %ld 字节\n" [ANum ILong st_size];;
  dst_fd ← sys (Open dst_file_traditional creat_flags);
  let dst_fd := r_ret dst_fd in
  if dst_fd <? 0 then
    perror "open dst file (traditional)";;
    close src_fd;;
    mret (-1)
  else
  printf "使用传统 read/write 方式...\n" [];;
  after (loop fuel (rw_body src_fd dst_fd) (new_buffer BUFFER_SIZE)) (λ _,
    sys (Fsync dst_fd);;
    close dst_fd;;
    close src_fd;;
    src_fd ← sys (Open src_file [O_RDONLY]);
    let src_fd := r_ret src_fd in
    dst_fd ← sys (Open dst_file_sendfile creat_flags);
    let dst_fd := r_ret dst_fd in
    printf "使用 sendfile 方式...\n" [];;
    sys (Sendfile dst_fd src_fd 0 st_size);;
    sys (Fsync dst_fd);;
    close dst_fd;;
    close src_fd;;
    printf "性能对比完成\n" [];;
    printf "传统方式：数据在用户空间和内核空间之间来回拷贝\n" [];;
    printf "sendfile：零拷贝，直接在内核空间传输\n" [];;
    mret 0).

(** The literal that [main] writes, with its newlines. *)
Definition main_data : bytes :=
  b "Hello, sendfile!" ++ ["010"%char] ++
  b "This is a test file for zero-copy file transfer." ++ ["010"%char] ++
  b "sendfile is efficient for file transfer and network servers." ++ ["010"%char].

Definition main (fuel : nat) : M trace Z :=
  let src_file := "sendfile_src.txt"%string in
  fd ← sys (Open src_file creat_flags);
  let fd := r_ret fd in
  (if 0 <=? fd then
     for_up 0 1000 (λ _ _, sys (Write fd main_data);; mret tt) tt;;
     sys (Fsync fd);;
     close fd
   else mret tt);;
  r ← sendfile_file_to_file src_file "sendfile_dst.txt";
  (if r <? 0 then eprintf "sendfile 文件到文件失败\n" [] else mret tt);;
  r ← sendfile_chunked fuel src_file "sendfile_chunked.txt";
  (if r <? 0 then eprintf "sendfile 分块传输失败\n" [] else mret tt);;
  r ← compare_performance fuel src_file "sendfile_traditional.txt" "sendfile_sendfile.txt";
  (if r <? 0 then eprintf "性能对比失败\n" [] else mret tt);;
  printf "\n注意：sendfile 到 socket 示例需要手动测试\n" [];;
  printf "可以取消注释 main() 中的 sendfile_file_to_socket() 调用\n" [];;
  printf "\n所有 sendfile 示例完成\n" [];;
  mret 0.
End code.

(** ** Correctness *)

Section proofs.
Context {e : Env} {w0 : world} (Henv : legal_env w0).

(** Copying to another file ends with 0 or -1 and leaves no descriptor
    open and no other file changed. On 0 the destination holds, durably, the
    part of the source that one [sendfile] transferred, which is what the
    program prints; a short transfer is not noticed. *)
Lemma sendfile_file_to_file_copies src dst w :
  src ≠ dst →
  runs w0 (sendfile_file_to_file src dst) w (λ r w',
    (r = 0 ∨ r = -1) ∧ balanced w w' ∧ only_file dst w w' ∧
    (r = 0 → ∃ f n, files w !! src = Some f ∧ 0 ≤ n ≤ zlen (content f) ∧
       (n = 0 → content f = []) ∧
       files w' !! dst = Some (mkFile (take (Z.to_nat n) (content f)) true) ∧
       Printf "sendfile 传输了 %zd 字节\n" [ANum ssize_t n] ∈ outs w')).
Proof.
  intros Hne. unfold sendfile_file_to_file. do 3 step. eapply runs_open; [done..| |].
  { intros r n Hr Hn. step; [|lia]. steps. settle. }
  intros rs f Hrs Hs Hf. step; [lia|]. fresh_fds. step. eapply runs_fstat; [done|look|look|..].
  { intros r n Hr Hn. step; [|lia]. steps. settle. }
  intros r Hr Hsize. step; [lia|]. do 3 step. eapply runs_creat; [done..| |].
  { intros r' n Hr' Hn. step; [|lia]. steps. settle. }
  intros rd Hrd Hd. step; [lia|]. fresh_fds. step.
  eapply runs_sendfile; [done|look|look|look|look|set_solver|..].
  { intros r' n Hr' Hn. step; [|lia]. steps. settle. }
  cbn. rewrite drop_0. intros rx Hx Hlen Hpos _. step; [lia|]. do 3 step.
  eapply runs_sync; [done|by left|look|look|..].
  { intros r' n Hr' Hn _. step; [|lia]. steps. settle. }
  intros r' Hr'. step; [lia|]. steps. settle.
  exists f, (r_ret rx). rewrite Hsize in *. split_and!; try done; try lia.
  - intros Hn0. destruct Hpos as [?|[Hz|?]]; [lia| |done].
    destruct (content f); [done|]. unfold zlen in Hz. simpl in Hz. lia.
  - cbn. by rewrite lookup_insert_eq, write_at_nil.
  - cbn. rewrite !elem_of_app. set_solver.
Qed.

(** [sendfile_chunked] between two chunks: [offset] bytes have been copied. *)
Definition copying (w : world) (src dst : string) (f : file) (rs rd offset : Z)
    (w1 : world) : Prop :=
  0 ≤ offset ≤ zlen (content f) ∧
  fds w1 = <[rd := mkOF (KFile dst) offset creat_flags]>
             (<[rs := mkOF (KFile src) 0 [O_RDONLY]]> (fds w)) ∧
  (∃ s, files w1 = <[dst := mkFile (take (Z.to_nat offset) (content f)) s]> (files w)) ∧
  maps w1 = maps w ∧ mem w1 = mem w ∧ misuses w1 = misuses w.

Lemma chunk_loop_ok fuel w w1 src dst f rs rd :
  src ≠ dst → files w !! src = Some f → rs ≠ rd → fds w !! rs = None → fds w !! rd = None →
  zlen (content f) < 2 ^ 63 → copying w src dst f rs rd 0 w1 → (length (content f) < fuel)%nat →
  runs w0 (loop fuel (chunk_body rs rd (zlen (content f))) (0, 0)) w1 (λ x w2, match x with
    | Left total => total = zlen (content f) ∧ copying w src dst f rs rd total w2
    | Returned z => z = -1 ∧ balanced w w2 ∧ only_file dst w w2
    end).
Proof.
  intros Hne Hf Hfd Hrs Hrd Hlen HI Hfuel.
  apply (runs_loop (λ (a : Z * Z) w1, copying w src dst f rs rd a.1 w1 ∧ a.2 = a.1)
    (λ a _, Z.to_nat (zlen (content f) - a.1))); [done| |].
  { cbn. unfold zlen. lia. }
  intros [off total] w2 [(Hoff & Hfds & (s & Hfiles) & Hmaps & Hmem & Hmis) Htot].
  cbn [fst snd] in Hoff, Hfds, Hfiles, Htot. subst total. unfold chunk_body. step; steps.
  { split; [lia|]. unfold copying. split_and!; eauto; lia. }
  assert (1 ≤ if u64 (zlen (content f) - off) <? chunk_size
              then u64 (zlen (content f) - off) else chunk_size) as Hsend.
  { unfold u64, chunk_size. rewrite Z.mod_small by lia. destruct (_ <? _); lia. }
  revert Hsend. generalize (if u64 (zlen (content f) - off) <? chunk_size
    then u64 (zlen (content f) - off) else chunk_size). intros to_send Hsend.
  eapply runs_sendfile; [done|look|expand_world; by rewrite lookup_insert_ne|look|look
    |set_solver|..].
  { intros r n Hr Hn. step; [|lia]. steps. settle. }
  cbn. intros r Hr Hlen' Hpos Hroff. step; [lia|]. steps. cbn.
  assert (0 < r_ret r) as Hr0.
  { destruct Hpos as [?|[?|Hd]]; [done|lia|]. apply (f_equal length) in Hd.
    rewrite length_drop in Hd. unfold zlen in *. simpl in Hd. lia. }
  unfold zlen in Hlen'. rewrite length_drop in Hlen'.
  assert (u64 (off + r_ret r) = off + r_ret r) as Hu.
  { unfold u64. apply Z.mod_small. unfold zlen in *. lia. }
  rewrite Hroff, Hu. unfold copying. cbn. unfold zlen in *. split; [|lia]. split; [|done].
  split_and!; try done; try lia; [map_solve|].
  eexists. rewrite Hfiles, insert_insert_eq, write_at_take by lia.
  by rewrite <- Z2Nat.inj_add by lia.
Qed.

(** C33: copying in chunks to another file ends, with 0 or -1, leaves no
    descriptor open and changes no other file. On 0 the destination holds all of
    the source, durably, however short the transfers were. *)
Theorem sendfile_chunked_copies fuel src dst w :
  src ≠ dst →
  (∀ f, files w !! src = Some f →
     zlen (content f) < 2 ^ 63 ∧ (length (content f) < fuel)%nat) →
  runs w0 (sendfile_chunked fuel src dst) w (λ r w',
    (r = 0 ∨ r = -1) ∧ balanced w w' ∧ only_file dst w w' ∧
    (r = 0 → ∃ f, files w !! src = Some f ∧ files w' !! dst = Some (mkFile (content f) true))).
Proof.
  intros Hne Hfile. unfold sendfile_chunked. do 3 step. eapply runs_open; [done..| |].
  { intros r n Hr Hn. step; [|lia]. steps. settle. }
  intros rs f Hrs Hs Hf. step; [lia|]. fresh_fds. step.
  destruct (Hfile f Hf) as [Hlen Hfuel]. eapply runs_fstat; [done|look|look|..].
  { intros r n Hr Hn. step; [|lia]. steps. settle. }
  intros r Hr Hsize. step; [lia|]. do 3 step. eapply runs_creat; [done..| |].
  { intros r' n Hr' Hn. step; [|lia]. steps. settle. }
  intros rd Hrd Hd. step; [lia|]. fresh_fds. rewrite Hsize. step. eapply runs_mono.
  { eapply (chunk_loop_ok _ w); [done..| |done]. unfold copying. cbn.
    split_and!; try done; [apply zlen_nonneg|by eexists]. }
  intros [total|z] w2; cbn beta iota.
  2: { intros (-> & Hb & Ho). split; [by right|]. split_and!; [done..|lia]. }
  intros (-> & _ & Hfds & (s & Hfiles) & Hmaps & Hmem & Hmis).
  rewrite take_ge in Hfiles by (unfold zlen; lia).
  do 3 step. eapply runs_sync; [done|by left|look|look|..].
  { intros r' n Hr' Hn _. step; [|lia]. steps. settle. }
  intros r' Hr'. step; [lia|]. steps. settle.
  exists f. split; [done|]. expand_world. by rewrite lookup_insert_eq.
Qed.

(** Serving a file to a client ends with 0 or -1 and closes the listening
    socket, the connection and the file on every path. *)
Lemma sendfile_file_to_socket_closes filename w :
  runs w0 (sendfile_file_to_socket filename) w (λ r w',
    (r = 0 ∨ r = -1) ∧ balanced w w').
Proof.
  unfold sendfile_file_to_socket. steps. eapply runs_socket; [done| |].
  { intros ????. step; [|lia]. steps. settle. }
  intros rs Hrs Hs. step; [lia|]. do 2 (step; one). step; [steps; settle|].
  step. one. step; [steps; settle|]. steps. eapply runs_accept; [done|look|..].
  { intros ????. step; [|lia]. steps. settle. }
  intros rc Hrc Hc. step; [lia|]. fresh_fds. steps. eapply runs_open_any; [done|..].
  { intros ????. step; [|lia]. steps. settle. }
  intros rf w4 o4 Hrf Hf4 ????. step; [lia|]. fresh_fds. step. one.
  step; [steps; settle|]. steps.
  eapply runs_two; [done|done|look|look|congruence|].
  intros ? ? ? ([? ?] & ? & ? & ?) ([? ?] & ? & ? & ?). cbn in *.
  step; steps; settle.
Qed.

(** The [read]/[write] loop: [off] bytes of the source have been read. *)
Definition rewriting (w : world) (src dst : string) (rs rd off : Z) (w1 : world) : Prop :=
  (∃ k, fds w1 = <[rd := mkOF (KFile dst) k creat_flags]>
             (<[rs := mkOF (KFile src) off [O_RDONLY]]> (fds w))) ∧
  (∃ g, files w1 = <[dst := g]> (files w)) ∧
  maps w1 = maps w ∧ mem w1 = mem w ∧ misuses w1 = misuses w.

Lemma rw_loop_ok fuel w w1 src dst f rs rd :
  src ≠ dst → files w !! src = Some f → rs ≠ rd → fds w !! rs = None → fds w !! rd = None →
  rewriting w src dst rs rd 0 w1 → (length (content f) < fuel)%nat →
  runs w0 (loop fuel (rw_body rs rd) (new_buffer BUFFER_SIZE)) w1 (λ x w2, match x with
    | Left _ => ∃ off, rewriting w src dst rs rd off w2
    | Returned z => z = -1 ∧ balanced w w2
    end).
Proof.
  intros Hne Hf Hfd Hrs Hrd HI Hfuel.
  set (pos w1 := match fds w1 !! rs with Some o => of_off o | None => 0 end).
  apply (runs_loop (λ buf w1, zlen buf = BUFFER_SIZE ∧
      ∃ off, 0 ≤ off ≤ zlen (content f) ∧ rewriting w src dst rs rd off w1)
    (λ _ w1, Z.to_nat (zlen (content f) - pos w1))).
  { split; [done|]. exists 0. split; [|done]. split; [lia|apply zlen_nonneg]. }
  { unfold zlen, pos. destruct HI as ((k & ->) & _).
    rewrite lookup_insert_ne, lookup_insert_eq by done. cbn. lia. }
  intros buf w2 (Hbuf & off & Hoff & (k & Hfds) & (g & Hfiles) & Hmaps & Hmem & Hmis).
  assert (pos w2 = off) as Hpos.
  { unfold pos. rewrite Hfds, lookup_insert_ne, lookup_insert_eq by done. done. }
  rewrite Hpos. unfold rw_body. step.
  eapply runs_read; [done|look|expand_world; by rewrite lookup_insert_ne|..].
  { intros r n Hr Hn _. step; [|lia]. steps. exists off.
    unfold rewriting. cbn. split_and!; eauto. }
  intros r Hr Hlen _ Hdata. step; steps.
  { exists (off + r_ret r). unfold rewriting. cbn. split_and!; eauto. exists k. map_solve. }
  unfold zlen in Hlen. rewrite length_drop in Hlen.
  assert (length (r_data r) = Z.to_nat (r_ret r)) as Hld.
  { rewrite Hdata, length_take, length_drop. lia. }
  assert (zlen (r_data r) ≤ zlen buf) as Hfit by (rewrite Hbuf; unfold zlen; lia).
  eapply runs_pure; [intros tr; rewrite <- Hld; by apply contents_fill|]. cbn beta.
  step. eapply runs_write; [done|look|look|set_solver|..].
  - intros r' n Hr' Hn _. step; [|lia]. steps. settle.
  - intros r' Hr' _. step; [lia|]. steps. cbn.
    assert (pos (set_fds (<[rd := mkOF (KFile dst) (k + r_ret r') creat_flags]>
      (<[rs := mkOF (KFile src) (off + r_ret r) [O_RDONLY]]> (fds w2))) w2) = off + r_ret r)
      as Hpos'.
    { unfold pos. cbn. rewrite lookup_insert_ne, lookup_insert_eq by done. done. }
    split.
    + split; [by rewrite length_fill|]. exists (off + r_ret r).
      split; [unfold zlen in *; lia|]. unfold rewriting. cbn. split_and!; try done.
      * eexists. map_solve.
      * eexists. by rewrite Hfiles, insert_insert_eq.
    + unfold pos in Hpos' |- *. cbn in Hpos' |- *. rewrite Hpos'. unfold zlen in *. lia.
Qed.

(** The comparison ends with 0 or -1, and every descriptor it opened is
    closed again, although it does not look whether the second pair of [open]s
    succeeded; then it uses and closes descriptors it does not have, which
    [misuses] counts. *)
Lemma compare_performance_closes fuel src dst1 dst2 w :
  src ≠ dst1 → (∀ k, k < 0 → fds w !! k = None) →
  (∀ f, files w !! src = Some f → (length (content f) < fuel)%nat) →
  runs w0 (compare_performance fuel src dst1 dst2) w (λ r w',
    (r = 0 ∨ r = -1) ∧ fds w' = fds w ∧ maps w' = maps w ∧ mem w' = mem w ∧
    (r = -1 → misuses w' = misuses w)).
Proof.
  intros Hne Hneg Hfile. unfold compare_performance. steps. eapply runs_open; [done..| |].
  { intros ????. step; [|lia]. steps. settle. }
  intros rs f Hrs Hs Hf. step; [lia|]. fresh_fds. specialize (Hfile f Hf).
  step. eapply runs_fstat; [done|look|look|..].
  { intros ????. step; [|lia]. steps. settle. }
  intros r Hr Hsize. step; [lia|]. steps. eapply runs_creat; [done..| |].
  { intros ????. step; [|lia]. steps. settle. }
  intros rd Hrd Hd. step; [lia|]. fresh_fds. steps. eapply runs_mono.
  { eapply (rw_loop_ok _ w); [done..| |done]. unfold rewriting. cbn.
    split_and!; eauto. }
  intros [[]|z] w2; cbn beta iota.
  2: { intros (-> & Hb). destruct Hb as (?&?&?&?). settle. }
  intros (off & (k & Hfds) & _ & Hmaps & Hmem & Hmis). step. one. steps.
  eapply runs_any_open; [done| |].
  { intros k' Hk'. expand_world. rewrite !lookup_delete_ne, !lookup_insert_ne by lia. by apply Hneg. }
  intros rs2 w3 Hs2 (E3 & Hm3 & Hme3) Hneg3. step. eapply runs_any_open; [done..|].
  intros rd2 w4 Hd2 (E4 & Hm4 & Hme4) Hneg4. steps. eapply runs_any_two; [done|done|].
  intros _ w5 (E5 & Hm5 & Hme5). step. eapply runs_any_one; [done|done|].
  intros _ w6 (E6 & Hm6 & Hme6). step. eapply runs_any_close; [done|]. intros w7 E7 Hm7 Hme7.
  step. eapply runs_any_close; [done|]. intros w8 E8 Hm8 Hme8. steps.
  assert (delete (r_ret rs) (delete (r_ret rd) (fds w')) = fds w) as Hbase by map_solve.
  cbn in Hs2, E3. rewrite Hbase in Hs2. setoid_rewrite Hbase in E3.
  cbn in *. split; [by left|]. split; [|split_and!; [congruence..|lia]].
  apply map_eq. intros q. rewrite E8, lookup_delete. case_decide as Hq1; [by subst|].
  rewrite E7, lookup_delete. case_decide as Hq2.
  { subst q. by rewrite <- E3 by set_solver. }
  rewrite E6, E5, E4, E3 by set_solver. done.
Qed.
End proofs.

(** ** The theorems on systems with a source file *)

Definition sample : world := boot {["src"%string := mkFile (b "twelve bytes") true]}.

Lemma sample_content f :
  files sample !! "src"%string = Some f → zlen (content f) < 2 ^ 63 ∧ (length (content f) < 20)%nat.
Proof.
  intros Hf. vm_compute in Hf. injection Hf as <-. split; [done|]. simpl. lia.
Qed.

Lemma sendfile_file_to_file_copies_witness :
  ∃ r tr w', sendfile_file_to_file (e := kenv 5 sample) "src" "dst" [] = Ok (r, tr) ∧
    replay sample tr = Some w' ∧ (r = 0 ∨ r = -1) ∧ balanced sample w'.
Proof.
  destruct (sendfile_file_to_file_copies (kenv_legal 5 sample) "src" "dst" sample ltac:(done) []
    eq_refl) as (r & tr & w' & Hrun & Hw & Hr & Hb & _).
  exists r, tr, w'. split_and!; assumption.
Defined.

Lemma sendfile_chunked_copies_witness :
  ∃ r tr w', sendfile_chunked (e := kenv 5 sample) 20 "src" "dst" [] = Ok (r, tr) ∧
    replay sample tr = Some w' ∧ (r = 0 ∨ r = -1) ∧ balanced sample w'.
Proof.
  destruct (sendfile_chunked_copies (kenv_legal 5 sample) 20 "src" "dst" sample ltac:(done)
    sample_content [] eq_refl) as (r & tr & w' & Hrun & Hw & Hr & Hb & _).
  exists r, tr, w'. split_and!; assumption.
Defined.

Lemma sendfile_file_to_socket_closes_witness :
  ∃ r tr w', sendfile_file_to_socket (e := kenv 5 sample) "src" [] = Ok (r, tr) ∧
    replay sample tr = Some w' ∧ (r = 0 ∨ r = -1) ∧ balanced sample w'.
Proof.
  destruct (sendfile_file_to_socket_closes (kenv_legal 5 sample) "src" sample [] eq_refl)
    as (r & tr & w' & Hrun & Hw & Hr & Hb).
  exists r, tr, w'. split_and!; assumption.
Defined.

Lemma compare_performance_closes_witness :
  ∃ r tr w', compare_performance (e := kenv 5 sample) 20 "src" "d1" "d2" [] = Ok (r, tr) ∧
    replay sample tr = Some w' ∧ (r = 0 ∨ r = -1) ∧ fds w' = fds sample.
Proof.
  destruct (compare_performance_closes (kenv_legal 5 sample) 20 "src" "d1" "d2" sample
    ltac:(done) (λ k _, lookup_empty k) (λ f Hf, proj2 (sample_content f Hf)) [] eq_refl)
    as (r & tr & w' & Hrun & Hw & Hr & Hb & _).
  exists r, tr, w'. split_and!; assumption.
Defined.

(** Five bytes at a time, the chunked copy succeeds. *)
Example sendfile_chunked_runs :
  match sendfile_chunked (e := kenv 5 sample) 20 "src" "dst" [] with
  | Ok (r, tr) => Some (r, w ← replay sample tr; files w !! "dst"%string)
  | _ => None
  end = Some (0, Some (mkFile (b "twelve bytes") true)).
Proof. vm_compute. reflexivity. Qed.
