(* ===== verification/Splice.v ===== *)
(** * [12_aio/splice_demo.c]: moving data through pipes with [splice] and [tee] *)
From S2P Require Export Sys.
From S2P Require Sendfile.

Definition BUFFER_SIZE : Z := 4096.
Definition chunk_size : Z := 1024 * 1024.
Definition creat_flags : list oflag := [O_WRONLY; O_CREAT; O_TRUNC].
Definition newline : ascii := "010".

Section code.
Context {e : Env}.

(** [bytes_read = read(fd, buffer, BUFFER_SIZE); if (bytes_read > 0) {
    buffer[bytes_read] = '\0'; printf(fmt, bytes_read, buffer); }], which the
    functions below share. *)
Definition read_and_show (fd : Z) (fmt : string) (buf : buffer) : M trace unit :=
  bytes_read ← sys (Read fd BUFFER_SIZE);
  if 0 <? r_ret bytes_read then
    let buf := fill buf (r_data bytes_read) in
    buf ← put buf (r_ret bytes_read) "000"%char;
    s ← c_str buf;
    printf fmt [ANum ssize_t (r_ret bytes_read); AStr s]
  else mret tt.

Definition splice_file_to_pipe (filename : string) : M trace Z :=
  printf "=== splice 文件到管道示例 ===\n" [];;
  pipe_fd ← sys Pipe;
  if r_ret pipe_fd <? 0 then
    perror "pipe";;
    mret (-1)
  else
  let '(rd, wr) := r_fds pipe_fd in
  fd ← sys (Open filename [O_RDONLY]);
  let fd := r_ret fd in
  if fd <? 0 then
    perror "open";;
    close rd;;
    close wr;;
    mret (-1)
  else
  bytes_spliced ← sys (Splice fd wr BUFFER_SIZE);
  if r_ret bytes_spliced <? 0 then
    perror "splice";;
    close fd;;
    close rd;;
    close wr;;
    mret (-1)
  else
  printf "splice 移动了 %zd 字节到管道\n" [ANum ssize_t (r_ret bytes_spliced)];;
  close wr;;
  read_and_show rd "从管道读取 %zd 字节: %s\n" (new_buffer BUFFER_SIZE);;
  close fd;;
  close rd;;
  mret 0.

Definition pipe_data : bytes :=
  b "Hello, splice!" ++ [newline] ++ b "This data goes through a pipe." ++ [newline].

Definition splice_pipe_to_file (filename : string) : M trace Z :=
  printf "\n=== splice 管道到文件示例 ===\n" [];;
  pipe_fd ← sys Pipe;
  if r_ret pipe_fd <? 0 then
    perror "pipe";;
    mret (-1)
  else
  let '(rd, wr) := r_fds pipe_fd in
  sys (Write wr pipe_data);;
  close wr;;
  fd ← sys (Open filename creat_flags);
  let fd := r_ret fd in
  if fd <? 0 then
    perror "open";;
    close rd;;
    mret (-1)
  else
  bytes_spliced ← sys (Splice rd fd BUFFER_SIZE);
  if r_ret bytes_spliced <? 0 then
    perror "splice";;
    close fd;;
    close rd;;
    mret (-1)
  else
  printf "splice 移动了 %zd 字节到文件\n" [ANum ssize_t (r_ret bytes_spliced)];;
  r ← sys (Fsync fd);
  if r_ret r <? 0 then
    perror "fsync";;
    close fd;;
    close rd;;
    mret (-1)
  else
  close fd;;
  close rd;;
  mret 0.

(** Two pipes, the second only when the first could be made. *)
Definition two_pipes (k : Z * Z → Z * Z → M trace Z) : M trace Z :=
  pipe1 ← sys Pipe;
  if r_ret pipe1 <? 0 then
    perror "pipe1";;
    mret (-1)
  else
  let '(rd1, wr1) := r_fds pipe1 in
  pipe2 ← sys Pipe;
  if r_ret pipe2 <? 0 then
    perror "pipe2";;
    close rd1;;
    close wr1;;
    mret (-1)
  else k (rd1, wr1) (r_fds pipe2).

Definition pipe_to_pipe_data : bytes := b "Data from pipe1 to pipe2" ++ [newline].

Definition splice_pipe_to_pipe : M trace Z :=
  printf "\n=== splice 管道到管道示例 ===\n" [];;
  two_pipes (λ '(rd1, wr1) '(rd2, wr2),
    sys (Write wr1 pipe_to_pipe_data);;
    close wr1;;
    bytes_spliced ← sys (Splice rd1 wr2 BUFFER_SIZE);
    if r_ret bytes_spliced <? 0 then
      perror "splice";;
      close rd1;;
      close rd2;;
      close wr2;;
      mret (-1)
    else
    printf "splice 移动了 %zd 字节从 pipe1 到 pipe2\n" [ANum ssize_t (r_ret bytes_spliced)];;
    close wr2;;
    read_and_show rd2 "从 pipe2 读取 %zd 字节: %s\n" (new_buffer BUFFER_SIZE);;
    close rd1;;
    close rd2;;
    mret 0).

(** One round of the [while] loop of [splice_chunked]. *)
Definition chunk_body (src_fd dst_fd rd wr st_size : Z) (total_spliced : Z)
    : M trace (ctl Z Z) :=
  if negb (total_spliced <? u64 st_size) then mret (Break total_spliced)
  else
    let to_splice :=
      if u64 (st_size - total_spliced) <? chunk_size then u64 (st_size - total_spliced)
      else chunk_size in
    bytes_spliced ← sys (Splice src_fd wr to_splice);
    if r_ret bytes_spliced <? 0 then
      perror "splice (file to pipe)";;
      close src_fd;;
      close dst_fd;;
      close rd;;
      close wr;;
      mret (Return (-1))
    else
    bytes_spliced ← sys (Splice rd dst_fd (r_ret bytes_spliced));
    if r_ret bytes_spliced <? 0 then
      perror "splice (pipe to file)";;
      close src_fd;;
      close dst_fd;;
      close rd;;
      close wr;;
      mret (Return (-1))
    else
    let total_spliced := u64 (total_spliced + r_ret bytes_spliced) in
    printf "已传输 %zu / %ld 字节 (%.1f%%)\n"
      [ANum size_t total_spliced; ANum ILong st_size; AVal 100 total_spliced st_size];;
    mret (Next total_spliced).

(** Up to [n] rounds of the loop, which need not end: [None] when it goes on. *)
Definition splice_chunked (n : nat) (src_file dst_file : string) : M trace (option Z) :=
  printf "\n=== splice 分块传输示例 ===\n" [];;
  pipe_fd ← sys Pipe;
  if r_ret pipe_fd <? 0 then
    perror "pipe";;
    mret (Some (-1))
  else
  let '(rd, wr) := r_fds pipe_fd in
  src_fd ← sys (Open src_file [O_RDONLY]);
  let src_fd := r_ret src_fd in
  if src_fd <? 0 then
    perror "open src file";;
    close rd;;
    close wr;;
    mret (Some (-1))
  else
  stat_buf ← sys (Fstat src_fd);
  if r_ret stat_buf <? 0 then
    perror "fstat";;
    close src_fd;;
    close rd;;
    close wr;;
    mret (Some (-1))
  else
  let st_size := r_off stat_buf in
  printf "源文件大小: %ld 字节\n" [ANum ILong st_size];;
  dst_fd ← sys (Open dst_file creat_flags);
  let dst_fd := r_ret dst_fd in
  if dst_fd <? 0 then
    perror "open dst file";;
    close src_fd;;
    close rd;;
    close wr;;
    mret (Some (-1))
  else
  after_rounds (rounds n (chunk_body src_fd dst_fd rd wr st_size) 0) (λ total_spliced,
    printf "分块传输完成，总共 %zu 字节\n" [ANum size_t total_spliced];;
    r ← sys (Fsync dst_fd);
    if r_ret r <? 0 then
      perror "fsync";;
      close src_fd;;
      close dst_fd;;
      close rd;;
      close wr;;
      mret (-1)
    else
    close src_fd;;
    close dst_fd;;
    close rd;;
    close wr;;
    mret 0).

Definition tee_data : bytes := b "Data for tee and splice" ++ [newline].

Definition splice_with_tee : M trace Z :=
  printf "\n=== splice 配合 tee 示例 ===\n" [];;
  two_pipes (λ '(rd1, wr1) '(rd2, wr2),
    sys (Write wr1 tee_data);;
    close wr1;;
    bytes_teed ← sys (Tee rd1 wr2 BUFFER_SIZE);
    if r_ret bytes_teed <? 0 then
      perror "tee";;
      close rd1;;
      close rd2;;
      close wr2;;
      mret (-1)
    else
    printf "tee 复制了 %zd 字节\n" [ANum ssize_t (r_ret bytes_teed)];;
    close wr2;;
    read_and_show rd2 "从 pipe2 读取 %zd 字节: %s\n" (new_buffer BUFFER_SIZE);;
    read_and_show rd1 "从 pipe1 读取 %zd 字节: %s\n" (new_buffer BUFFER_SIZE);;
    close rd1;;
    close rd2;;
    mret 0).

(** One round of the [read]/[write] loop; the loop carries the buffer. *)
Definition rw_body (src_fd dst_fd : Z) (buf : buffer) : M trace (ctl buffer unit) :=
  bytes_read ← sys (Read src_fd BUFFER_SIZE);
  if negb (0 <? r_ret bytes_read) then mret (Break tt)
  else
    let buf := fill buf (r_data bytes_read) in
    data ← contents (Z.to_nat (r_ret bytes_read)) buf;
    bytes_written ← sys (Write dst_fd data);
    if r_ret bytes_written <? 0 then
      perror "write";;
      close src_fd;;
      close dst_fd;;
      mret (Return (-1))
    else mret (Next buf).

Definition compare_splice_traditional (fuel : nat)
    (src_file dst_file_splice dst_file_traditional : string) : M trace Z :=
  printf "\n=== splice vs 传统方式对比 ===\n" [];;
  src_fd ← sys (Open src_file [O_RDONLY]);
  let src_fd := r_ret src_fd in
  if src_fd <? 0 then
    perror "open src file";;
    mret (-1)
  else
  stat_buf ← sys (Fstat src_fd);
  if r_ret stat_buf <? 0 then
    perror "fstat";;
    close src_fd;;
    mret (-1)
  else
  let st_size := r_off stat_buf in
  printf "文件大小: %ld 字节\n" [ANum ILong st_size];;
  dst_fd ← sys (Open dst_file_traditional creat_flags);
  let dst_fd := r_ret dst_fd in
  if dst_fd <? 0 then
    perror "open dst file (traditional)";;
    close src_fd;;
    mret (-1)
  else
  printf "使用传统 read/write 方式...\n" [];;
  after (loop fuel (rw_body src_fd dst_fd) (new_buffer BUFFER_SIZE)) (λ _,
    sys (Fsync dst_fd);;
    close dst_fd;;
    close src_fd;;
    pipe_fd ← sys Pipe;
    if r_ret pipe_fd <? 0 then
      perror "pipe";;
      mret (-1)
    else
    let '(rd, wr) := r_fds pipe_fd in
    src_fd ← sys (Open src_file [O_RDONLY]);
    let src_fd := r_ret src_fd in
    dst_fd ← sys (Open dst_file_splice creat_flags);
    let dst_fd := r_ret dst_fd in
    printf "使用 splice 方式...\n" [];;
    bytes_spliced ← sys (Splice src_fd wr st_size);
    (if 0 <? r_ret bytes_spliced then sys (Splice rd dst_fd (r_ret bytes_spliced));; mret tt
     else mret tt);;
    sys (Fsync dst_fd);;
    close dst_fd;;
    close src_fd;;
    close rd;;
    close wr;;
    printf "对比完成\n" [];;
    printf "传统方式：数据在用户空间和内核空间之间来回拷贝\n" [];;
    printf "splice：零拷贝，直接在内核空间传输\n" [];;
    mret 0).

(** The literal that [main] writes, with its newlines. *)
Definition main_data : bytes :=
  b "Hello, splice!" ++ [newline] ++
  b "This is a test file for splice I/O." ++ [newline] ++
  b "splice is efficient for data movement between file descriptors." ++ [newline].

(** [n] bounds the rounds of [splice_chunked], and [fuel] those of the loop of
    [compare_splice_traditional]. *)
Definition main (fuel n : nat) : M trace (option Z) :=
  let src_file := "splice_src.txt"%string in
  fd ← sys (Open src_file creat_flags);
  let fd := r_ret fd in
  (if 0 <=? fd then
     for_up 0 1000 (λ _ _, sys (Write fd main_data);; mret tt) tt;;
     sys (Fsync fd);;
     close fd
   else mret tt);;
  r ← splice_file_to_pipe src_file;
  (if r <? 0 then eprintf "splice 文件到管道失败\n" [] else mret tt);;
  r ← splice_pipe_to_file "splice_dst.txt";
  (if r <? 0 then eprintf "splice 管道到文件失败\n" [] else mret tt);;
  r ← splice_pipe_to_pipe;
  (if r <? 0 then eprintf "splice 管道到管道失败\n" [] else mret tt);;
  r ← splice_chunked n src_file "splice_chunked.txt";
  match r with None => mret None | Some r =>
  (if r <? 0 then eprintf "splice 分块传输失败\n" [] else mret tt);;
  r ← splice_with_tee;
  (if r <? 0 then eprintf "splice 配合 tee 失败\n" [] else mret tt);;
  r ← compare_splice_traditional fuel src_file "splice_splice.txt" "splice_traditional.txt";
  (if r <? 0 then eprintf "性能对比失败\n" [] else mret tt);;
  printf "\n所有 splice 示例完成\n" [];;
  mret (Some 0)
  end.
End code.

Arguments pipe_data : simpl never.
Arguments pipe_to_pipe_data : simpl never.
Arguments tee_data : simpl never.

(** ** Correctness *)

Section proofs.
Context {e : Env} {w0 : world} (Henv : legal_env w0).

(** A [read] that fills all 4096 bytes of the buffer makes the terminating
    NUL go one byte past its end: [buffer[bytes_read] = '\0'] is out of bounds. *)
Lemma read_and_show_overflows fd fmt tr :
  r_ret (env tr (Read fd BUFFER_SIZE)) = BUFFER_SIZE →
  zlen (r_data (env tr (Read fd BUFFER_SIZE))) = BUFFER_SIZE →
  read_and_show fd fmt (new_buffer BUFFER_SIZE) tr = UB OutOfBounds.
Proof.
  intros Hret Hlen. unfold read_and_show. erewrite bind_Ok by done. rewrite Hret.
  change (0 <? BUFFER_SIZE) with true. cbn iota. unfold put, zupdate.
  rewrite length_fill; [|rewrite Hlen; done].
  rewrite bool_decide_eq_false_2; [done|]. unfold new_buffer, zlen.
  rewrite length_replicate. unfold BUFFER_SIZE. lia.
Qed.

(** Showing less than 4096 bytes from a pipe. *)
Lemma read_and_show_ok fd fmt o p (d : bytes) w :
  fds w !! fd = Some o → of_kind o = KPipeR p → pipes w !! p = Some d →
  zlen d < BUFFER_SIZE →
  runs w0 (read_and_show fd fmt (new_buffer BUFFER_SIZE)) w (λ _ w',
    fds w' = fds w ∧ files w' = files w ∧ maps w' = maps w ∧ mem w' = mem w ∧
    misuses w' = misuses w ∧ ∃ d', pipes w' = <[p := d']> (pipes w) ∧ zlen d' ≤ zlen d).
Proof.
  intros Hfd Ho Hp Hlen. unfold read_and_show. step.
  eapply runs_read_pipe; [done|exact Hfd|exact Ho|exact Hp|..].
  - intros r k Hr Hk. step; [lia|]. steps. cbn. split_and!; try done.
    exists d. by rewrite insert_id.
  - intros r Hr Hrd Hdata. step; steps.
    + assert (r_ret r = zlen (r_data r)) as Hret.
      { rewrite Hdata. unfold zlen in *. rewrite length_take. lia. }
      rewrite Hret. destruct (put_fill (S := trace) (r_data r) (new_buffer BUFFER_SIZE))
        as (buf' & Hput & Hbl & Hstr).
      { unfold new_buffer, zlen in *. rewrite length_replicate. lia. }
      eapply runs_pure; [exact Hput|]. cbn beta. step. eapply runs_pure; [exact Hstr|].
      steps. cbn. split_and!; try done. eexists. split; [done|].
      unfold zlen. rewrite length_drop. lia.
    + cbn. split_and!; try done. eexists. split; [done|].
      unfold zlen. rewrite length_drop. lia.
Qed.

(** Sending a file of less than 4096 bytes through a pipe ends with 0 or
    -1, stays within the buffer, closes both ends of the pipe and the file on
    every path and changes no file. *)
Lemma splice_file_to_pipe_safe filename w :
  (∀ f, files w !! filename = Some f → zlen (content f) < BUFFER_SIZE) →
  runs w0 (splice_file_to_pipe filename) w (λ r w',
    (r = 0 ∨ r = -1) ∧ balanced w w' ∧ files w' = files w).
Proof.
  intros Hsize. unfold splice_file_to_pipe. steps. eapply runs_pipe; [done|..].
  { intros ????. step; [|lia]. steps. settle. }
  intros rp rd wr p Hrp -> Hne Hrd Hwr Hp. step; [lia|]. cbn in Hrd, Hwr.
  step. eapply runs_open; [done..| |].
  { intros ????. step; [|lia]. steps. settle. }
  intros rf f Hrf Hf Hfile. step; [lia|]. fresh_fds. step.
  eapply runs_splice_read; [done|look|look|look|done|look|..].
  { intros ????. step; [|lia]. steps. settle. }
  cbn. intros r Hr Hlen _. step; [lia|]. steps. eapply runs_mono.
  { eapply read_and_show_ok; [look|done|look|]. specialize (Hsize f Hfile).
    unfold zlen in *. rewrite length_take, length_drop. lia. }
  intros _ w2 (Hfds & Hfiles & Hmaps & Hmem & Hmis & _). cbn in *. steps. settle.
Qed.

(** The other way round, the program ends with 0 or -1 with everything
    closed; on 0 the file holds, durably, a prefix of the data put into the
    pipe: the count that [write] returned is not looked at. *)
Lemma splice_pipe_to_file_copies filename w :
  runs w0 (splice_pipe_to_file filename) w (λ r w',
    (r = 0 ∨ r = -1) ∧ balanced w w' ∧ only_file filename w w' ∧
    (r = 0 → ∃ n, files w' !! filename = Some (mkFile (take n pipe_data) true))).
Proof.
  unfold splice_pipe_to_file. steps. eapply runs_pipe; [done|..].
  { intros ????. step; [|lia]. steps. settle. }
  intros rp rd wr p Hrp -> Hne Hrd Hwr Hp. step; [lia|]. cbn in Hrd, Hwr. step.
  eapply runs_write_pipe_any; [done|look|done|look|]. intros rw n k. steps.
  eapply runs_creat; [done..| |].
  { intros ????. step; [|lia]. steps. settle. }
  intros rf Hrf Hf. step; [lia|]. fresh_fds. step.
  eapply runs_splice_write; [done|look|done|look|look|look|set_solver|..].
  { intros ????. step; [|lia]. steps. settle. }
  intros r Hr Hlen _. step; [lia|]. steps. eapply runs_sync; [done|by left|look|look|..].
  { intros r' n' Hr' Hn' _. step; [|lia]. steps. settle. }
  intros r' Hr'. step; [lia|]. steps. settle. eexists. expand_world.
  rewrite lookup_insert_eq, write_at_nil, take_take. done.
Qed.

(** [splice] between two pipes ends with 0 or -1, stays within its buffer
    and closes every end of the pipes on every path. *)
Lemma splice_pipe_to_pipe_balanced w :
  runs w0 splice_pipe_to_pipe w (λ r w',
    (r = 0 ∨ r = -1) ∧ balanced w w' ∧ files w' = files w).
Proof.
  unfold splice_pipe_to_pipe, two_pipes. steps. eapply runs_pipe; [done|..].
  { intros ????. step; [|lia]. steps. settle. }
  intros r1 rd1 wr1 p1 Hr1 -> Hne1 Hrd1 Hwr1 Hp1. step; [lia|]. cbn in Hrd1, Hwr1. step.
  eapply runs_pipe; [done|..].
  { intros ????. step; [|lia]. steps. settle. }
  intros r2 rd2 wr2 p2 Hr2 -> Hne2 Hrd2 Hwr2 Hp2. step; [lia|]. fresh_fds.
  step.
  eapply runs_write_pipe_any; [done|look|done|look|]. intros rw n k. steps.
  eapply runs_splice_pipes; [done|look|done|look|look|done|look|done|..].
  { intros ????. step; [|lia]. steps. settle. }
  cbn. intros r Hr Hlen. step; [lia|]. steps. eapply runs_mono.
  { eapply read_and_show_ok; [look|done|look|]. unfold zlen. rewrite ?length_app, !length_take.
    change (length pipe_to_pipe_data) with 25%nat. unfold BUFFER_SIZE. lia. }
  intros _ w2 (Hfds & Hfiles & Hmaps & Hmem & Hmis & _). cbn in *. steps. settle.
Qed.

(** Duplicating a pipe with [tee] ends with 0 or -1, stays within the
    buffers and closes every end of the pipes on every path. *)
Lemma splice_with_tee_balanced w :
  runs w0 splice_with_tee w (λ r w',
    (r = 0 ∨ r = -1) ∧ balanced w w' ∧ files w' = files w).
Proof.
  unfold splice_with_tee, two_pipes. steps. eapply runs_pipe; [done|..].
  { intros ????. step; [|lia]. steps. settle. }
  intros r1 rd1 wr1 p1 Hr1 -> Hne1 Hrd1 Hwr1 Hp1. step; [lia|]. cbn in Hrd1, Hwr1. step.
  eapply runs_pipe; [done|..].
  { intros ????. step; [|lia]. steps. settle. }
  intros r2 rd2 wr2 p2 Hr2 -> Hne2 Hrd2 Hwr2 Hp2. step; [lia|]. fresh_fds.
  step.
  eapply runs_write_pipe_any; [done|look|done|look|]. intros rw n k. steps.
  eapply runs_tee; [done|look|done|look|look|done|look|..].
  { intros ????. step; [|lia]. steps. settle. }
  cbn. intros r Hr Hlen. step; [lia|]. steps. eapply runs_mono.
  { eapply read_and_show_ok; [look|done|look|]. unfold zlen. rewrite ?length_app, !length_take.
    change (length tee_data) with 24%nat. unfold BUFFER_SIZE. lia. }
  intros _ w2 (Hfds & Hfiles & Hmaps & Hmem & Hmis & d' & Hpipes & _). cbn in *. steps.
  eapply runs_mono.
  { eapply read_and_show_ok; [look|done|look|]. unfold zlen. rewrite ?length_app, !length_take.
    change (length tee_data) with 24%nat. unfold BUFFER_SIZE. lia. }
  intros _ w3 (Hfds3 & Hfiles3 & Hmaps3 & Hmem3 & Hmis3 & _). cbn in *. steps. settle.
Qed.

(** Moving data between two pipes with [splice], and duplicating it with
    [tee], end with 0 or -1, stay within their buffers and close every end of
    both pipes on every path. *)
Lemma splice_between_pipes_safe w :
  runs w0 splice_pipe_to_pipe w (λ r w',
    (r = 0 ∨ r = -1) ∧ balanced w w' ∧ files w' = files w) ∧
  runs w0 splice_with_tee w (λ r w',
    (r = 0 ∨ r = -1) ∧ balanced w w' ∧ files w' = files w).
Proof. split; [apply splice_pipe_to_pipe_balanced|apply splice_with_tee_balanced]. Qed.

(** A [splice] out of a pipe that succeeds takes all that it can. The manual does not promise
    this, and the code relies on it: see below. *)
Definition drains : Prop := ∀ tr w i o n oi p d,
  replay w0 tr = Some w → fds w !! i = Some oi → of_kind oi = KPipeR p →
  pipes w !! p = Some d → 0 ≤ r_ret (env tr (Splice i o n)) →
  r_ret (env tr (Splice i o n)) = Z.min n (zlen d).

(** [splice_chunked] between two rounds: [total] bytes have been copied, [taken] have been
    read, and those in between are in the pipe [p]. *)
Definition copying (w : world) (src dst : string) (f : file) (fs fd rd wr : Z)
    (p : positive) (total taken : Z) (w1 : world) : Prop :=
  0 ≤ total ≤ taken ∧ taken ≤ zlen (content f) ∧
  fds w1 = <[fd := mkOF (KFile dst) total creat_flags]>
    (<[fs := mkOF (KFile src) taken [O_RDONLY]]>
    (<[wr := mkOF (KPipeW p) 0 []]> (<[rd := mkOF (KPipeR p) 0 []]> (fds w)))) ∧
  (∃ s, files w1 = <[dst := mkFile (take (Z.to_nat total) (content f)) s]> (files w)) ∧
  pipes w1 !! p = Some (take (Z.to_nat (taken - total)) (drop (Z.to_nat total) (content f))) ∧
  maps w1 = maps w ∧ mem w1 = mem w ∧ misuses w1 = misuses w.

(** Two pieces of a list that follow each other, and what is left of a piece. *)
Lemma take_drop_app (l : bytes) (i j k : Z) :
  0 ≤ i ≤ j → 0 ≤ k →
  take (Z.to_nat (j - i)) (drop (Z.to_nat i) l) ++ take (Z.to_nat k) (drop (Z.to_nat j) l) =
    take (Z.to_nat (j + k - i)) (drop (Z.to_nat i) l).
Proof using Type.
  intros Hij Hk. replace (Z.to_nat (j + k - i)) with (Z.to_nat (j - i) + Z.to_nat k)%nat by lia.
  rewrite <- take_take_drop, drop_drop. do 3 f_equal. lia.
Qed.
Lemma drop_take_drop (l : bytes) (i k n : Z) :
  0 ≤ i → 0 ≤ k → drop (Z.to_nat k) (take (Z.to_nat n) (drop (Z.to_nat i) l)) =
    take (Z.to_nat (n - k)) (drop (Z.to_nat (i + k)) l).
Proof using Type.
  intros Hi Hk. rewrite skipn_firstn_comm, drop_drop. f_equal; [lia|]. f_equal. lia.
Qed.
Lemma zlen_piece (l : bytes) (i j : Z) :
  0 ≤ i ≤ j → j ≤ zlen l → zlen (take (Z.to_nat (j - i)) (drop (Z.to_nat i) l)) = j - i.
Proof using Type. intros Hij Hj. unfold zlen in *. rewrite length_take, length_drop. lia. Qed.

Section chunks.
Context (w : world) (src dst : string) (f : file) (fs fd rd wr : Z) (p : positive).
Context (Hne : src ≠ dst) (Hf : files w !! src = Some f) (Hnd : NoDup [fd; fs; wr; rd]).
Context (Hfs : fds w !! fs = None) (Hfd : fds w !! fd = None) (Hwr : fds w !! wr = None) (Hrd : fds w !! rd = None).
Context (Hlen : zlen (content f) < 2 ^ 63).
Abbreviation at_round := (copying w src dst f fs fd rd wr p).
Abbreviation size := (zlen (content f)).

(** One round: more may be read than is copied, so that the pipe fills up. *)
Lemma chunk_round total taken w2 :
  at_round total taken w2 →
  runs w0 (chunk_body fs fd rd wr size total) w2 (λ c w3, match c with
    | Next total' => ∃ taken', at_round total' taken' w3 ∧ total < size ∧ total ≤ total' ∧
        taken - total ≤ taken' - total' ∧ (taken = size → total' = total) ∧
        (drains → taken = total → taken' = total' ∧ total < total')
    | Break total' => total' = size ∧ total = size ∧ w3 = w2
    | Return z => z = -1 ∧ balanced w w3 ∧ only_file dst w w3
    end).
Proof using All.
  intros HI2. pose proof HI2 as (Ht & Hle & Hfds & (s & Hfiles) & Hp & Hmaps & Hmem & Hmis).
  assert (fd ≠ fs ∧ fd ≠ wr ∧ fd ≠ rd ∧ fs ≠ wr ∧ fs ≠ rd ∧ wr ≠ rd) as (?&?&?&?&?&?).
  { rewrite !NoDup_cons in Hnd. set_solver. }
  unfold chunk_body. assert (u64 size = size) as ->.
  { unfold u64. apply Z.mod_small. lia. }
  assert (total < size → 1 ≤ if u64 (size - total) <? chunk_size
              then u64 (size - total) else chunk_size) as Hsend.
  { intros ?. unfold u64, chunk_size. rewrite Z.mod_small by lia. destruct (_ <? _); lia. }
  revert Hsend. generalize (if u64 (size - total) <? chunk_size
    then u64 (size - total) else chunk_size). intros to_splice Hsend.
  step; steps; [split_and!; [lia..|done]|]. specialize (Hsend ltac:(assumption)).
  eapply runs_splice_read; [done|look|expand_world; by rewrite lookup_insert_ne|look|done|exact Hp|..].
  { intros ????. step; [|lia]. steps. settle. }
  cbn. intros r Hr Hlen' Hpos. step; [lia|]. step.
  rewrite take_drop_app by lia. set (k := r_ret r) in *.
  assert (zlen (drop (Z.to_nat taken) (content f)) = size - taken) as Hrest.
  { unfold zlen in *. rewrite length_drop. lia. }
  assert (taken < size → 0 < k) as Hk0.
  { intros ?. destruct Hpos as [?|[?|Hd]]; [done|lia|]. rewrite Hd in Hrest. unfold zlen in Hrest at 1.
    simpl in Hrest. lia. }
  set (d := take (Z.to_nat (taken + k - total)) (drop (Z.to_nat total) (content f))) in *.
  assert (zlen d = taken + k - total) as Hd by (apply zlen_piece; lia).
  eapply (runs_fact _ _ (λ r', drains → 0 ≤ r_ret r' → r_ret r' = Z.min k (zlen d))).
  { intros tr Htr Hdr ?. eapply Hdr; [exact Htr|look|done|look|done]. }
  eapply runs_splice_write; [done|look|done|look|look|look|set_solver|..].
  { intros ???? _. step; [|lia]. steps. settle. }
  intros r' Hr' Hlen2 Hpos2 Hfull. step; [lia|]. steps. cbn.
  assert (u64 (total + r_ret r') = total + r_ret r') as ->.
  { unfold u64. apply Z.mod_small. lia. }
  exists (taken + k). split_and!; [|lia|lia|lia|..].
  - unfold copying. cbn. split_and!; try done; try lia; [map_solve| |].
    + eexists. rewrite Hfiles, insert_insert_eq.
      unfold d. rewrite take_take, Nat.min_l by lia.
      rewrite write_at_take by (unfold zlen in *; lia).
      by rewrite <- Z2Nat.inj_add by lia.
    + rewrite lookup_insert_eq. f_equal. unfold d. rewrite drop_take_drop by lia. do 2 f_equal. lia.
  - intros E. assert (k = 0) as Hk by lia. lia.
  - intros Hdr E. rewrite Hfull by (done || lia). lia.
Qed.

(** The rounds, which need not come to an end. *)
Lemma chunk_rounds n w1 :
  at_round 0 0 w1 →
  runs w0 (rounds n (chunk_body fs fd rd wr size) 0) w1 (λ c w3, match c with
    | Next total => ∃ taken, at_round total taken w3 ∧ (drains → Z.of_nat n ≤ total)
    | Break total => total = size ∧ at_round size size w3
    | Return z => z = -1 ∧ balanced w w3 ∧ only_file dst w w3
    end).
Proof using All.
  intros HI. apply (runs_rounds_count (λ k total w2, ∃ taken, at_round total taken w2 ∧
    (drains → taken = total ∧ Z.of_nat k ≤ total))).
  - exists 0. split; [done|]. intros _. split; [done|lia].
  - intros total w2 (taken & H2 & Hdr). exists taken. split; [done|]. by apply Hdr.
  - intros k total w2 _ (taken & H2 & Hdr). eapply runs_mono; [by eapply chunk_round|].
    intros [total'|total'|z] w3.
    + intros (taken' & H3 & _ & _ & _ & _ & Hdr'). exists taken'. split; [done|].
      intros Hd. destruct (Hdr Hd) as [E ?]. destruct (Hdr' Hd E). lia.
    + intros (-> & -> & ->). split; [done|]. assert (taken = size) as -> by (destruct H2; lia). done.
    + done.
Qed.

(** Once less has been copied than read, the pipe is never emptied again, and the loop
    never gets to its end: when all of the source has been read, nothing moves any more, for
    ever. *)
Lemma chunk_rounds_spin n total taken w1 :
  at_round total taken w1 → total < taken →
  runs w0 (rounds n (chunk_body fs fd rd wr size) total) w1 (λ c w3, match c with
    | Next total' => ∃ taken', at_round total' taken' w3 ∧ total' < taken' ∧ (taken = size → total' = total)
    | Break _ => False
    | Return z => z = -1 ∧ balanced w w3 ∧ only_file dst w w3
    end).
Proof using All.
  intros H1 Hlt. apply (runs_rounds (λ total' w2, ∃ taken', at_round total' taken' w2 ∧ total' < taken' ∧
    (taken = size → total' = total ∧ taken' = size))).
  - exists taken. done.
  - intros total' w2 (taken' & ? & ? & Hs). exists taken'. split_and!; [done..|]. intros E. by apply Hs.
  - intros total2 w2 (taken2 & H2 & Hlt2 & Hs). eapply runs_mono; [by eapply chunk_round|].
    intros [total3|total3|z] w3; [|intros (_ & E & _); destruct H2; lia|done].
    intros (taken3 & H3 & _ & Hge & Hgap & Hend & _). exists taken3. split; [done|]. split; [lia|].
    intros E. destruct (Hs E) as [-> ->]. specialize (Hend eq_refl). destruct H3. lia.
Qed.
End chunks.

(** C34: for every legal answer, short transfers and failures included, copying in chunks that ends returns 0 or -1,
    with the files and the pipe closed and no file changed but the destination, and on 0 the
    destination holds all of the source, durably (its [fsync] has succeeded). When it goes on
    after [n] rounds, the destination holds the first [total] bytes, and the bytes read and not yet
    copied are in the pipe. If a [splice] out of the pipe always takes all that it can, then it
    ends, for each round copies a byte at least; if not, it need not: after a short one, it
    never ends with 0. *)
Theorem splice_chunked_copies n src dst w :
  src ≠ dst → (∀ f, files w !! src = Some f → zlen (content f) < 2 ^ 63) →
  runs w0 (splice_chunked n src dst) w (λ r w', match r with
    | Some r => (r = 0 ∨ r = -1) ∧ balanced w w' ∧ only_file dst w w' ∧
        (r = 0 → ∃ f, files w !! src = Some f ∧ files w' !! dst = Some (mkFile (content f) true))
    | None => ∃ f fs fd rd wr p total taken, files w !! src = Some f ∧
        copying w src dst f fs fd rd wr p total taken w' ∧ (drains → Z.of_nat n ≤ zlen (content f)) ∧
        (total < taken → ∀ m, runs w0 (rounds m (chunk_body fs fd rd wr (zlen (content f))) total) w'
           (λ c _, match c with Next total' => total' < zlen (content f) | Break _ => False | Return z => z = -1 end))
    end).
Proof.
  intros Hne Hfile. unfold splice_chunked. steps. eapply runs_pipe; [done|..].
  { intros ????. step; [|lia]. steps. settle. }
  intros rp rd wr p Hrp -> Hneq Hrd Hwr Hp. step; [lia|]. cbn in Hrd, Hwr. step.
  eapply runs_open; [done..| |].
  { intros ????. step; [|lia]. steps. settle. }
  intros rs f Hrs Hs Hf. step; [lia|]. fresh_fds. cbn in Hf.
  pose proof (Hfile f Hf) as Hlen. step. eapply runs_fstat; [done|look|look|..].
  { intros ????. step; [|lia]. steps. settle. }
  intros r Hr Hsize. step; [lia|]. steps. eapply runs_creat; [done..| |].
  { intros ????. step; [|lia]. steps. settle. }
  intros rf Hrf Hfd. step; [lia|]. fresh_fds. rewrite Hsize. step.
  assert (NoDup [r_ret rf; r_ret rs; wr; rd]) as Hnd.
  { repeat (apply NoDup_cons; split; [set_solver|]). constructor. }
  eapply runs_mono.
  { eapply (chunk_rounds w src dst f (r_ret rs) (r_ret rf) rd wr p); try done.
    unfold copying. cbn. split_and!; try done; [apply zlen_nonneg|by eexists|].
    apply lookup_insert_eq. }
  intros [total|total|z] w2; cbn beta iota.
  - intros (taken & Hat & Hdr). exists f, (r_ret rs), (r_ret rf), rd, wr, p, total, taken.
    split_and!; [done..| |].
    + intros Hd. specialize (Hdr Hd). destruct Hat. lia.
    + intros Hlt m. eapply runs_mono; [eapply (chunk_rounds_spin w src dst f); try done|].
      intros [t|t|z] w3; [|done|by intros [-> _]]. intros (t' & (? & ? & _) & ? & _). lia.
  - intros (-> & _ & _ & Hfds & (s & Hfiles) & _ & Hmaps & Hmem & Hmis).
    rewrite take_ge in Hfiles by (unfold zlen; lia).
    steps. eapply runs_sync; [done|by left|look|look|..].
    { intros r' n' Hr' Hn _. step; [|lia]. steps. settle. }
    intros r' Hr'. step; [lia|]. steps. settle.
    exists f. split; [done|]. expand_world. by rewrite lookup_insert_eq.
  - intros (-> & Hb & Ho). split; [by right|]. split_and!; [done..|lia].
Qed.

(** Closing what was opened gives the descriptors back. *)
Lemma deletes_restore (X : gset Z) (d d' : gmap Z ofile) x1 x2 x3 x4 :
  (∀ q, q ∈ X ↔ q = x1 ∨ q = x2 ∨ q = x3 ∨ q = x4) →
  (∀ q, q ∈ X → d !! q = None) → (∀ q, q ∉ X → d' !! q = d !! q) →
  delete x1 (delete x2 (delete x3 (delete x4 d'))) = d.
Proof.
  intros HX Hd Hd'. apply map_eq. intros q. rewrite !lookup_delete.
  destruct (decide (q ∈ X)) as [Hq|Hq].
  - rewrite (Hd q Hq). apply HX in Hq. repeat case_decide; try done. naive_solver.
  - rewrite HX in Hq. rewrite <- Hd' by (by rewrite HX). repeat case_decide; naive_solver.
Qed.

(** The comparison ends with 0 or -1 and, whatever its unchecked [open]s
    gave, closes every descriptor that it opened. *)
Lemma compare_splice_traditional_closes fuel src dst1 dst2 w :
  src ≠ dst2 → (∀ k, k < 0 → fds w !! k = None) →
  (∀ f, files w !! src = Some f → (length (content f) < fuel)%nat) →
  runs w0 (compare_splice_traditional fuel src dst1 dst2) w (λ r w',
    (r = 0 ∨ r = -1) ∧ fds w' = fds w ∧ maps w' = maps w ∧ mem w' = mem w).
Proof.
  intros Hne Hneg Hfile. unfold compare_splice_traditional. steps.
  eapply runs_open; [done..| |].
  { intros ????. step; [|lia]. steps. settle. }
  intros rs f Hrs Hs Hf. step; [lia|]. fresh_fds. specialize (Hfile f Hf).
  step. eapply runs_fstat; [done|look|look|..].
  { intros ????. step; [|lia]. steps. settle. }
  intros r Hr Hsize. step; [lia|]. steps. eapply runs_creat; [done..| |].
  { intros ????. step; [|lia]. steps. settle. }
  intros rd Hrd Hd. step; [lia|]. fresh_fds. steps. eapply runs_mono.
  { eapply (Sendfile.rw_loop_ok Henv _ w _ src dst2 f (r_ret rs) (r_ret rd));
      [done..| |done]. unfold Sendfile.rewriting. cbn. split_and!; eauto. }
  intros [[]|z] w2; cbn beta iota.
  2: { intros (-> & Hb). destruct Hb as (?&?&?&?). settle. }
  intros (off & (k & Hfds) & _ & Hmaps & Hmem & Hmis). step. one. steps.
  assert (delete (r_ret rs) (delete (r_ret rd) (fds w')) = fds w) as Hbase by map_solve.
  eapply runs_pipe_nonneg; [done|..].
  { intros ????. step; [|lia]. steps. split; [by right|]. cbn. split_and!; congruence. }
  intros rp prd pwr p Hrp -> Hpne Hprd Hpwr _ Hpos. step; [lia|]. cbn in Hprd, Hpwr.
  rewrite Hbase in Hprd, Hpwr. step. eapply runs_any_open; [done| |].
  { intros q Hq. cbn. rewrite Hbase, !lookup_insert_ne by lia. by apply Hneg. }
  intros rs2 w3 Hs2 (E3 & Hm3 & Hme3) Hneg3. step. eapply runs_any_open; [done..|].
  intros rd2 w4 Hd2 (E4 & Hm4 & Hme4) Hneg4. steps. eapply runs_any_two; [done|done|].
  intros rx w5 (E5 & Hm5 & Hme5). step.
  set (X := {[r_ret rs2; r_ret rd2; prd; pwr]} : gset Z).
  cbn in Hs2, E3, Hm3, Hme3, E5, Hm5, Hme5. rewrite Hbase in Hs2. setoid_rewrite Hbase in E3.
  apply lookup_insert_None in Hs2 as [[Hs2 _]%lookup_insert_None _].
  assert (same_but X w w5) as H5.
  { split; [|split; congruence]. intros q Hq. unfold X in Hq.
    rewrite E5, E4, E3 by set_solver.
    assert (q ≠ prd ∧ q ≠ pwr) as [??] by set_solver.
    rewrite !lookup_insert_ne by congruence. done. }
  assert (∀ q, q ∈ X → fds w !! q = None) as HX.
  { unfold X. intros q. rewrite !elem_of_union, !elem_of_singleton.
    intros [[[->| ->]| ->]| ->]; try done. destruct (decide (r_ret rd2 = r_ret rs2)) as [->|Hq].
    - done.
    - rewrite E3 in Hd2 by set_solver.
      by apply lookup_insert_None in Hd2 as [[? _]%lookup_insert_None _]. }
  eapply (runs_mono _ _ (λ _ w6, same_but X w w6)).
  { steps; [|done]. eapply runs_any_two; [done|done|]. intros _ w6 H6. steps.
    eapply same_but_trans; [exact H5|]. eapply same_but_mono; [exact H6|].
    unfold X. set_solver. }
  intros [] w6 H6. step. eapply runs_any_one; [done|done|]. intros _ w7 H7.
  assert (same_but X w w7) as (E7 & Hm7 & Hme7).
  { eapply same_but_trans; [exact H6|]. eapply same_but_mono; [exact H7|].
    unfold X. set_solver. }
  do 4 (step; eapply runs_any_close; [done|]; intros ? ? ? ?). steps. cbn.
  split; [by left|]. split; [|split; congruence].
  expand_world. eapply (deletes_restore X); [|exact HX|exact E7]. unfold X. set_solver.
Qed.
End proofs.

(** ** The theorems on systems with a source file *)

Definition sample : world := boot {["src"%string := mkFile (b "twelve bytes") true]}.

Lemma splice_sample_content f :
  files sample !! "src"%string = Some f → zlen (content f) < 2 ^ 63 ∧ (length (content f) < 20)%nat.
Proof.
  intros Hf. vm_compute in Hf. injection Hf as <-. split; [done|]. simpl. lia.
Qed.

(** A system where a file of 4096 bytes is open as descriptor 3. *)
Definition full : world :=
  mkWorld {[3 := mkOF (KFile "f") 0 [O_RDONLY]]}
    {["f"%string := mkFile (replicate 4096 "a"%char) true]} ∅ ∅ ∅ 0 [] 0 ∅ ∅ 0 ∅.

Lemma read_and_show_overflows_witness :
  read_and_show (e := kenv (-1) full) 3 "%s" (new_buffer BUFFER_SIZE) [] = UB OutOfBounds.
Proof.
  apply (read_and_show_overflows (e := kenv (-1) full)); vm_compute; reflexivity.
Defined.

Lemma splice_file_to_pipe_safe_witness :
  ∃ r tr w', splice_file_to_pipe (e := kenv 5 sample) "src" [] = Ok (r, tr) ∧
    replay sample tr = Some w' ∧ (r = 0 ∨ r = -1) ∧ balanced sample w'.
Proof.
  assert (∀ f, files sample !! "src"%string = Some f → zlen (content f) < BUFFER_SIZE) as Hf.
  { intros f [_ Hf]%splice_sample_content. unfold zlen, BUFFER_SIZE. lia. }
  destruct (splice_file_to_pipe_safe (kenv_legal 5 sample) "src" sample Hf [] eq_refl)
    as (r & tr & w' & Hrun & Hw & Hr & Hb & _).
  exists r, tr, w'. split_and!; assumption.
Defined.

Lemma splice_pipe_to_file_copies_witness :
  ∃ r tr w', splice_pipe_to_file (e := kenv 5 sample) "dst" [] = Ok (r, tr) ∧
    replay sample tr = Some w' ∧ (r = 0 ∨ r = -1) ∧ balanced sample w'.
Proof.
  destruct (splice_pipe_to_file_copies (kenv_legal 5 sample) "dst" sample [] eq_refl)
    as (r & tr & w' & Hrun & Hw & Hr & Hb & _).
  exists r, tr, w'. split_and!; assumption.
Defined.

Lemma splice_between_pipes_safe_witness :
  (∃ r tr w', splice_pipe_to_pipe (e := kenv 5 sample) [] = Ok (r, tr) ∧
    replay sample tr = Some w' ∧ (r = 0 ∨ r = -1) ∧ balanced sample w') ∧
  (∃ r tr w', splice_with_tee (e := kenv 5 sample) [] = Ok (r, tr) ∧
    replay sample tr = Some w' ∧ (r = 0 ∨ r = -1) ∧ balanced sample w').
Proof.
  destruct (splice_between_pipes_safe (kenv_legal 5 sample) sample) as [H1 H2].
  destruct (H1 [] eq_refl) as (r1 & tr1 & w1 & Hrun1 & Hw1 & Hr1 & Hb1 & _).
  destruct (H2 [] eq_refl) as (r2 & tr2 & w2 & Hrun2 & Hw2 & Hr2 & Hb2 & _).
  split; [exists r1, tr1, w1|exists r2, tr2, w2]; split_and!; assumption.
Defined.

(** Without a limit on what a call moves, the system drains pipes. *)
Lemma kenv_drains w0 : drains (e := kenv (-1) w0) (w0 := w0).
Proof.
  intros tr w i o n oi p d Htr Hi Hk Hp. unfold env, kenv. rewrite Htr. unfold kern.
  destruct (posix_step w _); [|simpl; lia]. intros _. cbn. unfold readable. rewrite Hi. cbn.
  assert (avail w oi = Some d) as -> by (unfold avail; rewrite Hk; exact Hp). done.
Qed.

(** A system whose pipes give three bytes at a time. *)
Definition pipe_limit (w : world) (c : call) : Z :=
  match c with
  | Splice i _ _ => match of_kind <$> fds w !! i with Some (KPipeR _) => 3 | _ => -1 end
  | _ => -1
  end.
Definition short_env (w0 : world) : Env := λ tr c,
  match replay w0 tr with Some w => kern (pipe_limit w c) w c | None => answer (-1) [] 0 end.

Lemma short_env_legal w0 : @legal_env (short_env w0) w0.
Proof.
  intros tr w c Htr. unfold env, short_env. rewrite Htr. unfold kern.
  destruct (posix_step w (c, attempt (pipe_limit w c) w c)) eqn:E; [by rewrite E|apply refuse_legal].
Qed.

(** Without a limit the file is copied; with it, three of the twelve bytes are, and then the
    loop goes on for ever. *)
Lemma splice_chunked_copies_witness :
  (∃ tr w', splice_chunked (e := kenv (-1) sample) 20 "src" "dst" [] = Ok (Some 0, tr) ∧
     replay sample tr = Some w' ∧ balanced sample w' ∧
     files w' !! "dst"%string = Some (mkFile (b "twelve bytes") true)) ∧
  (∃ tr w' fs fd rd wr p, splice_chunked (e := short_env sample) 5 "src" "dst" [] = Ok (None, tr) ∧
     replay sample tr = Some w' ∧
     copying sample "src" "dst" (mkFile (b "twelve bytes") true) fs fd rd wr p 3 12 w' ∧
     ∀ m, runs sample
       (rounds m (chunk_body (e := short_env sample) fs fd rd wr 12) 3) w'
       (λ c _, match c with Next total => total < 12 | Break _ => False | Return z => z = -1 end)).
Proof.
  split.
  - destruct (splice_chunked_copies (kenv_legal (-1) sample) 20 "src" "dst" sample
      ltac:(done) (λ f Hf, proj1 (splice_sample_content f Hf)) [] eq_refl)
      as (r & tr & w' & Hrun & Hw & H).
    assert (r = Some 0) as -> by (vm_compute in Hrun; by injection Hrun as <- _).
    destruct H as (_ & Hb & _ & H0). destruct (H0 eq_refl) as (f & Hf & Hd).
    exists tr, w'. split_and!; [exact Hrun|exact Hw|exact Hb|].
    rewrite Hd. vm_compute in Hf. by injection Hf as <-.
  - destruct (splice_chunked_copies (short_env_legal sample) 5 "src" "dst" sample
      ltac:(done) (λ f Hf, proj1 (splice_sample_content f Hf)) [] eq_refl)
      as (r & tr & w' & Hrun & Hw & H).
    assert (r = None) as -> by (vm_compute in Hrun; by injection Hrun as <- _).
    destruct H as (f & fs & fd & rd & wr & p & total & taken & Hf & Hc & _ & Hspin).
    vm_compute in Hf. injection Hf as <-.
    assert (content <$> files w' !! "dst"%string = Some (b "twe") ∧
      map_Forall (λ _ d, length d = 9%nat) (pipes w')) as [Hdst Hpipes].
    { clear -Hrun Hw. vm_compute in Hrun. injection Hrun as <-. vm_compute in Hw. injection Hw as <-.
      split; [by vm_compute|]. apply (bool_decide_unpack _). by vm_compute. }
    assert (total = 3 ∧ taken = 12) as [-> ->].
    { destruct Hc as (Ht & Hle & _ & (s & Hs) & Hpp & _). rewrite Hs, lookup_insert_eq in Hdst. cbn in Hdst.
      apply Hpipes in Hpp. cbn in Hpp. rewrite length_take, length_drop in Hpp.
      injection Hdst as Hdst. apply (f_equal length) in Hdst. rewrite length_take in Hdst.
      change (zlen _) with 12 in Hle. cbn in *. lia. }
    exists tr, w', fs, fd, rd, wr, p. split; [exact Hrun|]. split; [exact Hw|]. split; [exact Hc|].
    by apply Hspin.
Defined.

Lemma compare_splice_traditional_closes_witness :
  ∃ r tr w', compare_splice_traditional (e := kenv 5 sample) 20 "src" "d1" "d2" [] = Ok (r, tr) ∧
    replay sample tr = Some w' ∧ (r = 0 ∨ r = -1) ∧ fds w' = fds sample.
Proof.
  destruct (compare_splice_traditional_closes (kenv_legal 5 sample) 20 "src" "d1" "d2" sample
    ltac:(done) (λ k _, lookup_empty k) (λ f Hf, proj2 (splice_sample_content f Hf)) [] eq_refl)
    as (r & tr & w' & Hrun & Hw & Hr & Hb & _).
  exists r, tr, w'. split_and!; assumption.
Defined.

Example splice_chunked_runs :
  match splice_chunked (e := kenv (-1) sample) 20 "src" "dst" [] with
  | Ok (r, tr) => Some (r, w ← replay sample tr; files w !! "dst"%string)
  | _ => None
  end = Some (Some 0, Some (mkFile (b "twelve bytes") true)).
Proof. vm_compute. reflexivity. Qed.
