(* ===== verification/PageCache.v ===== *)
(** * [12_aio/page_cache.c]: six ways to get data to the disk *)
From S2P Require Export Sys.

Definition FILE_SIZE : Z := 4096.
Definition BUFFER_SIZE : Z := 4096.
Definition creat_flags : list oflag := [O_WRONLY; O_CREAT; O_TRUNC].

(** The strings that the six functions write. *)
Definition fsync_data : bytes := b "Standard I/O with page cache and fsync".
Definition mmap_data : bytes := b "mmap with page cache and msync".
Definition direct_data : bytes := b "O_DIRECT bypasses page cache".
Definition fdatasync_data : bytes := b "Standard I/O with page cache and fdatasync".
Definition o_sync_data : bytes := b "O_SYNC synchronous write".
Definition range_data : bytes := b "sync_file_range example".

Section code.
Context {e : Env}.

Definition standard_io_with_fsync (filename : string) : M trace Z :=
  printf "\n=== 方式1: 标准 I/O + fsync ===\n" [];;
  fd ← sys (Open filename creat_flags);
  let fd := r_ret fd in
  if fd <? 0 then
    perror "open";;
    mret (-1)
  else
  bytes_written ← sys (Write fd fsync_data);
  if r_ret bytes_written <? 0 then
    perror "write";;
    close fd;;
    mret (-1)
  else
  printf "数据已写入 page cache (大小: %zd 字节)\n" [ANum ssize_t (r_ret bytes_written)];;
  r ← sys (Fsync fd);
  if r_ret r <? 0 then
    perror "fsync";;
    close fd;;
    mret (-1)
  else
  printf "fsync 完成，数据已刷新到磁盘\n" [];;
  close fd;;
  mret 0.

Definition mmap_with_msync (filename : string) : M trace Z :=
  printf "\n=== 方式2: mmap + msync ===\n" [];;
  fd ← sys (Open filename [O_RDWR; O_CREAT; O_TRUNC]);
  let fd := r_ret fd in
  if fd <? 0 then
    perror "open";;
    mret (-1)
  else
  r ← sys (Ftruncate fd FILE_SIZE);
  if r_ret r <? 0 then
    perror "ftruncate";;
    close fd;;
    mret (-1)
  else
  mapped ← sys (Mmap FILE_SIZE fd);
  let mapped := r_ret mapped in
  if mapped <? 0 then
    perror "mmap";;
    close fd;;
    mret (-1)
  else
  printf "文件已映射到内存 (地址: %p)\n" [ANum IPtr mapped];;
  sys (Poke mapped 0 (mmap_data ++ ["000"%char]));;
  printf "数据已写入映射内存 (page cache)\n" [];;
  r ← sys (Msync mapped FILE_SIZE);
  if r_ret r <? 0 then
    perror "msync";;
    sys (Munmap mapped FILE_SIZE);;
    close fd;;
    mret (-1)
  else
  printf "msync 完成，数据已刷新到磁盘\n" [];;
  r ← sys (Munmap mapped FILE_SIZE);
  (if r_ret r <? 0 then perror "munmap" else mret tt);;
  close fd;;
  mret 0.

Definition o_direct_io (filename : string) : M trace Z :=
  printf "\n=== 方式3: O_DIRECT (绕过 page cache) ===\n" [];;
  r ← sys (Alloc BUFFER_SIZE);
  if negb (r_ret r =? 0) then
    perror "posix_memalign";;
    mret (-1)
  else
  let buffer := r_off r in
  fd ← sys (Open filename [O_WRONLY; O_CREAT; O_TRUNC; O_DIRECT]);
  let fd := r_ret fd in
  if fd <? 0 then
    perror "open with O_DIRECT";;
    sys (Free buffer);;
    mret (-1)
  else
  printf "文件已用 O_DIRECT 打开\n" [];;
  bytes_written ← sys (Write fd direct_data);
  if r_ret bytes_written <? 0 then
    perror "write with O_DIRECT";;
    close fd;;
    sys (Free buffer);;
    mret (-1)
  else
  printf "数据已直接写入磁盘 (绕过 page cache, 大小: %zd 字节)\n" [ANum ssize_t (r_ret bytes_written)];;
  r ← sys (Fsync fd);
  if r_ret r <? 0 then
    perror "fsync";;
    close fd;;
    sys (Free buffer);;
    mret (-1)
  else
  printf "fsync 完成，确保数据持久化\n" [];;
  close fd;;
  sys (Free buffer);;
  mret 0.

Definition standard_io_with_fdatasync (filename : string) : M trace Z :=
  printf "\n=== 方式4: 标准 I/O + fdatasync ===\n" [];;
  fd ← sys (Open filename creat_flags);
  let fd := r_ret fd in
  if fd <? 0 then
    perror "open";;
    mret (-1)
  else
  bytes_written ← sys (Write fd fdatasync_data);
  if r_ret bytes_written <? 0 then
    perror "write";;
    close fd;;
    mret (-1)
  else
  printf "数据已写入 page cache (大小: %zd 字节)\n" [ANum ssize_t (r_ret bytes_written)];;
  r ← sys (Fdatasync fd);
  if r_ret r <? 0 then
    perror "fdatasync";;
    close fd;;
    mret (-1)
  else
  printf "fdatasync 完成，数据已刷新到磁盘（元数据未刷新）\n" [];;
  close fd;;
  mret 0.

Definition o_sync_io (filename : string) : M trace Z :=
  printf "\n=== 方式5: O_SYNC (同步写入) ===\n" [];;
  fd ← sys (Open filename [O_WRONLY; O_CREAT; O_TRUNC; O_SYNC]);
  let fd := r_ret fd in
  if fd <? 0 then
    perror "open with O_SYNC";;
    mret (-1)
  else
  printf "文件已用 O_SYNC 打开\n" [];;
  bytes_written ← sys (Write fd o_sync_data);
  if r_ret bytes_written <? 0 then
    perror "write with O_SYNC";;
    close fd;;
    mret (-1)
  else
  printf "数据已同步写入磁盘 (大小: %zd 字节)\n" [ANum ssize_t (r_ret bytes_written)];;
  close fd;;
  mret 0.

Definition sync_file_range_example (filename : string) : M trace Z :=
  printf "\n=== 方式6: sync_file_range (Linux 特有) ===\n" [];;
  fd ← sys (Open filename creat_flags);
  let fd := r_ret fd in
  if fd <? 0 then
    perror "open";;
    mret (-1)
  else
  bytes_written ← sys (Write fd range_data);
  if r_ret bytes_written <? 0 then
    perror "write";;
    close fd;;
    mret (-1)
  else
  printf "数据已写入 page cache\n" [];;
  r ← sys (Sync_file_range fd 0 (r_ret bytes_written));
  if r_ret r <? 0 then
    perror "sync_file_range";;
    close fd;;
    mret (-1)
  else
  printf "sync_file_range 完成，指定范围已刷新\n" [];;
  close fd;;
  mret 0.

Definition main : M trace Z :=
  let filename := "page_cache_test.txt"%string in
  printf "Page Cache 控制示例\n" [];;
  printf "====================\n" [];;
  r ← standard_io_with_fsync filename;
  (if r <? 0 then eprintf "标准 I/O 测试失败\n" [] else mret tt);;
  r ← mmap_with_msync filename;
  (if r <? 0 then eprintf "mmap 测试失败\n" [] else mret tt);;
  r ← o_direct_io filename;
  (if r <? 0 then
     eprintf "O_DIRECT 测试失败\n" [];;
     printf "注意: O_DIRECT 可能需要 root 权限或特定文件系统支持\n" []
   else mret tt);;
  r ← standard_io_with_fdatasync filename;
  (if r <? 0 then eprintf "fdatasync 测试失败\n" [] else mret tt);;
  r ← o_sync_io filename;
  (if r <? 0 then eprintf "O_SYNC 测试失败\n" [] else mret tt);;
  r ← sync_file_range_example filename;
  (if r <? 0 then eprintf "sync_file_range 测试失败\n" [] else mret tt);;
  printf "\n所有测试完成\n" [];;
  printf "测试文件: %s\n" [AStr (b filename)];;
  mret 0.
End code.

Arguments fsync_data : simpl never.
Arguments mmap_data : simpl never.
Arguments direct_data : simpl never.
Arguments fdatasync_data : simpl never.
Arguments o_sync_data : simpl never.
Arguments range_data : simpl never.

(** ** Correctness *)

Section proofs.
Context {e : Env} {w0 : world} (Henv : legal_env w0).

(** What a function that writes [data] to [filename] promises: it ends with 0
    or -1, keeps the descriptors, mappings and memory balanced and the other
    files as they were; on 0 the file holds what one [write] took of the data,
    which is not looked at again, and all of it is on the disk if [durable]. *)
Definition writes (durable : bool) (filename : string) (data : bytes) (w : world) (r : Z)
    (w' : world) : Prop :=
  (r = 0 ∨ r = -1) ∧ balanced w w' ∧ only_file filename w w' ∧
  (r = 0 → ∃ n, (0 < n)%nat ∧
     files w' !! filename = Some (mkFile (take n data) durable)).

(** After [fsync] and after [fdatasync] the data is durable. *)
Lemma sync_makes_durable filename w :
  runs w0 (standard_io_with_fsync filename) w (writes true filename fsync_data w) ∧
  runs w0 (standard_io_with_fdatasync filename) w (writes true filename fdatasync_data w).
Proof.
  assert (∀ d : bytes, d ≠ [] → ∀ r, 0 < r ∨ d = [] → (0 < Z.to_nat r)%nat) as Hpos.
  { intros d Hd r [?|?]; [lia|done]. }
  split; [unfold standard_io_with_fsync|unfold standard_io_with_fdatasync]; steps;
    (eapply runs_creat; [done..| |];
     [intros ????; step; [|lia]; steps; unfold writes; settle|]);
    intros rf Hrf Hf; (step; [lia|]); step;
    (eapply runs_write; [done|look|look|set_solver|..];
     [intros ?????; step; [|lia]; steps; unfold writes; settle|]);
    intros r Hr Hp; (step; [lia|]); steps;
    (eapply runs_sync; [done|first [by left|by right]|look|look|..];
     [intros ?????; step; [|lia]; steps; unfold writes; settle|]);
    intros r' Hr'; (step; [lia|]); steps; unfold writes; settle;
    (exists (Z.to_nat (r_ret r)); split; [by eapply Hpos; [|exact Hp]|];
     expand_world; by rewrite lookup_insert_eq, write_at_nil).
Qed.

(** With [O_SYNC] the data is durable without a further call; after
    [sync_file_range] it is in the file but need not be on the disk. *)
Lemma o_sync_and_file_range filename w :
  runs w0 (o_sync_io filename) w (writes true filename o_sync_data w) ∧
  runs w0 (sync_file_range_example filename) w (writes false filename range_data w).
Proof.
  split.
  - unfold o_sync_io. steps. eapply runs_creat; [done..| |].
    { intros ????. step; [|lia]. steps. unfold writes. settle. }
    intros rf Hrf Hf. step; [lia|]. steps. eapply runs_write; [done|look|look|set_solver|..].
    { intros ?????. step; [|lia]. steps. unfold writes. settle. }
    intros r Hr Hp. step; [lia|]. steps. unfold writes. settle.
    exists (Z.to_nat (r_ret r)). split; [destruct Hp; [lia|done]|].
    expand_world. by rewrite lookup_insert_eq, write_at_nil.
  - unfold sync_file_range_example. steps. eapply runs_creat; [done..| |].
    { intros ????. step; [|lia]. steps. unfold writes. settle. }
    intros rf Hrf Hf. step; [lia|]. step. eapply runs_write; [done|look|look|set_solver|..].
    { intros ?????. step; [|lia]. steps. unfold writes. settle. }
    intros r Hr Hp. step; [lia|]. steps. eapply runs_range; [done|look|..].
    { intros ????. step; [|lia]. steps. unfold writes. settle. }
    intros r' Hr'. step; [lia|]. steps. unfold writes. settle.
    exists (Z.to_nat (r_ret r)). split; [destruct Hp; [lia|done]|].
    expand_world. by rewrite lookup_insert_eq, write_at_nil.
Qed.

(** Storing through a mapping stays within it and within the file; when it
    returns 0 the file is one page that starts with the data, padded with NULs,
    and is durable. The mapping and the descriptor are released on every path. *)
Lemma mmap_with_msync_durable filename w :
  runs w0 (mmap_with_msync filename) w (λ r w',
    (r = 0 ∨ r = -1) ∧ balanced w w' ∧ only_file filename w w' ∧
    (r = 0 → files w' !! filename = Some (mkFile (mmap_data ++
       replicate (Z.to_nat FILE_SIZE - length mmap_data) "000"%char) true))).
Proof.
  unfold mmap_with_msync. steps. eapply runs_creat; [done..| |].
  { intros ????. step; [|lia]. steps. settle. }
  intros rf Hrf Hf. step; [lia|]. step. eapply runs_ftruncate; [done|look|look|..].
  { intros ????. step; [|lia]. steps. settle. }
  intros rt Hrt _. cbn [content]. remember (resize FILE_SIZE []) as page eqn:Hpage.
  assert (0 + zlen (mmap_data ++ ["000"%char]) ≤ pages (zlen page)) as Hfit.
  { rewrite Hpage. apply Z.leb_le. by vm_compute. }
  assert (poke page 0 (mmap_data ++ ["000"%char]) = mmap_data ++
    replicate (Z.to_nat FILE_SIZE - length mmap_data) "000"%char) as Hwr.
  { rewrite Hpage. by vm_compute. }
  clear Hpage. step; [lia|]. step. eapply runs_mmap; [done|look|..].
  { intros ????. step; [|lia]. steps. settle. }
  intros rm Hrm Hm. cbn in Hm. step; [lia|]. steps.
  eapply runs_poke; [done|look|look|done|by apply Z.leb_le|done|].
  intros _. steps. cbn [content]. rewrite Hwr. revert Hwr.
  generalize (mmap_data ++ replicate (Z.to_nat FILE_SIZE - length mmap_data) "000"%char).
  intros d _. eapply runs_msync; [done|look|look|..].
  { intros ????. step; [|lia]. steps. eapply runs_munmap; [done|look|]. intros _.
    steps. settle. }
  intros rs Hrs. step; [lia|]. steps. eapply runs_munmap; [done|look|]. intros ru.
  steps; settle; expand_world; by rewrite lookup_insert_eq.
Qed.

(** The aligned buffer of [o_direct_io] is freed and the file closed on
    every path; on 0 the file holds, durably, what one [write] took. *)
Lemma o_direct_io_balanced filename w :
  runs w0 (o_direct_io filename) w (writes true filename direct_data w).
Proof.
  unfold o_direct_io. steps. eapply runs_alloc; [done|..].
  { intros r _ Hr. step; [|lia]. steps. unfold writes. settle. }
  intros ra Hra Hr0 Hmem. cbn in Hmem. step; [lia|]. step. eapply runs_creat; [done..| |].
  { intros ????. step; [|lia]. steps. eapply runs_free; [done|done|cbn; set_solver|].
    intros _. steps. unfold writes. settle. }
  intros rf Hrf Hf. step; [lia|]. steps. eapply runs_write; [done|look|look|set_solver|..].
  { intros ?????. step; [|lia]. steps. eapply runs_free; [done|done|cbn; set_solver|].
    intros _. steps. unfold writes. settle. }
  intros r Hr Hp. step; [lia|]. steps. eapply runs_sync; [done|by left|look|look|..].
  { intros ?????. step; [|lia]. steps. eapply runs_free; [done|done|cbn; set_solver|].
    intros _. steps. unfold writes. settle. }
  intros r' Hr'. step; [lia|]. steps. eapply runs_free; [done|done|cbn; set_solver|].
  intros _. steps. unfold writes. settle.
  exists (Z.to_nat (r_ret r)). split; [destruct Hp; [lia|done]|].
  expand_world. by rewrite lookup_insert_eq, write_at_nil.
Qed.
End proofs.

(** ** The theorems on an empty system *)

Lemma sync_makes_durable_witness :
  ∃ r tr w', standard_io_with_fsync (e := kenv (-1) (boot ∅)) "f" [] = Ok (r, tr) ∧
    replay (boot ∅) tr = Some w' ∧ writes true "f" fsync_data (boot ∅) r w'.
Proof.
  destruct (sync_makes_durable (kenv_legal (-1) (boot ∅)) "f" (boot ∅)) as [Hrun _].
  exact (Hrun [] eq_refl).
Defined.

Lemma o_sync_and_file_range_witness :
  ∃ r tr w', sync_file_range_example (e := kenv (-1) (boot ∅)) "f" [] = Ok (r, tr) ∧
    replay (boot ∅) tr = Some w' ∧ writes false "f" range_data (boot ∅) r w'.
Proof.
  destruct (o_sync_and_file_range (kenv_legal (-1) (boot ∅)) "f" (boot ∅)) as [_ Hrun].
  exact (Hrun [] eq_refl).
Defined.

Lemma mmap_with_msync_durable_witness :
  ∃ r tr w', mmap_with_msync (e := kenv (-1) (boot ∅)) "f" [] = Ok (r, tr) ∧
    replay (boot ∅) tr = Some w' ∧ (r = 0 ∨ r = -1) ∧ balanced (boot ∅) w'.
Proof.
  destruct (mmap_with_msync_durable (kenv_legal (-1) (boot ∅)) "f" (boot ∅) [] eq_refl)
    as (r & tr & w' & Hrun & Hw & Hr & Hb & _).
  exists r, tr, w'. split_and!; assumption.
Defined.

Lemma o_direct_io_balanced_witness :
  ∃ r tr w', o_direct_io (e := kenv (-1) (boot ∅)) "f" [] = Ok (r, tr) ∧
    replay (boot ∅) tr = Some w' ∧ writes true "f" direct_data (boot ∅) r w'.
Proof. exact (o_direct_io_balanced (kenv_legal (-1) (boot ∅)) "f" (boot ∅) [] eq_refl). Defined.
