(* ===== verification/LibAio.v ===== *)
(** * [12_aio/libaio_demo.c]: reads and writes through Linux AIO

    The code gives [struct iocb] the fields of the kernel's [linux/aio_abi.h], which
    are not those of [libaio.h]; it is modelled with the structures of the former. The calls
    themselves are those of [Sys.aio_step]. *)
From S2P Require Export Sys.

Definition BUFFER_SIZE : Z := 4096.
Definition AIO_EVENTS : Z := 4.

Definition IO_CMD_PREAD : Z := 0.
Definition IO_CMD_PWRITE : Z := 1.

(** [struct iocb], of which [aio_data] is the first word. *)
Record iocb := mkIocb {
  aio_data : Z; aio_lio_opcode : Z; aio_fildes : Z; aio_buf : Z; aio_nbytes : Z; aio_offset : Z }.

(** After [memset(&cb, 0, sizeof(cb))] the code sets the other fields. What [strncpy] stores
    in the buffer of [aio_write] is never read, and left out; in [aio_batch_io] it is written. *)
Definition prepare (fd opcode buf nbytes offset : Z) : iocb := mkIocb 0 opcode fd buf nbytes offset.

Section program.
Context {e : Env}.

(** The request in [cb], whose buffer has the content [buf]. *)
Definition request (cb : iocb) (buf : buffer) : M trace aio_req :=
  if aio_lio_opcode cb =? IO_CMD_PWRITE then
    d ← contents (Z.to_nat (aio_nbytes cb)) buf;
    mret (mkAio (aio_fildes cb) (Pwrite d) (aio_offset cb))
  else mret (mkAio (aio_fildes cb) (Pread (aio_nbytes cb)) (aio_offset cb)).

(** [io_submit(ctx, 1, &cb)]: the array of pointers that it is given is [cb] itself, the
    first word of which is taken for a pointer. *)
Definition submit_iocb (ctx : Z) (cb : iocb) : M trace reply :=
  if aio_data cb =? 0 then sys (Aio (Io_submit ctx [None])) else ub_fail UseAfterFree.

Definition first_res (evs : list (Z * Z)) : M trace Z :=
  match evs with [] => ub_fail Uninit | ev :: _ => mret ev.2 end.

Definition io_destroy (ctx : Z) : M trace unit := sys (Aio (Io_destroy ctx));; mret tt.
Definition free (p : Z) : M trace unit := sys (Free p);; mret tt.

(** [strerror] of the C library. *)
Context (strerror : Z → bytes).

Definition aio_write (filename : string) (data : bytes) : M trace Z :=
  let data_len := zlen data in
  printf "=== libaio 异步写入示例 ===\n" [];;
  r ← sys (Alloc BUFFER_SIZE);
  if negb (r_ret r =? 0) then
    perror "posix_memalign";;
    mret (-1)
  else
  let aligned_buffer := r_off r in
  ctx ← sys (Aio (Io_setup AIO_EVENTS));
  if r_ret ctx <? 0 then
    perror "io_setup";;
    free aligned_buffer;;
    mret (-1)
  else
  let ctx := r_off ctx in
  fd ← sys (Open filename [O_WRONLY; O_CREAT; O_TRUNC; O_DIRECT]);
  let fd := r_ret fd in
  if fd <? 0 then
    perror "open with O_DIRECT";;
    io_destroy ctx;;
    free aligned_buffer;;
    mret (-1)
  else
  let cb := prepare fd IO_CMD_PWRITE aligned_buffer data_len 0 in
  ret ← submit_iocb ctx cb;
  if r_ret ret <? 0 then
    perror "io_submit";;
    close fd;;
    io_destroy ctx;;
    free aligned_buffer;;
    mret (-1)
  else
  printf "AIO 写入请求已提交\n" [];;
  ret ← sys (Aio (Io_getevents ctx 1 1));
  if r_ret ret <? 0 then
    perror "io_getevents";;
    close fd;;
    io_destroy ctx;;
    free aligned_buffer;;
    mret (-1)
  else
  res ← first_res (r_events ret);
  if res <? 0 then
    eprintf "AIO 写入失败: %s\n" [AStr (strerror (- res))];;
    close fd;;
    io_destroy ctx;;
    free aligned_buffer;;
    mret (-1)
  else
  printf "AIO 写入完成，写入 %ld 字节\n" [ANum ILong res];;
  r ← sys (Fsync fd);
  if r_ret r <? 0 then
    perror "fsync";;
    close fd;;
    io_destroy ctx;;
    free aligned_buffer;;
    mret (-1)
  else
  printf "fsync 完成\n" [];;
  close fd;;
  io_destroy ctx;;
  free aligned_buffer;;
  mret 0.

Definition aio_read (filename : string) : M trace Z :=
  printf "\n=== libaio 异步读取示例 ===\n" [];;
  r ← sys (Alloc BUFFER_SIZE);
  if negb (r_ret r =? 0) then
    perror "posix_memalign";;
    mret (-1)
  else
  let aligned_buffer := r_off r in
  let buf := zeroed BUFFER_SIZE in
  ctx ← sys (Aio (Io_setup AIO_EVENTS));
  if r_ret ctx <? 0 then
    perror "io_setup";;
    free aligned_buffer;;
    mret (-1)
  else
  let ctx := r_off ctx in
  fd ← sys (Open filename [O_RDONLY; O_DIRECT]);
  let fd := r_ret fd in
  if fd <? 0 then
    perror "open with O_DIRECT";;
    io_destroy ctx;;
    free aligned_buffer;;
    mret (-1)
  else
  let cb := prepare fd IO_CMD_PREAD aligned_buffer BUFFER_SIZE 0 in
  ret ← submit_iocb ctx cb;
  if r_ret ret <? 0 then
    perror "io_submit";;
    close fd;;
    io_destroy ctx;;
    free aligned_buffer;;
    mret (-1)
  else
  printf "AIO 读取请求已提交\n" [];;
  ret ← sys (Aio (Io_getevents ctx 1 1));
  if r_ret ret <? 0 then
    perror "io_getevents";;
    close fd;;
    io_destroy ctx;;
    free aligned_buffer;;
    mret (-1)
  else
  let buf := fill buf (r_data ret) in
  res ← first_res (r_events ret);
  if res <? 0 then
    eprintf "AIO 读取失败: %s\n" [AStr (strerror (- res))];;
    close fd;;
    io_destroy ctx;;
    free aligned_buffer;;
    mret (-1)
  else
  s ← c_str buf;
  printf "AIO 读取完成，读取 %ld 字节: %s\n" [ANum ILong res; AStr s];;
  close fd;;
  io_destroy ctx;;
  free aligned_buffer;;
  mret 0.

(** A loop that frees the first buffers of the array. *)
Fixpoint free_buffers (l : list Z) : M trace unit :=
  match l with [] => mret tt | p :: l => free p;; free_buffers l end.

Definition batch_data : bytes := lit "Batch AIO test data\n".

(** The body of the loop that prepares the requests: [aligned_buffers] and the requests
    that [cb_ptrs] leads to, as far as they have been stored. *)
Definition prepare_one (ctx fd : Z) (st : list Z * list (option aio_req))
    : M trace (ctl (list Z * list (option aio_req)) (list Z * list (option aio_req))) :=
  let '(aligned_buffers, cb_ptrs) := st in
  let i := zlen aligned_buffers in
  if i <? AIO_EVENTS then
    r ← sys (Alloc BUFFER_SIZE);
    if negb (r_ret r =? 0) then
      perror "posix_memalign";;
      free_buffers aligned_buffers;;
      close fd;;
      io_destroy ctx;;
      mret (Return (-1))
    else
    let buf := fill (zeroed BUFFER_SIZE) (take (Z.to_nat (BUFFER_SIZE - 1)) batch_data) in
    q ← request (prepare fd IO_CMD_PWRITE (r_off r) (zlen batch_data) (i * BUFFER_SIZE)) buf;
    mret (Next (aligned_buffers ++ [r_off r], cb_ptrs ++ [Some q]))
  else mret (Break st).

Definition aio_batch_io (filename : string) : M trace Z :=
  printf "\n=== libaio 批量 I/O 示例 ===\n" [];;
  ctx ← sys (Aio (Io_setup AIO_EVENTS));
  if r_ret ctx <? 0 then
    perror "io_setup";;
    mret (-1)
  else
  let ctx := r_off ctx in
  fd ← sys (Open filename [O_WRONLY; O_CREAT; O_TRUNC; O_DIRECT]);
  let fd := r_ret fd in
  if fd <? 0 then
    perror "open with O_DIRECT";;
    io_destroy ctx;;
    mret (-1)
  else
  after (loop 5 (prepare_one ctx fd) ([], [])) (λ '(aligned_buffers, cb_ptrs),
    ret ← sys (Aio (Io_submit ctx cb_ptrs));
    if r_ret ret <? 0 then
      perror "io_submit";;
      free_buffers aligned_buffers;;
      close fd;;
      io_destroy ctx;;
      mret (-1)
    else
    printf "批量提交 %d 个 AIO 请求\n" [AInt AIO_EVENTS];;
    ret ← sys (Aio (Io_getevents ctx AIO_EVENTS AIO_EVENTS));
    if r_ret ret <? 0 then
      perror "io_getevents";;
      free_buffers aligned_buffers;;
      close fd;;
      io_destroy ctx;;
      mret (-1)
    else
    printf "所有 AIO 请求完成\n" [];;
    free_buffers aligned_buffers;;
    close fd;;
    io_destroy ctx;;
    mret 0).

Definition main_filename : string := "libaio_test.txt".
Definition main_data : bytes := lit "Hello, libaio!\nThis is a test file for Linux native AIO.\n".

Definition main : M trace Z :=
  r ← aio_write main_filename main_data;
  if r <? 0 then
    eprintf "AIO 写入失败\n" [];;
    mret 1
  else
  r ← aio_read main_filename;
  if r <? 0 then
    eprintf "AIO 读取失败\n" [];;
    mret 1
  else
  r ← aio_batch_io main_filename;
  if r <? 0 then
    eprintf "批量 AIO 失败\n" [];;
    mret 1
  else
  printf "\n所有 libaio 示例完成\n" [];;
  printf "注意：libaio 主要用于 O_DIRECT 模式，对普通文件支持有限\n" [];;
  printf "对于现代应用，推荐使用 io_uring 替代 libaio\n" [];;
  mret 0.
End program.

(** ** Rules for the calls *)

#[local] Arguments aio_complete : simpl never.

Section rules.
Context {e : Env} {w0 : world} (Henv : legal_env w0).
Abbreviation runs := (runs w0).

(** The same system but for the content of [p]. *)
Definition rewritten (p : string) (w w' : world) : Prop :=
  ∃ fs, w' = set_files fs w ∧ ∀ q, q ≠ p → fs !! q = files w !! q.

Lemma rewritten_refl p w : rewritten p w w.
Proof using Type. exists (files w). split; [by destruct w|done]. Qed.
Lemma rewritten_trans p w1 w2 w3 : rewritten p w1 w2 → rewritten p w2 w3 → rewritten p w1 w3.
Proof using Type.
  intros (f & -> & Hf) (g & -> & Hg). exists g. split; [done|]. intros q Hq. rewrite Hg by done. by apply Hf.
Qed.

Lemma aio_complete_rewritten p op off res w d w' :
  aio_complete (p, op, off) res w = Some (d, w') → rewritten p w w'.
Proof using Type.
  unfold aio_complete. destruct (res <? 0); [intros [= _ <-]; apply rewritten_refl|].
  destruct (files w !! p) as [f|]; [|done]. cbn.
  destruct op as [n|data]; intros [_ Hx]%guard_Some; simplify_eq; [apply rewritten_refl|].
  eexists. split; [done|]. intros q Hq. by rewrite lookup_insert_ne.
Qed.

Lemma aio_events_rewritten p reqs evs w d w' :
  Forall (λ x, x.1.1 = p) reqs → aio_events reqs evs w = Some (d, w') → rewritten p w w'.
Proof using Type.
  intros Hp. revert w d w'. induction evs as [|[i res] evs IH]; intros w d w'; cbn.
  { intros [= <- <-]. apply rewritten_refl. }
  destruct (zlookup reqs i) as [[[q op] off]|] eqn:Hi; [|done]. cbn.
  apply zlookup_Some in Hi as [_ Hi]. pose proof (Forall_lookup_1 _ _ _ _ Hp Hi) as Hq. cbn in Hq. subst q.
  destruct (aio_complete (p, op, off) res w) as [[d1 w1]|] eqn:E1; [|done]. cbn.
  destruct (aio_events reqs evs w1) as [[d2 w2]|] eqn:E2; [|done]. cbn. intros [= <- <-].
  eapply rewritten_trans; [by eapply aio_complete_rewritten|by eapply IH].
Qed.

Lemma runs_io_setup n w (Q : reply → world → Prop) :
  (∀ r, r_ret r < 0 → Q r w) →
  (∀ r, r_ret r = 0 → aios w !! r_off r = None → Q r (set_aios (<[r_off r := []]> (aios w)) w)) →
  runs (sys (Aio (Io_setup n))) w Q.
Proof.
  intros Hfail Hok. apply (runs_sys Henv). intros r w' Hw'. unfold posix_step in Hw'. cbn in Hw'.
  destruct (Z.ltb_spec (r_ret r) 0); [simplify_eq; by apply Hfail|].
  apply guard_Some in Hw' as [Hb <-]. propify. by apply Hok.
Qed.

(** A null pointer cannot be the first of the requests. *)
Lemma runs_submit_null ctx reqs q w (Q : reply → world → Prop) :
  aios w !! ctx = Some q → (∀ r, r_ret r < 0 → Q r w) →
  runs (sys (Aio (Io_submit ctx (None :: reqs)))) w Q.
Proof.
  intros Hq Hfail. apply (runs_sys Henv). intros r w' Hw'. unfold posix_step in Hw'. cbn in Hw'.
  rewrite Hq in Hw'. destruct (Z.ltb_spec (r_ret r) 0); [simplify_eq; by apply Hfail|].
  destruct (r_ret r <=? _); [cbn in Hw'|done]. destruct (Z.ltb_spec 0 (r_ret r)).
  - destruct (Z.to_nat (r_ret r)) eqn:E; [lia|done].
  - cbn in Hw'. rewrite (proj2 (Z.eqb_neq _ _)) in Hw'; [done|]. unfold zlen. cbn. lia.
Qed.

(** Requests on the file [p]; the first of them are started. *)
Lemma runs_submit ctx (qs : list aio_req) p old w (Q : reply → world → Prop) :
  aios w !! ctx = Some old →
  Forall (λ q, ∃ o, fds w !! a_fd q = Some o ∧ of_kind o = KFile p) qs →
  (∀ r, r_ret r < 0 → Q r w) →
  (∀ r, 0 ≤ r_ret r ≤ zlen qs →
     Q r (set_aios (<[ctx := old ++ ((λ q, (p, a_op q, a_off q)) <$> take (Z.to_nat (r_ret r)) qs)]> (aios w)) w)) →
  runs (sys (Aio (Io_submit ctx (Some <$> qs)))) w Q.
Proof.
  intros Hq Hp Hfail Hok. apply (runs_sys Henv). intros r w' Hw'. unfold posix_step in Hw'. cbn in Hw'.
  rewrite Hq in Hw'. destruct (Z.ltb_spec (r_ret r) 0); [simplify_eq; by apply Hfail|].
  destruct (Z.leb_spec (r_ret r) (zlen (Some <$> qs))) as [Hle|]; [|done].
  destruct (_ || _); [|done]. cbn in Hw'. rewrite <- fmap_take in Hw'.
  assert (∀ l, Forall (λ q, ∃ o, fds w !! a_fd q = Some o ∧ of_kind o = KFile p) l →
    mapM (aio_start w) (Some <$> l) = Some ((λ q, (p, a_op q, a_off q)) <$> l)) as Hm.
  { induction l as [|q l IH]; intros Hl; [done|]. apply Forall_cons in Hl as [(o & Ho & Hk) Hl].
    rewrite fmap_cons. cbn. rewrite Ho. cbn. rewrite Hk. cbn. by rewrite (IH Hl). }
  rewrite Hm in Hw' by (by apply Forall_take). cbn in Hw'. simplify_eq. apply Hok.
  unfold zlen in *. rewrite length_fmap in Hle. lia.
Qed.

(** [io_getevents] for [n] events; there must have been as many requests. *)
Lemma runs_getevents ctx n reqs w (Q : reply → world → Prop) :
  aios w !! ctx = Some reqs →
  (∀ r, r_ret r < 0 → Q r w) →
  (∀ r w', r_ret r = n → 0 ≤ n → zlen (r_events r) = n → NoDup (r_events r).*1 →
     aio_events reqs (r_events r) w = Some (r_data r, w') →
     Q r (set_aios (<[ctx := aio_left reqs (r_events r)]> (aios w')) w')) →
  runs (sys (Aio (Io_getevents ctx n n))) w Q.
Proof.
  intros Hq Hfail Hok. apply (runs_sys Henv). intros r w' Hw'. unfold posix_step in Hw'. cbn in Hw'.
  rewrite Hq in Hw'. destruct (Z.ltb_spec (r_ret r) 0); [simplify_eq; by apply Hfail|].
  destruct (_ && _) eqn:Hb; [|done]. rewrite !andb_true_iff in Hb.
  destruct Hb as (((? & ?) & ?) & ?). propify.
  destruct (aio_events _ _ w) as [[d w1]|] eqn:E; [|done]. cbn in Hw'.
  apply guard_Some in Hw' as [Hd <-]. propify. subst d. apply Hok; [lia..|done|done].
Qed.

Lemma runs_io_destroy ctx p reqs w (Q : unit → world → Prop) :
  aios w !! ctx = Some reqs → Forall (λ x, x.1.1 = p) reqs →
  (∀ w', rewritten p w w' → Q tt (set_aios (delete ctx (aios w')) w')) →
  runs (io_destroy ctx) w Q.
Proof.
  intros Hq Hp HQ. unfold io_destroy. apply (runs_void Henv). intros r w' Hw'. unfold posix_step in Hw'.
  cbn in Hw'. rewrite Hq in Hw'. case_bool_decide; [|done].
  destruct (aio_events _ _ w) as [[d w1]|] eqn:E; [|done]. cbn in Hw'. simplify_eq.
  apply HQ. by eapply aio_events_rewritten.
Qed.
(** No request of a context that has none can complete. *)
Lemma runs_io_destroy_idle ctx w (Q : unit → world → Prop) :
  aios w !! ctx = Some [] → Q tt (set_aios (delete ctx (aios w)) w) → runs (io_destroy ctx) w Q.
Proof.
  intros Hq HQ. unfold io_destroy. apply (runs_void Henv). intros r w' Hw'. unfold posix_step in Hw'.
  cbn in Hw'. rewrite Hq in Hw'. case_bool_decide; [|done].
  destruct (r_events r) as [|[i res] evs]; cbn in Hw'; [by simplify_eq|].
  unfold zlookup in Hw'. by case_bool_decide.
Qed.

Lemma runs_free_buffer p w (Q : unit → world → Prop) :
  p ≠ 0 → p ∈ mem w → Q tt (set_mem (mem w ∖ {[p]}) w) → runs (free p) w Q.
Proof.
  intros Hp Hin HQ. unfold free. apply runs_bind, (runs_free Henv); [done..|]. intros _. by apply runs_ret.
Qed.
End rules.

(** ** The requests of the batch *)

(** The [i]-th request. *)
Definition batch_request (fd i : Z) : aio_req := mkAio fd (Pwrite batch_data) (i * BUFFER_SIZE).

(** The request [i] as it is queued. *)
Definition queued (p : string) (i : Z) : string * aio_op * Z := (p, Pwrite batch_data, i * BUFFER_SIZE).
Definition batch_queue (p : string) : list (string * aio_op * Z) := queued p <$> seqZ 0 AIO_EVENTS.

(** What the requests of [evs] leave in a file, each having written as much as it says. *)
Definition write_event (c : bytes) (ev : Z * Z) : bytes :=
  if ev.2 <? 0 then c
  else write_at c (Z.to_nat (ev.1 * BUFFER_SIZE)) (take (Z.to_nat ev.2) batch_data).
Definition written (evs : list (Z * Z)) (c : bytes) : bytes := foldl write_event c evs.

Definition in_batch (ev : Z * Z) : Prop := 0 ≤ ev.1 < AIO_EVENTS ∧ ev.2 ≤ zlen batch_data.

Lemma batch_lookup p i x : zlookup (batch_queue p) i = Some x → 0 ≤ i < AIO_EVENTS ∧ x = queued p i.
Proof.
  intros [Hi Hx]%zlookup_Some. unfold batch_queue in Hx. rewrite list_lookup_fmap in Hx.
  destruct (seqZ 0 AIO_EVENTS !! Z.to_nat i) as [j|] eqn:Hj; [|done]. cbn in Hx. simplify_eq.
  apply lookup_seqZ in Hj as [-> Hj]. split; [lia|]. f_equal. lia.
Qed.

Lemma batch_events p evs w d w' c s :
  aio_events (batch_queue p) evs w = Some (d, w') → files w !! p = Some (mkFile c s) →
  Forall in_batch evs ∧ ∃ s', files w' !! p = Some (mkFile (written evs c) s').
Proof.
  revert w d c s. induction evs as [|[i res] evs IH]; intros w d c s; cbn.
  { intros [= <- <-] Hf. eauto. }
  destruct (zlookup (batch_queue p) i) as [x|] eqn:Hx; [|done]. cbn. intros Hev Hf.
  apply batch_lookup in Hx as [Hi ->]. destruct (aio_complete (queued p i) res w) as [[d1 w1]|] eqn:E1; [|done].
  cbn in Hev. destruct (aio_events (batch_queue p) evs w1) as [[d2 w2]|] eqn:E2; [|done]. cbn in Hev. simplify_eq.
  unfold aio_complete, queued in E1. unfold write_event. cbn [fst snd].
  destruct (Z.ltb_spec res 0); [simplify_eq|rewrite Hf in E1; cbn in E1; apply guard_Some in E1 as [Hb Hw]; propify; simplify_eq].
  - destruct (IH _ _ _ _ E2 Hf) as [Hall Hs]. split; [|done]. constructor; [|done]. split; [done|].
    pose proof (zlen_nonneg batch_data). change (res ≤ zlen batch_data). lia.
  - edestruct IH as [Hall Hs]; [exact E2|cbn; by rewrite lookup_insert_eq|]. split; [|exact Hs]. by constructor.
Qed.

(** Four events of a batch are those of its four requests, in some order. *)
Lemma batch_all evs :
  Forall in_batch evs → NoDup evs.*1 → zlen evs = AIO_EVENTS → evs.*1 ≡ₚ seqZ 0 AIO_EVENTS.
Proof.
  intros Hin Hd Hlen. apply submseteq_length_Permutation.
  - apply NoDup_submseteq; [done|]. intros i ([j res] & -> & Hev)%list_elem_of_fmap.
    apply elem_of_seqZ. rewrite Forall_forall in Hin. destruct (Hin _ Hev) as [Hi _]. cbn in *. lia.
  - rewrite length_fmap, length_seqZ. unfold zlen in Hlen. lia.
Qed.

(** The file when all of every request has been written: the text at each multiple of
    4096, and zeros in between. *)
Definition batch_layout : bytes :=
  let gap := replicate (4096 - length batch_data) "000"%char in
  batch_data ++ gap ++ batch_data ++ gap ++ batch_data ++ gap ++ batch_data.

Lemma written_layout evs :
  evs.*1 ≡ₚ seqZ 0 AIO_EVENTS → Forall (λ ev, ev.2 = zlen batch_data) evs → written evs [] = batch_layout.
Proof.
  intros Hp Hall. assert (evs = (λ i, (i, zlen batch_data)) <$> evs.*1) as Hev.
  { clear Hp. induction Hall as [|[i res] evs Hev Hall IH]; [done|]. cbn in *. by rewrite <- IH, Hev. }
  assert (evs.*1 ∈ permutations (seqZ 0 AIO_EVENTS)) as Hin by (by apply permutations_Permutation).
  rewrite Hev. revert Hin. generalize evs.*1. apply Forall_forall, (bool_decide_unpack _). by vm_compute.
Qed.

Lemma queued_fmap p fd k :
  (λ q, (p, a_op q, a_off q)) <$> take k (batch_request fd <$> seqZ 0 AIO_EVENTS) = take k (batch_queue p).
Proof. unfold batch_queue. rewrite <- !fmap_take, <- list_fmap_compose. done. Qed.

Lemma batch_paths p k : Forall (λ x, x.1.1 = p) (take k (batch_queue p)).
Proof. apply Forall_take. apply Forall_fmap, Forall_true. done. Qed.

Lemma aio_events_take k reqs evs w x :
  aio_events (take k reqs) evs w = Some x → aio_events reqs evs w = Some x.
Proof.
  revert w x. induction evs as [|[i res] evs IH]; intros w x; [done|]. cbn.
  destruct (zlookup (take k reqs) i) as [y|] eqn:Hy; [|done].
  apply zlookup_Some in Hy as [Hi Hy]. apply lookup_take_Some in Hy as [Hy _].
  rewrite (proj2 (zlookup_Some reqs i y)) by done. cbn.
  destruct (aio_complete y res w) as [[d1 w1]|]; [|done]. cbn.
  destruct (aio_events (take k reqs) evs w1) as [[d2 w2]|] eqn:E; [|done]. by rewrite (IH _ _ E).
Qed.

(** Events are those of requests. *)
Lemma aio_events_in reqs evs w x :
  aio_events reqs evs w = Some x → Forall (λ ev, is_Some (zlookup reqs ev.1)) evs.
Proof.
  revert w x. induction evs as [|[i res] evs IH]; intros w x; [constructor|]. cbn.
  destruct (zlookup reqs i) as [y|] eqn:Hy; [|done]. cbn.
  destruct (aio_complete y res w) as [[d1 w1]|]; [|done]. cbn.
  destruct (aio_events reqs evs w1) as [[d2 w2]|] eqn:E; [|done]. intros _.
  constructor; [by eexists|by eapply IH].
Qed.

Lemma aio_left_none reqs evs :
  (∀ i, 0 ≤ i < zlen reqs → i ∈ evs.*1) → aio_left reqs evs = [].
Proof.
  intros Hall. unfold aio_left. assert (∀ ix, ix ∈ imap pair reqs → Z.of_nat ix.1 ∈ evs.*1) as H.
  { intros [i x] (j & Hj)%list_elem_of_lookup. rewrite list_lookup_imap in Hj.
    destruct (reqs !! j) as [y|] eqn:E; [|done]. cbn in Hj. simplify_eq. apply Hall. cbn.
    apply lookup_lt_Some in E. unfold zlen. lia. }
  clear Hall. induction (imap pair reqs) as [|ix l IH]; [done|]. cbn.
  rewrite bool_decide_true by (apply H; by left). apply IH. intros ix' Hin. apply H. by right.
Qed.

(** ** What the functions do *)

(** All that was live before is live after, and nothing else is. *)
Definition released (w w' : world) : Prop := balanced w w' ∧ aios w' = aios w.

Section proofs.
Context {e : Env} {w0 : world} (Henv : legal_env w0) (strerror : Z → bytes).
Abbreviation runs := (runs w0).

Ltac release :=
  split; [unfold balanced; split_and!|]; cbn;
  first [done | set_solver | by rewrite delete_insert_id | map_solve].

(** What is known when a function gives up. *)
Definition gave_up (files' : gmap string file → Prop) (w : world) (r : Z) (w' : world) : Prop :=
  r = -1 ∧ released w w' ∧ files' (files w') ∧ ∃ msg, last (outs w') = Some (Perror msg).

Ltac ending :=
  split; [done|]; split; [release|]; split; [first [done | by left | by right]|];
  eexists; cbn; by rewrite last_snoc.

(** [aio_write] never submits its request: the pointer that the kernel is given is null. It ends
    with -1, having truncated the file at most, and holds on to nothing. *)
Lemma aio_write_submits_nothing filename data w :
  runs (aio_write strerror filename data) w
    (gave_up (λ fs, fs = files w ∨ fs = <[filename := mkFile [] false]> (files w)) w).
Proof.
  unfold aio_write. step. step. step. apply (runs_alloc Henv).
  { intros r _ Hr. step; [|lia]. steps. ending. }
  intros r Hp Hr Hfresh. step; [lia|]. step. apply (runs_io_setup Henv).
  { intros rs Hrs. step; [|lia]. steps. apply runs_free_buffer; [done..|set_solver|]. steps.
    ending. }
  intros rs Hrs Hctx. step; [lia|]. step. eapply (runs_creat Henv); [done..| |].
  { intros rf k Hrf _. step; [|lia]. steps. eapply (runs_io_destroy_idle Henv); [look|]. steps.
    apply runs_free_buffer; [done..|set_solver|]. steps.
    ending. }
  intros rf Hrf Hfd. step; [lia|]. unfold submit_iocb. cbn [aio_data prepare Z.eqb]. step.
  eapply (runs_submit_null Henv); [look|]. intros ret Hret. step; [|lia]. steps.
  eapply (runs_io_destroy_idle Henv); [look|]. steps. apply runs_free_buffer; [done..|set_solver|]. steps.
  ending.
Qed.

Lemma aio_read_submits_nothing filename w :
  runs (aio_read strerror filename) w (gave_up (λ fs, fs = files w) w).
Proof.
  unfold aio_read. step. step. step. apply (runs_alloc Henv).
  { intros r _ Hr. step; [|lia]. steps. ending. }
  intros r Hp Hr Hfresh. step; [lia|]. step. apply (runs_io_setup Henv).
  { intros rs Hrs. step; [|lia]. steps. apply runs_free_buffer; [done..|set_solver|]. steps. ending. }
  intros rs Hrs Hctx. step; [lia|]. step. eapply (runs_open Henv); [done..| |].
  { intros rf k Hrf _. step; [|lia]. steps. eapply (runs_io_destroy_idle Henv); [look|]. steps.
    apply runs_free_buffer; [done..|set_solver|]. steps. ending. }
  intros rf f Hrf Hfd _. step; [lia|]. unfold submit_iocb. cbn [aio_data prepare Z.eqb]. step.
  eapply (runs_submit_null Henv); [look|]. intros ret Hret. step; [|lia]. steps.
  eapply (runs_io_destroy_idle Henv); [look|]. steps. apply runs_free_buffer; [done..|set_solver|]. steps.
  ending.
Qed.

(** C28: the program always fails in its first step, since what [io_submit] is
    given is not an array of pointers: it ends with 1, and of the data not a byte is written. *)
Theorem libaio_main_fails w :
  runs (main strerror) w (λ r w',
    r = 1 ∧ released w w' ∧ last (outs w') = Some (Eprintf "AIO 写入失败\n" []) ∧
    (files w' = files w ∨ files w' = <[main_filename := mkFile [] false]> (files w))).
Proof.
  unfold main. step. eapply runs_mono; [apply aio_write_submits_nothing|].
  intros r w' (-> & [(? & ? & ? & ?) ?] & Hfs & _). step; [|lia]. steps. cbn.
  split; [done|]. split; [release|]. split; [by rewrite last_snoc|done].
Qed.

End proofs.

(** ** The batch *)

Section batch.
Context {e : Env} {w0 : world} (Henv : legal_env w0).
Abbreviation runs := (runs w0).

Lemma runs_free_buffers ps w (Q : unit → world → Prop) :
  NoDup ps → (∀ p, p ∈ ps → p ≠ 0 ∧ p ∈ mem w) →
  Q tt (set_mem (mem w ∖ list_to_set ps) w) → runs (free_buffers ps) w Q.
Proof.
  revert w. induction ps as [|p ps IH]; intros w Hd Hp HQ; cbn.
  { step. cbn in HQ. rewrite difference_empty_L in HQ. by destruct w. }
  apply NoDup_cons in Hd as [Hn Hd]. destruct (Hp p) as [Hp0 Hpm]; [by left|]. step.
  apply runs_free_buffer; [done..|]. apply IH; [done| |].
  - intros q Hq. destruct (Hp q) as [??]; [by right|]. split; [done|]. cbn. set_solver.
  - cbn. replace (mem w ∖ {[p]} ∖ list_to_set ps) with (mem w ∖ list_to_set (p :: ps)); [done|]. set_solver.
Qed.

Lemma batch_request_ok fd p i tr :
  request (prepare fd IO_CMD_PWRITE p (zlen batch_data) (i * BUFFER_SIZE))
    (fill (zeroed BUFFER_SIZE) (take (Z.to_nat (BUFFER_SIZE - 1)) batch_data)) tr = Ok (batch_request fd i, tr).
Proof. by vm_compute. Qed.

(** The buffers [ps] have been allocated, and nothing else has happened. *)
Definition allocated (ps : list Z) (w w' : world) : Prop :=
  NoDup ps ∧ (∀ p, p ∈ ps → p ≠ 0 ∧ p ∉ mem w) ∧ w' = set_mem (list_to_set ps ∪ mem w) w.

Lemma allocated_freed ps w w' : allocated ps w w' → mem w' ∖ list_to_set ps = mem w.
Proof using Type. clear Henv. intros (_ & Hp & ->). cbn. set_solver. Qed.

Lemma runs_free_allocated ps w w' w2 (Q : unit → world → Prop) :
  allocated ps w w' → mem w2 = mem w' → Q tt (set_mem (mem w) w2) → runs (free_buffers ps) w2 Q.
Proof.
  intros Hps Hm HQ. pose proof (allocated_freed _ _ _ Hps) as Hfree. destruct Hps as (Hd & Hp & ->). cbn in Hm. apply runs_free_buffers; [done| |].
  - intros p Hin. destruct (Hp p Hin) as [? _]. split; [done|]. rewrite Hm. set_solver.
  - rewrite Hm. cbn in Hfree. by rewrite Hfree.
Qed.

(** The descriptor and the context are given back, nothing is written, and the failure
    is reported. *)
Definition abandoned (ctx fd : Z) (w w' : world) : Prop :=
  fds w' = delete fd (fds w) ∧ aios w' = delete ctx (aios w) ∧ mem w' = mem w ∧ maps w' = maps w ∧
  misuses w' = misuses w ∧ files w' = files w ∧ ∃ msg, last (outs w') = Some (Perror msg).

Lemma prepare_ok ctx fd w :
  aios w !! ctx = Some [] → is_Some (fds w !! fd) →
  runs (loop 5 (prepare_one ctx fd) ([], [])) w (λ x w', match x with
    | Left (ps, qs) => allocated ps w w' ∧ qs = Some <$> (batch_request fd <$> seqZ 0 AIO_EVENTS)
    | Returned z => z = -1 ∧ abandoned ctx fd w w'
    end).
Proof.
  intros Hctx [o Hfd].
  apply (runs_loop (λ st w', allocated st.1 w w' ∧ zlen st.1 ≤ AIO_EVENTS ∧
    st.2 = Some <$> (batch_request fd <$> seqZ 0 (zlen st.1))) (λ st _, 4 - length st.1)%nat).
  { cbn. split; [|done]. split; [by constructor|]. split; [by intros p ?%not_elem_of_nil|].
    destruct w. cbn. by rewrite union_empty_l_L. }
  { cbn. lia. }
  intros [ps qs] w1 (Hps & Hle & Hqs). cbn in Hle, Hqs. subst qs. unfold prepare_one, AIO_EVENTS in *. step.
  - step. apply (runs_alloc Henv).
    + intros r _ Hr. step; [|lia]. do 3 step. eapply (runs_free_allocated ps w w1); [done|done|]. step.
      destruct Hps as (_ & _ & ->). steps. eapply (runs_io_destroy_idle Henv); [look|]. steps.
      split; [done|]. cbn. split_and!; try done. eexists. cbn. by rewrite last_snoc.
    + intros r Hr0 Hr Hfresh. step; [lia|]. step. eapply runs_pure; [intros tr; apply batch_request_ok|]. step.
      destruct Hps as (Hd & Hp & ->). cbn in Hfresh. cbn [fst snd]. rewrite zlen_app, zlen_one. split; [split|].
      * split_and!.
        -- apply NoDup_app. split; [done|]. split; [|apply NoDup_singleton].
           intros p Hin Hr'. apply list_elem_of_singleton in Hr' as ->. set_solver.
        -- intros p [Hin| ->%list_elem_of_singleton]%elem_of_app; [by apply Hp|]. split; [done|]. set_solver.
        -- unfold set_mem. cbn. f_equal. rewrite list_to_set_app_L. set_solver.
      * split; [lia|]. rewrite seqZ_next by apply zlen_nonneg. by rewrite !fmap_app.
      * cbn. rewrite length_app. cbn. unfold zlen in *. lia.
  - step. split; [done|]. by replace (zlen ps) with 4 by lia.
Qed.
(** What the batch holds in [w'], beyond what was live in [w]: the buffers [ps], the
    descriptor [fd] of the file [p], and the context [ctx] with the requests [reqs] on it. *)
Record held (p : string) (ctx fd : Z) (ps : list Z) (reqs : list (string * aio_op * Z)) (w w' : world) : Prop := {
  held_bufs : NoDup ps ∧ ∀ a, a ∈ ps → a ≠ 0 ∧ a ∉ mem w;
  held_mem : mem w' = list_to_set ps ∪ mem w;
  held_fresh : fds w !! fd = None ∧ aios w !! ctx = None;
  held_fds : ∃ o, of_kind o = KFile p ∧ fds w' = <[fd := o]> (fds w);
  held_aios : aios w' = <[ctx := reqs]> (aios w);
  held_reqs : Forall (λ x, x.1.1 = p) reqs;
  held_maps : maps w' = maps w;
  held_misuses : misuses w' = misuses w }.

(** The four exits give everything back. *)
Lemma runs_give_back z p ctx fd ps reqs w w' (Q : Z → world → Prop) :
  held p ctx fd ps reqs w w' →
  (∀ w2, released w w2 → (∀ q, q ≠ p → files w2 !! q = files w' !! q) →
     (reqs = [] → files w2 = files w') → Q z w2) →
  runs (free_buffers ps;; close fd;; io_destroy ctx;; mret z) w' Q.
Proof.
  intros [[Hd Hp] Hm [Hfd Hctx] (o & Hk & Hf) Ha Hr Hma Hmi] HQ. step.
  apply runs_free_buffers; [done| |].
  { intros a Hin. destruct (Hp a Hin). split; [done|]. rewrite Hm. set_solver. }
  assert (mem w' ∖ list_to_set ps = mem w) as -> by (rewrite Hm; set_solver).
  step. apply (runs_close Henv); [cbn; rewrite Hf, lookup_insert_eq; eauto|]. step.
  assert (∀ w3, fds w3 = fds w → aios w3 = aios w → mem w3 = mem w → maps w3 = maps w → misuses w3 = misuses w →
    released w w3) as Hrel by (by repeat split).
  destruct (decide (reqs = [])) as [->|Hne].
  - eapply (runs_io_destroy_idle Henv); [cbn; by rewrite Ha, lookup_insert_eq|]. step.
    apply HQ; [apply Hrel; cbn; rewrite ?Hf, ?Ha; try done; by rewrite delete_insert_id|done..].
  - eapply (runs_io_destroy Henv); [cbn; by rewrite Ha, lookup_insert_eq|exact Hr|].
    intros w3 (fs & -> & Hfs). step. apply HQ; [|exact Hfs|done].
    apply Hrel; cbn; rewrite ?Hf, ?Ha; try done; by rewrite delete_insert_id.
Qed.

(** Every write that completes has written all that it was asked to. *)
Definition aio_in_full : Prop := ∀ tr w ctx m n reqs,
  replay w0 tr = Some w → aios w !! ctx = Some reqs →
  Forall (λ ev, ∀ p d off, zlookup reqs ev.1 = Some (p, Pwrite d, off) → ev.2 = zlen d)
    (r_events (env tr (Aio (Io_getevents ctx m n)))).

(** [evs] is the answer that the kernel gives to [io_getevents], the four requests being queued. *)
Definition reported (filename : string) (evs : list (Z * Z)) : Prop := ∃ tr w ctx,
  replay w0 tr = Some w ∧ aios w !! ctx = Some (batch_queue filename) ∧
  evs = r_events (env tr (Aio (Io_getevents ctx AIO_EVENTS AIO_EVENTS))).

Lemma batch_queue_all filename k (evs : list (Z * Z)) :
  evs.*1 ≡ₚ seqZ 0 AIO_EVENTS →
  (∀ ev, ev ∈ evs → ∃ x, zlookup (take k (batch_queue filename)) ev.1 = Some x) →
  take k (batch_queue filename) = batch_queue filename.
Proof using Type.
  intros Hp Hdom. apply take_ge. assert (AIO_EVENTS - 1 ∈ evs.*1) as (ev & Hev & Hin)%list_elem_of_fmap.
  { rewrite Hp. apply elem_of_seqZ. unfold AIO_EVENTS. lia. }
  destruct (Hdom ev Hin) as [x [_ Hx]%zlookup_Some]. apply lookup_lt_Some in Hx.
  rewrite <- Hev, length_take in Hx. unfold batch_queue in *. rewrite length_fmap, length_seqZ in *.
  unfold AIO_EVENTS in *. lia.
Qed.

Definition batch_end (filename : string) (w : world) (r : Z) (w' : world) : Prop :=
  (r = 0 ∨ r = -1) ∧ released w w' ∧ only_file filename w w' ∧
  (r = 0 → ∃ evs s, reported filename evs ∧ evs.*1 ≡ₚ seqZ 0 AIO_EVENTS ∧ Forall in_batch evs ∧
     files w' !! filename = Some (mkFile (written evs []) s) ∧
     (aio_in_full → Forall (λ ev, ev.2 = zlen batch_data) evs)).

(** [aio_batch_io] once the requests have been prepared. *)
Lemma batch_submitted filename ctx fd ps w w1 :
  held filename ctx fd ps [] w w1 → only_file filename w w1 → files w1 !! filename = Some (mkFile [] false) →
  runs (ret ← sys (Aio (Io_submit ctx (Some <$> (batch_request fd <$> seqZ 0 AIO_EVENTS))));
    if r_ret ret <? 0 then
      perror "io_submit";;
      free_buffers ps;;
      close fd;;
      io_destroy ctx;;
      mret (-1)
    else
    printf "批量提交 %d 个 AIO 请求\n" [AInt AIO_EVENTS];;
    ret ← sys (Aio (Io_getevents ctx AIO_EVENTS AIO_EVENTS));
    if r_ret ret <? 0 then
      perror "io_getevents";;
      free_buffers ps;;
      close fd;;
      io_destroy ctx;;
      mret (-1)
    else
    printf "所有 AIO 请求完成\n" [];;
    free_buffers ps;;
    close fd;;
    io_destroy ctx;;
    mret 0) w1 (batch_end filename w).
Proof.
  intros Hh Hof Hfile.
  assert (∀ z reqs w2, z = -1 → held filename ctx fd ps reqs w w2 → only_file filename w w2 →
    runs (free_buffers ps;; close fd;; io_destroy ctx;; mret z) w2 (batch_end filename w)) as Hexit.
  { intros z reqs w2 -> H2 Hof2. eapply runs_give_back; [exact H2|]. intros w3 Hrel Hfs _.
    split; [by right|]. split; [done|]. split; [|done]. intros q Hq. rewrite Hfs by done. by apply Hof2. }
  step. destruct Hh as [Hb Hm Hfr (o & Hk & Hf) Ha Hr Hma Hmi].
  eapply (runs_submit Henv _ _ filename); [by rewrite Ha, lookup_insert_eq|..].
  { apply Forall_forall. intros q (i & -> & _)%list_elem_of_fmap. exists o. cbn. by rewrite Hf, lookup_insert_eq. }
  { intros r Hr0. step; [|lia]. do 2 step. eapply Hexit; [done| |exact Hof]. by split; eauto. }
  intros r Hr1. step; [lia|]. do 3 step. cbn [app]. rewrite queued_fmap.
  set (k := Z.to_nat (r_ret r)). set (w2 := print _ _).
  assert (held filename ctx fd ps (take k (batch_queue filename)) w w2) as H2.
  { split; cbn; try done; [by exists o|by rewrite Ha, insert_insert_eq|apply batch_paths]. }
  assert (aios w2 !! ctx = Some (take k (batch_queue filename))) as Hq2.
  { unfold w2. cbn. by rewrite lookup_insert_eq. }
  apply (runs_fact _ _ (λ r, (aio_in_full →
    Forall (λ ev, ∀ p d off, zlookup (take k (batch_queue filename)) ev.1 = Some (p, Pwrite d, off) →
      ev.2 = zlen d) (r_events r)) ∧
    (take k (batch_queue filename) = batch_queue filename → reported filename (r_events r)))).
  { intros tr Htr. split; [intros Hfull; by eapply Hfull|]. intros Hq. exists tr, w2, ctx. by rewrite <- Hq. }
  eapply (runs_getevents Henv); [unfold w2; cbn; by rewrite lookup_insert_eq|..].
  { intros r' Hr' _. step; [|lia]. do 2 step. eapply Hexit; [done| |exact Hof]. by destruct H2; split. }
  intros r' w3 Hr' _ Hlen Hnd Hev [Hfull Hrep]. step; [unfold AIO_EVENTS in *; lia|]. do 2 step.
  pose proof (aio_events_rewritten _ _ _ _ _ _ (batch_paths filename k) Hev) as (fs & -> & Hfs).
  pose proof (aio_events_in _ _ _ _ Hev) as Hdom. apply aio_events_take in Hev. eapply batch_events in Hev as [Hin [s Hs]]; [|exact Hfile]. cbn in Hs.
  pose proof (batch_all _ Hin Hnd Hlen) as Hall.
  rewrite aio_left_none.
  2:{ intros i Hi. rewrite Hall. apply elem_of_seqZ. unfold zlen in Hi. rewrite length_take in Hi.
      unfold batch_queue in Hi. rewrite length_fmap, length_seqZ in Hi. unfold AIO_EVENTS in *. lia. }
  eapply (runs_give_back 0 filename ctx fd ps []).
  { destruct H2 as [Hb2 Hm2 Hfr2 Hf2 Ha2 Hr2 Hma2 Hmi2]. split; try done.
    cbn in *. by rewrite Ha2, insert_insert_eq. }
  intros w4 Hrel Hq Hfiles. split; [by left|]. split; [done|]. split.
  - intros q Hne. rewrite Hq by done. cbn. rewrite Hfs by done. by apply Hof.
  - intros _. exists (r_events r'), s. split.
    { apply Hrep, (batch_queue_all _ _ (r_events r')); [done|]. by rewrite Forall_forall in Hdom. }
    split; [done|]. split; [done|]. split; [by rewrite Hfiles|].
    intros Hfl. specialize (Hfull Hfl). rewrite Forall_forall in Hfull, Hdom |- *. intros ev Hin'.
    destruct (Hdom ev Hin') as [x Hx]. pose proof Hx as Hx'. apply zlookup_Some in Hx' as [Hi Hx'].
    apply lookup_take_Some in Hx' as [Hx' _]. destruct (batch_lookup filename ev.1 x) as [_ ->].
    { by apply zlookup_Some. }
    by eapply Hfull.
Qed.

(** The batch ends with 0 or -1, gives back every buffer, the descriptor and the context,
    and touches no other file. On 0 the four requests have completed, and the file has what
    they say that they have written, which is not looked at. *)
Lemma aio_batch_outcome filename w :
  runs (aio_batch_io filename) w (batch_end filename w).
Proof.
  unfold aio_batch_io. step. step. step. apply (runs_io_setup Henv).
  { intros rs Hrs. step; [|lia]. steps. split; [by right|]. split; [by repeat split|]. done. }
  intros rs Hrs Hctx. step; [lia|]. step. eapply (runs_creat Henv); [done..| |].
  { intros rf k Hrf _. step; [|lia]. steps. eapply (runs_io_destroy_idle Henv); [look|]. steps.
    split; [by right|]. split; [|done]. repeat split; cbn; by rewrite delete_insert_id. }
  intros rf Hrf Hfd. step; [lia|]. cbn in Hfd. step. set (ctx := r_off rs) in *. set (fd := r_ret rf) in *.
  set (w1 := set_fds _ _). assert (only_file filename w w1) as Hof.
  { intros q Hq. unfold w1. cbn. by rewrite lookup_insert_ne. }
  eapply runs_mono; [apply (prepare_ok ctx fd w1); [unfold w1; look|unfold w1; cbn; rewrite lookup_insert_eq; eauto]|].
  intros [[ps qs]|z] w2; cbn beta iota.
  - intros [Hps ->]. eapply batch_submitted.
    + destruct Hps as (Hd & Hp & ->). split; try done. eexists. split; [|done]. done.
    + destruct Hps as (_ & _ & ->). exact Hof.
    + destruct Hps as (_ & _ & ->). unfold w1. cbn. by rewrite lookup_insert_eq.
  - intros (-> & Hf & Ha & Hm & Hma & Hmi & Hfs & _). split; [by right|]. split; [|split; [|done]].
    + repeat split; rewrite ?Hf, ?Ha, ?Hm, ?Hma, ?Hmi; unfold w1; cbn; try done; by rewrite delete_insert_id.
    + intros q Hq. rewrite Hfs. by apply Hof.
Qed.

End batch.

(** The system that does all that it is asked completes requests in full. *)
Lemma kenv_aio_in_full lim w0 : aio_in_full (e := kenv lim w0) (w0 := w0).
Proof.
  intros tr w ctx m n reqs Htr Hreqs. unfold env, kenv. rewrite Htr. unfold kern.
  destruct (posix_step _ _); [|constructor]. cbn [attempt r_events]. rewrite Hreqs.
  change (default [] (Some reqs)) with reqs. apply Forall_forall. intros ev (i & Hi)%list_elem_of_lookup p d off Hx. rewrite list_lookup_imap in Hi.
  destruct (take (Z.to_nat n) reqs !! i) as [x|] eqn:E; [|done]. cbn in Hi. injection Hi as <-.
  apply lookup_take_Some in E as [E _]. destruct x as [[q op] o]. cbn in Hx.
  apply zlookup_Some in Hx as [_ Hx]. rewrite Nat2Z.id, E in Hx. by injection Hx as -> -> ->.
Qed.


Lemma libaio_main_fails_witness :
  ∃ tr w', main (e := kenv (-1) (boot ∅)) (λ _, []) [] = Ok (1, tr) ∧ replay (boot ∅) tr = Some w' ∧
    files w' !! main_filename = Some (mkFile [] false) ∧ fds w' = ∅ ∧ mem w' = ∅.
Proof.
  destruct (libaio_main_fails (kenv_legal (-1) (boot ∅)) (λ _, []) (boot ∅) [] eq_refl)
    as (r & tr & w' & Hrun & Hrep & -> & [(Hf & _ & Hm & _) _] & _).
  exists tr, w'. split; [done|]. split; [done|]. split; [|done].
  vm_compute in Hrun. injection Hrun as <-. vm_compute in Hrep. by injection Hrep as <-.
Defined.
