(* ===== verification/SysEpoll.v ===== *)
(** * Rules for epoll and for the status flags of descriptors *)
From S2P Require Export Sys.

(** [epoll_create1(0)]; it takes no descriptor. *)
Definition epoll_create1 : call := Epoll (-1) Epoll_create.

(** [events[i]] once [epoll_wait] has stored [evs] in [events]: its [events] and
    its [data.fd]. *)
Definition event_at {S} (evs : list (Z * Z)) (i : Z) : M S (Z * Z) :=
  match zlookup evs i with None => ub_fail Uninit | Some ev => mret ev end.

Section rules.
Context {e : Env} {w0 : world} (Henv : legal_env w0).
Abbreviation runs := (runs w0).

(** Nothing is registered with [epfd]. *)
Definition idle (epfd : Z) (w : world) : Prop := ∀ fd, watches w !! (epfd, fd) = None.

Lemma unwatch_idle epfd w : idle epfd (unwatch epfd w).
Proof using Type.
  intros fd. unfold unwatch. cbn. apply map_lookup_filter_None_2. right. intros x _ [Hx _].
  by apply Hx.
Qed.
Lemma unwatch_still_idle epfd fd w : idle epfd w → idle epfd (unwatch fd w).
Proof using Type.
  intros Hw fd'. unfold unwatch. cbn. apply map_lookup_filter_None_2. left. apply Hw.
Qed.

Lemma runs_epoll_create w (Q : reply → world → Prop) :
  (∀ r n, r_ret r = -1 → (n ≤ sigs w)%nat → Q r (set_sigs n w)) →
  (∀ r, 0 ≤ r_ret r → fds w !! r_ret r = None →
     Q r (set_fds (<[r_ret r := mkOF KEpoll 0 []]> (fds w)) (unwatch (r_ret r) w))) →
  runs (sys epoll_create1) w Q.
Proof.
  intros Hfail Hok. apply (runs_sys Henv). intros r w' Hw'. unfold posix_step in Hw'. cbn in Hw'.
  destruct (Z.ltb_spec (r_ret r) 0).
  - apply interrupted_Some in Hw' as (n & -> & ? & ? & ?). by apply Hfail.
  - apply guard_Some in Hw' as [Hb <-]. propify. by apply Hok.
Qed.

(** A regular file cannot be registered. *)
Lemma runs_epoll_add_file epfd i fd p off fl ev d w (Q : reply → world → Prop) :
  fds w !! epfd = Some i → fds w !! fd = Some (mkOF (KFile p) off fl) →
  (∀ r n, r_ret r = -1 → (n ≤ sigs w)%nat → Q r (set_sigs n w)) →
  runs (sys (Epoll epfd (Epoll_add fd ev d))) w Q.
Proof.
  intros Hi Hfd Hfail. eapply (runs_on_fds Henv); [done|exact Hi|exact Hfd|done|].
  intros r w' Hr Hk. cbn in Hk. apply guard_Some in Hk as [Hb _].
  by rewrite andb_false_r in Hb.
Qed.

Lemma runs_epoll_del_idle epfd i fd o w (Q : reply → world → Prop) :
  fds w !! epfd = Some i → fds w !! fd = Some o → idle epfd w →
  (∀ r n, r_ret r = -1 → (n ≤ sigs w)%nat → Q r (set_sigs n w)) →
  runs (sys (Epoll epfd (Epoll_del fd))) w Q.
Proof.
  intros Hi Ho Hidle Hfail. eapply (runs_on_fds Henv); [done|exact Hi|exact Ho|done|].
  intros r w' Hr Hk. cbn in Hk. apply guard_Some in Hk as [Hb _]. propify.
  rewrite (Hidle fd) in Hb. destruct Hb as [_ [? [=]]].
Qed.

(** An instance that watches nothing can only time out, if it has a timeout. *)
Lemma runs_epoll_wait_idle epfd i n timeout w (Q : reply → world → Prop) :
  fds w !! epfd = Some i → idle epfd w →
  (∀ r k, r_ret r = -1 → (k ≤ sigs w)%nat → Q r (set_sigs k w)) →
  (∀ r, r_ret r = 0 → r_events r = [] → 0 ≤ timeout → Q r w) →
  runs (sys (Epoll epfd (Epoll_wait n timeout))) w Q.
Proof.
  intros Hi Hidle Hfail Hok. eapply (runs_on_fd Henv); [done|exact Hi|by intros; apply Hfail|].
  intros r w' Hr Hk. cbn in Hk. apply guard_Some in Hk as [Hb <-]. rewrite !andb_true_iff in Hb.
  destruct Hb as [[[[[_ _] Hlen] Htime] _] Hev].
  assert (r_events r = []) as Hnil.
  { destruct (r_events r) as [|ev evs]; [done|]. cbn in Hev. apply andb_true_iff in Hev as [Hev _].
    apply existsb_exists in Hev as ([[ep fd] [mask d]] & Hin & Hx). exfalso.
    apply list_elem_of_In, elem_of_map_to_list in Hin. unfold event_of in Hx. propify. subst ep.
    by rewrite Hidle in Hin. }
  rewrite Hnil in Hlen. apply Z.eqb_eq in Hlen. change (0 = r_ret r) in Hlen. apply Hok; [lia|done|].
  apply orb_true_iff in Htime as [Htime|Htime]; propify; lia.
Qed.

(** Registering a descriptor that is open, or that need not be. *)
Lemma runs_epoll_add epfd i fd o ev d w (Q : reply → world → Prop) :
  fds w !! epfd = Some i → fds w !! fd = Some o →
  (∀ r n, r_ret r = -1 → (n ≤ sigs w)%nat → Q r (set_sigs n w)) →
  (∀ r, 0 ≤ r_ret r → watches w !! (epfd, fd) = None →
     Q r (set_watches (<[(epfd, fd) := (ev, d)]> (watches w)) w)) →
  runs (sys (Epoll epfd (Epoll_add fd ev d))) w Q.
Proof.
  intros Hi Ho Hfail Hok. eapply (runs_on_fds Henv); [done|exact Hi|exact Ho|done|].
  intros r w' Hr Hk. cbn in Hk. apply guard_Some in Hk as [Hb <-].
  apply andb_true_iff in Hb as [Hb _]. propify. destruct Hb. by apply Hok.
Qed.
Lemma runs_epoll_dead epfd fd c w (Q : reply → world → Prop) :
  (∃ ev d, c = Epoll_add fd ev d) ∨ c = Epoll_del fd → fds w !! fd = None →
  (∀ r, r_ret r = -1 → r_errno r = EBADF → Q r (misuse w)) → runs (sys (Epoll epfd c)) w Q.
Proof.
  intros Hc Hfd HQ. apply (runs_sys Henv). intros r w' Hw'. unfold posix_step, epoll_step, on_fds in Hw'.
  destruct Hc as [(ev & d & ->)| ->]; rewrite Hfd in Hw'; destruct (fds w !! epfd);
    apply guard_Some in Hw' as [Hb <-]; propify; by apply HQ.
Qed.

(** Each event is that of a registration, and no two are of the same data. *)
Lemma runs_epoll_wait epfd i n timeout w (Q : reply → world → Prop) :
  fds w !! epfd = Some i →
  (∀ r k, r_ret r = -1 → (k ≤ sigs w)%nat → Q r (set_sigs k w)) →
  (∀ r, 0 ≤ r_ret r ≤ n → zlen (r_events r) = r_ret r → NoDup (r_events r).*2 →
     Forall (λ ev, ∃ fd mask, watches w !! (epfd, fd) = Some (mask, ev.2)) (r_events r) → Q r w) →
  runs (sys (Epoll epfd (Epoll_wait n timeout))) w Q.
Proof.
  intros Hi Hfail Hok. eapply (runs_on_fd Henv); [done|exact Hi|by intros; apply Hfail|].
  intros r w' Hr Hk. cbn in Hk. apply guard_Some in Hk as [Hb <-]. rewrite !andb_true_iff in Hb.
  destruct Hb as [[[[[_ Hn] Hlen] _] Hdup] Hev]. propify. apply Hok; [lia|done|done|].
  apply Forall_forall. intros ev Hin. apply list_elem_of_In in Hin.
  pose proof (proj1 (forallb_forall _ _) Hev ev Hin) as Hx.
  apply existsb_exists in Hx as ([[ep fd] [mask d]] & Hel & Hx).
  apply list_elem_of_In, elem_of_map_to_list in Hel. unfold event_of in Hx.
  rewrite !andb_true_iff in Hx. destruct Hx as [[[Hep Hd] _] _]. propify. subst ep. exists fd, mask. by rewrite <- Hd.
Qed.

Lemma runs_getfl fd o w (Q : reply → world → Prop) :
  fds w !! fd = Some o →
  (∀ r n, r_ret r = -1 → (n ≤ sigs w)%nat → Q r (set_sigs n w)) →
  (∀ r, 0 ≤ r_ret r → flags_value (of_flags o) (r_ret r) = true → Q r w) →
  runs (sys (Getfl fd)) w Q.
Proof.
  intros Ho Hfail Hok. eapply (runs_on_fd Henv); [done|exact Ho|by intros; apply Hfail|].
  intros r w' Hr Hk. cbn in Hk. apply guard_Some in Hk as [Hb <-]. by apply Hok.
Qed.
Lemma runs_setfl fd z o w (Q : reply → world → Prop) :
  fds w !! fd = Some o →
  (∀ r n, r_ret r = -1 → (n ≤ sigs w)%nat → Q r (set_sigs n w)) →
  (∀ r, 0 ≤ r_ret r → Q r (set_fds
     (<[fd := mkOF (of_kind o) (of_off o) (with_flags z (of_flags o))]> (fds w)) w)) →
  runs (sys (Setfl fd z)) w Q.
Proof.
  intros Ho Hfail Hok. eapply (runs_on_fd Henv); [done|exact Ho|by intros; apply Hfail|].
  intros r w' Hr Hk. cbn in Hk. simplify_eq. by apply Hok.
Qed.
End rules.
