(* ===== verification/EpollFiles.v ===== *)
(** * [12_aio/epoll_nonblocking.c]: epoll on regular files *)
From S2P Require Export SysEpoll.

Definition MAX_EVENTS : Z := 10.
Definition BUFFER_SIZE : Z := 4096.

Definition would_block (errno : Z) : bool := errno =? EAGAIN.   (* [EWOULDBLOCK] is the same *)

Section code.
Context {e : Env}.

Definition set_nonblocking (fd : Z) : M trace Z :=
  flags ← sys (Getfl fd);
  if r_ret flags <? 0 then
    perror "fcntl F_GETFL";;
    mret (-1)
  else
  r ← sys (Setfl fd (Z.setbit (r_ret flags) 11));
  if r_ret r <? 0 then
    perror "fcntl F_SETFL";;
    mret (-1)
  else mret 0.

(** The body of the loop over the ready descriptors. *)
Definition read_event (fd : Z) (evs : list (Z * Z)) (i : Z) (buf : buffer) : M trace buffer :=
  ev ← event_at evs i;
  if ev.2 =? fd then
    bytes_read ← sys (Read fd BUFFER_SIZE);
    if r_ret bytes_read <? 0 then
      (if would_block (r_errno bytes_read) then printf "暂时没有数据可读\n" []
       else perror "read");;
      mret buf
    else if r_ret bytes_read =? 0 then
      printf "文件结束\n" [];;
      mret buf
    else
      let buf := fill buf (r_data bytes_read) in
      s ← c_strn (Z.to_nat (r_ret bytes_read)) buf;
      printf "读取 %zd 字节: %.*s\n" [ANum ssize_t (r_ret bytes_read); AInt (r_ret bytes_read); AStr s];;
      mret buf
  else mret buf.

Definition epoll_read_example (filename : string) : M trace Z :=
  printf "=== epoll 非阻塞读取示例 ===\n" [];;
  epoll_fd ← sys (epoll_create1);
  let epoll_fd := r_ret epoll_fd in
  if epoll_fd <? 0 then
    perror "epoll_create1";;
    mret (-1)
  else
  fd ← sys (Open filename [O_RDONLY]);
  let fd := r_ret fd in
  if fd <? 0 then
    perror "open";;
    close epoll_fd;;
    mret (-1)
  else
  r ← set_nonblocking fd;
  if r <? 0 then
    close fd;;
    close epoll_fd;;
    mret (-1)
  else
  r ← sys (Epoll epoll_fd (Epoll_add fd EPOLLIN fd));
  if r_ret r <? 0 then
    perror "epoll_ctl EPOLL_CTL_ADD";;
    close fd;;
    close epoll_fd;;
    mret (-1)
  else
  printf "等待文件可读...\n" [];;
  nfds ← sys (Epoll epoll_fd (Epoll_wait MAX_EVENTS (-1)));
  if r_ret nfds <? 0 then
    perror "epoll_wait";;
    close fd;;
    close epoll_fd;;
    mret (-1)
  else
  printf "有 %d 个文件描述符就绪\n" [AInt (r_ret nfds)];;
  for_up 0 (r_ret nfds) (read_event fd (r_events nfds)) (new_buffer BUFFER_SIZE);;
  sys (Epoll epoll_fd (Epoll_del fd));;
  close fd;;
  close epoll_fd;;
  mret 0.

Definition multi_event (fd1 fd2 : Z) (evs : list (Z * Z)) (i : Z) (buf : buffer)
    : M trace buffer :=
  ev ← event_at evs i;
  let ready_fd := ev.2 in
  bytes_read ← sys (Read ready_fd BUFFER_SIZE);
  if 0 <? r_ret bytes_read then
    let buf := fill buf (r_data bytes_read) in
    (if ready_fd =? fd1 then printf "文件1 读取 %zd 字节\n" [ANum ssize_t (r_ret bytes_read)]
     else if ready_fd =? fd2 then printf "文件2 读取 %zd 字节\n" [ANum ssize_t (r_ret bytes_read)]
     else mret tt);;
    mret buf
  else mret buf.

Definition epoll_multi_file_example : M trace Z :=
  printf "\n=== epoll 多文件监控示例 ===\n" [];;
  epoll_fd ← sys (epoll_create1);
  let epoll_fd := r_ret epoll_fd in
  if epoll_fd <? 0 then
    perror "epoll_create1";;
    mret (-1)
  else
  fd1 ← sys (Open "standard_io_test.txt" [O_RDONLY]);
  let fd1 := r_ret fd1 in
  if fd1 <? 0 then
    perror "open file1";;
    close epoll_fd;;
    mret (-1)
  else
  set_nonblocking fd1;;
  fd2 ← sys (Open "buffered_io_test.txt" [O_RDONLY]);
  let fd2 := r_ret fd2 in
  if fd2 <? 0 then
    perror "open file2";;
    close fd1;;
    close epoll_fd;;
    mret (-1)
  else
  set_nonblocking fd2;;
  sys (Epoll epoll_fd (Epoll_add fd1 EPOLLIN fd1));;
  sys (Epoll epoll_fd (Epoll_add fd2 EPOLLIN fd2));;
  printf "等待多个文件可读...\n" [];;
  nfds ← sys (Epoll epoll_fd (Epoll_wait MAX_EVENTS (-1)));
  if r_ret nfds <? 0 then
    perror "epoll_wait";;
    close fd1;;
    close fd2;;
    close epoll_fd;;
    mret (-1)
  else
  printf "有 %d 个文件描述符就绪\n" [AInt (r_ret nfds)];;
  for_up 0 (r_ret nfds) (multi_event fd1 fd2 (r_events nfds)) (new_buffer BUFFER_SIZE);;
  sys (Epoll epoll_fd (Epoll_del fd1));;
  sys (Epoll epoll_fd (Epoll_del fd2));;
  close fd1;;
  close fd2;;
  close epoll_fd;;
  mret 0.

(** One round of the reading loop of the edge-triggered example. *)
Definition edge_body (fd : Z) (buf : buffer) : M trace (ctl buffer unit) :=
  bytes_read ← sys (Read fd BUFFER_SIZE);
  if r_ret bytes_read <? 0 then
    (if would_block (r_errno bytes_read) then printf "读取完成（EAGAIN）\n" []
     else perror "read");;
    mret (Break tt)
  else if r_ret bytes_read =? 0 then
    printf "文件结束\n" [];;
    mret (Break tt)
  else
    printf "读取 %zd 字节\n" [ANum ssize_t (r_ret bytes_read)];;
    mret (Next (fill buf (r_data bytes_read))).

Definition epoll_edge_triggered_example (fuel : nat) (filename : string) : M trace Z :=
  printf "\n=== epoll 边缘触发示例 ===\n" [];;
  epoll_fd ← sys (epoll_create1);
  let epoll_fd := r_ret epoll_fd in
  if epoll_fd <? 0 then
    perror "epoll_create1";;
    mret (-1)
  else
  fd ← sys (Open filename [O_RDONLY]);
  let fd := r_ret fd in
  if fd <? 0 then
    perror "open";;
    close epoll_fd;;
    mret (-1)
  else
  set_nonblocking fd;;
  r ← sys (Epoll epoll_fd (Epoll_add fd (Z.lor EPOLLIN EPOLLET) fd));
  if r_ret r <? 0 then
    perror "epoll_ctl EPOLL_CTL_ADD";;
    close fd;;
    close epoll_fd;;
    mret (-1)
  else
  printf "等待文件可读（边缘触发）...\n" [];;
  nfds ← sys (Epoll epoll_fd (Epoll_wait MAX_EVENTS (-1)));
  if r_ret nfds <? 0 then
    perror "epoll_wait";;
    close fd;;
    close epoll_fd;;
    mret (-1)
  else
  after (loop fuel (edge_body fd) (new_buffer BUFFER_SIZE)) (λ _,
    sys (Epoll epoll_fd (Epoll_del fd));;
    close fd;;
    close epoll_fd;;
    mret 0).

Definition epoll_timeout_example (filename : string) : M trace Z :=
  printf "\n=== epoll 超时示例 ===\n" [];;
  epoll_fd ← sys (epoll_create1);
  let epoll_fd := r_ret epoll_fd in
  if epoll_fd <? 0 then
    perror "epoll_create1";;
    mret (-1)
  else
  fd ← sys (Open filename [O_RDONLY]);
  let fd := r_ret fd in
  if fd <? 0 then
    perror "open";;
    close epoll_fd;;
    mret (-1)
  else
  set_nonblocking fd;;
  sys (Epoll epoll_fd (Epoll_add fd EPOLLIN fd));;
  printf "等待文件可读（超时 2 秒）...\n" [];;
  nfds ← sys (Epoll epoll_fd (Epoll_wait MAX_EVENTS 2000));
  if r_ret nfds <? 0 then
    perror "epoll_wait";;
    close fd;;
    close epoll_fd;;
    mret (-1)
  else
  (if r_ret nfds =? 0 then printf "超时，没有事件发生\n" []
   else
     printf "有 %d 个文件描述符就绪\n" [AInt (r_ret nfds)];;
     bytes_read ← sys (Read fd BUFFER_SIZE);
     if 0 <? r_ret bytes_read then printf "读取 %zd 字节\n" [ANum ssize_t (r_ret bytes_read)]
     else mret tt);;
  sys (Epoll epoll_fd (Epoll_del fd));;
  close fd;;
  close epoll_fd;;
  mret 0.

(** With the newlines of the literal. *)
Definition main_data : bytes := lit "Hello, epoll!\nThis is a test file for epoll non-blocking I/O.\n".

Definition main (fuel : nat) : M trace Z :=
  let filename := "epoll_test.txt"%string in
  fd ← sys (Open filename [O_WRONLY; O_CREAT; O_TRUNC]);
  let fd := r_ret fd in
  (if 0 <=? fd then
     sys (Write fd main_data);;
     sys (Fsync fd);;
     close fd
   else mret tt);;
  r ← epoll_read_example filename;
  (if r <? 0 then eprintf "epoll 读取示例失败\n" [] else mret tt);;
  r ← epoll_multi_file_example;
  (if r <? 0 then eprintf "epoll 多文件示例失败\n" [] else mret tt);;
  r ← epoll_edge_triggered_example fuel filename;
  (if r <? 0 then eprintf "epoll 边缘触发示例失败\n" [] else mret tt);;
  r ← epoll_timeout_example filename;
  (if r <? 0 then eprintf "epoll 超时示例失败\n" [] else mret tt);;
  printf "\n所有 epoll 示例完成\n" [];;
  mret 0.
End code.

(** ** Correctness *)

Section proofs.
Context {e : Env} {w0 : world} (Henv : legal_env w0).

(** Everything that was opened is closed, and no file is changed. *)
Definition untouched (w w' : world) : Prop := balanced w w' ∧ files w' = files w.

Lemma runs_set_nonblocking fd o w (Q : Z → world → Prop) :
  fds w !! fd = Some o →
  (∀ r w' fl, r = 0 ∨ r = -1 → fds w' = <[fd := mkOF (of_kind o) (of_off o) fl]> (fds w) →
     files w' = files w → maps w' = maps w → mem w' = mem w → misuses w' = misuses w →
     watches w' = watches w → Q r w') →
  runs w0 (set_nonblocking fd) w Q.
Proof.
  intros Ho HQ. assert (<[fd := mkOF (of_kind o) (of_off o) (of_flags o)]> (fds w) = fds w) as Hid.
  { apply insert_id. by destruct o. }
  unfold set_nonblocking. step. eapply (runs_getfl Henv); [exact Ho|..].
  { intros r n Hr _. step; [|lia]. steps. by eapply (HQ _ _ (of_flags o)); auto. }
  intros r Hr _. step; [lia|]. step. eapply (runs_setfl Henv); [exact Ho|..].
  { intros r' n Hr' _. step; [|lia]. steps. by eapply (HQ _ _ (of_flags o)); auto. }
  intros r' Hr'. step; [lia|]. steps. by eapply HQ; auto.
Qed.

(** The common beginning: [epoll_create1] and [open]. *)
Ltac start :=
  steps; eapply (runs_epoll_create Henv);
    [intros ????; step; [|lia]; steps; unfold untouched; settle|];
  intros re Hre He; step; [lia|]; step; eapply (runs_open Henv); [done..| |];
    [intros ????; step; [|lia]; steps; unfold untouched; settle|];
  intros rf f Hrf Hf _; fresh_fds; step; [lia|]; step.

(** Epoll does not take regular files, so on the files they open
    [epoll_read_example] and [epoll_edge_triggered_example] always end with -1;
    [epoll_multi_file_example], which does not look at the failed registrations,
    gets out of its untimed wait only when that is interrupted, again with -1; and
    [epoll_timeout_example] ends with 0 only by its timeout. On every path each
    closes what it opened and changes no file. *)
Lemma epoll_examples_on_files fuel filename w :
  runs w0 (epoll_read_example filename) w (λ r w', r = -1 ∧ untouched w w') ∧
  runs w0 (epoll_edge_triggered_example fuel filename) w (λ r w', r = -1 ∧ untouched w w') ∧
  runs w0 epoll_multi_file_example w (λ r w', r = -1 ∧ untouched w w') ∧
  runs w0 (epoll_timeout_example filename) w (λ r w', (r = 0 ∨ r = -1) ∧ untouched w w' ∧
    (r = 0 → last (outs w') = Some (Printf "超时，没有事件发生\n" []))).
Proof.
  split_and!.
  - unfold epoll_read_example. start.
    eapply runs_set_nonblocking; [look|]. intros rn w1 fl Hrn Hfds ?????. cbn in *.
    step; [steps; unfold untouched; settle|]. step.
    eapply (runs_epoll_add_file Henv); [look|look|].
    intros r n Hr _. step; [|lia]. steps. unfold untouched. settle.
  - unfold epoll_edge_triggered_example. start.
    eapply runs_set_nonblocking; [look|]. intros rn w1 fl Hrn Hfds ?????. cbn in *. step.
    eapply (runs_epoll_add_file Henv); [look|look|].
    intros r n Hr _. step; [|lia]. steps. unfold untouched. settle.
  - unfold epoll_multi_file_example. start.
    eapply runs_set_nonblocking; [look|]. intros rn w1 fl Hrn Hfds ?????. cbn in *. step.
    eapply (runs_open Henv); [done..| |].
    { intros r n Hr _. step; [|lia]. steps. unfold untouched. settle. }
    intros rg f' Hrg Hg _. rewrite Hfds in Hg. fresh_fds. step; [lia|]. steps.
    eapply runs_set_nonblocking; [look|]. intros rn' w2 fl' Hrn' Hfds' ?????. cbn in *. step.
    eapply (runs_epoll_add_file Henv); [look|look|]. intros r n Hr _. step.
    eapply (runs_epoll_add_file Henv); [look|look|]. intros r' n' Hr' _. steps.
    eapply (runs_epoll_wait_idle Henv); [look| |..].
    { intros k. expand_world. apply (unwatch_idle (r_ret re) w). }
    { intros rw nw Hrw _. step; [|lia]. steps. unfold untouched. settle. }
    intros rw _ _ Ht. lia.
  - unfold epoll_timeout_example. start.
    eapply runs_set_nonblocking; [look|]. intros rn w1 fl Hrn Hfds ?????. cbn in *. step.
    eapply (runs_epoll_add_file Henv); [look|look|]. intros r n Hr _. steps.
    eapply (runs_epoll_wait_idle Henv); [look| |..].
    { intros k. expand_world. apply (unwatch_idle (r_ret re) w). }
    { intros rw nw Hrw _. step; [|lia]. steps. unfold untouched. settle. }
    intros rw Hrw _ _. step; [lia|]. step. step; [|lia]. steps.
    eapply (runs_epoll_del_idle Henv); [look|look| |].
    { intros k. expand_world. apply (unwatch_idle (r_ret re) w). }
    intros rd nd Hrd _. steps. unfold untouched. settle. cbn. by rewrite last_snoc.
Qed.
End proofs.

Definition one_file : world := boot {["f"%string := mkFile (b "data") true]}.

Lemma epoll_examples_on_files_witness :
  (∃ tr w', epoll_read_example (e := kenv (-1) one_file) "f" [] = Ok (-1, tr) ∧
     replay one_file tr = Some w' ∧ untouched one_file w') ∧
  (∃ tr w', epoll_timeout_example (e := kenv (-1) one_file) "f" [] = Ok (0, tr) ∧
     replay one_file tr = Some w' ∧ untouched one_file w' ∧
     last (outs w') = Some (Printf "超时，没有事件发生\n" [])).
Proof.
  destruct (epoll_examples_on_files (kenv_legal (-1) one_file) 0 "f" one_file)
    as (Hread & _ & _ & Htime). split.
  - destruct (Hread [] eq_refl) as (r & tr & w' & Hrun & Hw & -> & Hu).
    exists tr, w'. split_and!; assumption.
  - destruct (Htime [] eq_refl) as (r & tr & w' & Hrun & Hw & _ & Hu & Hlast).
    assert (r = 0) as ->.
    { vm_compute in Hrun. injection Hrun as <- _. reflexivity. }
    exists tr, w'. split_and!; [assumption..|]. apply Hlast. reflexivity.
Defined.
