(* ===== verification/SysStdio.v ===== *)
(** * Rules for streams

    The rules follow one stream that a function has opened on a regular file. *)
From S2P Require Export Sys.

Arguments stdio_step : simpl never.
Arguments flush : simpl never.
Arguments take_input : simpl never.
Arguments first_line : simpl never.

(** [w1] is [w] but for the stream [fp] in state [st], its descriptor [fd] at
    offset [off] of the file [f], and that file, which is [x] now. *)
Record opened (w : world) (fp fd : Z) (f : string) (fl : list oflag) (st : stream) (off : Z)
    (x : file) (w1 : world) : Prop := {
  op_fds : fds w1 = <[fd := mkOF (KFile f) off fl]> (fds w);
  op_files : files w1 = <[f := x]> (files w);
  op_streams : streams w1 = <[fp := st]> (streams w);
  op_fd : s_fd st = fd;
  op_maps : maps w1 = maps w;
  op_mem : mem w1 = mem w;
  op_misuses : misuses w1 = misuses w;
  op_fresh : fds w !! fd = None ∧ streams w !! fp = None }.

(** Nothing that was opened is left open. *)
Definition released (w w' : world) : Prop := balanced w w' ∧ streams w' = streams w.

Lemma released_trans w1 w2 w3 : released w1 w2 → released w2 w3 → released w1 w3.
Proof. intros [(? & ? & ? & ?) ?] [(? & ? & ? & ?) ?]. repeat split; congruence. Qed.

(** New output goes to the end of the file. *)
Definition at_end (fl : list oflag) (off : Z) (x : file) : Prop :=
  O_APPEND ∈ fl ∨ off = zlen (content x).

(** The file once the output in the buffer has left it. *)
Definition final (x : file) (st : stream) : bytes := content x ++ s_pending st.

Lemma opened_stream w fp fd f fl st off x w1 :
  opened w fp fd f fl st off x w1 → streams w1 !! fp = Some st.
Proof. intros []. rewrite op_streams0. apply lookup_insert_eq. Qed.
Lemma opened_ofile w fp fd f fl st off x w1 :
  opened w fp fd f fl st off x w1 → fds w1 !! fd = Some (mkOF (KFile f) off fl).
Proof. intros []. rewrite op_fds0. apply lookup_insert_eq. Qed.
Lemma opened_file w fp fd f fl st off x w1 :
  opened w fp fd f fl st off x w1 → files w1 !! f = Some x.
Proof. intros []. rewrite op_files0. apply lookup_insert_eq. Qed.

Lemma opened_print w fp fd f fl st off x w1 y :
  opened w fp fd f fl st off x w1 → opened w fp fd f fl st off x (print y w1).
Proof. intros []. by split. Qed.

Lemma opened_after_print w fp fd f fl st off x w1 y :
  opened (print y w) fp fd f fl st off x w1 → opened w fp fd f fl st off x w1.
Proof. intros []. by split. Qed.
Lemma opened_set_sigs w fp fd f fl st off x w1 n :
  opened w fp fd f fl st off x w1 → opened w fp fd f fl st off x (set_sigs n w1).
Proof. intros []. by split. Qed.
Lemma opened_sync w fp fd f fl st off x y w1 :
  opened w fp fd f fl st off x w1 →
  opened w fp fd f fl st off y (set_files (<[f := y]> (files w1)) w1).
Proof. intros []. split; cbn; try done. by rewrite op_files0, insert_insert_eq. Qed.

(** ** The state after a call *)

Lemma opened_take_input w fp fd f fl st off x w1 k err eof :
  opened w fp fd f fl st off x w1 →
  opened w fp fd f fl (mkStream fd (s_pending st) (s_err st || err) (s_eof st || eof))
    (off + Z.of_nat k) x (take_input fp st k err eof w1) ∧
  outs (take_input fp st k err eof w1) = outs w1.
Proof.
  intros Hop. pose proof (opened_ofile _ _ _ _ _ _ _ _ _ Hop) as Hfd. destruct Hop.
  unfold take_input. cbn. rewrite op_fd0, Hfd. unfold consume. cbn. split; [|done].
  split; cbn; try done; by rewrite ?op_fds0, ?op_streams0, insert_insert_eq.
Qed.

(** Flushing [k] bytes of the stream when its state has become [st2]. *)
Lemma opened_flush w fp fd f fl st st2 off x w1 k :
  opened w fp fd f fl st off x w1 → s_fd st2 = fd → at_end fl off x → O_SYNC ∉ fl →
  ∃ off' x',
    opened w fp fd f fl (mkStream fd (drop k (s_pending st2)) (s_err st2) (s_eof st2)) off' x'
      (flush fp st2 k w1) ∧
    at_end fl off' x' ∧ outs (flush fp st2 k w1) = outs w1 ∧
    content x' = content x ++ take k (s_pending st2) ∧
    (take k (s_pending st2) = [] → x' = x).
Proof.
  intros Hop Hst2 Hend Hsync. pose proof (opened_ofile _ _ _ _ _ _ _ _ _ Hop) as Hfd.
  pose proof (opened_file _ _ _ _ _ _ _ _ _ Hop) as Hf. destruct Hop.
  unfold flush. cbn.
  rewrite Hst2. case_bool_decide as Hk.
  { exists off, x. rewrite Hk, app_nil_r. split_and!; try done.
    split; cbn; try done. by rewrite op_streams0, insert_insert_eq. }
  rewrite Hfd. unfold deliver. cbn. rewrite Hf. cbn.
  set (d := take k (s_pending st2)) in *.
  set (o := if bool_decide (O_APPEND ∈ fl) then zlen (content x) else off).
  assert (o = zlen (content x)) as Ho.
  { unfold o. case_bool_decide; [done|]. by destruct Hend. }
  assert (write_at (content x) (Z.to_nat o) d = content x ++ d) as Hw.
  { rewrite Ho. unfold zlen. rewrite Nat2Z.id. apply write_at_append. }
  exists (o + zlen d), (mkFile (content x ++ d) (bool_decide (O_SYNC ∈ fl))). split_and!.
  - split; cbn; try done; rewrite ?op_fds0, ?op_files0, ?op_streams0, ?insert_insert_eq; try done.
    by rewrite Hw.
  - right. cbn. by rewrite zlen_app, Ho.
  - done.
  - done.
  - done.
Qed.

(** [data] goes into the buffer, and some of the buffer to the file. *)
Lemma opened_buffered w fp fd f fl st off x w1 data err k w2 :
  opened w fp fd f fl st off x w1 → at_end fl off x → O_SYNC ∉ fl →
  buffered fp st data err k w1 = Some w2 →
  ∃ st' off' x', opened w fp fd f fl st' off' x' w2 ∧ at_end fl off' x' ∧ outs w2 = outs w1 ∧
    final x' st' = final x st ++ data ∧ s_err st' = s_err st || err ∧ s_eof st' = s_eof st.
Proof.
  intros Hop Hend Hsync Hb. unfold buffered in Hb. apply guard_Some in Hb as [_ <-].
  set (st2 := mkStream _ _ _ _).
  destruct (opened_flush _ _ _ _ _ _ st2 _ _ _ (Z.to_nat k) Hop) as (off' & x' & Hop' & ? & ? & Hc & _);
    [by apply Hop|done|done|].
  eexists _, off', x'. split; [exact Hop'|]. split_and!; try done.
  unfold final. rewrite Hc. cbn. by rewrite <- !app_assoc, take_drop.
Qed.

(** The stream and its descriptor are closed. *)
Lemma opened_close w fp fd f fl st off x w1 :
  opened w fp fd f fl st off x w1 →
  let w2 := unwatch fd (set_fds (delete fd (fds w1)) (set_streams (delete fp (streams w1)) w1)) in
  released w w2 ∧ files w2 = <[f := x]> (files w).
Proof.
  intros []. destruct op_fresh0. unfold released, balanced. cbn.
  rewrite op_fds0, op_streams0, !delete_insert_id by done. done.
Qed.

Section rules.
Context {e : Env} {w0 : world} (Henv : legal_env w0).
Abbreviation runs := (runs w0).

Lemma runs_fopen f m w (Q : reply → world → Prop) :
  (∀ r n, r_off r = 0 → (n ≤ sigs w)%nat → Q r (set_sigs n w)) →
  (∀ r w' x, r_off r ≠ 0 → outs w' = outs w →
     opened w (r_off r) (r_fds r).1 f (mode_flags m) (mkStream (r_fds r).1 [] false false) 0 x w' →
     x = match m with
         | FWrite => mkFile [] false
         | _ => default (mkFile [] false) (files w !! f)
         end →
     (m = FRead → files w !! f = Some x) → Q r w') →
  runs (sys (Fopen f m)) w Q.
Proof.
  intros Hfail Hok. apply (runs_sys Henv). intros r w' Hw'. unfold posix_step in Hw'.
  destruct (Z.eqb_spec (r_off r) 0) as [H0|H0].
  { apply interrupted_Some in Hw' as (n & -> & ? & ?). by apply Hfail. }
  case_bool_decide as Hs; [|done]. apply bind_Some in Hw' as (w1 & Hopen & [= <-]).
  unfold open_file, new_fd in Hopen.
  destruct (files w !! f) as [x|] eqn:Hx.
  - apply guard_Some in Hopen as [Hb <-]. apply bool_decide_eq_true in Hb.
    eapply (Hok _ _ (if bool_decide (O_TRUNC ∈ mode_flags m) then mkFile [] false else x));
      [done|done|by split|by destruct m|by intros ->].
  - destruct (bool_decide (O_CREAT ∈ mode_flags m)) eqn:Hc; [|done].
    apply guard_Some in Hopen as [Hb <-]. apply bool_decide_eq_true in Hb.
    eapply (Hok _ _ (mkFile [] false)); [done|done|by split|by destruct m|by intros ->].
Qed.

(** A call on the stream, as a function of its answer. *)
Lemma runs_stdio fp c st w (Q : reply → world → Prop) :
  streams w !! fp = Some st → (∀ r w', stdio_step w fp c r = Some w' → Q r w') →
  runs (sys (Stdio fp c)) w Q.
Proof. intros _ HQ. apply (runs_sys Henv). intros r w' Hw'. by apply HQ. Qed.

Section stream.
Context (w : world) (fp fd : Z) (f : string) (fl : list oflag) (st : stream) (off : Z) (x : file)
  (w1 : world) (Hop : opened w fp fd f fl st off x w1).

Lemma runs_setvbuf (Q : reply → world → Prop) :
  (∀ r, Q r w1) → runs (sys (Stdio fp Setvbuf)) w1 Q.
Proof.
  intros HQ. eapply runs_stdio; [by eapply opened_stream|]. intros r w' Hw'.
  unfold stdio_step in Hw'. rewrite (opened_stream _ _ _ _ _ _ _ _ _ Hop) in Hw'. by simplify_eq.
Qed.

Lemma runs_ferror (Q : reply → world → Prop) :
  (∀ r, (r_ret r ≠ 0 ↔ s_err st = true) → Q r w1) → runs (sys (Stdio fp Ferror)) w1 Q.
Proof.
  intros HQ. eapply runs_stdio; [by eapply opened_stream|]. intros r w' Hw'.
  unfold stdio_step in Hw'. rewrite (opened_stream _ _ _ _ _ _ _ _ _ Hop) in Hw'. cbn in Hw'.
  apply guard_Some in Hw' as [Hb <-]. apply bool_decide_eq_true in Hb. by apply HQ.
Qed.
Lemma runs_feof (Q : reply → world → Prop) :
  (∀ r, (r_ret r ≠ 0 ↔ s_eof st = true) → Q r w1) → runs (sys (Stdio fp Feof)) w1 Q.
Proof.
  intros HQ. eapply runs_stdio; [by eapply opened_stream|]. intros r w' Hw'.
  unfold stdio_step in Hw'. rewrite (opened_stream _ _ _ _ _ _ _ _ _ Hop) in Hw'. cbn in Hw'.
  apply guard_Some in Hw' as [Hb <-]. apply bool_decide_eq_true in Hb. by apply HQ.
Qed.
Lemma runs_fileno (Q : reply → world → Prop) :
  (∀ r, r_ret r = fd → Q r w1) → runs (sys (Stdio fp Fileno)) w1 Q.
Proof.
  intros HQ. eapply runs_stdio; [by eapply opened_stream|]. intros r w' Hw'.
  unfold stdio_step in Hw'. rewrite (opened_stream _ _ _ _ _ _ _ _ _ Hop) in Hw'. cbn in Hw'.
  apply guard_Some in Hw' as [Hb <-]. apply HQ. propify. by rewrite Hb, (op_fd _ _ _ _ _ _ _ _ _ Hop).
Qed.

(** *** Output *)

Section output.
Context (Hend : at_end fl off x) (Hsync : O_SYNC ∉ fl).

Lemma runs_fwrite data (Q : reply → world → Prop) :
  (∀ r w2 st' off' x', 0 ≤ r_ret r ≤ zlen data →
     opened w fp fd f fl st' off' x' w2 → at_end fl off' x' → outs w2 = outs w1 →
     final x' st' = final x st ++ take (Z.to_nat (r_ret r)) data → Q r w2) →
  runs (sys (Stdio fp (Fwrite data))) w1 Q.
Proof.
  intros HQ. eapply runs_stdio; [by eapply opened_stream|]. intros r w' Hw'.
  unfold stdio_step in Hw'. rewrite (opened_stream _ _ _ _ _ _ _ _ _ Hop) in Hw'. cbn in Hw'.
  destruct (_ && _) eqn:Hb in Hw'; [|done]. propify.
  destruct (opened_buffered _ _ _ _ _ _ _ _ _ _ _ _ _ Hop Hend Hsync Hw')
    as (st' & off' & x' & ? & ? & ? & ? & _). by eapply HQ.
Qed.

Lemma runs_fprintf fmt args (Q : reply → world → Prop) :
  (∀ r w2 st' off' x' text,
     opened w fp fd f fl st' off' x' w2 → at_end fl off' x' → outs w2 = outs w1 →
     final x' st' = final x st ++ text → (0 ≤ r_ret r → text = format (lit fmt) args) →
     Q r w2) →
  runs (sys (Stdio fp (Fprintf fmt args))) w1 Q.
Proof.
  intros HQ. eapply runs_stdio; [by eapply opened_stream|]. intros r w' Hw'.
  unfold stdio_step in Hw'. rewrite (opened_stream _ _ _ _ _ _ _ _ _ Hop) in Hw'. cbn in Hw'.
  destruct (Z.ltb_spec (r_ret r) 0); [|destruct (_ =? _); [|done]];
    destruct (opened_buffered _ _ _ _ _ _ _ _ _ _ _ _ _ Hop Hend Hsync Hw')
      as (st' & off' & x' & ? & ? & ? & ? & _); eapply HQ; try done; lia.
Qed.

Lemma runs_fflush (Q : reply → world → Prop) :
  (∀ r w2 st' off' x',
     opened w fp fd f fl st' off' x' w2 → at_end fl off' x' → outs w2 = outs w1 →
     final x' st' = final x st → (r_ret r = 0 → s_pending st' = []) → Q r w2) →
  runs (sys (Stdio fp Fflush)) w1 Q.
Proof.
  intros HQ. eapply runs_stdio; [by eapply opened_stream|]. intros r w' Hw'.
  unfold stdio_step in Hw'. rewrite (opened_stream _ _ _ _ _ _ _ _ _ Hop) in Hw'. cbn in Hw'.
  destruct (Z.eqb_spec (r_ret r) 0).
  - simplify_eq. destruct (opened_flush _ _ _ _ _ _ st _ _ _ (length (s_pending st)) Hop)
      as (off' & x' & Hop' & ? & ? & Hc & _); [by apply Hop|done|done|].
    eapply (HQ _ _ _ off' x'); [exact Hop'|done|done| |].
    + unfold final. rewrite Hc. cbn. by rewrite firstn_all, drop_all, app_nil_r.
    + intros _. apply drop_all.
  - destruct (opened_buffered _ _ _ _ _ _ _ _ _ _ _ _ _ Hop Hend Hsync Hw')
      as (st' & off' & x' & ? & ? & ? & Hf & _). rewrite app_nil_r in Hf. eapply HQ; try done.
Qed.

(** What is still in the buffer gets into the file if [fclose] succeeds. *)
Lemma runs_fclose (Q : reply → world → Prop) :
  (∀ r w2 x', released w w2 → files w2 = <[f := x']> (files w) → outs w2 = outs w1 →
     (r_ret r = 0 → content x' = final x st) → (s_pending st = [] → x' = x) → Q r w2) →
  runs (sys (Stdio fp Fclose)) w1 Q.
Proof.
  intros HQ. eapply runs_stdio; [by eapply opened_stream|]. intros r w' Hw'.
  unfold stdio_step in Hw'. rewrite (opened_stream _ _ _ _ _ _ _ _ _ Hop) in Hw'. cbn in Hw'.
  apply bind_Some in Hw' as (w2 & Hw2 & [= <-]). rewrite (op_fd _ _ _ _ _ _ _ _ _ Hop).
  assert (∃ st' off' x', opened w fp fd f fl st' off' x' w2 ∧ outs w2 = outs w1 ∧
    (r_ret r = 0 → content x' = final x st) ∧ (s_pending st = [] → x' = x))
    as (st' & off' & x' & Hop' & Houts & Hc & Hp).
  { destruct (Z.eqb_spec (r_ret r) 0) as [H0|H0].
    - simplify_eq. destruct (opened_flush _ _ _ _ _ _ st _ _ _ (length (s_pending st)) Hop)
        as (off' & x' & Hop' & ? & ? & Hc & Hx); [by apply Hop|done|done|].
      rewrite firstn_all in *. eexists _, off', x'. by split_and!.
    - unfold buffered in Hw2. apply guard_Some in Hw2 as [_ <-].
      set (st2 := mkStream _ _ _ _).
      destruct (opened_flush _ _ _ _ _ _ st2 _ _ _ (Z.to_nat (r_off r)) Hop)
        as (off' & x' & Hop' & ? & ? & Hc & Hx); [by apply Hop|done|done|].
      eexists _, off', x'. split_and!; [exact Hop'|done|lia|]. intros Hpend. apply Hx.
      cbn. by rewrite Hpend, app_nil_r, take_nil. }
  destruct (opened_close _ _ _ _ _ _ _ _ _ Hop') as [Hrel Hfiles]. by eapply HQ.
Qed.
End output.

(** A stream that was only read from closes without effect. *)
Lemma runs_fclose_read (Q : reply → world → Prop) :
  s_pending st = [] → files w !! f = Some x →
  (∀ r w2, released w w2 → files w2 = files w → outs w2 = outs w1 → Q r w2) →
  runs (sys (Stdio fp Fclose)) w1 Q.
Proof.
  intros Hpend Hx HQ. eapply runs_stdio; [by eapply opened_stream|]. intros r w' Hw'.
  unfold stdio_step in Hw'. rewrite (opened_stream _ _ _ _ _ _ _ _ _ Hop) in Hw'. cbn in Hw'.
  apply bind_Some in Hw' as (w2 & Hw2 & [= <-]). rewrite (op_fd _ _ _ _ _ _ _ _ _ Hop).
  assert (∃ st', opened w fp fd f fl st' off x w2 ∧ outs w2 = outs w1) as (st' & Hop' & Houts).
  { assert (∀ st2 k, s_fd st2 = fd → s_pending st2 = [] →
      ∃ st', opened w fp fd f fl st' off x (flush fp st2 k w1) ∧
             outs (flush fp st2 k w1) = outs w1) as Hflush.
    { intros st2 k Hfd2 Hp2. unfold flush. rewrite Hp2, take_nil, drop_nil.
      rewrite bool_decide_eq_true_2 by done. destruct Hop.
      exists (mkStream (s_fd st2) [] (s_err st2) (s_eof st2)). split; [|done].
      split; cbn; try done. by rewrite op_streams0, insert_insert_eq. }
    destruct (r_ret r =? 0).
    - simplify_eq. apply Hflush; [by apply Hop|done].
    - unfold buffered in Hw2. apply guard_Some in Hw2 as [_ <-].
      apply Hflush; [by apply Hop|]. cbn. by rewrite Hpend. }
  destruct (opened_close _ _ _ _ _ _ _ _ _ Hop') as [Hrel Hfiles].
  rewrite insert_id in Hfiles by done. eapply HQ; try done.
Qed.

(** *** Input *)

Definition input : bytes := if s_eof st then [] else drop (Z.to_nat off) (content x).

Lemma stream_input_opened : stream_input w1 st = input.
Proof.
  unfold stream_input, input. destruct (s_eof st); [done|].
  rewrite (op_fd _ _ _ _ _ _ _ _ _ Hop), (opened_ofile _ _ _ _ _ _ _ _ _ Hop).
  unfold avail. cbn. by rewrite (opened_file _ _ _ _ _ _ _ _ _ Hop).
Qed.

Lemma runs_fread n (Q : reply → world → Prop) :
  0 ≤ n →
  (∀ r w2 err eof, 0 ≤ r_ret r ≤ n → r_ret r ≤ zlen input →
     r_data r = take (Z.to_nat (r_ret r)) input →
     (err = false → r_ret r = Z.min n (zlen input) ∧ eof = (r_ret r <? n)) →
     (err = true → eof = false) →
     opened w fp fd f fl (mkStream fd (s_pending st) (s_err st || err) (s_eof st || eof))
       (off + r_ret r) x w2 → outs w2 = outs w1 → Q r w2) →
  runs (sys (Stdio fp (Fread n))) w1 Q.
Proof.
  intros Hn HQ. eapply runs_stdio; [by eapply opened_stream|]. intros r w' Hw'.
  unfold stdio_step in Hw'. rewrite (opened_stream _ _ _ _ _ _ _ _ _ Hop), stream_input_opened in Hw'.
  rewrite Z.max_r in Hw' by done. pose proof (zlen_nonneg input).
  destruct (_ && _) eqn:Hb.
  - simplify_eq. propify.
    destruct (opened_take_input _ _ _ _ _ _ _ _ _ (Z.to_nat (r_ret r)) false (r_ret r <? n) Hop).
    eapply (HQ _ _ false (r_ret r <? n)); try done; try lia. by rewrite Z2Nat.id in * by lia.
  - apply guard_Some in Hw' as [Hb' <-]. propify.
    destruct (opened_take_input _ _ _ _ _ _ _ _ _ (Z.to_nat (r_ret r)) true false Hop).
    eapply (HQ _ _ true false); try done; try lia. by rewrite Z2Nat.id in * by lia.
Qed.

Lemma runs_fgets n (Q : reply → world → Prop) :
  (∀ r w2, r_ret r = 0 → 
     opened w fp fd f fl (mkStream fd (s_pending st)
       (s_err st || negb (bool_decide (input = []))) (s_eof st || bool_decide (input = []))) off x w2 →
     outs w2 = outs w1 → Q r w2) →
  (∀ r w2 eof, let line := first_line (Z.to_nat (n - 1)) input in
     r_ret r ≠ 0 → line ≠ [] → r_data r = line →
     (eof = true → length line = length input) →
     opened w fp fd f fl (mkStream fd (s_pending st) (s_err st) (s_eof st || eof))
       (off + zlen line) x w2 → outs w2 = outs w1 → Q r w2) →
  runs (sys (Stdio fp (Fgets n))) w1 Q.
Proof.
  intros Hnull Hline. eapply runs_stdio; [by eapply opened_stream|]. intros r w' Hw'.
  unfold stdio_step in Hw'. rewrite (opened_stream _ _ _ _ _ _ _ _ _ Hop), stream_input_opened in Hw'.
  destruct (Z.eqb_spec (r_ret r) 0) as [H0|H0].
  - simplify_eq. destruct (opened_take_input _ _ _ _ _ _ _ _ _ 0
      (negb (bool_decide (input = []))) (bool_decide (input = [])) Hop) as [Hop2 Houts].
    rewrite Z.add_0_r in Hop2. by eapply Hnull.
  - apply guard_Some in Hw' as [Hb <-]. apply bool_decide_eq_true in Hb as [Hne Hd].
    set (line := first_line _ input) in *.
    set (eof := bool_decide (length line = length input) && _).
    destruct (opened_take_input _ _ _ _ _ _ _ _ _ (length line) false eof Hop) as [Hop2 Houts].
    rewrite orb_false_r in Hop2. eapply (Hline _ _ eof); try done.
    unfold eof. intros Heof. apply andb_true_iff in Heof as [Heof _].
    by apply bool_decide_eq_true in Heof.
Qed.

(** Either it assigned nothing, or the values that it says. *)
Lemma runs_fscanf fmt (Q : reply → world → Prop) :
  (∀ r w2 st' off', r_ret r = -1 ∨ r_ret r = zlen (r_vals r) →
     opened w fp fd f fl st' off' x w2 → s_pending st' = s_pending st → outs w2 = outs w1 →
     Q r w2) →
  runs (sys (Stdio fp (Fscanf fmt))) w1 Q.
Proof.
  intros HQ. eapply runs_stdio; [by eapply opened_stream|]. intros r w' Hw'.
  unfold stdio_step in Hw'. rewrite (opened_stream _ _ _ _ _ _ _ _ _ Hop), stream_input_opened in Hw'.
  assert (∀ k err eof, r_ret r = -1 ∨ r_ret r = zlen (r_vals r) →
    Q r (take_input fp st k err eof w1)) as Htake.
  { intros k err eof Hr. destruct (opened_take_input _ _ _ _ _ _ _ _ _ k err eof Hop).
    by eapply HQ. }
  destruct (scan (lit fmt) input) as [vs rest]. destruct (_ && _) eqn:Hb in Hw'.
  - simplify_eq. apply Htake. left. apply andb_true_iff in Hb as [Hb _]. by propify.
  - apply guard_Some in Hw' as [Hb' <-]. propify. apply Htake. right. congruence.
Qed.

(** Some of the input matches, and it is read. *)
Lemma runs_fscanf_match fmt vs rest (Q : reply → world → Prop) :
  scan (lit fmt) input = (vs, rest) → vs ≠ [] →
  (∀ tr, replay w0 tr = Some w1 → r_ret (env tr (Stdio fp (Fscanf fmt))) ≠ -1) →
  (∀ r w2, r_ret r = zlen vs → r_vals r = vs →
     opened w fp fd f fl (mkStream fd (s_pending st) (s_err st) (s_eof st || bool_decide (rest = [])))
       (off + Z.of_nat (length input - length rest)) x w2 → outs w2 = outs w1 → Q r w2) →
  runs (sys (Stdio fp (Fscanf fmt))) w1 Q.
Proof.
  intros Hscan Hvs HF HQ. apply (runs_fact _ _ (λ r, r_ret r ≠ -1)); [exact HF|].
  eapply runs_stdio; [by eapply opened_stream|]. intros r w' Hw' Hr.
  unfold stdio_step in Hw'. rewrite (opened_stream _ _ _ _ _ _ _ _ _ Hop), stream_input_opened, Hscan in Hw'.
  rewrite (proj2 (Z.eqb_neq _ _)) in Hw' by done. cbn [andb] in Hw'.
  apply guard_Some in Hw' as [Hb <-]. propify.
  destruct (opened_take_input _ _ _ _ _ _ _ _ _ (length input - length rest) false
    (bool_decide (rest = [])) Hop) as [Hop2 Houts].
  rewrite orb_false_r in Hop2. by apply HQ.
Qed.

(** None of it matches, and all of it is left. *)
Lemma runs_fscanf_mismatch fmt (Q : reply → world → Prop) :
  scan (lit fmt) input = ([], input) → input ≠ [] →
  (∀ r w2 err, r_ret r ≠ 1 →
     opened w fp fd f fl (mkStream fd (s_pending st) err (s_eof st)) off x w2 → outs w2 = outs w1 → Q r w2) →
  runs (sys (Stdio fp (Fscanf fmt))) w1 Q.
Proof.
  intros Hscan Hin HQ. eapply runs_stdio; [by eapply opened_stream|]. intros r w' Hw'.
  unfold stdio_step in Hw'. rewrite (opened_stream _ _ _ _ _ _ _ _ _ Hop), stream_input_opened, Hscan in Hw'.
  rewrite (bool_decide_eq_false_2 (_ ∧ input = [])) in Hw' by (by intros [_ ?]).
  rewrite andb_false_r in Hw'.
  assert (∀ err, r_ret r ≠ 1 → Q r (take_input fp st 0 err false w1)) as HQ'.
  { intros err Hr. destruct (opened_take_input _ _ _ _ _ _ _ _ _ 0 err false Hop) as [Hop2 Houts].
    rewrite orb_false_r, Z.add_0_r in Hop2. by eapply HQ. }
  destruct (_ && _) eqn:Hb in Hw'.
  - simplify_eq. apply HQ'. apply andb_true_iff in Hb as [Hb _]. propify. lia.
  - apply guard_Some in Hw' as [Hb' <-]. rewrite Nat.sub_diag, (bool_decide_eq_false_2 (input = [])) by done.
    propify. apply HQ'. unfold zlen in *. simpl in *. lia.
Qed.
End stream.
End rules.

(** ** Streams that work

    Files that exist, or are created, are opened, output fits and is written, and input that
    matches is read. *)
Record streams_work {e : Env} (w0 : world) : Prop := {
  fopen_works tr w p m : replay w0 tr = Some w → m ≠ FRead ∨ is_Some (files w !! p) →
    r_off (env tr (Fopen p m)) ≠ 0;
  fprintf_works tr w fp fmt args : replay w0 tr = Some w → is_Some (streams w !! fp) →
    0 ≤ r_ret (env tr (Stdio fp (Fprintf fmt args)));
  fscanf_works tr w fp st fmt : replay w0 tr = Some w → streams w !! fp = Some st →
    (scan (lit fmt) (stream_input w st)).1 ≠ [] → r_ret (env tr (Stdio fp (Fscanf fmt))) ≠ -1;
  fclose_works tr w fp : replay w0 tr = Some w → is_Some (streams w !! fp) →
    r_ret (env tr (Stdio fp Fclose)) = 0 }.

(** They do on the system that does what it is asked. *)
Lemma kenv_attempt lim w0 tr w c :
  replay w0 tr = Some w → is_Some (posix_step w (c, attempt lim w c)) →
  env (Env := kenv lim w0) tr c = attempt lim w c.
Proof. intros Htr [w' Hw']. unfold env, kenv. rewrite Htr. unfold kern. by rewrite Hw'. Qed.

Lemma kenv_streams_work lim w0 : streams_work (e := kenv lim w0) w0.
Proof.
  split.
  - intros tr w p m Htr Hp. destruct (next_key_fresh (streams w)) as [H3 Hfree].
    destruct (next_key_fresh (fds w)) as [H3' Hfree'].
    rewrite (kenv_attempt lim w0 tr w _ Htr); [cbn -[next_key]; lia|].
    unfold posix_step. cbn -[next_key mode_flags]. rewrite (proj2 (Z.eqb_neq _ _)) by lia.
    rewrite bool_decide_eq_true_2 by done. unfold open_file, new_fd.
    destruct (files w !! p) as [x|] eqn:E; [|destruct Hp as [Hm|[? ?]]; [|congruence];
      assert (bool_decide (O_CREAT ∈ mode_flags m) = true) as -> by (by destruct m)];
      rewrite bool_decide_eq_true_2 by done; by eexists.
  - intros tr w fp fmt args Htr [st Hst].
    rewrite (kenv_attempt lim w0 tr w _ Htr); cbn [attempt]; rewrite Hst; [apply zlen_nonneg|].
    unfold posix_step, stdio_step. rewrite Hst. cbn -[format zlen lit].
    pose proof (zlen_nonneg (format (lit fmt) args)). rewrite (proj2 (Z.ltb_ge _ _)), Z.eqb_refl by lia.
    unfold buffered. rewrite zlen_leb. by eexists.
  - intros tr w fp st fmt Htr Hst Hvs.
    assert (∃ vs rest, scan (lit fmt) (stream_input w st) = (vs, rest) ∧ vs ≠ []) as (vs & rest & Hscan & Hne).
    { destruct (scan _ _) as [vs rest]. by exists vs, rest. }
    assert (attempt lim w (Stdio fp (Fscanf fmt)) = mkReply (zlen vs) 0 [] 0 (-1, -1) [] vs) as Ha.
    { cbn [attempt]. rewrite Hst. cbn -[scan zlen lit]. rewrite Hscan. rewrite bool_decide_eq_false_2; [done|by intros [? _]]. }
    pose proof (zlen_nonneg vs).
    rewrite (kenv_attempt lim w0 tr w _ Htr); rewrite Ha; [cbn [r_ret]; lia|].
    unfold posix_step, stdio_step. rewrite Hst. cbn -[scan zlen lit]. rewrite Hscan.
    rewrite (proj2 (Z.eqb_neq _ _)) by lia. cbn [andb].
    rewrite Z.eqb_refl, !bool_decide_eq_true_2 by (done || by left). by eexists.
  - intros tr w fp Htr [st Hst].
    rewrite (kenv_attempt lim w0 tr w _ Htr); cbn [attempt]; rewrite Hst; [done|].
    unfold posix_step, stdio_step. rewrite Hst. cbn. by eexists.
Qed.
