(* ===== verification/BufferedIO.v ===== *)
(** * [12_aio/buffered_io.c]: reading and writing a file through a [FILE*] *)
From S2P Require Export SysStdio.

Definition BUFFER_SIZE : Z := 4096.

Section code.
Context {e : Env}.

Definition fclose (fp : Z) : M trace unit := sys (Stdio fp Fclose);; mret tt.

Definition write_file (filename : string) (data : bytes) : M trace Z :=
  let data_len := zlen data in
  printf "=== 缓冲 I/O 写入示例 ===\n" [];;
  fp ← sys (Fopen filename FWrite);
  let fp := r_off fp in
  if fp =? 0 then
    perror "fopen";;
    mret (-1)
  else
  r ← sys (Stdio fp Setvbuf);
  if negb (r_ret r =? 0) then
    perror "setvbuf";;
    fclose fp;;
    mret (-1)
  else
  bytes_written ← sys (Stdio fp (Fwrite data));
  if negb (r_ret bytes_written =? data_len) then
    r ← sys (Stdio fp Ferror);
    (if negb (r_ret r =? 0) then perror "fwrite" else mret tt);;
    fclose fp;;
    mret (-1)
  else
  printf "写入 %zu 字节到文件 %s\n" [ANum size_t (r_ret bytes_written); AStr (b filename)];;
  r ← sys (Stdio fp Fflush);
  if negb (r_ret r =? 0) then
    perror "fflush";;
    fclose fp;;
    mret (-1)
  else
  printf "fflush 完成，数据已刷新到内核 page cache\n" [];;
  fd ← sys (Stdio fp Fileno);
  r ← sys (Fsync (r_ret fd));
  if r_ret r <? 0 then
    perror "fsync";;
    fclose fp;;
    mret (-1)
  else
  printf "fsync 完成，数据已刷新到磁盘\n" [];;
  fclose fp;;
  mret 0.

(** One round of the loop of [read_file], which carries [buffer] and
    [total_read]. *)
Definition read_body (fp : Z) (a : buffer * Z) : M trace (ctl (buffer * Z) Z) :=
  let '(buf, total_read) := a in
  bytes_read ← sys (Stdio fp (Fread BUFFER_SIZE));
  let buf := fill buf (r_data bytes_read) in
  let go :=
    let total_read := u64 (total_read + r_ret bytes_read) in
    s ← c_strn (Z.to_nat (r_ret bytes_read)) buf;
    printf "读取 %zu 字节: %.*s\n" [ANum size_t (r_ret bytes_read); AInt (r_ret bytes_read); AStr s];;
    mret (Next (buf, total_read)) in
  if r_ret bytes_read =? 0 then
    r ← sys (Stdio fp Ferror);
    if negb (r_ret r =? 0) then
      perror "fread";;
      fclose fp;;
      mret (Return (-1))
    else
      r ← sys (Stdio fp Feof);
      if negb (r_ret r =? 0) then mret (Break total_read) else go
  else go.

Definition read_file (fuel : nat) (filename : string) : M trace Z :=
  printf "\n=== 缓冲 I/O 读取示例 ===\n" [];;
  fp ← sys (Fopen filename FRead);
  let fp := r_off fp in
  if fp =? 0 then
    perror "fopen";;
    mret (-1)
  else
  r ← sys (Stdio fp Setvbuf);
  if negb (r_ret r =? 0) then
    perror "setvbuf";;
    fclose fp;;
    mret (-1)
  else
  after (loop fuel (read_body fp) (new_buffer BUFFER_SIZE, 0)) (λ total_read,
    printf "总共读取 %zu 字节\n" [ANum size_t total_read];;
    fclose fp;;
    mret 0).

(** One round of the loop over the lines, which carries [line] and [line_num].
    [fgets] puts a NUL after the characters that it reads. *)
Definition line_body (fp : Z) (a : buffer * Z) : M trace (ctl (buffer * Z) Z) :=
  let '(line, line_num) := a in
  r ← sys (Stdio fp (Fgets (zlen line)));
  if r_ret r =? 0 then mret (Break line_num)
  else
    let line := fill line (r_data r) in
    line ← put line (zlen (r_data r)) "000"%char;
    line_num ← int_val (line_num + 1);
    s ← c_str line;
    printf "第 %d 行: %s" [AInt line_num; AStr s];;
    mret (Next (line, line_num)).

Definition read_line_by_line (fuel : nat) (filename : string) : M trace Z :=
  printf "\n=== 逐行读取示例 ===\n" [];;
  fp ← sys (Fopen filename FRead);
  let fp := r_off fp in
  if fp =? 0 then
    perror "fopen";;
    mret (-1)
  else
  r ← sys (Stdio fp Setvbuf);
  if negb (r_ret r =? 0) then
    perror "setvbuf";;
    fclose fp;;
    mret (-1)
  else
  after (loop fuel (line_body fp) (new_buffer 256, 0)) (λ line_num,
    r ← sys (Stdio fp Ferror);
    if negb (r_ret r =? 0) then
      perror "fgets";;
      fclose fp;;
      mret (-1)
    else
    printf "总共读取 %d 行\n" [AInt line_num];;
    fclose fp;;
    mret 0).

(** [3.14159f] is this [float]. *)
Definition pi : arg := AFloat 13176784 (-22).
Definition int_out : string := "Integer: %d\n".
Definition float_out : string := "Float: %.2f\n".
Definition string_out : string := "String: %s\n".
Definition string_value : bytes := b "Hello, fprintf!".

Definition fprintf_example (filename : string) : M trace Z :=
  printf "\n=== fprintf 格式化写入示例 ===\n" [];;
  fp ← sys (Fopen filename FAppend);
  let fp := r_off fp in
  if fp =? 0 then
    perror "fopen";;
    mret (-1)
  else
  sys (Stdio fp (Fprintf int_out [AInt 42]));;
  sys (Stdio fp (Fprintf float_out [pi]));;
  sys (Stdio fp (Fprintf string_out [AStr string_value]));;
  printf "格式化数据已追加到文件\n" [];;
  fclose fp;;
  mret 0.

Definition int_in : string := "Integer: %d\n".
Definition float_in : string := "Float: %f\n".
Definition string_in : string := "String: %63s\n".

(** The one value that a call of [fscanf] with one conversion assigned. *)
Definition the_val (r : reply) : M trace arg :=
  match r_vals r with v :: _ => mret v | [] => ub_fail Uninit end.

Definition fscanf_example (filename : string) : M trace Z :=
  printf "\n=== fscanf 格式化读取示例 ===\n" [];;
  fp ← sys (Fopen filename FRead);
  let fp := r_off fp in
  if fp =? 0 then
    perror "fopen";;
    mret (-1)
  else
  r ← sys (Stdio fp (Fscanf int_in));
  (if r_ret r =? 1 then v ← the_val r; printf "读取整数: %d\n" [v] else mret tt);;
  r ← sys (Stdio fp (Fscanf float_in));
  (if r_ret r =? 1 then v ← the_val r; printf "读取浮点数: %.2f\n" [v] else mret tt);;
  r ← sys (Stdio fp (Fscanf string_in));
  (if r_ret r =? 1 then v ← the_val r; printf "读取字符串: %s\n" [v] else mret tt);;
  fclose fp;;
  mret 0.

Definition main_filename : string := "buffered_io_test.txt".
Definition main_data : bytes :=
  lit "Hello, Buffered I/O!\nThis is a test file for buffered I/O operations.\n".

Definition main (fuel : nat) : M trace Z :=
  r ← write_file main_filename main_data;
  if r <? 0 then eprintf "写入文件失败\n" [];; mret 1
  else
  r ← read_file fuel main_filename;
  if r <? 0 then eprintf "读取文件失败\n" [];; mret 1
  else
  r ← read_line_by_line fuel main_filename;
  if r <? 0 then eprintf "逐行读取失败\n" [];; mret 1
  else
  r ← fprintf_example main_filename;
  if r <? 0 then eprintf "格式化写入失败\n" [];; mret 1
  else
  r ← fscanf_example main_filename;
  if r <? 0 then eprintf "格式化读取失败\n" [];; mret 1
  else printf "\n所有示例完成\n" [];; mret 0.
End code.

(** The program on a system where everything works: it succeeds, but what
    [fprintf] appended is not what [fscanf] finds, which reads from the start of
    the file; nothing is read back. *)
Example buffered_io_main_runs :
  match main (e := kenv (-1) (boot ∅)) 100 [] with
  | Ok (r, tr) =>
    match replay (boot ∅) tr with
    | Some w => Some (r, content <$> files w !! main_filename, drop 12 (outs w))
    | None => None
    end
  | _ => None
  end = Some (0,
    Some (main_data ++ lit "Integer: 42\nFloat: 3.14\nString: Hello, fprintf!\n"),
    [Printf "格式化数据已追加到文件\n" []; Printf "\n=== fscanf 格式化读取示例 ===\n" [];
     Printf "\n所有示例完成\n" []]).
Proof. vm_compute. reflexivity. Qed.

(** ** The lines of a text *)

(** A text cut into lines of at most 255 characters, each with its newline. *)
Fixpoint lines_loop (fuel : nat) (s : bytes) : list bytes :=
  match fuel with
  | O => []
  | S fuel =>
    match first_line 255 s with
    | [] => []
    | l => l :: lines_loop fuel (drop (length l) s)
    end
  end.
Definition text_lines (s : bytes) : list bytes := lines_loop (length s) s.

Lemma first_line_spec n s :
  first_line n s `prefix_of` s ∧ (length (first_line n s) ≤ n)%nat ∧
  (s ≠ [] → (0 < n)%nat → first_line n s ≠ []).
Proof.
  revert s. induction n as [|n IH]; intros [|c s]; unfold first_line; fold first_line;
    try (split_and!; [apply prefix_nil|simpl; lia|done || lia]).
  case_bool_decide.
  - split_and!; [by apply prefix_cons, prefix_nil|simpl; lia|done].
  - destruct (IH s) as (? & ? & _). split_and!; [by apply prefix_cons|simpl; lia|done].
Qed.

Lemma lines_loop_fuel fuel s :
  (length s ≤ fuel)%nat → lines_loop fuel s = text_lines s.
Proof.
  unfold text_lines. remember (length s) as k eqn:Hk. intros Hle.
  assert (length s ≤ k)%nat as Hs by lia. clear Hk. revert fuel s Hle Hs.
  induction k as [|k IH]; intros fuel s Hle Hs.
  - destruct s; [|simpl in Hs; lia]. by destruct fuel.
  - destruct fuel as [|fuel]; [lia|]. cbn [lines_loop].
    destruct (first_line 255 s) as [|c l] eqn:E; [done|]. f_equal.
    apply IH; [lia|]. rewrite length_drop. simpl. lia.
Qed.

(** The first line comes off the front of the text. *)
Lemma text_lines_cons s l :
  l = first_line 255 s → l ≠ [] → text_lines s = l :: text_lines (drop (length l) s).
Proof.
  intros Hl Hne. destruct (first_line_spec 255 s) as ([rest Hrest] & _ & _). rewrite <- Hl in Hrest.
  unfold text_lines at 1. destruct s as [|c s]; [by destruct l|]. cbn [length lines_loop].
  rewrite <- Hl. destruct l as [|c' l']; [done|]. f_equal. apply lines_loop_fuel.
  rewrite length_drop. simpl. lia.
Qed.

Lemma concat_text_lines s : concat (text_lines s) = s.
Proof.
  remember (length s) as k eqn:Hk. assert (length s ≤ k)%nat as Hs by lia. clear Hk.
  revert s Hs. induction k as [|k IH]; intros s Hs.
  - by destruct s; [|simpl in Hs; lia].
  - destruct (decide (s = [])) as [->|Hne]; [done|].
    destruct (first_line_spec 255 s) as ([rest Hrest] & _ & Hfl).
    rewrite (text_lines_cons s _ eq_refl) by (apply Hfl; [done|lia]).
    specialize (Hfl Hne ltac:(lia)). remember (first_line 255 s) as l eqn:El. clear El. subst s.
    cbn. rewrite drop_app_length, IH; [done|]. rewrite length_app in Hs.
    destruct l; [done|]. simpl in Hs. lia.
Qed.

(** ** Correctness *)

Section proofs.
Context {e : Env} {w0 : world} (Henv : legal_env w0).

(** [fclose], when nothing that was written matters any more. *)
Lemma runs_close_any w fp fd f fl st off x w1 (Q : unit → world → Prop) :
  opened w fp fd f fl st off x w1 → at_end fl off x → O_SYNC ∉ fl →
  (∀ w2 x', released w w2 → files w2 = <[f := x']> (files w) → outs w2 = outs w1 →
     (s_pending st = [] → x' = x) → Q tt w2) →
  runs w0 (fclose fp) w1 Q.
Proof.
  intros Hop Hend Hsync HQ. unfold fclose. step.
  eapply (runs_fclose Henv); [done..|]. intros r w2 x' ?????. step. by eapply HQ.
Qed.
Lemma runs_close_read w fp fd f fl st off x w1 (Q : unit → world → Prop) :
  opened w fp fd f fl st off x w1 → s_pending st = [] → files w !! f = Some x →
  (∀ w2, released w w2 → files w2 = files w → outs w2 = outs w1 → Q tt w2) →
  runs w0 (fclose fp) w1 Q.
Proof.
  intros Hop Hpend Hx HQ. unfold fclose. step.
  eapply (runs_fclose_read Henv); [done..|]. intros r w2 ???. step. by eapply HQ.
Qed.

(** What [write_file] promises. *)
Definition write_post (filename : string) (data : bytes) (w : world) (r : Z) (w' : world) : Prop :=
  (r = 0 ∨ r = -1) ∧ released w w' ∧ only_file filename w w' ∧
  (r = 0 → files w' !! filename = Some (mkFile data true)).

(** A failure after the stream was opened. *)
Lemma write_fails w fp fd f st off x data w1 :
  opened w fp fd f (mode_flags FWrite) st off x w1 → at_end (mode_flags FWrite) off x →
  runs w0 (fclose fp) w1 (λ _ w2, runs w0 (mret (-1)) w2 (write_post f data w)).
Proof.
  intros Hop Hend. eapply runs_close_any; [done|done|set_solver|].
  intros w2 x' [Hb Hs] Hf _ _. steps. unfold write_post, released. split_and!; auto; [|lia].
  intros q Hq. by rewrite Hf, lookup_insert_ne.
Qed.

Ltac fails :=
  steps; eapply write_fails; [|done];
  repeat first [eassumption | apply opened_print | apply opened_set_sigs].

(** C32: [write_file] ends with 0 or -1, releases its stream and its descriptor,
    touches no other file, and returns 0 only when the file holds exactly the
    data and all of it has left the buffer and reached the disk. *)
Theorem buffered_write_durable filename data w :
  runs w0 (write_file filename data) w (write_post filename data w).
Proof.
  assert (O_SYNC ∉ mode_flags FWrite) as Hsync by set_solver.
  unfold write_file. steps. eapply (runs_fopen Henv).
  { intros r n Hr _. step; [|lia]. steps. unfold write_post, released. settle. }
  intros r w1 x Hr _ Hop%opened_after_print Hx _. step; [lia|]. step.
  assert (at_end (mode_flags FWrite) 0 x) as Hend by (right; by rewrite Hx).
  eapply (runs_setvbuf Henv); [exact Hop|]. intros r1. step; [fails|]. step.
  eapply (runs_fwrite Henv); [exact Hop|done|done|].
  intros r2 w2 st2 off2 x2 Hr2 Hop2 Hend2 _ Hfin2. step.
  { step. eapply (runs_ferror Henv); [exact Hop2|]. intros r3 _. step.
    step; fails. }
  do 3 step. eapply (runs_fflush Henv); [by apply opened_print|done|done|].
  intros r3 w3 st3 off3 x3 Hop3 Hend3 _ Hfin3 Hp3. step; [fails|]. steps.
  eapply (runs_fileno Henv); [by apply opened_print|]. intros r4 ->. step.
  pose proof (opened_print _ _ _ _ _ _ _ _ _ (Printf "fflush 完成，数据已刷新到内核 page cache\n" []) Hop3)
    as Hop3'.
  eapply (runs_sync Henv); [by left|by eapply opened_ofile|by eapply opened_file|..].
  { intros r5 n Hr5 _ _. step; [|lia]. fails. }
  intros r5 Hr5. step; [lia|]. steps. eapply runs_close_any;
    [by eapply opened_print, opened_sync|done|done|].
  intros w4 x4 [Hb4 Hs4] Hf4 _ Hx4. step. unfold write_post, released. split_and!; auto.
  - intros q Hq. by rewrite Hf4, lookup_insert_ne.
  - intros _. specialize (Hp3 ltac:(done)). rewrite Hf4, lookup_insert_eq, (Hx4 Hp3). do 2 f_equal.
    unfold final in *. rewrite Hp3, app_nil_r, Hfin2, Hx in Hfin3. cbn in Hfin3.
    rewrite Hfin3. apply take_ge. unfold zlen in *. lia.
Qed.
(** *** [read_file] *)

(** What [read_file] prints for the chunks it reads. *)
Definition chunk_line (c : bytes) : output :=
  Printf "读取 %zu 字节: %.*s\n" [ANum size_t (zlen c); AInt (zlen c); AStr c].

(** The stream has delivered the [d] at the front of the file. *)
Definition delivered (w : world) (fp fd : Z) (f : string) (x : file) (d : bytes) (err : bool)
    (w1 : world) : Prop :=
  ∃ st, opened w fp fd f [O_RDONLY] st (zlen d) x w1 ∧ s_pending st = [] ∧ s_err st = err ∧
    d `prefix_of` content x ∧ (s_eof st = true → d = content x).

(** Closing the stream, on success as on failure. *)
Lemma delivered_close w fp fd f x d err w1 (Q : unit → world → Prop) :
  delivered w fp fd f x d err w1 → files w !! f = Some x →
  (∀ w2, released w w2 → files w2 = files w → outs w2 = outs w1 → Q tt w2) →
  runs w0 (fclose fp) w1 Q.
Proof. intros (st & Hop & Hp & _) Hf HQ. by eapply runs_close_read. Qed.

Lemma delivered_print w fp fd f x d err w1 y :
  delivered w fp fd f x d err w1 → delivered w fp fd f x d err (print y w1).
Proof. intros (st & Hop & ?). exists st. split; [by apply opened_print|done]. Qed.

Lemma delivered_err w fp fd f x d err w1 (Q : reply → world → Prop) :
  delivered w fp fd f x d err w1 → (∀ r, (r_ret r ≠ 0 ↔ err = true) → Q r w1) →
  runs w0 (sys (Stdio fp Ferror)) w1 Q.
Proof. intros (st & Hop & _ & <- & _) HQ. by eapply (runs_ferror Henv). Qed.

(** What is left to read is the rest of the file, unless its end was met. *)
Lemma delivered_input w fp fd f x d st w1 :
  opened w fp fd f [O_RDONLY] st (zlen d) x w1 → d `prefix_of` content x →
  (s_eof st = true → d = content x) → content x = d ++ input st (zlen d) x.
Proof.
  intros _ [rest Hrest] Heof. unfold input. destruct (s_eof st).
  - rewrite app_nil_r. symmetry. by apply Heof.
  - rewrite Hrest. unfold zlen. rewrite Nat2Z.id. by rewrite drop_app_length.
Qed.

Definition reading (w : world) (fp fd : Z) (f : string) (x : file) (chunks : list bytes)
    (err : bool) (w1 : world) : Prop :=
  delivered w fp fd f x (concat chunks) err w1 ∧
  outs w1 = outs w ++ (chunk_line <$> chunks).

Lemma fread_loop_ok fuel w fp fd f x w1 :
  files w !! f = Some x → "000"%char ∉ content x → zlen (content x) < 2 ^ 63 →
  reading w fp fd f x [] false w1 → (length (content x) < fuel)%nat →
  runs w0 (loop fuel (read_body fp) (new_buffer BUFFER_SIZE, 0)) w1 (λ y w2, match y with
    | Left total => total = zlen (content x) ∧
        ∃ chunks, concat chunks = content x ∧ reading w fp fd f x chunks false w2
    | Returned z => z = -1 ∧ released w w2 ∧ files w2 = files w
    end).
Proof.
  intros Hf Hnul Hlen HI Hfuel.
  apply (runs_loop (λ (a : buffer * Z) w1, ∃ chunks err, reading w fp fd f x chunks err w1 ∧
      a.2 = zlen (concat chunks))
    (λ a w1, Z.to_nat (zlen (content x) - a.2))%nat); [by exists [], false|cbn; unfold zlen; lia|].
  intros [buf total] w2 (chunks & err & [(st & Hop & Hpend & Herr & Hpre & Heof) Houts] & Htot).
  cbn in Htot. subst total. pose proof (delivered_input _ _ _ _ _ _ _ _ Hop Hpre Heof) as Hin.
  set (d := concat chunks) in *. unfold read_body. step.
  eapply (runs_fread Henv); [exact Hop|done|].
  intros r w3 err' eof' Hr Hri Hdata Hok Hbad Hop3 Houts3.
  set (rest := input st (zlen d) x) in *. step.
  - step. eapply (runs_ferror Henv); [exact Hop3|]. intros r1 Hr1. cbn in Hr1. step.
    { steps. eapply runs_close_read; [by apply opened_print|done|done|].
      intros w4 Hrel Hf4 _. step. done. }
    assert (s_err st || err' = false) as [Hst Herr']%orb_false_iff.
    { destruct (s_err st || err'); [|done]. destruct Hr1 as [_ Hr1]. by destruct Hr1. }
    destruct (Hok Herr') as [Hret Heof'].
    assert (rest = []) as Hrest.
    { destruct rest; [done|]. unfold zlen, BUFFER_SIZE in *. simpl in *. lia. }
    step. eapply (runs_feof Henv); [exact Hop3|]. intros r2 Hr2. cbn in Hr2. step.
    2: { exfalso. replace (r_ret r) with 0 in Heof' by done. rewrite Heof', orb_true_r in Hr2.
         by apply Hr2. }
    steps. rewrite Hrest, app_nil_r in Hin. split; [by rewrite Hin|].
    exists chunks. split; [done|]. unfold reading. split; [|by rewrite Houts3].
    eexists. split; [by replace (zlen (concat chunks)) with (zlen d + r_ret r) by (unfold d; lia)|].
    cbn. rewrite Hst, Herr'. split_and!; done.
  - remember (r_data r) as c eqn:Hc.
    assert (r_ret r = zlen c) as Hrc.
    { rewrite Hdata. unfold zlen in *. rewrite length_take. lia. }
    assert (0 < zlen c) as Hc0 by lia.
    assert (content x = (d ++ c) ++ drop (Z.to_nat (r_ret r)) rest) as Hin'.
    { by rewrite <- app_assoc, Hdata, take_drop. }
    assert ("000"%char ∉ c) as Hnulc.
    { intros Hi. apply Hnul. rewrite Hin', !elem_of_app. auto. }
    assert (zlen d + zlen c ≤ zlen (content x)) as Hle.
    { rewrite Hin', !zlen_app. pose proof (zlen_nonneg (drop (Z.to_nat (r_ret r)) rest)). lia. }
    pose proof (zlen_nonneg d). rewrite Hrc. step.
    eapply runs_pure; [intros tr; unfold zlen; rewrite Nat2Z.id; by apply c_strn_fill|]. steps.
    assert (u64 (zlen d + zlen c) = zlen d + zlen c) as ->.
    { unfold u64. apply Z.mod_small. lia. }
    cbn. split; [|lia]. exists (chunks ++ [c]), (s_err st || err').
    rewrite concat_app. cbn. rewrite app_nil_r. fold d. rewrite zlen_app.
    split; [|done]. unfold reading. rewrite concat_app. cbn. rewrite app_nil_r. fold d.
    split; [|cbn; by rewrite Houts3, Houts, fmap_app, app_assoc].
    eexists. split; [apply opened_print; rewrite zlen_app, <- Hrc; exact Hop3|]. cbn.
    split_and!; [done|done|by rewrite Hin'; apply prefix_app_r|].
    intros He. destruct (s_eof st) eqn:Hes.
    + specialize (Heof eq_refl). rewrite <- Heof in Hle. lia.
    + cbn in He. destruct err'; [by rewrite Hbad in He|].
      destruct (Hok eq_refl) as [Hret ->]. propify. rewrite Hin', drop_ge, app_nil_r; [done|].
      unfold zlen in *. lia.
Qed.

(** [read_file] ends with 0 or -1, changes no file and releases its stream
    and its descriptor. When it returns 0 the file exists, and the chunks it
    printed are, one after the other, the content of the file, followed by a line
    with its size. *)
Lemma buffered_read_prints fuel filename w :
  (∀ x, files w !! filename = Some x →
     ("000"%char ∉ content x) ∧ zlen (content x) < 2 ^ 63 ∧ (length (content x) < fuel)%nat) →
  runs w0 (read_file fuel filename) w (λ r w',
    (r = 0 ∨ r = -1) ∧ released w w' ∧ files w' = files w ∧
    (r = 0 → ∃ x chunks, files w !! filename = Some x ∧ concat chunks = content x ∧
       outs w' = outs w ++ [Printf "\n=== 缓冲 I/O 读取示例 ===\n" []] ++ (chunk_line <$> chunks) ++
         [Printf "总共读取 %zu 字节\n" [ANum size_t (zlen (content x))]])).
Proof.
  intros Hfile. unfold read_file. steps. eapply (runs_fopen Henv).
  { intros r n Hr _. step; [|lia]. steps. unfold released. settle. }
  intros r w1 x Hr Houts Hop _ Hx. specialize (Hx eq_refl). cbn in Hx.
  destruct (Hfile x Hx) as (Hnul & Hlen & Hfuel). step; [lia|]. step.
  eapply (runs_setvbuf Henv); [exact Hop|]. intros r1. step.
  { steps. eapply runs_close_read; [by apply opened_print|done|done|].
    intros w2 Hrel Hf2 _. steps. split; [by right|]. split_and!; [apply Hrel|done|lia]. }
  step. eapply runs_mono.
  { eapply (fread_loop_ok _ (print (Printf "\n=== 缓冲 I/O 读取示例 ===\n" []) w)); [done..| |done].
    split; [|by rewrite app_nil_r].
    eexists. split; [exact Hop|]. split_and!; try done. apply prefix_nil. }
  intros [total|z] w2; cbn beta iota.
  2: { intros (-> & Hrel & Hf2). split; [by right|]. split_and!; [apply Hrel|done|lia]. }
  intros (-> & chunks & Hchunks & Hdel & Houts2). steps.
  eapply delivered_close; [by apply delivered_print|done|]. intros w3 Hrel Hf3 Houts3. steps.
  split; [by left|]. split_and!; [apply Hrel|done|]. intros _. exists x, chunks.
  split_and!; [done|done|]. rewrite Houts3. cbn. rewrite Houts2. cbn. by rewrite <- !app_assoc.
Qed.
(** *** [read_line_by_line] *)

(** What is printed for the lines, numbered from 1. *)
Definition line_lines (ls : list bytes) : list output :=
  imap (λ i l, Printf "第 %d 行: %s" [AInt (Z.of_nat i + 1); AStr (upto_nul l)]) ls.

Definition reading_lines (w : world) (fp fd : Z) (f : string) (x : file) (ls : list bytes)
    (err : bool) (w1 : world) : Prop :=
  delivered w fp fd f x (concat ls) err w1 ∧
  text_lines (content x) = ls ++ text_lines (drop (length (concat ls)) (content x)) ∧
  (length ls ≤ length (concat ls))%nat ∧
  outs w1 = outs w ++ line_lines ls.

Lemma line_loop_ok fuel w fp fd f x w1 :
  files w !! f = Some x → zlen (content x) ≤ INT_MAX →
  reading_lines w fp fd f x [] false w1 → (length (content x) < fuel)%nat →
  runs w0 (loop fuel (line_body fp) (new_buffer 256, 0)) w1 (λ y w2, match y with
    | Left n => ∃ ls err, n = zlen ls ∧ reading_lines w fp fd f x ls err w2 ∧
        (err = false → ls = text_lines (content x))
    | Returned z => False
    end).
Proof.
  intros Hf Hlen HI Hfuel.
  apply (runs_loop (λ (a : buffer * Z) w1, ∃ ls, reading_lines w fp fd f x ls false w1 ∧
      zlen a.1 = 256 ∧ a.2 = zlen ls)
    (λ a w1, Z.to_nat (zlen (content x) - a.2))%nat); [by exists []|cbn; unfold zlen; lia|].
  intros [buf n] w2 (ls & [(st & Hop & Hpend & Herr & Hpre & Heof) (Hls & Hnum & Houts)] & Hbuf & Hn).
  cbn in Hbuf, Hn. subst n. pose proof (delivered_input _ _ _ _ _ _ _ _ Hop Hpre Heof) as Hin.
  set (d := concat ls) in *. set (rest := input st (zlen d) x) in *.
  assert (drop (length d) (content x) = rest) as Hdrop by (rewrite Hin; apply drop_app_length).
  rewrite Hdrop in Hls. unfold line_body. step. rewrite Hbuf.
  eapply (runs_fgets Henv); [exact Hop| |].
  - intros r w3 Hr Hop3 Houts3. step; [|lia]. steps. fold rest in Hop3.
    exists ls, (negb (bool_decide (rest = []))). split; [done|]. split.
    + split_and!; [|by fold d; rewrite Hdrop|done|by rewrite Houts3]. eexists. split; [exact Hop3|]. cbn.
      rewrite Herr. split_and!; [done|done|done|]. intros [He|He]%orb_true_iff; [by apply Heof|].
      apply bool_decide_eq_true in He. by rewrite Hin, He, app_nil_r.
    + intros He. rewrite negb_false_iff, bool_decide_eq_true in He. by rewrite Hls, He, app_nil_r.
  - intros r w3 eof l Hr Hne Hdata Heof' Hop3 Houts3. fold rest in Heof'.
    assert (l = first_line 255 rest) as Hl by done. clearbody l.
    destruct (first_line_spec 255 rest) as ([tail Htail] & Hl255 & _). rewrite <- Hl in Htail, Hl255.
    rewrite (text_lines_cons rest l Hl Hne) in Hls. rewrite Htail, drop_app_length in Hls.
    assert (content x = (d ++ l) ++ tail) as Hin' by (by rewrite Hin, Htail, app_assoc).
    assert (0 < length l)%nat as Hl0 by (destruct l; [done|simpl; lia]).
    assert (zlen d + zlen l ≤ zlen (content x)) as Hle.
    { rewrite Hin', !zlen_app. pose proof (zlen_nonneg tail). lia. }
    assert (zlen (ls ++ [l]) = zlen ls + 1) as Hcount by (by rewrite zlen_app).
    assert (zlen ls ≤ zlen d) as Hnum' by (unfold zlen; lia).
    step; [lia|]. rewrite Hdata. step.
    destruct (put_fill (S := trace) l buf) as (buf' & Hput & Hbl & Hstr).
    { rewrite Hbuf. unfold zlen. lia. }
    eapply runs_pure; [exact Hput|]. step. eapply runs_pure.
    { intros tr. apply int_val_ok. unfold INT_MIN, INT_MAX, zlen in *. lia. }
    step. eapply runs_pure; [exact Hstr|]. steps.
    cbn. split; [|unfold zlen in *; lia]. exists (ls ++ [l]).
    split_and!; [|by rewrite <- Hbuf|done].
    unfold reading_lines. rewrite concat_app. cbn. rewrite app_nil_r. fold d. split_and!.
    + eexists. split; [apply opened_print; rewrite zlen_app; exact Hop3|]. cbn.
      split_and!; [done|done|by rewrite Hin'; apply prefix_app_r|].
      intros [He|He]%orb_true_iff.
      * specialize (Heof He). apply (f_equal zlen) in Heof. unfold zlen in *. lia.
      * specialize (Heof' He). assert (tail = []) as Ht.
        { apply (f_equal length) in Htail. rewrite length_app in Htail. destruct tail; [done|].
          simpl in Htail. lia. }
        by rewrite Hin', Ht, app_nil_r.
    + rewrite <- app_assoc. cbn. by rewrite Hin', drop_app_length, <- Hin'.
    + rewrite !length_app. simpl. lia.
    + rewrite Houts3, Houts, <- app_assoc. f_equal. unfold line_lines. rewrite imap_app. cbn.
      by rewrite Nat.add_0_r.
Qed.

(** [read_line_by_line] ends with 0 or -1, changes no file, stays within
    [line] and releases its stream and its descriptor. When it returns 0 it has
    printed the lines of the file (of at most 255 characters, which put together
    again give the file), numbered from 1, and then their number. *)
Lemma buffered_lines_printed fuel filename w :
  (∀ x, files w !! filename = Some x →
     zlen (content x) ≤ INT_MAX ∧ (length (content x) < fuel)%nat) →
  runs w0 (read_line_by_line fuel filename) w (λ r w',
    (r = 0 ∨ r = -1) ∧ released w w' ∧ files w' = files w ∧
    (r = 0 → ∃ x, files w !! filename = Some x ∧
       concat (text_lines (content x)) = content x ∧
       outs w' = outs w ++ [Printf "\n=== 逐行读取示例 ===\n" []] ++
         line_lines (text_lines (content x)) ++
         [Printf "总共读取 %d 行\n" [AInt (zlen (text_lines (content x)))]])).
Proof.
  intros Hfile. unfold read_line_by_line. steps. eapply (runs_fopen Henv).
  { intros r n Hr _. step; [|lia]. steps. unfold released. settle. }
  intros r w1 x Hr Houts Hop _ Hx. specialize (Hx eq_refl). cbn in Hx.
  destruct (Hfile x Hx) as (Hlen & Hfuel). step; [lia|]. step.
  eapply (runs_setvbuf Henv); [exact Hop|]. intros r1. step.
  { steps. eapply runs_close_read; [by apply opened_print|done|done|].
    intros w2 Hrel Hf2 _. steps. split; [by right|]. split_and!; [apply Hrel|done|lia]. }
  step. eapply runs_mono.
  { eapply (line_loop_ok _ (print (Printf "\n=== 逐行读取示例 ===\n" []) w)); [done..| |done].
    split_and!; [|done|done|by rewrite app_nil_r].
    eexists. split; [exact Hop|]. split_and!; try done. apply prefix_nil. }
  intros [n|z] w2; cbn beta iota; [|done].
  intros (ls & err & -> & (Hdel & _ & _ & Houts2) & Hls). step.
  eapply delivered_err; [exact Hdel|]. intros r2 Hr2. step.
  { steps. eapply delivered_close; [by apply delivered_print|done|].
    intros w3 Hrel Hf3 _. steps. split; [by right|]. split_and!; [apply Hrel|done|lia]. }
  assert (err = false) as He by (destruct err; [by destruct Hr2 as [_ []]|done]).
  rewrite (Hls He) in *. steps. eapply delivered_close; [by apply delivered_print|done|].
  intros w3 Hrel Hf3 Houts3. steps. split; [by left|]. split_and!; [apply Hrel|done|].
  intros _. exists x. split_and!; [done|apply concat_text_lines|].
  rewrite Houts3. cbn. rewrite Houts2. cbn. by rewrite <- !app_assoc.
Qed.
(** *** The formatted examples *)

(** [fprintf_example] and [fscanf_example] end with 0 or -1, print only values
    that were read, and release what they opened on every path. *)
Lemma fprintf_example_released filename w :
  runs w0 (fprintf_example filename) w (λ r w',
    (r = 0 ∨ r = -1) ∧ released w w' ∧ only_file filename w w').
Proof.
  unfold fprintf_example. steps. eapply (runs_fopen Henv).
  { intros r n Hr _. step; [|lia]. steps. unfold released. settle. }
  assert (O_SYNC ∉ mode_flags FAppend) as Hsync by set_solver.
  assert (∀ off x, at_end (mode_flags FAppend) off x) as Hend by (left; set_solver).
  intros r w1 x Hr _ Hop _ _. step; [lia|]. step.
  eapply (runs_fprintf Henv); [exact Hop|done|done|]. intros _ w2 st2 off2 x2 ? Hop2 _ _ _ _. step.
  eapply (runs_fprintf Henv); [exact Hop2|done|done|]. intros _ w3 st3 off3 x3 ? Hop3 _ _ _ _. step.
  eapply (runs_fprintf Henv); [exact Hop3|done|done|]. intros _ w4 st4 off4 x4 ? Hop4 _ _ _ _. steps.
  eapply runs_close_any; [by apply opened_print|done|done|]. intros w5 x5 Hrel Hf5 _ _. steps.
  split_and!; [by left|apply Hrel|]. intros q Hq. by rewrite Hf5, lookup_insert_ne.
Qed.

Lemma the_val_ok r w (Q : arg → world → Prop) :
  r_ret r = -1 ∨ r_ret r = zlen (r_vals r) → r_ret r = 1 → (∀ v, Q v w) →
  runs w0 (the_val r) w Q.
Proof.
  intros Hr H1 HQ. unfold the_val. destruct (r_vals r) as [|v vs].
  - unfold zlen in Hr. simpl in Hr. lia.
  - by step.
Qed.

Lemma fscanf_example_released filename w :
  runs w0 (fscanf_example filename) w (λ r w',
    (r = 0 ∨ r = -1) ∧ released w w' ∧ files w' = files w).
Proof.
  unfold fscanf_example. steps. eapply (runs_fopen Henv).
  { intros r n Hr _. step; [|lia]. steps. unfold released. settle. }
  intros r w1 x Hr _ Hop _ Hx. specialize (Hx eq_refl). cbn in Hx. step; [lia|].
  apply opened_after_print in Hop.
  assert (∀ fmt text st off w1 (k : M trace Z) Q,
    opened w (r_off r) (r_fds r).1 filename (mode_flags FRead) st off x w1 → s_pending st = [] →
    (∀ w2 st' off', opened w (r_off r) (r_fds r).1 filename (mode_flags FRead) st' off' x w2 →
       s_pending st' = [] → runs w0 k w2 Q) →
    runs w0 (r ← sys (Stdio (r_off r) (Fscanf fmt));
      (if r_ret r =? 1 then v ← the_val r; printf text [v] else mret tt);; k) w1 Q) as Hscan.
  { intros fmt text st off w2 k Q Hop2 Hp2 HQ. step. eapply (runs_fscanf Henv); [exact Hop2|].
    intros r2 w3 st' off' Hr2 Hop3 Hp3 _. rewrite Hp2 in Hp3. step. step.
    - step. apply the_val_ok; [done|done|]. intros v. step. eapply HQ; [by apply opened_print|done].
    - step. by eapply HQ. }
  eapply Hscan; [exact Hop|done|]. clear w1 Hop. intros w1 st1 off1 Hop Hp.
  eapply Hscan; [exact Hop|done|]. clear w1 Hop. intros w1 st2 off2 Hop Hp2.
  eapply Hscan; [exact Hop|done|]. clear w1 Hop. intros w1 st3 off3 Hop Hp3.
  steps. eapply runs_close_read; [done|done|done|]. intros w2 Hrel Hf2 _. steps.
  split_and!; [by left|apply Hrel|done].
Qed.
End proofs.

(** ** What [fprintf_example] writes, [fscanf_example] reads *)

Lemma skip_space_idem s : skip_space (skip_space s) = skip_space s.
Proof.
  induction s as [|c s IH]; [done|]. simpl. destruct (is_space c) eqn:E; [done|]. simpl. by rewrite E.
Qed.

Lemma round_div_nonneg n d : 0 ≤ n → 0 < d → 0 ≤ round_div n d.
Proof. intros. unfold round_div. pose proof (Z.div_pos n d). case_match; lia. Qed.
Lemma hundredths_nonneg m e : 0 ≤ m → 0 ≤ hundredths m e.
Proof.
  intros. unfold hundredths. case_match; propify.
  - pose proof (Z.pow_nonneg 2 e). nia.
  - apply round_div_nonneg; [lia|]. apply Z.pow_pos_nonneg; lia.
Qed.

(** A conversion between a literal and a newline. *)
Lemma scan_int_line s :
  scan (lit int_in) (b "Integer: " ++ s) =
  match scan_int (skip_space s) with
  | (None, s) => ([], s)
  | (Some v, s) => ([v], skip_space s)
  end.
Proof. reflexivity. Qed.
Lemma scan_float_line s :
  scan (lit float_in) (b "Float: " ++ s) =
  match scan_float (skip_space s) with
  | (None, s) => ([], s)
  | (Some v, s) => ([v], skip_space s)
  end.
Proof. reflexivity. Qed.
Lemma scan_string_line s :
  scan (lit string_in) (b "String: " ++ s) =
  match scan_word 63 (skip_space s) with
  | (None, s) => ([], s)
  | (Some v, s) => ([v], skip_space s)
  end.
Proof. reflexivity. Qed.

(** On a file that holds the three lines of [fprintf_example] for any integer,
    any non-negative [float] and any word of at most 63 characters, the formats of
    [fscanf_example] read back the integer, the [float] nearest to the two decimals
    that were printed, and the word, and nothing is left over. *)
Lemma formats_roundtrip z m e word :
  0 ≤ m → word ≠ [] → (length word ≤ 63)%nat → Forall (λ c, is_space c = false) word →
  let text := format (lit int_out) [AInt z] ++ format (lit float_out) [AFloat m e] ++
              format (lit string_out) [AStr word] in
  ∃ rest1 rest2,
    scan (lit int_in) text = ([AInt z], rest1) ∧
    scan (lit float_in) rest1 =
      ([let (m', e') := nearest_float (hundredths m e) 100 in AFloat m' e'], rest2) ∧
    scan (lit string_in) rest2 = ([AStr word], []).
Proof.
  intros Hm Hne Hlen Hw.
  assert (format (lit int_out) [AInt z] = b "Integer: " ++ show_int z ++ [newline]) as -> by done.
  assert (format (lit float_out) [AFloat m e] =
    b "Float: " ++ show_hundredths (hundredths m e) ++ [newline]) as ->.
  { transitivity (b "Float: " ++ show_float2 m e ++ [newline]); [done|].
    unfold show_float2. by destruct (Z.ltb_spec m 0); [lia|]. }
  assert (format (lit string_out) [AStr word] = b "String: " ++ word ++ [newline]) as -> by done.
  rewrite <- !app_assoc.
  eexists (b "Float: " ++ show_hundredths (hundredths m e) ++ [newline] ++ b "String: " ++ word ++ [newline]),
    (b "String: " ++ word ++ [newline]). split_and!.
  - rewrite scan_int_line. unfold scan_int at 1. rewrite skip_space_idem. fold (scan_int (show_int z ++ [newline] ++
      b "Float: " ++ show_hundredths (hundredths m e) ++ [newline] ++ b "String: " ++ word ++ [newline])).
    by rewrite scan_show_int.
  - rewrite scan_float_line.
    unfold scan_float at 1. rewrite skip_space_idem.
    fold (scan_float (show_hundredths (hundredths m e) ++ [newline] ++ b "String: " ++ word ++ [newline])).
    rewrite scan_show_hundredths; [|by apply hundredths_nonneg|done].
    by destruct (nearest_float _ _).
  - rewrite scan_string_line. unfold scan_word at 1. rewrite skip_space_idem.
    fold (scan_word 63 (word ++ [newline])). by rewrite scan_word_app.
Qed.

(** ** The two examples, one after the other *)

Section examples.
Context {e : Env} {w0 : world} (Henv : legal_env w0).

(** What [fprintf_example] writes. *)
Definition three_lines : bytes := lit "Integer: 42\nFloat: 3.14\nString: Hello, fprintf!\n".

Definition writing_lines : list output :=
  [Printf "\n=== fprintf 格式化写入示例 ===\n" []; Printf "格式化数据已追加到文件\n" []].
Definition reading_banner : output := Printf "\n=== fscanf 格式化读取示例 ===\n" [].
Definition values_read : list output :=
  [Printf "读取整数: %d\n" [AInt 42]; Printf "读取浮点数: %.2f\n" [AFloat 13170115 (-22)];
   Printf "读取字符串: %s\n" [AStr (b "Hello,")]].

(** Appending to a stream that works. *)
Lemma runs_fprintf_works w fp fd f st off x w1 fmt args (Q : reply → world → Prop) :
  streams_work w0 → opened w fp fd f (mode_flags FAppend) st off x w1 →
  (∀ r w2 st' off' x', opened w fp fd f (mode_flags FAppend) st' off' x' w2 → outs w2 = outs w1 →
     final x' st' = final x st ++ format (lit fmt) args → Q r w2) →
  runs w0 (sys (Stdio fp (Fprintf fmt args))) w1 Q.
Proof.
  intros Hsw Hop HQ. apply (runs_fact _ _ (λ r, 0 ≤ r_ret r)).
  { intros tr Htr. eapply (fprintf_works _ Hsw); [exact Htr|]. eexists. by eapply opened_stream. }
  eapply (runs_fprintf Henv); [exact Hop|left; set_solver|set_solver|].
  intros r w2 st' off' x' text Hop2 _ Ho2 Hfin Htext Hr. rewrite (Htext Hr) in Hfin. by eapply HQ.
Qed.

Lemma fprintf_example_appends f w :
  streams_work w0 →
  runs w0 (fprintf_example f) w (λ r w', r = 0 ∧ released w w' ∧ outs w' = outs w ++ writing_lines ∧
    ∃ x, files w' = <[f := x]> (files w) ∧ content x = default [] (content <$> files w !! f) ++ three_lines).
Proof.
  intros Hsw. unfold fprintf_example. step. step. step.
  apply (runs_fact _ _ (λ r, r_off r ≠ 0)).
  { intros tr Htr. eapply (fopen_works _ Hsw); [exact Htr|by left]. }
  eapply (runs_fopen Henv); [done|]. intros r w1 x _ Ho1 Hop Hx _ Hr. step; [done|].
  apply opened_after_print in Hop.
  step. eapply runs_fprintf_works; [done|exact Hop|]. intros _ w2 st2 off2 x2 Hop2 Ho2 Hf2.
  step. eapply runs_fprintf_works; [done|exact Hop2|]. intros _ w3 st3 off3 x3 Hop3 Ho3 Hf3.
  step. eapply runs_fprintf_works; [done|exact Hop3|]. intros _ w4 st4 off4 x4 Hop4 Ho4 Hf4.
  step. step. step. unfold fclose. step. apply (runs_fact _ _ (λ r, r_ret r = 0)).
  { intros tr Htr. eapply (fclose_works _ Hsw); [exact Htr|]. eexists.
    eapply opened_stream, opened_print, Hop4. }
  eapply (runs_fclose Henv); [apply opened_print; exact Hop4|left; set_solver|set_solver|].
  intros rc w5 x5 Hrel Hf5 Ho5 Hc _ Hrc. steps. split; [done|]. split; [done|]. split.
  { rewrite Ho5. cbn. rewrite Ho4, Ho3, Ho2, Ho1. cbn. by rewrite <- app_assoc. }
  exists x5. split; [done|]. rewrite (Hc Hrc), Hf4, Hf3, Hf2, <- !app_assoc. f_equal.
  rewrite Hx. unfold final. cbn. rewrite app_nil_r. by destruct (files w !! f).
Qed.

(** [fscanf] of one value from a stream that works, and its line on the screen. *)
Lemma runs_scan_value w fp fd f st off x w1 fmt text v rest (k : M trace Z) (Q : Z → world → Prop) :
  streams_work w0 → opened w fp fd f (mode_flags FRead) st off x w1 → s_pending st = [] → s_eof st = false →
  scan (lit fmt) (drop (Z.to_nat off) (content x)) = ([v], rest) →
  (∀ w2 st', s_pending st' = [] → s_eof st' = bool_decide (rest = []) →
     opened w fp fd f (mode_flags FRead) st'
       (off + Z.of_nat (length (drop (Z.to_nat off) (content x)) - length rest)) x w2 →
     outs w2 = outs w1 ++ [Printf text [v]] → runs w0 k w2 Q) →
  runs w0 (r ← sys (Stdio fp (Fscanf fmt));
    (if r_ret r =? 1 then v ← the_val r; printf text [v] else mret tt);; k) w1 Q.
Proof.
  intros Hsw Hop Hp Heof Hscan HQ. step.
  assert (input st off x = drop (Z.to_nat off) (content x)) as Hin by (unfold input; by rewrite Heof).
  rewrite <- Hin in *.
  eapply (runs_fscanf_match Henv); [exact Hop|exact Hscan|done|..].
  { intros tr Htr. eapply (fscanf_works _ Hsw); [exact Htr|by eapply opened_stream|].
    erewrite stream_input_opened by exact Hop. by rewrite Hscan. }
  intros r w2 Hr Hv Hop2 Ho2. destruct (Z.eqb_spec (r_ret r) 1) as [_|Hn]; [|by destruct Hn].
  step. step. unfold the_val. rewrite Hv. step. step. eapply HQ; [| |by apply opened_print|by cbn; rewrite Ho2]; [done|].
  cbn. by rewrite Heof.
Qed.

(** [fscanf] of a value that is not there. *)
Lemma runs_scan_nothing w fp fd f st off x w1 fmt text (k : M trace Z) (Q : Z → world → Prop) :
  opened w fp fd f (mode_flags FRead) st off x w1 → s_pending st = [] → s_eof st = false →
  scan (lit fmt) (drop (Z.to_nat off) (content x)) = ([], drop (Z.to_nat off) (content x)) →
  drop (Z.to_nat off) (content x) ≠ [] →
  (∀ w2 st', s_pending st' = [] → s_eof st' = false → opened w fp fd f (mode_flags FRead) st' off x w2 →
     outs w2 = outs w1 → runs w0 k w2 Q) →
  runs w0 (r ← sys (Stdio fp (Fscanf fmt));
    (if r_ret r =? 1 then v ← the_val r; printf text [v] else mret tt);; k) w1 Q.
Proof.
  intros Hop Hp Heof Hscan Hne HQ. step.
  assert (input st off x = drop (Z.to_nat off) (content x)) as Hin by (unfold input; by rewrite Heof).
  rewrite <- Hin in *.
  eapply (runs_fscanf_mismatch Henv); [exact Hop|exact Hscan|exact Hne|].
  intros r w2 err Hr Hop2 Ho2. rewrite (proj2 (Z.eqb_neq _ _)) by done. step. step.
  by eapply HQ; [..|exact Hop2|].
Qed.

Lemma fscanf_example_reads f x w :
  streams_work w0 → files w !! f = Some x →
  content x = three_lines ∨ content x = main_data ++ three_lines →
  runs w0 (fscanf_example f) w (λ r w', r = 0 ∧ released w w' ∧ files w' = files w ∧
    outs w' = outs w ++ reading_banner :: (if bool_decide (content x = three_lines) then values_read else [])).
Proof.
  intros Hsw Hx Hc. unfold fscanf_example. step. step. step.
  apply (runs_fact _ _ (λ r, r_off r ≠ 0)).
  { intros tr Htr. eapply (fopen_works _ Hsw); [exact Htr|]. right. by eexists. }
  eapply (runs_fopen Henv); [done|]. intros r w1 y _ Ho1 Hop _ Hy Hr. specialize (Hy eq_refl). cbn in Hy.
  rewrite Hx in Hy. injection Hy as <-. step; [done|]. apply opened_after_print in Hop.
  assert (∀ w2 st off o, opened w (r_off r) (r_fds r).1 f (mode_flags FRead) st off x w2 → s_pending st = [] →
    outs w2 = outs w1 ++ o →
    runs w0 (fclose (r_off r);; mret 0) w2 (λ r w', r = 0 ∧ released w w' ∧ files w' = files w ∧
      outs w' = outs w ++ reading_banner :: o)) as Hclose.
  { intros w2 st off o Hop2 Hp Ho. step. eapply (runs_close_read Henv); [exact Hop2|done|done|].
    intros w3 Hrel Hf3 Ho3. steps. split_and!; [done..|]. rewrite Ho3, Ho, Ho1. cbn. by rewrite <- app_assoc. }
  destruct Hc as [Hc|Hc].
  - rewrite bool_decide_eq_true_2 by done.
    eapply runs_scan_value; [done|exact Hop|done|done|rewrite Hc; vm_compute; reflexivity|].
    intros w2 st2 Hp2 He2 Hop2 Ho2. rewrite Hc in Hop2.
    eapply runs_scan_value; [done|exact Hop2|done|by rewrite He2|rewrite Hc; vm_compute; reflexivity|].
    intros w3 st3 Hp3 He3 Hop3 Ho3. rewrite Hc in Hop3.
    eapply runs_scan_value; [done|exact Hop3|done|by rewrite He3|rewrite Hc; vm_compute; reflexivity|].
    intros w4 st4 Hp4 _ Hop4 Ho4. eapply Hclose; [exact Hop4|done|].
    rewrite Ho4, Ho3, Ho2, <- !app_assoc. done.
  - rewrite bool_decide_eq_false_2 by (rewrite Hc; discriminate).
    eapply runs_scan_nothing; [exact Hop|done|done|rewrite Hc; vm_compute; reflexivity|by rewrite Hc|].
    intros w2 st2 Hp2 He2 Hop2 Ho2.
    eapply runs_scan_nothing; [exact Hop2|done|done|rewrite Hc; vm_compute; reflexivity|by rewrite Hc|].
    intros w3 st3 Hp3 He3 Hop3 Ho3.
    eapply runs_scan_nothing; [exact Hop3|done|done|rewrite Hc; vm_compute; reflexivity|by rewrite Hc|].
    intros w4 st4 Hp4 _ Hop4 Ho4. eapply Hclose; [exact Hop4|done|].
    rewrite Ho4, Ho3, Ho2, app_nil_r. done.
Qed.

(** C35: when files can be opened and streams written, [fprintf_example] adds its three lines to the
    end of the file, whatever is there. On a file that was empty, or not there, [fscanf_example]
    then reads back and shows the integer, the number as it was printed, to two decimals, and the
    string as far as its first blank. On the file that [main] gives them, which begins with other lines,
    it shows none of them. Both leave nothing open and touch no other file. *)
Theorem fprintf_fscanf_roundtrip f w :
  streams_work w0 → let old := default [] (content <$> files w !! f) in
  runs w0 (r1 ← fprintf_example f; r2 ← fscanf_example f; mret (r1, r2)) w (λ rs w',
    rs.1 = 0 ∧ released w w' ∧ only_file f w w' ∧
    content <$> files w' !! f = Some (old ++ three_lines) ∧
    (old = [] → rs.2 = 0 ∧ outs w' = outs w ++ writing_lines ++ reading_banner :: values_read) ∧
    (old = main_data → rs.2 = 0 ∧ outs w' = outs w ++ writing_lines ++ [reading_banner])).
Proof.
  intros Hsw old. step. eapply runs_mono; [by apply fprintf_example_appends|].
  intros r1 w1 (-> & Hrel1 & Ho1 & x & Hf1 & Hc). fold old in Hc. step.
  assert (files w1 !! f = Some x) as Hx by (by rewrite Hf1, lookup_insert_eq).
  assert (∀ w2, released w1 w2 → files w2 = files w1 → released w w2 ∧ only_file f w w2 ∧
    content <$> files w2 !! f = Some (old ++ three_lines)) as Hend.
  { intros w2 Hrel2 Hf2. split; [by eapply released_trans|]. rewrite <- Hc, Hf2, Hx. split; [|done].
    intros q Hq. by rewrite Hf2, Hf1, lookup_insert_ne. }
  destruct (decide (old = [] ∨ old = main_data)) as [Hold|Hold].
  - eapply runs_mono.
    { apply (fscanf_example_reads f x w1); [done..|]. rewrite Hc. by destruct Hold as [-> | ->]; [left|right]. }
    intros r2 w2 (-> & Hrel2 & Hf2 & Ho2). destruct (Hend w2 Hrel2 Hf2) as (? & ? & ?). step.
    split_and!; [done..| |]; intros E; (split; [done|]); rewrite Ho2, Ho1, Hc, E, <- !app_assoc; cbn [app].
    + by rewrite bool_decide_eq_true_2.
    + by rewrite bool_decide_eq_false_2.
  - eapply runs_mono; [eapply fscanf_example_released; exact Henv|]. intros r2 w2 (_ & Hrel2 & Hf2).
    destruct (Hend w2 Hrel2 Hf2) as (? & ? & ?). step.
    split_and!; [done..| |]; intros E; destruct Hold; [by left|by right].
Qed.
End examples.

(** ** The theorems on small systems *)

Lemma buffered_write_durable_witness :
  ∃ r tr w', write_file (e := kenv (-1) (boot ∅)) "f" (b "hello") [] = Ok (r, tr) ∧
    replay (boot ∅) tr = Some w' ∧ write_post "f" (b "hello") (boot ∅) r w'.
Proof.
  exact (buffered_write_durable (kenv_legal (-1) (boot ∅)) "f" (b "hello") (boot ∅) [] eq_refl).
Defined.

Definition two_lines : world := boot {["f"%string := mkFile (lit "one\ntwo") true]}.

Lemma buffered_read_prints_witness :
  ∃ tr w', read_file (e := kenv (-1) two_lines) 20 "f" [] = Ok (0, tr) ∧
    replay two_lines tr = Some w' ∧ released two_lines w'.
Proof.
  assert (∀ x, files two_lines !! "f"%string = Some x →
    ("000"%char ∉ content x) ∧ zlen (content x) < 2 ^ 63 ∧ (length (content x) < 20)%nat) as Hf.
  { intros x Hx. vm_compute in Hx. injection Hx as <-.
    split_and!; [by apply (bool_decide_unpack _)|done|simpl; lia]. }
  destruct (buffered_read_prints (kenv_legal (-1) two_lines) 20 "f" two_lines Hf [] eq_refl)
    as (r & tr & w' & Hrun & Hw & _ & Hrel & _).
  assert (r = 0) as -> by (vm_compute in Hrun; injection Hrun as <- _; reflexivity).
  exists tr, w'. split_and!; assumption.
Defined.

Lemma buffered_lines_printed_witness :
  ∃ tr w', read_line_by_line (e := kenv (-1) two_lines) 20 "f" [] = Ok (0, tr) ∧
    replay two_lines tr = Some w' ∧
    outs w' = [Printf "\n=== 逐行读取示例 ===\n" [];
               Printf "第 %d 行: %s" [AInt 1; AStr (lit "one\n")];
               Printf "第 %d 行: %s" [AInt 2; AStr (b "two")];
               Printf "总共读取 %d 行\n" [AInt 2]].
Proof.
  assert (∀ x, files two_lines !! "f"%string = Some x →
    zlen (content x) ≤ INT_MAX ∧ (length (content x) < 20)%nat) as Hf.
  { intros x Hx. vm_compute in Hx. injection Hx as <-. split; [by vm_compute|simpl; lia]. }
  destruct (buffered_lines_printed (kenv_legal (-1) two_lines) 20 "f" two_lines Hf [] eq_refl)
    as (r & tr & w' & Hrun & Hw & _ & _ & _ & Hout).
  assert (r = 0) as -> by (vm_compute in Hrun; injection Hrun as <- _; reflexivity).
  exists tr, w'. split_and!; [assumption..|]. destruct (Hout eq_refl) as (x & Hx & _ & ->).
  vm_compute in Hx. injection Hx as <-. vm_compute. reflexivity.
Defined.

(** The program's own values, on a file that is not there, and what [main] does. *)
Lemma fprintf_fscanf_roundtrip_witness :
  let both w := r1 ← fprintf_example (e := kenv (-1) w) "f"; r2 ← fscanf_example (e := kenv (-1) w) "f"; mret (r1, r2) in
  let old := boot {["f"%string := mkFile main_data true]} in
  (∃ tr w', both (boot ∅) [] = Ok ((0, 0), tr) ∧ replay (boot ∅) tr = Some w' ∧
     content <$> files w' !! "f"%string = Some three_lines ∧
     outs w' = writing_lines ++ reading_banner :: values_read) ∧
  (∃ tr w', both old [] = Ok ((0, 0), tr) ∧ replay old tr = Some w' ∧ outs w' = writing_lines ++ [reading_banner]).
Proof.
  intros both old. split.
  - destruct (fprintf_fscanf_roundtrip (kenv_legal (-1) (boot ∅)) "f" (boot ∅) (kenv_streams_work _ _) [] eq_refl)
      as ([r1 r2] & tr & w' & Hrun & Hw & H1 & _ & _ & Hc & Hnew & _).
    destruct (Hnew eq_refl) as [H2 Ho]. cbn in H1, H2. subst r1 r2.
    exists tr, w'. split; [exact Hrun|]. split; [exact Hw|]. split; [exact Hc|exact Ho].
  - destruct (fprintf_fscanf_roundtrip (kenv_legal (-1) old) "f" old (kenv_streams_work _ _) [] eq_refl)
      as ([r1 r2] & tr & w' & Hrun & Hw & H1 & _ & _ & _ & _ & Hold).
    destruct (Hold eq_refl) as [H2 Ho]. cbn in H1, H2. subst r1 r2.
    exists tr, w'. split; [exact Hrun|]. split; [exact Hw|exact Ho].
Defined.
