(* ===== verification/SysSock.v ===== *)
(** * Rules for sockets, the terminal and files that are opened or created *)
From S2P Require Export SysEpoll.

Definition STDIN_FILENO : Z := 0.
Definition STDOUT_FILENO : Z := 1.

(** What was sent to, and received from, a descriptor, in order. *)
Definition sent (fd : Z) (l : list output) : bytes :=
  l ≫= λ o, match o with Sent k d => if bool_decide (k = fd) then d else [] | _ => [] end.
Definition received (fd : Z) (l : list output) : bytes :=
  l ≫= λ o, match o with Received k d => if bool_decide (k = fd) then d else [] | _ => [] end.

Lemma sent_app fd l1 l2 : sent fd (l1 ++ l2) = sent fd l1 ++ sent fd l2.
Proof. apply bind_app. Qed.
Lemma received_app fd l1 l2 : received fd (l1 ++ l2) = received fd l1 ++ received fd l2.
Proof. apply bind_app. Qed.
Lemma sent_one fd d : sent fd [Sent fd d] = d.
Proof. unfold sent. cbn. by rewrite bool_decide_eq_true_2, app_nil_r. Qed.
Lemma received_one fd d : received fd [Received fd d] = d.
Proof. unfold received. cbn. by rewrite bool_decide_eq_true_2, app_nil_r. Qed.
Lemma sent_other fd k d : k ≠ fd → sent fd [Sent k d] = [].
Proof. intros. unfold sent. cbn. by rewrite bool_decide_eq_false_2. Qed.
Lemma received_other fd k d : k ≠ fd → received fd [Received k d] = [].
Proof. intros. unfold received. cbn. by rewrite bool_decide_eq_false_2. Qed.

Section rules.
Context {e : Env} {w0 : world} (Henv : legal_env w0).
Abbreviation runs := (runs w0).

Lemma arrive_Some fd ret n d w w' :
  arrive fd ret n d w = Some w' →
  ret ≤ n ∧ zlen d = ret ∧ ((ret = 0 ∧ d = [] ∧ w' = w) ∨
    ∃ k, ret ≠ 0 ∧ arrivals w = S k ∧ w' = print (Received fd d) (set_arrivals k w)).
Proof using Type.
  unfold arrive. intros H. case_match eqn:E; [|done]. propify. split_and!; [done..|].
  destruct (Z.eqb_spec ret 0).
  - left. simplify_eq. split_and!; [done| |done]. destruct d; [done|]. unfold zlen in *. simpl in *. lia.
  - right. destruct (arrivals w) as [|k]; [done|]. simplify_eq. by exists k.
Qed.

(** [read] and [recv] on a socket or the terminal. *)
Lemma runs_recv fd n o w (Q : reply → world → Prop) :
  fds w !! fd = Some o → talks (of_kind o) = true →
  (∀ r k, r_ret r = -1 → (k ≤ sigs w)%nat → Q r (set_sigs k w)) →
  (∀ r, r_ret r = 0 → r_data r = [] → Q r w) →
  (∀ r k, 0 < r_ret r ≤ n → zlen (r_data r) = r_ret r → arrivals w = S k →
     Q r (print (Received fd (r_data r)) (set_arrivals k w))) →
  runs (sys (Read fd n)) w Q.
Proof.
  intros Ho Ht Hfail Heof Hok. eapply (runs_on_fd Henv); [done|exact Ho|by intros; apply Hfail|].
  intros r w' Hr Hk. cbn beta in Hk. rewrite Ht in Hk.
  apply arrive_Some in Hk as (Hn & Hd & [(H0 & Hnil & ->)|(k & H0 & Hk & ->)]); [by apply Heof|].
  apply Hok; [lia|done|done].
Qed.

Lemma runs_recvfrom fd n o w (Q : reply → world → Prop) :
  fds w !! fd = Some o → of_kind o = KSocket →
  (∀ r k, r_ret r = -1 → (k ≤ sigs w)%nat → Q r (set_sigs k w)) →
  (∀ r, r_ret r = 0 → r_data r = [] → Q r w) →
  (∀ r k, 0 < r_ret r ≤ n → zlen (r_data r) = r_ret r → arrivals w = S k →
     Q r (print (Received fd (r_data r)) (set_arrivals k w))) →
  runs (sys (Recvfrom fd n)) w Q.
Proof.
  intros Ho Ht Hfail Heof Hok. eapply (runs_on_fd Henv); [done|exact Ho|by intros; apply Hfail|].
  intros r w' Hr Hk. cbn beta in Hk. rewrite bool_decide_eq_true_2 in Hk by done.
  apply arrive_Some in Hk as (Hn & Hd & [(H0 & Hnil & ->)|(k & H0 & Hk & ->)]); [by apply Heof|].
  apply Hok; [lia|done|done].
Qed.

(** [write] and [send]. *)
Lemma runs_send fd data o w (Q : reply → world → Prop) :
  fds w !! fd = Some o → talks (of_kind o) = true →
  (∀ r k, r_ret r = -1 → (k ≤ sigs w)%nat → Q r (set_sigs k w)) →
  (∀ r, 0 ≤ r_ret r ≤ zlen data → (0 < r_ret r ∨ data = []) →
     Q r (print (Sent fd (take (Z.to_nat (r_ret r)) data)) w)) →
  runs (sys (Write fd data)) w Q.
Proof.
  intros Ho Ht Hfail Hok. eapply (runs_on_fd Henv); [done|exact Ho|by intros; apply Hfail|].
  intros r w' Hr Hk. cbn beta in Hk. apply guard_Some in Hk as [Hb <-].
  apply andb_true_iff in Hb as [Hb H0]. propify. unfold deliver.
  assert (0 < r_ret r ∨ data = []) as Hp.
  { apply orb_true_iff in H0 as [?|H0]; propify; [by left|right].
    destruct data; [done|]. unfold zlen in H0. simpl in H0. lia. }
  destruct (of_kind o); try done; apply Hok; done.
Qed.

Lemma runs_sendto fd data a o w (Q : reply → world → Prop) :
  fds w !! fd = Some o → of_kind o = KSocket →
  (∀ r k, r_ret r = -1 → (k ≤ sigs w)%nat → Q r (set_sigs k w)) →
  (∀ r, r_ret r = zlen data → Q r (print (Sent fd data) w)) →
  runs (sys (Sendto fd data a)) w Q.
Proof.
  intros Ho Ht Hfail Hok. eapply (runs_on_fd Henv); [done|exact Ho|by intros; apply Hfail|].
  intros r w' Hr Hk. cbn beta in Hk. apply guard_Some in Hk as [Hb <-]. propify.
  by apply Hok.
Qed.

(** [bind], [listen], [connect], ... *)
Lemma runs_sockcall name fd args o w (Q : reply → world → Prop) :
  fds w !! fd = Some o →
  (∀ r n, r_ret r = -1 ∨ 0 ≤ r_ret r → (n ≤ sigs w)%nat → Q r (set_sigs n w)) →
  runs (sys (Sockcall name fd args)) w Q.
Proof.
  intros Ho HQ. eapply (runs_on_fd Henv); [done|exact Ho|..].
  - intros r n Hr Hn _. apply HQ; [by left|done].
  - intros r w' Hr [= <-]. specialize (HQ r (sigs w)). destruct w. apply HQ; [by right|done].
Qed.

(** Opening a file that is created if it does not exist. *)
Lemma runs_open_or_creat p fl w (Q : reply → world → Prop) :
  bool_decide (O_CREAT ∈ fl) = true → bool_decide (O_TRUNC ∈ fl) = false →
  (∀ r n, r_ret r = -1 → (n ≤ sigs w)%nat → Q r (set_sigs n w)) →
  (∀ r f, 0 ≤ r_ret r → fds w !! r_ret r = None → default (mkFile [] false) (files w !! p) = f →
     Q r (set_fds (<[r_ret r := mkOF (KFile p) 0 fl]> (fds w)) (set_files (<[p := f]> (files w)) w))) →
  runs (sys (Open p fl)) w Q.
Proof.
  intros Hc Ht Hfail Hok. apply (runs_sys Henv). intros r w' Hw'. unfold posix_step, open_file in Hw'.
  rewrite Hc, Ht in Hw'. destruct (Z.ltb_spec (r_ret r) 0).
  - apply interrupted_Some in Hw' as (n & -> & ? & ? & ?). by apply Hfail.
  - unfold new_fd in Hw'. destruct (files w !! p) as [f|] eqn:E;
      apply guard_Some in Hw' as [Hb <-]; propify; by apply Hok.
Qed.
End rules.
