(* ===== verification/Cat.v ===== *)
(** * [02_file_io/open.c]: a file is copied to the standard output *)
From S2P Require Export SysSock.

Definition BUFFER_SIZE : Z := 1024.

Section program.
Context {e : Env}.

(** One round of the loop, which carries [buffer]. *)
Definition cat_body (fd : Z) (buf : buffer) : M trace (ctl buffer Z) :=
  bytesRead ← sys (Read fd BUFFER_SIZE);
  let buf := fill buf (r_data bytesRead) in
  if 0 <? r_ret bytesRead then
    d ← contents (Z.to_nat (r_ret bytesRead)) buf;
    r ← sys (Write STDOUT_FILENO d);
    if negb (r_ret r =? r_ret bytesRead) then
      perror "write";;
      close fd;;
      mret (Return 1)
    else mret (Next buf)
  else mret (Break (r_ret bytesRead)).

Definition main (fuel : nat) (argv : list string) : M trace Z :=
  match argv with
  | [_; filename] =>
    fd ← sys (Open filename [O_RDONLY]);
    let fd := r_ret fd in
    if fd =? -1 then perror "open";; mret 1
    else
      after (loop fuel (cat_body fd) (new_buffer BUFFER_SIZE)) (λ bytesRead,
        (if bytesRead =? -1 then perror "read" else mret tt);;
        close fd;;
        mret 0)
  | _ =>
    eprintf "Usage: %s <filename>\n" [AStr (b (default "" (head argv)))];;
    mret 1
  end.
End program.

Section proofs.
Context {e : Env} {w0 : world} (Henv : legal_env w0).
Abbreviation runs := (runs w0).

(** [n] bytes of the file have been copied, and nothing else was sent. *)
Definition copied (w : world) (fd : Z) (filename : string) (f : file) (n : nat) (w1 : world) : Prop :=
  (n ≤ length (content f))%nat ∧
  fds w1 = <[fd := mkOF (KFile filename) (Z.of_nat n) [O_RDONLY]]> (fds w) ∧
  files w1 = files w ∧ maps w1 = maps w ∧ mem w1 = mem w ∧ misuses w1 = misuses w ∧
  ∃ out, outs w1 = outs w ++ out ∧ sent STDOUT_FILENO out = take n (content f).

(** What the whole program does: [out] is what it printed. *)
Definition cat_post (filename : string) (w : world) (r : Z) (w' : world) : Prop :=
  (r = 0 ∨ r = 1) ∧ balanced w w' ∧ files w' = files w ∧
  ∃ out, outs w' = outs w ++ out ∧
    (∀ f, files w !! filename = Some f →
       sent STDOUT_FILENO out `prefix_of` content f ∧
       (r = 0 → Perror "read" ∉ out → sent STDOUT_FILENO out = content f)).

Lemma take_drop_take {A} (n k : nat) (l : list A) : take n l ++ take k (drop n l) = take (n + k) l.
Proof using Type. apply take_take_drop. Qed.

Lemma cat_loop_ok fuel w w1 fd filename f :
  fds w !! fd = None → STDOUT_FILENO ≠ fd →
  (∃ o, fds w !! STDOUT_FILENO = Some o ∧ talks (of_kind o) = true) →
  files w !! filename = Some f → copied w fd filename f 0 w1 →
  (length (content f) < fuel)%nat →
  runs (loop fuel (cat_body fd) (new_buffer BUFFER_SIZE)) w1 (λ x w2,
    match x with
    | Left r => (r = 0 ∧ copied w fd filename f (length (content f)) w2) ∨
                (r = -1 ∧ ∃ n, copied w fd filename f n w2)
    | Returned r => r = 1 ∧ cat_post filename w 1 w2
    end).
Proof.
  intros Hfd Hne (o & Ho & Htalk) Hf H1 Hfuel.
  apply (runs_loop (λ (buf : buffer) w1, zlen buf = BUFFER_SIZE ∧ ∃ n, copied w fd filename f n w1)
    (λ _ w1, length (content f) - Z.to_nat (match fds w1 !! fd with Some o => of_off o | None => 0 end))%nat).
  { split; [done|]. by exists 0%nat. }
  { lia. }
  intros buf w2 (Hbuf & n & Hn & Hfds & Hfiles & Hmaps & Hmem & Hmis & out & Houts & Hsent).
  unfold cat_body. step. eapply runs_read; [done|look|look|..].
  { intros r k Hr Hk _. step; [lia|]. steps. right. split; [done|]. exists n.
    unfold copied. cbn. split_and!; eauto. }
  rewrite Nat2Z.id. intros r Hr Hlen Hpos Hdata. step.
  - assert (r_ret r = zlen (r_data r)) as Hz
      by (rewrite Hdata; unfold zlen in *; rewrite length_take; lia).
    step. eapply runs_pure.
    { intros tr. rewrite Hz. unfold zlen. rewrite Nat2Z.id. apply contents_fill. lia. }
    step. eapply (runs_send Henv); [look|done|..].
    + intros r' k Hr' Hk. step; [|lia]. steps. split; [done|]. unfold cat_post.
      split; [by right|]. split; [settle|]. split; [done|].
      eexists. cbn. rewrite Houts, <- app_assoc. split; [done|].
      intros f' Hf'. simplify_eq. split; [|done].
      rewrite sent_app, Hsent. unfold sent at 1. cbn. rewrite app_nil_r. by apply prefix_take.
    + intros r' Hr' _. step.
      * steps. split; [done|]. unfold cat_post. split; [by right|]. split; [settle|]. split; [done|].
        eexists. cbn. rewrite Houts, <- !app_assoc. split; [done|].
        intros f' Hf'. simplify_eq. split; [|done].
        rewrite !sent_app, Hsent, sent_one. unfold sent at 1. cbn. rewrite app_nil_r.
        rewrite Hdata, take_take, take_drop_take. by apply prefix_take.
      * steps. assert (take (Z.to_nat (r_ret r')) (r_data r) = r_data r) as ->
          by (apply take_ge; unfold zlen in *; lia).
        split.
        { split; [rewrite length_fill; lia|]. exists (n + length (r_data r))%nat.
          unfold copied. cbn. rewrite Hfds, insert_insert_eq. split_and!; try done.
          - unfold zlen in *. rewrite length_drop in Hlen. lia.
          - do 3 f_equal. unfold zlen in *. lia.
          - eexists. rewrite Houts, <- app_assoc. split; [done|].
            rewrite sent_app, Hsent, sent_one, Hdata, take_drop_take. do 2 f_equal.
            rewrite length_take. unfold zlen in *. lia. }
        cbn. rewrite Hfds, insert_insert_eq, !lookup_insert_eq. cbn.
        unfold zlen in *. rewrite length_drop in Hlen. lia.
  - steps. left. split; [lia|]. assert (n = length (content f)) as ->.
    { destruct Hpos as [?|[?|Hd]]; [lia|done|]. apply (f_equal length) in Hd.
      rewrite length_drop in Hd. simpl in Hd. lia. }
    unfold copied. cbn. rewrite Hfds, insert_insert_eq. split_and!; try done.
    + do 3 f_equal. lia.
    + by exists out.
Qed.

(** C21: with a file name the program ends with 0 or 1 and its file closed; what it
    sends to the standard output is always the start of the file, and all of it
    if it ends with 0 without having reported a failed [read]. *)
Theorem cat_copies fuel argv0 filename w o :
  fds w !! STDOUT_FILENO = Some o → talks (of_kind o) = true →
  (∀ f, files w !! filename = Some f → (length (content f) < fuel)%nat) →
  runs (main fuel [argv0; filename]) w (cat_post filename w).
Proof.
  intros Ho Htalk Hfuel. unfold main. step. eapply runs_open; [done..| |].
  { intros r n Hr _. step; [|lia]. steps. unfold cat_post.
    split; [by right|]. split; [settle|]. split; [done|]. exists [Perror "open"]. split; [done|].
    intros f _. split; [apply prefix_nil|done]. }
  intros rf f Hrf Hfd Hf. step; [lia|]. step.
  assert (STDOUT_FILENO ≠ r_ret rf) as Hne by (intros E; rewrite <- E in Hfd; by rewrite Ho in Hfd).
  eapply runs_mono.
  { eapply (cat_loop_ok _ w _ _ filename f); [done|done|by eauto|done| |by apply Hfuel].
    unfold copied. cbn. split_and!; try done; [lia|]. exists []. by rewrite app_nil_r. }
  intros [r|r] w2; cbn beta iota; [|by intros [-> H]].
  intros H. assert (∃ n, copied w (r_ret rf) filename f n w2 ∧
    (r = 0 ∧ n = length (content f) ∨ r = -1)) as (n & Hc & Hr).
  { destruct H as [[-> H]|[-> [n H]]]; eauto. }
  destruct Hc as (Hn & Hfds & Hfiles & Hmaps & Hmem & Hmis & out & Houts & Hsent).
  assert (∀ more w3, fds w3 = delete (r_ret rf) (fds w2) → files w3 = files w2 → maps w3 = maps w2 →
    mem w3 = mem w2 → misuses w3 = misuses w2 → outs w3 = outs w2 ++ more →
    sent STDOUT_FILENO more = [] → (r = -1 → Perror "read" ∈ more) → cat_post filename w 0 w3) as Hpost.
  { intros more w3 E1 E2 E3 E4 E5 E6 Hmore Hread. unfold cat_post.
    split; [by left|]. split; [settle; congruence|]. split; [congruence|].
    exists (out ++ more). rewrite E6, Houts, app_assoc. split; [done|].
    intros f' Hf'. simplify_eq. rewrite sent_app, Hmore, app_nil_r, Hsent.
    split; [by apply prefix_take|]. intros _ Hnot. destruct Hr as [[_ ->]|Hr].
    - by rewrite firstn_all.
    - exfalso. apply Hnot, elem_of_app. right. by apply Hread. }
  step. step; steps.
  - apply (Hpost [Perror "read"]); try done. intros _. set_solver.
  - apply (Hpost []); try done. by rewrite app_nil_r.
Qed.
End proofs.

Definition a_file : world :=
  set_fds {[STDOUT_FILENO := mkOF KTty 0 [O_WRONLY]]} (boot {["f"%string := mkFile (lit "some
text
") true]}).

Lemma cat_copies_witness :
  ∃ tr w', main (e := kenv 4 a_file) 20 ["cat"; "f"]%string [] = Ok (0, tr) ∧
    replay a_file tr = Some w' ∧ sent STDOUT_FILENO (outs w') `prefix_of` lit "some
text
".
Proof.
  assert (∀ f, files a_file !! "f"%string = Some f → (length (content f) < 20)%nat) as Hf.
  { intros f Hf. vm_compute in Hf. injection Hf as <-. simpl. lia. }
  destruct (cat_copies (kenv_legal 4 a_file) 20 "cat" "f" a_file _ eq_refl eq_refl Hf [] eq_refl)
    as (r & tr & w' & Hrun & Hw & _ & _ & _ & out & Hout & Hpre).
  assert (r = 0) as -> by (vm_compute in Hrun; injection Hrun as <- _; reflexivity).
  exists tr, w'. split; [exact Hrun|]. split; [exact Hw|]. rewrite Hout.
  exact (proj1 (Hpre _ eq_refl)).
Defined.

Example cat_usage : main (e := kenv 4 a_file) 20 ["cat"]%string [] =
  Ok (1, [(Output (Eprintf "Usage: %s <filename>\n" [AStr (b "cat")]), answer 0 [] 0)]).
Proof. reflexivity. Qed.
