(* ===== verification/Unblocking.v ===== *)
(** * [09_epoll/unblocking.c]: reading a file through a non-blocking descriptor *)
From S2P Require Export SysSock.

Section program.
Context {e : Env}.

(** One round of the loop, which carries [buffer]. *)
Definition read_body (fd : Z) (buf : buffer) : M trace (ctl buffer unit) :=
  bytesRead ← sys (Read fd (zlen buf - 1));
  let buf := fill buf (r_data bytesRead) in
  if r_ret bytesRead =? -1 then
    if r_errno bytesRead =? EAGAIN then
      printf "No data available, try again later\n" [];;
      sys (Sleep 1);;
      mret (Next buf)
    else
      perror "read";;
      close fd;;
      mret (Return 1)
  else if r_ret bytesRead =? 0 then
    printf "End of file\n" [];;
    mret (Break tt)
  else
    buf ← put buf (r_ret bytesRead) "000"%char;
    s ← c_str buf;
    printf "Read: %s\n" [AStr s];;
    mret (Next buf).

Definition main (fuel : nat) : M trace Z :=
  fd ← sys (Open "/tmp/testfile" [O_RDONLY]);
  let fd := r_ret fd in
  if fd =? -1 then
    perror "open";;
    mret 1
  else
  flags ← sys (Getfl fd);
  if r_ret flags =? -1 then
    perror "fcntl F_GETFL";;
    close fd;;
    mret 1
  else
  let flags := Z.setbit (r_ret flags) 11 in
  r ← sys (Setfl fd flags);
  if r_ret r =? -1 then
    perror "fcntl F_SETFL";;
    close fd;;
    mret 1
  else
  after (loop fuel (read_body fd) (new_buffer 128)) (λ _,
    close fd;;
    mret 0).
End program.

Section proofs.
Context {e : Env} {w0 : world} (Henv : legal_env w0).
Abbreviation runs := (runs w0).

(** A regular file is always ready: [O_NONBLOCK] has no effect on it. *)
Definition files_are_ready : Prop :=
  ∀ tr w fd n o p, replay w0 tr = Some w → fds w !! fd = Some o → of_kind o = KFile p →
    r_errno (env tr (Read fd n)) ≠ EAGAIN.

Definition read_line (d : bytes) : output := Printf "Read: %s\n" [AStr (upto_nul d)].

(** [pieces] of the file have been read and printed. *)
Definition reading (w : world) (fd : Z) (p : string) (f : file) (pieces : list bytes) (w1 : world)
    : Prop :=
  concat pieces `prefix_of` content f ∧
  (∃ fl, fds w1 = <[fd := mkOF (KFile p) (zlen (concat pieces)) fl]> (fds w)) ∧
  files w1 = files w ∧ maps w1 = maps w ∧ mem w1 = mem w ∧ misuses w1 = misuses w ∧
  outs w1 = outs w ++ (read_line <$> pieces).

Lemma unblocking_loop_ok fuel w w1 fd p f :
  files_are_ready → fds w !! fd = None → files w !! p = Some f →
  reading w fd p f [] w1 → (length (content f) < fuel)%nat →
  runs (loop fuel (read_body fd) (new_buffer 128)) w1 (λ x w2,
    match x with
    | Left _ => (∃ fl, fds w2 = <[fd := mkOF (KFile p) (zlen (content f)) fl]> (fds w)) ∧
        files w2 = files w ∧ maps w2 = maps w ∧ mem w2 = mem w ∧ misuses w2 = misuses w ∧
        ∃ pieces, concat pieces = content f ∧ Forall (λ x, zlen x ≤ 127) pieces ∧
          outs w2 = outs w ++ (read_line <$> pieces) ++ [Printf "End of file\n" []]
    | Returned r => r = 1 ∧ balanced w w2 ∧ files w2 = files w
    end).
Proof.
  intros Hready Hfd Hf H1 Hfuel.
  apply (runs_loop (λ (buf : buffer) w1, zlen buf = 128 ∧
      ∃ pieces, Forall (λ x, zlen x ≤ 127) pieces ∧ reading w fd p f pieces w1)
    (λ _ w1, length (content f) - Z.to_nat (match fds w1 !! fd with Some o => of_off o | None => 0 end))%nat).
  { split; [done|]. by exists []. }
  { lia. }
  intros buf w2 (Hbuf & pieces & Hsmall & Hpre & (fl & Hfds) & Hfiles & Hmaps & Hmem & Hmis & Houts).
  unfold read_body. step. eapply (runs_fact _ _ (λ r, r_errno r ≠ EAGAIN)).
  { intros tr Htr. eapply Hready; [exact Htr|look|done]. }
  eapply runs_read; [done|look|look|..].
  { intros r k Hr Hk _ Hne. step; [|lia]. steps; [done|]. split; [done|]. split; [settle|done]. }
  replace (Z.to_nat (zlen (concat pieces))) with (length (concat pieces)) by (unfold zlen; lia).
  destruct Hpre as [rest Hrest].
  assert (drop (length (concat pieces)) (content f) = rest) as -> by (by rewrite Hrest, drop_app_length).
  intros r Hr Hlen Hpos Hdata Hne. step; [lia|]. step.
  - steps. assert (rest = []) as -> by (destruct Hpos as [?|[?|?]]; [lia|lia|done]).
    rewrite app_nil_r in Hrest. cbn. rewrite Hfds, insert_insert_eq. split; [|split_and!; try done].
    + exists fl. do 3 f_equal. rewrite Hrest. lia.
    + exists pieces. rewrite Houts, <- app_assoc. done.
  - assert (r_ret r = zlen (r_data r)) as Hz
      by (rewrite Hdata; unfold zlen in *; rewrite length_take; lia).
    step. rewrite Hz. destruct (put_fill (S := trace) (r_data r) buf) as (buf' & Hput & Hbl & Hstr); [lia|].
    eapply runs_pure; [exact Hput|]. step. eapply runs_pure; [exact Hstr|].
    steps. assert (concat (pieces ++ [r_data r]) = concat pieces ++ r_data r) as Hcat
      by (rewrite concat_app; simpl; by rewrite app_nil_r).
    split.
    { split; [lia|]. exists (pieces ++ [r_data r]). split.
      { apply Forall_app. split; [done|]. apply Forall_singleton. lia. }
      unfold reading. cbn. rewrite Hcat, Hfds, insert_insert_eq, fmap_app, Houts, <- app_assoc.
      split_and!; try done; [|exists fl; do 2 f_equal; unfold zlen; rewrite length_app; lia].
      exists (drop (Z.to_nat (r_ret r)) rest). rewrite Hrest, <- app_assoc, Hdata. f_equal.
      symmetry. apply take_drop. }
    cbn. rewrite Hfds, insert_insert_eq, !lookup_insert_eq. cbn. rewrite Hrest, length_app.
    unfold zlen in *. lia.
Qed.

(** On a system where regular files are always ready, the program ends with 0
    or 1 and its file closed, without overflowing its buffer; when it ends with 0
    it has printed the whole file in pieces of at most 127 bytes (each up to its
    first NUL), and then the end of the file. *)
Lemma unblocking_reads_file fuel w :
  files_are_ready →
  (∀ f, files w !! "/tmp/testfile"%string = Some f → (length (content f) < fuel)%nat) →
  runs (main fuel) w (λ r w',
    (r = 0 ∨ r = 1) ∧ balanced w w' ∧ files w' = files w ∧
    (r = 0 → ∃ f pieces, files w !! "/tmp/testfile"%string = Some f ∧
       concat pieces = content f ∧ Forall (λ x, zlen x ≤ 127) pieces ∧
       outs w' = outs w ++ (read_line <$> pieces) ++ [Printf "End of file\n" []])).
Proof.
  intros Hready Hfuel. unfold main. step. eapply runs_open; [done..| |].
  { intros ????. step; [|lia]. steps. settle. }
  intros rf f Hrf Hfd Hf. step; [lia|]. step. eapply (runs_getfl Henv); [look|..].
  { intros ????. step; [|lia]. steps. settle. }
  intros rg Hrg _. step; [lia|]. step. eapply (runs_setfl Henv); [look|..].
  { intros ????. step; [|lia]. steps. settle. }
  intros rs Hrs. step; [lia|]. step. eapply runs_mono.
  { eapply (unblocking_loop_ok _ w _ _ "/tmp/testfile" f); [done..| |by apply Hfuel].
    unfold reading. cbn. rewrite insert_insert_eq. split_and!; try done; [apply prefix_nil|by eexists|].
    by rewrite app_nil_r. }
  intros [[]|r] w2; cbn beta iota.
  - intros ((fl & Hfds) & Hfiles & Hmaps & Hmem & Hmis & pieces & Hcat & Hsmall & Houts).
    steps. split; [by left|]. split; [settle|]. split; [done|]. intros _. exists f, pieces. done.
  - intros (-> & Hb & Hfs). split; [by right|]. split_and!; [done..|lia].
Qed.
End proofs.

Definition test_file : world := boot {["/tmp/testfile"%string := mkFile (lit "one two three") true]}.

Lemma kenv_files_are_ready lim w : @files_are_ready (kenv lim w) w.
Proof.
  intros tr w1 fd n o p Htr _ _. unfold env, kenv. rewrite Htr. unfold kern.
  by destruct (posix_step _ _).
Qed.

Lemma unblocking_reads_file_witness :
  ∃ tr w', main (e := kenv 5 test_file) 20 [] = Ok (0, tr) ∧ replay test_file tr = Some w' ∧
    ∃ pieces, concat pieces = lit "one two three" ∧
      outs w' = (read_line <$> pieces) ++ [Printf "End of file\n" []].
Proof.
  assert (∀ f, files test_file !! "/tmp/testfile"%string = Some f → (length (content f) < 20)%nat) as Hf.
  { intros f Hf. vm_compute in Hf. injection Hf as <-. simpl. lia. }
  destruct (unblocking_reads_file (kenv_legal 5 test_file) 20 test_file
    (kenv_files_are_ready 5 test_file) Hf [] eq_refl) as (r & tr & w' & Hrun & Hw & _ & _ & _ & Hout).
  assert (r = 0) as -> by (vm_compute in Hrun; injection Hrun as <- _; reflexivity).
  exists tr, w'. split; [exact Hrun|]. split; [exact Hw|].
  destruct (Hout eq_refl) as (f & pieces & Hf' & Hcat & _ & Houts).
  vm_compute in Hf'. injection Hf' as <-. exists pieces. split; [exact Hcat|exact Houts].
Defined.
