(* ===== verification/Mmap.v ===== *)
(** * [05_ipc/mmap]: storing into a shared mapping of a file

    [mmap.c], [mmap_test2.c] and [mmap_test3.c] have the same [main] but for the
    length of the mapping, where and what is stored, and the length they unmap. *)
From S2P Require Export SysSock.

Definition filename : string := "mytest.txt".

Section programs.
Context {e : Env}.

(** [mmap] of [len] bytes, [strcpy] of [text] to [off], [munmap] of [n] bytes. *)
Definition map_and_copy (len off : Z) (text : bytes) (n : Z) : M trace Z :=
  fd ← sys (Open filename [O_RDWR; O_CREAT]);
  let fd := r_ret fd in
  if fd <? 0 then
    perror "open error!";;
    mret 1
  else
  p ← sys (Mmap len fd);
  let p := r_ret p in
  if p =? -1 then
    perror "mmap error!";;
    mret 1
  else
  sys (Poke p off (text ++ ["000"%char]));;
  ret ← sys (Munmap p n);
  if r_ret ret =? -1 then
    perror "munmap error!";;
    mret 1
  else
  close fd;;
  mret 0.

Definition mmap_main : M trace Z := map_and_copy 6 0 (lit "abc\n") 8.
Definition mmap_test2_main : M trace Z := map_and_copy 100 0 (b "abc") 100.
Definition mmap_test3_main : M trace Z := map_and_copy 6 4 (b "efg") 8.
End programs.

Section proofs.
Context {e : Env} {w0 : world} (Henv : legal_env w0).
Abbreviation runs := (runs w0).

(** The text and its NUL are in the file as far as the file goes; it may not have
    reached the disk. *)
Definition stored (off : Z) (text : bytes) (f : file) (w : world) (r : Z) (w' : world) : Prop :=
  (r = 0 ∨ r = 1) ∧ misuses w' = misuses w ∧ only_file filename w w' ∧
  (r = 0 → fds w' = fds w ∧ maps w' = maps w ∧
     files w' !! filename = Some (mkFile (poke (content f) off (text ++ ["000"%char])) false)).

(** The store was a fault, unless the program ended before it. *)
Definition faulted (w : world) (r : Z) (w' : world) : Prop :=
  r = 1 ∨ (r = 0 ∧ misuses w' = S (misuses w)).

Lemma pages_small n : 0 < n ≤ 4096 → pages n = 4096.
Proof using Type. unfold pages. intros. replace ((n + 4095) / 4096) with 1 by lia. lia. Qed.
Lemma pages_pos n : 0 < n → 4096 ≤ pages n.
Proof using Type. unfold pages. intros. lia. Qed.

Lemma map_and_copy_stores len off text n f w :
  0 < len ≤ 4096 → 0 ≤ off → off + zlen text + 1 ≤ 4096 →
  files w !! filename = Some f → content f ≠ [] →
  runs (map_and_copy len off text n) w (stored off text f w).
Proof.
  intros Hlen Hoff Hfit Hf Hne. unfold map_and_copy. step. eapply (runs_open_or_creat Henv); [done..| |].
  { intros ????. step; [|lia]. steps. unfold stored. settle. }
  rewrite Hf. intros ro f' Hro Hfd <-. cbn [default]. rewrite (insert_id (files w)) by done.
  step; [lia|]. step. eapply runs_mmap; [done|look|..].
  { intros ????. step; [|lia]. steps. unfold stored. settle. }
  intros rm Hrm Hmap. cbn in Hmap. step; [lia|]. step.
  assert (0 < zlen (content f)) as Hpos.
  { destruct (content f); [done|]. unfold zlen. simpl. lia. }
  assert (off + zlen (text ++ ["000"%char]) ≤ 4096) as Hsmall
    by (unfold zlen in *; rewrite length_app; simpl; lia).
  eapply runs_poke; [done|look|look|done|by rewrite pages_small|
    by etransitivity; [exact Hsmall|apply pages_pos]|].
  intros rp. step. eapply runs_munmap; [done|look|].
  intros ru. step; [steps; unfold stored; settle|]. steps. unfold stored. split; [by left|]. split; [done|].
  split; [intros q Hq; expand_world; rewrite !lookup_insert_ne by done; done|].
  intros _. split; [map_solve|]. split; [map_solve|]. cbn. by rewrite lookup_insert_eq.
Qed.

Lemma map_and_copy_faults len off text n w :
  0 ≤ off → content (default (mkFile [] false) (files w !! filename)) = [] →
  runs (map_and_copy len off text n) w (faulted w).
Proof.
  intros Hoff Hf. unfold map_and_copy. step. eapply (runs_open_or_creat Henv); [done..| |].
  { intros ????. step; [|lia]. steps. by left. }
  intros ro f Hro Hfd <-. step; [lia|]. step. eapply runs_mmap; [done|look|..].
  { intros ????. step; [|lia]. steps. by left. }
  intros rm Hrm Hmap. cbn in Hmap. step; [lia|]. step.
  eapply runs_poke_fault; [done|look|look| |].
  { rewrite Hf. replace (pages (zlen [])) with 0 by done. unfold zlen. rewrite length_app. simpl. lia. }
  intros rp. step. eapply runs_munmap; [done|look|].
  intros ru. step; [steps; by left|]. steps. by right.
Qed.

(** When [mytest.txt] has content the three programs store their string
    through the mapping without a fault, within the file, and release what they
    took when they end with 0; when the file is empty, or has just been created
    by their own [O_CREAT], the store is beyond the last page of the file and
    faults, unless [open] or [mmap] failed. *)
Lemma mmap_programs_store w :
  (∀ f, files w !! filename = Some f → content f ≠ [] →
     runs mmap_main w (stored 0 (lit "abc\n") f w) ∧
     runs mmap_test2_main w (stored 0 (b "abc") f w) ∧
     runs mmap_test3_main w (stored 4 (b "efg") f w)) ∧
  (content (default (mkFile [] false) (files w !! filename)) = [] →
     runs mmap_main w (faulted w) ∧ runs mmap_test2_main w (faulted w) ∧
     runs mmap_test3_main w (faulted w)).
Proof.
  split.
  - intros f Hf Hne. split_and!; eapply map_and_copy_stores; done.
  - intros Hf. split_and!; by apply map_and_copy_faults.
Qed.
End proofs.

Definition eleven : world := boot {[filename := mkFile (b "hello world") true]}.

Lemma mmap_programs_store_witness :
  (∃ tr w', mmap_test3_main (e := kenv (-1) eleven) [] = Ok (0, tr) ∧
     replay eleven tr = Some w' ∧ content <$> files w' !! filename = Some (lit "hellefg" ++ "000"%char :: b "rld")) ∧
  (∃ tr w', mmap_main (e := kenv (-1) (boot ∅)) [] = Ok (0, tr) ∧
     replay (boot ∅) tr = Some w' ∧ misuses w' = 1%nat).
Proof.
  split.
  - destruct (proj1 (mmap_programs_store (kenv_legal (-1) eleven) eleven)
      (mkFile (b "hello world") true) eq_refl ltac:(discriminate)) as (_ & _ & H).
    destruct (H [] eq_refl) as (r & tr & w' & Hrun & Hw & _ & _ & _ & Hst).
    assert (r = 0) as -> by (vm_compute in Hrun; injection Hrun as <- _; reflexivity).
    exists tr, w'. split; [exact Hrun|]. split; [exact Hw|].
    destruct (Hst eq_refl) as (_ & _ & ->). vm_compute. reflexivity.
  - destruct (proj2 (mmap_programs_store (kenv_legal (-1) (boot ∅)) (boot ∅)) ltac:(by vm_compute))
      as (H & _ & _).
    destruct (H [] eq_refl) as (r & tr & w' & Hrun & Hw & [->|[-> Hm]]);
      [vm_compute in Hrun; discriminate Hrun|].
    exists tr, w'. split; [exact Hrun|]. split; [exact Hw|exact Hm].
Defined.
