(* ===== verification/DirectIO.v ===== *)
(** * [02_file_io/direct_io.c]: writing one aligned block with [O_DIRECT] *)
From S2P Require Export SysSock.

Definition FILE_PATH : string := "testfile".
Definition BUF_SIZE : Z := 4096.

Section program.
Context {e : Env}.

(** What [memset] puts into [buffer]. *)
Definition block : bytes := replicate (Z.to_nat BUF_SIZE) "A"%char.

Definition main : M trace Z :=
  fd ← sys (Open FILE_PATH [O_WRONLY; O_CREAT; O_DIRECT]);
  let fd := r_ret fd in
  if fd <? 0 then
    perror "Failed to open file";;
    mret 1
  else
  r ← sys (Alloc BUF_SIZE);
  if negb (r_ret r =? 0) then
    perror "Failed to allocate aligned buffer";;
    close fd;;
    mret 1
  else
  let buffer := r_off r in
  written ← sys (Write fd block);
  (if r_ret written <? 0 then perror "Write failed" else printf "Write succeeded\n" []);;
  sys (Free buffer);;
  close fd;;
  mret 0.
End program.

Section proofs.
Context {e : Env} {w0 : world} (Henv : legal_env w0).
Abbreviation runs := (runs w0).

(** The program ends with 0 or 1, its buffer freed and its file closed, and
    changes no other file. It ends with 0 even when [write] failed, which then is
    the last thing it printed; otherwise the file starts with one to 4096 [A]s,
    the rest of it being as it was before. *)
Lemma direct_io_writes w :
  runs main w (λ r w',
    (r = 0 ∨ r = 1) ∧ balanced w w' ∧ only_file FILE_PATH w w' ∧
    (r = 0 →
       (last (outs w') = Some (Perror "Write failed") ∨
        ∃ k s, (0 < k ≤ 4096)%nat ∧ last (outs w') = Some (Printf "Write succeeded\n" []) ∧
          let old := content (default (mkFile [] false) (files w !! FILE_PATH)) in
          files w' !! FILE_PATH = Some (mkFile (replicate k "A"%char ++ drop k old) s)))).
Proof.
  unfold main. step. eapply (runs_open_or_creat Henv); [done..| |].
  { intros ????. step; [|lia]. steps. settle. }
  intros ro f Hro Hfd Hf. step; [lia|]. step. eapply runs_alloc; [done|..].
  { intros ra _ Hra. step; [|lia]. steps. settle. }
  intros ra Hra H0 Hmem. cbn in Hmem. step; [lia|]. step.
  eapply runs_write; [done|look|look|set_solver|..].
  { intros rw k Hrw Hk _. step. step; [|lia]. steps.
    eapply runs_free; [done|done|cbn; set_solver|]. intros _. steps. split; [by left|].
    split; [settle|]. split; [settle|]. intros _. left. cbn. by rewrite last_snoc. }
  intros rw Hrw Hpos. step. step; [lia|]. steps.
  eapply runs_free; [done|done|cbn; set_solver|]. intros _. steps. split; [by left|].
  split; [settle|]. split; [settle|]. intros _. right.
  assert (zlen block = 4096) as Hb by (unfold block, zlen; rewrite length_replicate; done).
  assert (0 < r_ret rw) by (destruct Hpos as [?|Hd]; [done|by apply (f_equal zlen) in Hd]).
  exists (Z.to_nat (r_ret rw)), (bool_decide (O_SYNC ∈ [O_WRONLY; O_CREAT; O_DIRECT])).
  split; [lia|]. split; [cbn; by rewrite last_snoc|]. rewrite Hf. cbn -[block]. rewrite lookup_insert_eq.
  do 2 f_equal. unfold write_at, block. rewrite take_replicate, take_0. simpl.
  rewrite length_replicate. do 2 f_equal; unfold BUF_SIZE; lia.
Qed.
End proofs.

Lemma direct_io_writes_witness :
  ∃ tr w', main (e := kenv (-1) (boot ∅)) [] = Ok (0, tr) ∧ replay (boot ∅) tr = Some w' ∧
    balanced (boot ∅) w' ∧ only_file FILE_PATH (boot ∅) w'.
Proof.
  destruct (direct_io_writes (kenv_legal (-1) (boot ∅)) (boot ∅) [] eq_refl)
    as (r & tr & w' & Hrun & Hw & _ & Hb & Ho & _).
  assert (r = 0) as -> by (vm_compute in Hrun; injection Hrun as <- _; reflexivity).
  exists tr, w'. split; [exact Hrun|]. split; [exact Hw|]. split; [exact Hb|exact Ho].
Defined.
