(* ===== verification/NonBlocking.v ===== *)
(** * [05_ipc/pipe/non_blocking.c]: [O_NONBLOCK] is set with [fcntl]

    The servers of [09_epoll] have the same [setnonblocking]. *)
From S2P Require Export SysSock.

(** [old_option | O_NONBLOCK] *)
Definition O_NONBLOCK_BIT : Z := 2048.

Section program.
Context {e : Env}.

Definition setnonblocking (fd : Z) : M trace Z :=
  old_option ← sys (Getfl fd);
  let new_option := Z.lor (r_ret old_option) O_NONBLOCK_BIT in
  sys (Setfl fd new_option);;
  mret (r_ret old_option).

Definition main : M trace Z :=
  fd ← sys (Open "jun.txt" [O_CREAT; O_RDWR]);
  let fd := r_ret fd in
  if fd <? 0 then
    printf "error!" [];;
    mret 0
  else
  old_ ← setnonblocking fd;
  new_ ← sys (Getfl fd);
  printf "old = %d, new = %d\n" [AInt old_; AInt (r_ret new_)];;
  mret 0.

(** The file [non_blocking.cpp] is the same, byte for byte. *)
Definition non_blocking_cpp : M trace Z := main.
End program.

Section proofs.
Context {e : Env} {w0 : world} (Henv : legal_env w0).
Abbreviation runs := (runs w0).

(** Only the flags of the descriptor [fd], which is open as [o], change. *)
Definition reflagged (fd : Z) (o : ofile) (w w' : world) : Prop :=
  (∃ fl, fds w' = <[fd := mkOF (of_kind o) (of_off o) fl]> (fds w)) ∧
  files w' = files w ∧ pipes w' = pipes w ∧ maps w' = maps w ∧ mem w' = mem w ∧
  outs w' = outs w ∧ misuses w' = misuses w ∧ watches w' = watches w ∧
  streams w' = streams w ∧ arrivals w' = arrivals w ∧ (sigs w' ≤ sigs w)%nat.

(** When both calls succeed [O_NONBLOCK] is set. *)
Lemma runs_setnonblocking fd o w (Q : Z → world → Prop) :
  fds w !! fd = Some o → (∀ r w', reflagged fd o w w' → Q r w') →
  runs (setnonblocking fd) w Q.
Proof.
  intros Ho HQ. assert (<[fd := mkOF (of_kind o) (of_off o) (of_flags o)]> (fds w) = fds w) as Hid.
  { apply insert_id. by destruct o. }
  assert (∀ n n', (n ≤ sigs w)%nat → (n' ≤ n)%nat → reflagged fd o w (set_sigs n' (set_sigs n w))) as Hsig.
  { intros n n' ??. split; [by exists (of_flags o)|]. cbn. split_and!; try done. lia. }
  assert (∀ n fl, (n ≤ sigs w)%nat → reflagged fd o w
    (set_fds (<[fd := mkOF (of_kind o) (of_off o) fl]> (fds w)) (set_sigs n w))) as Hset.
  { intros n fl ?. split; [by exists fl|]. cbn. split_and!; try done. }
  unfold setnonblocking. step. eapply (runs_getfl Henv); [exact Ho|..].
  - intros r n Hr Hn. step. eapply (runs_setfl Henv); [exact Ho|..].
    + intros r' n' _ Hn'. cbn in Hn'. steps. by apply HQ, Hsig.
    + intros r' _. steps. by apply HQ, Hset.
  - intros r Hr _. step. eapply (runs_setfl Henv); [exact Ho|..].
    + intros r' n' _ Hn'. steps. apply HQ. replace (set_sigs n' w) with (set_sigs n' (set_sigs (sigs w) w))
        by done. by apply Hsig.
    + intros r' _. steps. apply HQ.
      specialize (Hset (sigs w) (with_flags (Z.lor (r_ret r) O_NONBLOCK_BIT) (of_flags o)) ltac:(lia)).
      by destruct w.
Qed.
End proofs.

(** Flags 0 before, [O_NONBLOCK] after. *)
Example non_blocking_runs :
  match main (e := kenv (-1) (boot ∅)) [] with
  | Ok (r, tr) => Some (r, outs <$> replay (boot ∅) tr)
  | _ => None
  end = Some (0, Some [Printf "old = %d, new = %d\n" [AInt 0; AInt 2048]]).
Proof. vm_compute. reflexivity. Qed.
