(* ===== verification/EpollServer.v ===== *)
(** * What the epoll servers of [09_epoll] share

    The loop over the events of one [epoll_wait], and the invariant of a server:
    each descriptor registered with its epoll instance is open, and registered
    with its own number as data. *)
From S2P Require Export NonBlocking.

(** [for (int i = 0; i < number; i++)] with a body that may end the program. *)
Fixpoint for_exit {S} (n : nat) (i : Z) (body : Z → M S (option Z)) : M S (option Z) :=
  match n with
  | O => mret None
  | S n =>
    r ← body i;
    match r with None => for_exit n (i + 1) body | Some z => mret (Some z) end
  end.
Definition for_each {S} (number : Z) (body : Z → M S (option Z)) : M S (option Z) :=
  for_exit (Z.to_nat number) 0 body.

(** [argv[2]] as [atoi] reads it, and the exit status that a shell reports when
    an [assert] fails: 128 + [SIGABRT]. *)
Definition atoi {S} (s : string) : M S Z :=
  match scan_int (b s) with (Some (AInt z), _) => int_val z | _ => mret 0 end.
Definition ABORTED : Z := 134.

Definition represents_int (s : string) : bool :=
  match scan_int (b s) with (Some (AInt z), _) => int_ok z | _ => true end.

(** A port in network byte order. *)
Definition htons (z : Z) : Z := let z := z mod 65536 in (z mod 256) * 256 + z / 256.

(** The last component of a path. *)
Definition basename (s : string) : bytes :=
  foldl (λ acc c, if bool_decide (c = "/"%char) then [] else acc ++ [c]) [] (b s).

Lemma runs_atoi {w0 : world} s w (Q : Z → world → Prop) :
  represents_int s = true → (∀ z, Q z w) → runs w0 (atoi s) w Q.
Proof.
  unfold represents_int, atoi. intros Hs HQ. destruct (scan_int (b s)) as [[[z| | | |]|] ?];
    try by apply runs_ret.
  unfold int_ok in Hs. propify. eapply (runs_pure _ z); [|done]. intros tr. by apply int_val_ok.
Qed.

Definition watched (epfd : Z) (w : world) (fd : Z) : Prop := is_Some (watches w !! (epfd, fd)).

Record serving (epfd lfd : Z) (w : world) : Prop := {
  serving_epoll : ∃ o, fds w !! epfd = Some o ∧ of_kind o = KEpoll;
  serving_listen : ∃ o, fds w !! lfd = Some o ∧ of_kind o = KSocket;
  serving_watched fd x : watches w !! (epfd, fd) = Some x →
    x.2 = fd ∧ ∃ o, fds w !! fd = Some o ∧ talks (of_kind o) = true;
  serving_invalid : fds w !! (-1) = None }.

(** What handling the event of [fd] may change: no other registration is lost, and
    no other descriptor is closed. *)
Record handled (epfd lfd fd : Z) (w w' : world) : Prop := {
  handled_serving : serving epfd lfd w';
  handled_arrivals : (arrivals w' ≤ arrivals w)%nat;
  handled_others k : k ≠ fd → watched epfd w k → watched epfd w' k;
  handled_kinds k o : k ≠ fd → fds w !! k = Some o →
    ∃ o', fds w' !! k = Some o' ∧ of_kind o' = of_kind o }.

Lemma serving_ne epfd lfd w : serving epfd lfd w → epfd ≠ lfd.
Proof. intros [(o & Ho & Hk) (o' & Ho' & Hk') _ _] ->. simplify_eq. congruence. Qed.

(** A new epoll instance beside the listening socket. *)
Lemma serving_start epfd lfd ol (d : gmap Z ofile) w :
  0 ≤ epfd → lfd ≠ epfd → d !! lfd = Some ol → of_kind ol = KSocket → d !! (-1) = None →
  serving epfd lfd (set_fds (<[epfd := mkOF KEpoll 0 []]> d) (unwatch epfd w)).
Proof.
  intros Hpos Hne Hol Hk Hneg. split; cbn.
  - eexists. by rewrite lookup_insert_eq.
  - exists ol. by rewrite lookup_insert_ne.
  - by intros fd x [_ [Hx _]]%map_lookup_filter_Some.
  - by rewrite lookup_insert_ne by lia.
Qed.

Lemma serving_ext epfd lfd w w' :
  fds w' = fds w → watches w' = watches w → serving epfd lfd w → serving epfd lfd w'.
Proof. intros E1 E2 [H1 H2 H3 H4]. split; rewrite ?E1; [done..| |done]. intros fd x. rewrite ?E1, E2. apply H3. Qed.

Lemma handled_ext epfd lfd fd w w1 w' :
  fds w1 = fds w → watches w1 = watches w → (arrivals w1 ≤ arrivals w)%nat →
  handled epfd lfd fd w1 w' → handled epfd lfd fd w w'.
Proof.
  intros E1 E2 Ha [Hs Hle Ho Hk]. rewrite E1 in Hk. split; [done|lia| |done].
  intros k Hne Hw. apply Ho; [done|]. unfold watched. by rewrite E2.
Qed.

Lemma handled_same epfd lfd fd w w' :
  serving epfd lfd w → fds w' = fds w → watches w' = watches w → (arrivals w' ≤ arrivals w)%nat →
  handled epfd lfd fd w w'.
Proof.
  intros Hs E1 E2 Ha. split; [by eapply serving_ext|done| |].
  - intros k _ Hk. unfold watched. by rewrite E2.
  - intros k o _ Ho. exists o. by rewrite E1.
Qed.

Lemma handled_trans epfd lfd fd w1 w2 w3 :
  handled epfd lfd fd w1 w2 → handled epfd lfd fd w2 w3 → handled epfd lfd fd w1 w3.
Proof.
  intros [H1 H2 H3 H7] [H4 H5 H6 H8]. split; [done|lia|auto|]. intros k o Hne Ho.
  destruct (H7 _ _ Hne Ho) as (o1 & Ho1 & E1). destruct (H8 _ _ Hne Ho1) as (o2 & Ho2 & E2).
  exists o2. split; [done|congruence].
Qed.

(** Closing a connection takes it out of the set that is watched. *)
Lemma handled_close epfd lfd fd w :
  serving epfd lfd w → fd ≠ epfd → fd ≠ lfd →
  handled epfd lfd fd w (unwatch fd (set_fds (delete fd (fds w)) w)).
Proof.
  intros [(o & Ho & Hk) (o' & Ho' & Hk') Hw Hneg] H1 H2. split; [split|done| |].
  - exists o. cbn. by rewrite lookup_delete_ne.
  - exists o'. cbn. by rewrite lookup_delete_ne.
  - intros k x. cbn. intros [Hx Hne]%map_lookup_filter_Some. cbn in Hne. destruct Hne as [_ Hne].
    rewrite lookup_delete_ne by done. by apply Hw.
  - cbn. by apply lookup_delete_None; right.
  - intros k Hne [x Hx]. exists x. cbn. apply map_lookup_filter_Some. split; [done|]. cbn. done.
  - intros k ok Hne Hok. exists ok. cbn. by rewrite lookup_delete_ne.
Qed.

(** A descriptor that was not open at first was not registered then. *)
Lemma handled_new epfd lfd k c w w1 w2 :
  serving epfd lfd w → fds w !! c = None → handled epfd lfd k w w1 → handled epfd lfd c w1 w2 →
  handled epfd lfd k w w2.
Proof.
  intros Hs Hc [_ H2 H3 H7] [H4 H5 H6 H8]. split; [done|lia| |].
  - intros f Hne Hf. apply H6; [|by apply H3].
    intros ->. destruct Hf as [x Hx]. destruct (serving_watched _ _ _ Hs _ _ Hx) as (_ & o & Ho & _).
    congruence.
  - intros f o Hne Ho. destruct (H7 _ _ Hne Ho) as (o1 & Ho1 & E1).
    destruct (H8 f o1) as (o2 & Ho2 & E2); [congruence|done|]. exists o2. split; [done|congruence].
Qed.

(** Changing the state of an open socket keeps all. *)
Lemma handled_alter epfd lfd k fd o o' w w' :
  serving epfd lfd w → fds w !! fd = Some o → of_kind o' = of_kind o →
  fds w' = <[fd := o']> (fds w) → watches w' = watches w → (arrivals w' ≤ arrivals w)%nat →
  handled epfd lfd k w w'.
Proof.
  intros [(oe & He & Hke) (ol & Hl & Hkl) Hw Hneg] Ho Hk E1 E2 Ha. split; [split|done| |].
  - destruct (decide (fd = epfd)) as [->|].
    + exists o'. rewrite E1, lookup_insert_eq. split; [done|congruence].
    + exists oe. by rewrite E1, lookup_insert_ne.
  - destruct (decide (fd = lfd)) as [->|].
    + exists o'. rewrite E1, lookup_insert_eq. split; [done|congruence].
    + exists ol. by rewrite E1, lookup_insert_ne.
  - intros f x. rewrite E2, E1. intros Hx. apply Hw in Hx as (Hd & og & Hog & Ht). split; [done|].
    destruct (decide (fd = f)) as [->|].
    + exists o'. rewrite lookup_insert_eq. split; [done|]. rewrite Hk. by simplify_eq.
    + exists og. by rewrite lookup_insert_ne.
  - rewrite E1, lookup_insert_ne; [done|congruence].
  - intros f _ Hf. unfold watched. by rewrite E2.
  - intros f of' _ Hf. rewrite E1. destruct (decide (fd = f)) as [->|].
    + exists o'. rewrite lookup_insert_eq. split; [done|]. by simplify_eq.
    + exists of'. by rewrite lookup_insert_ne.
Qed.

Lemma handled_accept epfd lfd k c w :
  serving epfd lfd w → fds w !! c = None → 0 ≤ c →
  handled epfd lfd k w (set_fds (<[c := mkOF KSocket 0 []]> (fds w)) w).
Proof.
  intros [(oe & He & Hke) (ol & Hl & Hkl) Hw Hneg] Hc Hpos. split; [split|done|done|].
  - exists oe. cbn. rewrite lookup_insert_ne; [done|congruence].
  - exists ol. cbn. rewrite lookup_insert_ne; [done|congruence].
  - intros f x Hx. cbn in *. destruct (Hw f x Hx) as (Hd & og & Hog & Ht). split; [done|].
    exists og. rewrite lookup_insert_ne; [done|congruence].
  - cbn. rewrite lookup_insert_ne; [done|lia].
  - intros f og _ Hf. exists og. cbn. rewrite lookup_insert_ne; [done|congruence].
Qed.

Lemma handled_add epfd lfd k c ev o w :
  serving epfd lfd w → fds w !! c = Some o → talks (of_kind o) = true →
  handled epfd lfd k w (set_watches (<[(epfd, c) := (ev, c)]> (watches w)) w).
Proof.
  intros [He Hl Hw Hneg] Hc Ht. split; [split|done| |]; [done..| |done| |].
  - intros f x. cbn. intros [[[= <-] <-]|[_ Hx]]%lookup_insert_Some; [by eauto|by apply Hw].
  - intros f _ [x Hx]. unfold watched. cbn. destruct (decide (f = c)) as [->|].
    + rewrite lookup_insert_eq. by eexists.
    + rewrite lookup_insert_ne by congruence. by exists x.
  - intros f og _ Hf. by exists og.
Qed.

(** ** New connections *)

Section connections.
Context {e : Env} {w0 : world} (Henv : legal_env w0).
Abbreviation runs := (runs w0).

(** The body of the servers' [addfd]. *)
Definition register (epollfd fd events : Z) : M trace unit :=
  sys (Epoll epollfd (Epoll_add fd events fd));;
  setnonblocking fd;;
  mret tt.

Lemma runs_register epfd lfd k c ev o w (Q : unit → world → Prop) :
  serving epfd lfd w → fds w !! c = Some o → talks (of_kind o) = true →
  (∀ w', handled epfd lfd k w w' → outs w' = outs w → misuses w' = misuses w →
     is_Some (fds w' !! c) → Q tt w') →
  runs (register epfd c ev) w Q.
Proof.
  intros Hs Ho Ht HQ. destruct (serving_epoll _ _ _ Hs) as (oe & He & _).
  assert (∀ w1, handled epfd lfd k w w1 → fds w1 = fds w → outs w1 = outs w →
    misuses w1 = misuses w → runs (setnonblocking c;; mret tt) w1 Q) as Hset.
  { intros w1 H1 Hf1 Ho1 Hm1. step. eapply (runs_setnonblocking Henv); [by rewrite Hf1|].
    intros r w2 ((fl & Hfds) & ? & ? & ? & ? & ? & ? & Hw & ? & Ha & _). step. apply HQ.
    - eapply handled_trans; [exact H1|]. eapply (handled_alter _ _ _ c o (mkOF (of_kind o) (of_off o) fl) w1 w2);
        [apply H1|by rewrite Hf1|done|exact Hfds|done|lia].
    - congruence.
    - congruence.
    - rewrite Hfds, lookup_insert_eq. by eexists. }
  unfold register. step. eapply (runs_epoll_add Henv); [exact He|exact Ho|..].
  - intros r n _ _. apply Hset; [|done..]. by apply handled_same.
  - intros r _ Hw. apply Hset; [|done..]. by eapply handled_add.
Qed.

Lemma runs_register_dead epfd lfd k c ev w (Q : unit → world → Prop) :
  serving epfd lfd w → fds w !! c = None →
  (∀ w', handled epfd lfd k w w' → outs w' = outs w → Q tt w') →
  runs (register epfd c ev) w Q.
Proof.
  intros Hs Hc HQ. unfold register, setnonblocking. step.
  eapply (runs_epoll_dead Henv); [left; by do 2 eexists|done|]. intros r _ _. step.
  step. eapply (runs_dead Henv); [by left|done|]. intros r1 _ _. step.
  eapply (runs_dead Henv); [by left|done|]. intros r2 _ _. steps. apply HQ; [|done].
  by apply handled_same.
Qed.

(** A connection is accepted and registered, or [accept] has failed. *)
Lemma accept_registers epfd lfd ev w :
  serving epfd lfd w →
  runs (connfd ← sys (Accept lfd); register epfd (r_ret connfd) ev;; mret None) w
    (λ (r : option Z) w', r = None ∧ handled epfd lfd lfd w w' ∧ outs w' = outs w).
Proof.
  intros Hs. destruct (serving_listen _ _ _ Hs) as (ol & Hl & _). step.
  eapply (runs_accept Henv); [by rewrite Hl|..].
  - intros r n -> _. step. eapply (runs_register_dead epfd lfd lfd); [|apply (serving_invalid _ _ _ Hs)|].
    + by apply (serving_ext epfd lfd w).
    + intros w' Hh Ho. step. split_and!; [done| |done]. by eapply handled_ext; [..|exact Hh].
  - intros r Hr Hfd. pose proof (handled_accept epfd lfd lfd _ w Hs Hfd Hr) as Hacc. step.
    eapply (runs_register epfd lfd lfd); [apply Hacc|cbn; apply lookup_insert_eq|done|].
    intros w' Hh Ho _ _. step. split_and!; [done| |done]. by eapply handled_trans.
Qed.

End connections.

(** ** What a server prints, receives and sends

    A log is made of the groups [G] that the handlers produce. *)
Section log.
Context (G : list output → Prop).

Inductive log : list output → Prop :=
| log_nil : log []
| log_group g l : G g → log l → log (g ++ l).

Lemma log_app l1 l2 : log l1 → log l2 → log (l1 ++ l2).
Proof.
  intros H1 H2. induction H1 as [|g l1 Hg _ IH]; [done|]. rewrite <- app_assoc. by constructor.
Qed.
Lemma log_one g : G g → log g.
Proof. intros Hg. rewrite <- (app_nil_r g). by constructor; [|constructor]. Qed.

(** From [w] to [w'] such a log has been added, and the arrivals that were used up
    are not given again. *)
Definition progress (w w' : world) : Prop :=
  (arrivals w' ≤ arrivals w)%nat ∧ ∃ out, outs w' = outs w ++ out ∧ log out.

#[export] Instance progress_preorder : PreOrder progress.
Proof.
  split.
  - intros w. split; [done|]. exists []. rewrite app_nil_r. split; [done|constructor].
  - intros w1 w2 w3 (H1 & o1 & E1 & R1) (H2 & o2 & E2 & R2). split; [lia|].
    exists (o1 ++ o2). rewrite E2, E1, app_assoc. split; [done|by apply log_app].
Qed.

Lemma progress_group g w w' :
  G g → outs w' = outs w ++ g → (arrivals w' ≤ arrivals w)%nat → progress w w'.
Proof. intros Hg Ho Ha. split; [done|]. exists g. split; [done|by apply log_one]. Qed.
Lemma progress_same w w' : outs w' = outs w → (arrivals w' ≤ arrivals w)%nat → progress w w'.
Proof. intros Ho Ha. split; [done|]. exists []. rewrite app_nil_r. split; [done|constructor]. Qed.
Lemma progress_print o w : G [o] → progress w (print o w).
Proof. intros Ho. by eapply progress_group. Qed.
End log.

Definition arrival (o : output) : bool := match o with Received _ _ => true | _ => false end.

(** No message fills a buffer of 1024 bytes. *)
Definition messages_fit {e : Env} (w0 : world) : Prop :=
  ∀ tr w fd, replay w0 tr = Some w → r_ret (env tr (Read fd 1024)) < 1024.

Lemma fed_messages_fit inputs w :
  Forall (λ d, zlen d < 1024) inputs → messages_fit (e := fed_env inputs w) w.
Proof.
  intros Hin tr w1 fd Htr. unfold env, fed_env. rewrite Htr.
  assert (r_ret (refuse w1 (Read fd 1024)) < 1024) as Href by (simpl; lia).
  destruct (posix_step w1 _); [|done]. unfold fed. case_match.
  - case_match eqn:Hd; [|simpl; lia]. rewrite Forall_lookup in Hin. specialize (Hin _ _ Hd).
    cbn [r_ret answer]. lia.
  - cbn [r_ret answer attempt]. change (512 <? 0) with false. cbn iota. lia.
Qed.

Section batch.
Context {e : Env} {w0 : world} (Henv : legal_env w0).
Abbreviation runs := (runs w0).
Context (epfd lfd : Z) (handle : Z * Z → M trace (option Z)) (bound : nat).
Context (R : world → world → Prop) `{!PreOrder R} (X : Z → world → world → Prop).
Context (HX : ∀ z w w1 w2, R w w1 → X z w1 w2 → X z w w2).
Context (start : world).
Context (handle_ok : ∀ ev w, R start w → serving epfd lfd w → watched epfd w ev.2 →
  (arrivals w ≤ bound)%nat → runs (handle ev) w (λ r w', match r with
    | None => handled epfd lfd ev.2 w w' ∧ R w w' | Some z => X z w w' end)).

(** The events of one [epoll_wait] are handled one after the other; each is still
    that of an open, registered descriptor when its turn comes. *)
Lemma for_exit_ok pre evs w :
  R start w → serving epfd lfd w → NoDup evs.*2 → Forall (watched epfd w) evs.*2 → (arrivals w ≤ bound)%nat →
  runs (for_exit (length evs) (zlen pre) (λ i, ev ← event_at (pre ++ evs) i; handle ev)) w (λ r w',
    match r with
    | None => serving epfd lfd w' ∧ (arrivals w' ≤ arrivals w)%nat ∧ R w w'
    | Some z => X z w w'
    end).
Proof using Henv HX handle_ok PreOrder0.
  revert pre w. induction evs as [|ev evs IH]; intros pre w Hstart Hs Hdup Hwatch Ha; cbn [length for_exit].
  { apply runs_ret. by split_and!. }
  rewrite !fmap_cons in Hdup, Hwatch. apply NoDup_cons in Hdup as [Hnot Hdup].
  apply Forall_cons in Hwatch as [Hev Hwatch]. step. step. eapply (runs_pure _ ev).
  { intros tr. unfold event_at, zlookup. rewrite bool_decide_eq_true_2 by apply zlen_nonneg.
    unfold zlen. by rewrite Nat2Z.id, list_lookup_middle. }
  eapply runs_mono; [by apply handle_ok|]. intros [z|] w1 H1; cbn beta iota in *.
  { by apply runs_ret. }
  destruct H1 as ([Hs1 Ha1 Hother] & HR). eapply runs_mono.
  { replace (zlen pre + 1) with (zlen (pre ++ [ev])) by (unfold zlen; rewrite length_app; simpl; lia).
    replace (pre ++ ev :: evs) with ((pre ++ [ev]) ++ evs) by (by rewrite <- app_assoc). apply IH; [by etransitivity|done|done| |lia].
    apply Forall_forall. intros k Hk. apply Hother; [by intros ->|].
    by apply (proj1 (Forall_forall _ _) Hwatch). }
  intros [z|] w2; cbn beta iota; [by apply HX|]. intros (? & ? & ?). split_and!; [done|lia|by etransitivity].
Qed.

End batch.

(** The loop over what [epoll_wait] gave. *)
Lemma runs_events {e : Env} {w0 : world} (Henv : legal_env w0) epfd lfd
    (handle : Z * Z → M trace (option Z)) bound (R : world → world → Prop) `{!PreOrder R}
    (X : Z → world → world → Prop) evs w :
  (∀ z w w1 w2, R w w1 → X z w1 w2 → X z w w2) →
  (∀ ev w1, R w w1 → serving epfd lfd w1 → watched epfd w1 ev.2 → (arrivals w1 ≤ bound)%nat →
     runs w0 (handle ev) w1 (λ r w', match r with
       | None => handled epfd lfd ev.2 w1 w' ∧ R w1 w' | Some z => X z w1 w' end)) →
  serving epfd lfd w → (arrivals w ≤ bound)%nat → NoDup evs.*2 →
  Forall (λ ev, ∃ fd mask, watches w !! (epfd, fd) = Some (mask, ev.2)) evs →
  runs w0 (for_each (zlen evs) (λ i, ev ← event_at evs i; handle ev)) w (λ r w', match r with
    | None => serving epfd lfd w' ∧ (arrivals w' ≤ arrivals w)%nat ∧ R w w'
    | Some z => X z w w'
    end).
Proof.
  intros HX Hok Hs Ha Hdup Hev. unfold for_each, zlen. rewrite Nat2Z.id.
  apply (for_exit_ok Henv epfd lfd handle bound R X HX w Hok []); [done..| |done].
  apply Forall_fmap. eapply Forall_impl; [exact Hev|]. intros ev (fd & mask & Hw). cbn.
  destruct (serving_watched _ _ _ Hs _ _ Hw) as [Hd _]. cbn in Hd. rewrite Hd. by eexists.
Qed.
