(* ===== verification/TeeDemo.v ===== *)
(** * [09_epoll/tee.c]: the standard input goes to a file and to the standard output

    Blanks within the names of flags of [splice] ([SPLICE_ F_MORE]) keep the file from
    compiling; they are read without them. *)
From S2P Require Export EpollServer.

Definition LENGTH : Z := 32768.

Section program.
Context {e : Env}.

(** The program after a failed [assert] does not go on. *)
Definition assert_ (c : bool) (k : M trace Z) : M trace Z := if c then k else mret ABORTED.

Definition main (argv : list string) : M trace Z :=
  match argv with
  | [_; path] =>
    filefd ← sys (Open path [O_CREAT; O_WRONLY; O_TRUNC]);
    let filefd := r_ret filefd in
    assert_ (0 <? filefd) (
    ret ← sys Pipe;
    let pipefd_stdout := r_fds ret in
    assert_ (negb (r_ret ret =? -1)) (
    ret ← sys Pipe;
    let pipefd_file := r_fds ret in
    assert_ (negb (r_ret ret =? -1)) (
    ret ← sys (Splice STDIN_FILENO pipefd_stdout.2 LENGTH);
    assert_ (negb (r_ret ret =? -1)) (
    ret ← sys (Tee pipefd_stdout.1 pipefd_file.2 LENGTH);
    assert_ (negb (r_ret ret =? -1)) (
    ret ← sys (Splice pipefd_file.1 filefd LENGTH);
    assert_ (negb (r_ret ret =? -1)) (
    ret ← sys (Splice pipefd_stdout.1 STDOUT_FILENO LENGTH);
    assert_ (negb (r_ret ret =? -1)) (
    close filefd;;
    close pipefd_stdout.1;;
    close pipefd_stdout.2;;
    close pipefd_file.1;;
    close pipefd_file.2;;
    mret 0)))))))
  | argv0 :: _ =>
    printf "usage:%s<file>\n" [AStr (b argv0)];;
    mret 1
  | [] => ub_fail NullDeref
  end.
End program.

(** ** What it copies *)

Section proofs.
Context {e : Env} {w0 : world} (Henv : legal_env w0).
Abbreviation runs := (runs w0).

(** From a pipe to a terminal, or a socket. *)
Lemma runs_splice_out fd_i fd_o i o p (d : bytes) n w (Q : reply → world → Prop) :
  fds w !! fd_i = Some i → of_kind i = KPipeR p → pipes w !! p = Some d →
  fds w !! fd_o = Some o → talks (of_kind o) = true →
  (∀ r k, r_ret r = -1 → (k ≤ sigs w)%nat → Q r (set_sigs k w)) →
  (∀ r, 0 ≤ r_ret r ≤ n → r_ret r ≤ zlen d →
     Q r (print (Sent fd_o (take (Z.to_nat (r_ret r)) d))
            (set_pipes (<[p := drop (Z.to_nat (r_ret r)) d]> (pipes w)) w))) →
  runs (sys (Splice fd_i fd_o n)) w Q.
Proof.
  intros Hi Hki Hp Ho Ht Hfail Hok. eapply (runs_on_fds Henv); [done|exact Hi|exact Ho|done|].
  intros r w' Hr Hk. cbn beta in Hk. unfold avail in Hk. rewrite Hki in Hk. cbn in Hk.
  rewrite Hp in Hk. cbn in Hk. apply guard_Some in Hk as [Hb <-].
  rewrite !andb_true_iff in Hb. destruct Hb as [[_ Hm] _]. apply moved_true in Hm as (? & ? & _).
  unfold deliver, consume. rewrite Hki. destruct (of_kind o); try discriminate Ht;
    cbn; rewrite (alter_alt_Some _ _ _ _ Hp); by apply Hok.
Qed.

Lemma runs_closed fd w (Q : unit → world → Prop) :
  is_Some (fds w !! fd) →
  (∀ w', fds w' = delete fd (fds w) → files w' = files w → outs w' = outs w → Q tt w') →
  runs (close fd) w Q.
Proof using Henv. intros Hfd HQ. apply (runs_close Henv); [done|]. by apply HQ. Qed.

Lemma runs_assert c k w (Q : Z → world → Prop) :
  (c = true → runs k w Q) → Q ABORTED w → runs (assert_ c k) w Q.
Proof using Type. intros Hk HQ. unfold assert_. destruct c; [by apply Hk|]. by apply runs_ret. Qed.

(** An assertion after a call that was refused fails; the program goes on after one that holds. *)
Ltac refused := intros r n Hr _; apply runs_assert; [intros Hc; by rewrite Hr in Hc|by left].
Ltac asserted := apply runs_assert; [intros _|by left].

(** What has been copied when the program ends with 0: the file has a prefix of the
    input, at most 32 KiB, and the terminal was sent another; the five descriptors are closed. *)
Definition copied (path : string) (input : bytes) (w w' : world) : Prop :=
  ∃ n m s, Z.of_nat n ≤ LENGTH ∧ Z.of_nat m ≤ LENGTH ∧
    files w' !! path = Some (mkFile (take n input) s) ∧
    outs w' = outs w ++ [Sent STDOUT_FILENO (take m input)] ∧
    ∃ o, of_kind o = of_kind (default (mkOF KEpoll 0 []) (fds w !! STDIN_FILENO)) ∧
      fds w' = <[STDIN_FILENO := o]> (fds w).

(** [tee.c] (its [main], on a machine that answers as the manual pages allow, whose
    standard input is a file and whose standard output is not): when no assertion fails, the
    program ends with 0, the file it was given holds a prefix of the input and the
    standard output was sent another, each of at most 32 KiB, and the table of descriptors is what it was. *)
Theorem tee_copies argv0 path src off fl f o w :
  fds w !! STDIN_FILENO = Some (mkOF (KFile src) off fl) → files w !! src = Some f → src ≠ path →
  fds w !! STDOUT_FILENO = Some o → talks (of_kind o) = true →
  runs (main [argv0; path]) w (λ r w', r = ABORTED ∨
    r = 0 ∧ copied path (drop (Z.to_nat off) (content f)) w w').
Proof.
  intros Hin Hf Hne Hout Ht. unfold main. step. eapply (runs_creat Henv); [done..| |].
  { refused. }
  intros rf Hrf Hff. asserted. step. apply (runs_pipe Henv).
  { refused. }
  intros r1 rd1 wr1 p1 _ Er1 Hn1 Hrd1 Hwr1 Hp1. fresh_fds. asserted.
  step. apply (runs_pipe Henv).
  { refused. }
  intros r2 rd2 wr2 p2 _ Er2 Hn2 Hrd2 Hwr2 Hp2. cbn in Hp2. apply lookup_insert_None in Hp2 as [_ Hpne].
  fresh_fds. rewrite Er1, Er2. cbn [fst snd]. asserted. step.
  assert (STDIN_FILENO ≠ r_ret rf ∧ STDIN_FILENO ≠ rd1 ∧ STDIN_FILENO ≠ wr1 ∧ STDIN_FILENO ≠ rd2 ∧
    STDIN_FILENO ≠ wr2) as (?&?&?&?&?) by (split_and!; congruence).
  assert (STDOUT_FILENO ≠ r_ret rf ∧ STDOUT_FILENO ≠ rd1 ∧ STDOUT_FILENO ≠ wr1 ∧ STDOUT_FILENO ≠ rd2 ∧
    STDOUT_FILENO ≠ wr2) as (?&?&?&?&?) by (split_and!; congruence).
  eapply (runs_splice_read Henv); [look|look|look|done|look|..].
  { refused. }
  intros r3 input Hr3 _ _. expand_world. asserted. step.
  eapply (runs_tee Henv); [look|done|look|look|done|look|..].
  { refused. }
  intros r4 Hr4 _. expand_world. asserted. step.
  eapply (runs_splice_write Henv); [look|done|look|look|look|by apply (bool_decide_unpack _)|..].
  { refused. }
  intros r5 Hr5 _ _. expand_world. asserted. step.
  assert (STDIN_FILENO ≠ STDOUT_FILENO) by done.
  eapply runs_splice_out; [look|done|look|look|done|..].
  { refused. }
  intros r6 Hr6 _. expand_world. asserted.
  do 5 (step; apply runs_closed; [look|];
    let Ed := fresh in let Ef := fresh in let Eo := fresh in intros ? Ed Ef Eo;
    cbn in Ed, Ef, Eo; repeat match goal with
    | H : fds ?v = _, E : _ = delete _ (fds ?v) |- _ => rewrite H in E; clear H
    | H : files ?v = _, E : _ = files ?v |- _ => rewrite H in E; clear H
    | H : outs ?v = _, E : _ = outs ?v |- _ => rewrite H in E; clear H
    end). step.
  right. split; [done|].
  exists (Z.to_nat (r_ret r5) `min` (Z.to_nat (r_ret r4) `min` Z.to_nat (r_ret r3)))%nat.
  exists (Z.to_nat (r_ret r6) `min` Z.to_nat (r_ret r3))%nat, false.
  split; [clear -Hr3; lia|]. split; [clear -Hr3; lia|]. split; [|split; [|exists (mkOF (KFile src) (off + r_ret r3) fl); split]].
  - match goal with H : files ?v = _ |- files ?v !! _ = _ => rewrite H end.
    rewrite lookup_insert_eq, !take_take. cbn. unfold write_at. cbn. rewrite drop_nil, app_nil_r.
    by rewrite Nat.min_assoc.
  - match goal with H : outs ?v = _ |- outs ?v = _ => rewrite H end. by rewrite take_take.
  - by rewrite Hin.
  - match goal with H : fds ?v = _ |- fds ?v = _ => rewrite H end. map_solve.
Qed.
End proofs.
