(* ===== verification/EpollEt.v ===== *)
(** * [09_epoll/02_epoll_et.c]: a server with level- or edge-triggered epoll *)
From S2P Require Export EpollServer.

Definition MAX_EVENT_NUMBER : Z := 1024.
Definition BUFFER_SIZE : Z := 10.

Section program.
Context {e : Env}.

Definition addfd (epollfd fd : Z) (enable_et : bool) : M trace unit :=
  let events := if enable_et then Z.lor EPOLLIN EPOLLET else EPOLLIN in
  sys (Epoll epollfd (Epoll_add fd events fd));;
  setnonblocking fd;;
  mret tt.

(** The body of the loop of [lt] over the events. *)
Definition lt_event (epollfd listenfd : Z) (ev : Z * Z) : M trace (option Z) :=
  let sockfd := ev.2 in
  if sockfd =? listenfd then
    printf "listen fd\n" [];;
    connfd ← sys (Accept listenfd);
    addfd epollfd (r_ret connfd) false;;
    mret None
  else if negb (Z.land ev.1 EPOLLIN =? 0) then
    printf "event trigger once\n" [];;
    ret ← sys (Read sockfd (BUFFER_SIZE - 1));
    let buf := fill (zeroed BUFFER_SIZE) (r_data ret) in
    if r_ret ret <=? 0 then
      close sockfd;;
      mret None
    else
      s ← c_str buf;
      printf "get %d bytes of content:%s\n" [AInt (r_ret ret); AStr s];;
      mret None
  else
    printf "something else happened\n" [];;
    mret None.

Definition lt (events : list (Z * Z)) (number epollfd listenfd : Z) : M trace (option Z) :=
  for_each number (λ i, ev ← event_at events i; lt_event epollfd listenfd ev).

(** One round of [while (1)]: after an end of file the loop goes on. *)
Definition et_read (sockfd : Z) (_ : unit) : M trace (ctl unit unit) :=
  ret ← sys (Read sockfd (BUFFER_SIZE - 1));
  let buf := fill (zeroed BUFFER_SIZE) (r_data ret) in
  if r_ret ret <? 0 then
    if r_errno ret =? EAGAIN then
      printf "read later\n" [];;
      mret (Break tt)
    else
      close sockfd;;
      mret (Break tt)
  else if r_ret ret =? 0 then
    close sockfd;;
    mret (Next tt)
  else
    s ← c_str buf;
    printf "get %d bytes of content:%s\n" [AInt (r_ret ret); AStr s];;
    mret (Next tt).

Definition et_event (fuel : nat) (epollfd listenfd : Z) (ev : Z * Z) : M trace (option Z) :=
  let sockfd := ev.2 in
  if sockfd =? listenfd then
    printf "listen fd\n" [];;
    connfd ← sys (Accept listenfd);
    addfd epollfd (r_ret connfd) true;;
    mret None
  else if negb (Z.land ev.1 EPOLLIN =? 0) then
    printf "event trigger once\n" [];;
    loop fuel (et_read sockfd) tt;;
    mret None
  else
    printf "something else happened\n" [];;
    mret None.

Definition et (fuel : nat) (events : list (Z * Z)) (number epollfd listenfd : Z)
    : M trace (option Z) :=
  for_each number (λ i, ev ← event_at events i; et_event fuel epollfd listenfd ev).

(** One round of the server. *)
Definition serve (fuel : nat) (epollfd listenfd : Z) (_ : unit) : M trace (ctl unit unit) :=
  ret ← sys (Epoll epollfd (Epoll_wait MAX_EVENT_NUMBER (-1)));
  printf "trigger epoll wait...\n" [];;
  if r_ret ret <? 0 then
    printf "epoll failure\n" [];;
    mret (Break tt)
  else
    et fuel (r_events ret) (r_ret ret) epollfd listenfd;;
    mret (Next tt).

(** The first [n] rounds of the server; [None] when it goes on after them. *)
Definition main (fuel n : nat) (argv : list string) : M trace (option Z) :=
  match argv with
  | argv0 :: ip :: argv2 :: _ =>
    port ← atoi argv2;
    listenfd ← sys Socket;
    let listenfd := r_ret listenfd in
    if listenfd <? 0 then mret (Some ABORTED) else
    ret ← sys (Sockcall "bind" listenfd [htons port]);
    if r_ret ret =? -1 then mret (Some ABORTED) else
    ret ← sys (Sockcall "listen" listenfd [5]);
    if r_ret ret =? -1 then mret (Some ABORTED) else
    epollfd ← sys epoll_create1;
    let epollfd := r_ret epollfd in
    if epollfd =? -1 then mret (Some ABORTED) else
    addfd epollfd listenfd true;;
    after_rounds (rounds n (serve fuel epollfd listenfd) tt) (λ _,
      close listenfd;;
      mret 0)
  | _ =>
    printf "usage:%s ip_address port_number\n" [AStr (basename (default "" (head argv)))];;
    mret (Some 1)
  end.
End program.

(** ** What is printed for what is received *)

Definition report (fd : Z) (d : bytes) : list output :=
  [Received fd d; Printf "get %d bytes of content:%s\n" [AInt (zlen d); AStr (upto_nul d)]].

(** Everything that was received is printed at once: its length and its text. *)
Definition reported (g : list output) : Prop :=
  (∃ o, g = [o] ∧ arrival o = false) ∨ ∃ fd d, g = report fd d.

Lemma reported_pieces fd ds : log reported (ds ≫= report fd).
Proof.
  induction ds as [|d ds IH]; [constructor|]. rewrite bind_cons. constructor; [|done].
  right. by exists fd, d.
Qed.
Lemma reported_print o : arrival o = false → reported [o].
Proof. intros Ho. left. by exists o. Qed.

Section proofs.
Context {e : Env} {w0 : world} (Henv : legal_env w0).
Abbreviation runs := (runs w0).

Abbreviation progress := (progress reported).

Lemma et_quiet_print o w : arrival o = false → progress w (print o w).
Proof using Type. intros. by apply progress_print, reported_print. Qed.

(** ** One connection *)

(** [ds] has been received from [fd] since [w], and reported. *)
Definition drained (fd : Z) (w : world) (ds : list bytes) (w1 : world) : Prop :=
  Forall (λ d, 0 < zlen d < BUFFER_SIZE) ds ∧ outs w1 = outs w ++ (ds ≫= report fd) ∧
  arrivals w = (arrivals w1 + length ds)%nat.

(** How the loop ends: for want of data, by an error, or by an end of file, after
    which [recv] and [close] are called on the closed descriptor. *)
Definition drain_end (fd : Z) (w : world) (ds : list bytes) (w' : world) : Prop :=
  (is_Some (fds w' !! fd) ∧ misuses w' = misuses w ∧
    ∃ w1, drained fd w ds w1 ∧ arrivals w' = arrivals w1 ∧
      outs w' = outs w1 ++ [Printf "read later\n" []]) ∨
  (fds w' !! fd = None ∧ drained fd w ds w' ∧
    (misuses w' = misuses w ∨ misuses w' = S (S (misuses w)))).

Lemma watched_open epfd lfd fd w :
  serving epfd lfd w → watched epfd w fd →
  fd ≠ epfd ∧ ∃ o, fds w !! fd = Some o ∧ talks (of_kind o) = true.
Proof using Type.
  intros Hs [x Hx]. destruct (serving_watched _ _ _ Hs _ _ Hx) as (_ & o & Ho & Ht).
  split; [|by eauto]. intros ->. destruct (serving_epoll _ _ _ Hs) as (oe & He & Hk).
  simplify_eq. by rewrite Hk in Ht.
Qed.

(** A round on the open connection, and one after it was closed. *)
Lemma et_read_open epfd lfd fd o w (Q : ctl unit unit → world → Prop) :
  serving epfd lfd w → fd ≠ epfd → fd ≠ lfd → fds w !! fd = Some o → talks (of_kind o) = true →
  (∀ n, Q (Break tt) (print (Printf "read later\n" []) (set_sigs n w))) →
  (∀ n, Q (Break tt) (unwatch fd (set_fds (delete fd (fds w)) (set_sigs n w)))) →
  Q (Next tt) (unwatch fd (set_fds (delete fd (fds w)) w)) →
  (∀ d k w', 0 < zlen d < BUFFER_SIZE → arrivals w = S k → fds w' = fds w → watches w' = watches w →
     arrivals w' = k → misuses w' = misuses w → outs w' = outs w ++ report fd d → Q (Next tt) w') →
  runs (et_read fd tt) w Q.
Proof.
  intros Hs He Hl Ho Ht Hlater Herr Heof Hdata. unfold et_read. step.
  eapply (runs_recv Henv); [exact Ho|exact Ht|..].
  - intros r n Hr _. step; [|lia]. step; steps; [apply Hlater|apply Herr].
  - intros r Hr _. step; [lia|]. step; [|lia]. steps. apply Heof.
  - intros r k Hr Hd Hk. step; [lia|]. step; [lia|]. step.
    eapply runs_pure; [intros tr; apply c_str_zeroed; unfold BUFFER_SIZE in *; lia|]. steps.
    eapply (Hdata (r_data r)); [unfold BUFFER_SIZE in *; lia|done..|].
    unfold report. rewrite Hd. cbn. by rewrite <- app_assoc.
Qed.

Lemma et_read_closed fd w (Q : ctl unit unit → world → Prop) :
  fds w !! fd = None → Q (Break tt) (misuse (misuse w)) → runs (et_read fd tt) w Q.
Proof.
  intros Hfd HQ. unfold et_read. step. eapply (runs_dead Henv); [by left|done|].
  intros r Hr He. step; [|lia]. step; [unfold EAGAIN, EBADF in *; lia|].
  step. unfold close. step. eapply (runs_dead Henv); [right; by left|done|]. intros r' _ _. steps. done.
Qed.

Lemma et_loop_ok fuel epfd lfd fd w :
  serving epfd lfd w → watched epfd w fd → fd ≠ lfd → (arrivals w + 1 < fuel)%nat →
  runs (loop fuel (et_read fd) tt) w (λ x w', x = Left tt ∧ handled epfd lfd fd w w' ∧
    ∃ ds, drain_end fd w ds w').
Proof.
  intros Hs Hwt Hl Hfuel. destruct (watched_open _ _ _ _ Hs Hwt) as (He & o & Ho & Ht).
  apply (runs_loop (λ _ w1, handled epfd lfd fd w w1 ∧ misuses w1 = misuses w ∧
      (∃ ds, drained fd w ds w1) ∧ (fds w1 !! fd = Some o ∨ fds w1 !! fd = None))
    (λ _ w1, arrivals w1 + if decide (fds w1 !! fd = None) then 0 else 1)%nat).
  { split_and!; [by apply handled_same|done| |by left]. exists []. split_and!; [done| |simpl; lia].
    by rewrite app_nil_r. }
  { case_decide; lia. }
  intros [] w1 (Hh & Hm & (ds & Hsmall & Houts & Harr) & [Hfd|Hfd]).
  - assert (∀ w2, handled epfd lfd fd w1 w2 → handled epfd lfd fd w w2) as Htr
      by (intros; by eapply handled_trans).
    assert (serving epfd lfd w1) as Hs1 by apply Hh.
    destruct (decide (fds w1 !! fd = None)) as [|_]; [congruence|].
    eapply et_read_open; [done..| | | |].
    + intros n. split; [done|]. split; [apply Htr; by apply handled_same|]. exists ds. left.
      split; [by eexists|]. split; [done|]. by exists w1.
    + intros n. split; [done|]. split.
      { apply Htr. eapply (handled_ext _ _ _ w1 (set_sigs n w1)); [done..|].
        apply (handled_close epfd lfd fd (set_sigs n w1)); [by apply (serving_ext epfd lfd w1)|done|done]. }
      exists ds. right. cbn. rewrite lookup_delete_eq. split_and!; [done..|by left].
    + split; [split; [apply Htr; by apply handled_close|]|].
      * cbn. split; [done|]. split; [by exists ds|]. right. by rewrite lookup_delete_eq.
      * cbn. rewrite lookup_delete_eq. case_decide; [lia|done].
    + intros d k w2 Hd Hk Hf2 Hw2 Ha2 Hm2 Ho2. split.
      * split; [apply Htr; apply handled_same; [done..|lia]|]. split; [congruence|].
        split; [|left; congruence]. exists (ds ++ [d]). split_and!.
        -- apply Forall_app. split; [done|by apply Forall_singleton].
        -- rewrite bind_app, Ho2, Houts, <- app_assoc. simpl. by rewrite ?app_nil_r.
        -- rewrite length_app. simpl. lia.
      * rewrite Hf2. case_decide; lia.
  - apply et_read_closed; [done|]. split; [done|]. split.
    { eapply handled_trans; [exact Hh|]. apply handled_same; [apply Hh|done..]. }
    exists ds. right. cbn. split_and!; [done..|]. right. by rewrite Hm.
Qed.

(** ** The server *)

Lemma drained_reported fd w ds w' :
  drained fd w ds w' → progress w w'.
Proof using Type.
  intros (_ & Ho & Ha). split; [lia|]. exists (ds ≫= report fd). split; [done|].
  apply reported_pieces.
Qed.
Lemma drain_end_progress fd w ds w' : drain_end fd w ds w' → progress w w'.
Proof using Type.
  intros [(_ & _ & w1 & Hd & Ha & Ho)|(_ & Hd & _)]; [|by eapply drained_reported].
  etransitivity; [eapply drained_reported; exact Hd|].
  eapply progress_group; [|exact Ho|lia]. by apply reported_print.
Qed.

Lemma et_event_ok fuel epfd lfd ev w :
  serving epfd lfd w → watched epfd w ev.2 → (arrivals w + 1 < fuel)%nat →
  runs (et_event fuel epfd lfd ev) w (λ r w', match r with
    | None => handled epfd lfd ev.2 w w' ∧ progress w w' | Some _ => False end).
Proof.
  intros Hs Hw Hfuel. unfold et_event. step.
  - step. step. eapply runs_mono; [by apply (accept_registers Henv epfd lfd _ (print _ w)), (serving_ext epfd lfd w)|].
    intros r w' (-> & Hh & Ho). cbn beta iota. split.
    + replace ev.2 with lfd by lia. by eapply handled_ext; [..|exact Hh].
    + eapply progress_group; [|exact Ho|apply Hh]. by apply reported_print.
  - step; steps.
    + eapply runs_mono.
      { apply (et_loop_ok fuel epfd lfd ev.2 (print (Printf "event trigger once\n" []) w));
          [by apply (serving_ext epfd lfd w)|done|lia|done]. }
      intros x w' (-> & Hh & ds & Hd). step. split; [by eapply handled_ext; [..|exact Hh]|].
      etransitivity; [|by eapply drain_end_progress].
      by apply et_quiet_print.
    + split; [by apply handled_same|]. by apply et_quiet_print.
Qed.

Definition server_inv (epfd lfd : Z) (w w1 : world) : Prop :=
  serving epfd lfd w1 ∧ progress w w1.

Lemma et_serve_ok fuel epfd lfd w w1 :
  server_inv epfd lfd w w1 → (arrivals w + 1 < fuel)%nat →
  runs (serve fuel epfd lfd tt) w1 (λ c w2, match c with
    | Return _ => False | _ => server_inv epfd lfd w w2 end).
Proof.
  intros [Hs HR] Hfuel. destruct (serving_epoll _ _ _ Hs) as (oe & He & _). unfold serve. step.
  eapply (runs_epoll_wait Henv); [exact He|..].
  - intros r n Hr _. do 2 step. step; [|lia]. steps. split; [by apply (serving_ext epfd lfd w1)|].
    etransitivity; [exact HR|]. etransitivity; [|by apply et_quiet_print].
    by apply (et_quiet_print (Printf "trigger epoll wait...\n" []) (set_sigs n w1)).
  - intros r Hr Hlen Hdup Hev. do 2 step. step; [lia|]. step. rewrite <- Hlen. eapply runs_mono.
    { eapply (runs_events Henv epfd lfd (et_event fuel epfd lfd) (arrivals w) progress (λ _ _ _, False));
        [done| |by apply (serving_ext epfd lfd w1)|apply HR|done|done].
      intros ev w2 _ Hs2 Hw2 Ha2. eapply runs_mono; [apply et_event_ok; [done..|lia]|]. by intros [z|]. }
    intros [z|] w2; cbn beta iota; [done|]. intros (Hs2 & _ & HR2). step. split; [done|].
    etransitivity; [exact HR|]. etransitivity; [|exact HR2]. by apply et_quiet_print.
Qed.


(** The server does its first [n] rounds, for every [n], without undefined
    behaviour, and prints all that it receives, at once and in full; it ends
    only with 0, 1 or an assertion that failed. *)
Lemma et_server_reports fuel n argv w :
  (∀ argv2, argv !! 2%nat = Some argv2 → represents_int argv2 = true) →
  fds w !! (-1) = None → (arrivals w + 1 < fuel)%nat →
  runs (main fuel n argv) w (λ r w', progress w w' ∧
    match r with None => True | Some z => z = 0 ∨ z = 1 ∨ z = ABORTED end).
Proof.
  intros Hport Hneg Hfuel. unfold main.
  assert (∀ w', outs w' = outs w → (arrivals w' ≤ arrivals w)%nat →
    progress w w' ∧ (ABORTED = 0 ∨ ABORTED = 1 ∨ ABORTED = ABORTED)) as Habort.
  { intros w' Ho Ha. split; [|by right; right]. by apply progress_same. }
  assert (∀ name, runs (printf "usage:%s ip_address port_number\n" name;; mret (Some 1)) w
    (λ r w', progress w w' ∧ match r with None => True | Some z => z = 0 ∨ z = 1 ∨ z = ABORTED end)) as Husage.
  { intros name. steps. split; [by apply et_quiet_print|by right; left]. }
  destruct argv as [|argv0 [|ip [|argv2 rest]]]; [apply Husage..|].
  step. apply runs_atoi; [by apply Hport|]. intros port. step.
  eapply (runs_socket Henv).
  { intros r k Hr _. step; [|lia]. steps. by apply Habort. }
  intros rl Hrl Hfl. step; [lia|]. step. eapply (runs_sockcall Henv); [look|].
  intros rb nb _ _. step; [steps; by apply Habort|]. step. eapply (runs_sockcall Henv); [look|].
  intros rn nn _ _. step; [steps; by apply Habort|]. step. eapply (runs_epoll_create Henv).
  { intros re k Hr _. step; [|lia]. steps. by apply Habort. }
  intros re Hre Hfe. fresh_fds. step; [lia|]. step.
  set (w1 := set_fds _ _). assert (serving (r_ret re) (r_ret rl) w1) as Hs1.
  { eapply serving_start; [done..|look|done|]. rewrite !lookup_insert_ne by lia. done. }
  eapply (runs_register Henv (r_ret re) (r_ret rl) (r_ret rl)); [exact Hs1|unfold w1; look|done|].
  intros w2 Hh Ho _ _. step. eapply (runs_rounds (λ _ : unit, server_inv (r_ret re) (r_ret rl) w)).
  { split; [apply Hh|]. apply progress_same; [done|apply Hh]. }
  { intros _ w3 [_ HR]. done. }
  intros [] w3 HI. eapply runs_mono; [by apply (et_serve_ok _ _ _ w)|].
  intros [[]|[]|z] w4; [done| |done]. intros [Hs4 HR].
  destruct (serving_listen _ _ _ Hs4) as (ol & Hl & _). steps.
  split; [|by left]. etransitivity; [exact HR|]. by apply progress_same.
Qed.
End proofs.

(** A terminal, and a server with one connection, on which [hello, world] has
    arrived. *)
Definition connected : world :=
  mkWorld {[3 := mkOF KSocket 0 []; 4 := mkOF KEpoll 0 []; 5 := mkOF KSocket 0 []]} ∅ ∅ ∅ ∅ 0 [] 0
    {[(4, 3) := (EPOLLIN, 3); (4, 5) := (EPOLLIN, 5)]} ∅ 2 ∅.

Lemma connected_serving : serving 4 3 connected.
Proof.
  split; [by eexists|by eexists| |done]. intros fd x Hx. unfold connected in Hx. cbn in Hx.
  apply lookup_insert_Some in Hx as [[[= <-] <-]|[_ Hx]]; [split; [done|by eexists]|].
  apply lookup_singleton_Some in Hx as [[= <-] <-]. split; [done|by eexists].
Qed.


Lemma et_server_reports_witness :
  ∃ r tr w', main (e := fed_env [b "hi"] (set_arrivals 1 (boot ∅))) 3 2 ["et"; "127.0.0.1"; "8080"]%string [] = Ok (r, tr) ∧
    replay (set_arrivals 1 (boot ∅)) tr = Some w' ∧ progress reported (set_arrivals 1 (boot ∅)) w'.
Proof.
  set (w := set_arrivals 1 (boot ∅)).
  destruct (et_server_reports (fed_env_legal [b "hi"] w) 3 2 ["et"; "127.0.0.1"; "8080"]%string w
    ltac:(intros ? [= <-]; by vm_compute) ltac:(done) ltac:(vm_compute; lia) [] eq_refl)
    as (r & tr & w' & Hrun & Hw & (Ha & out & Ho & Hr) & _).
  exists r, tr, w'. split; [exact Hrun|]. split; [exact Hw|]. split; [exact Ha|].
  exists out. split; [exact Ho|exact Hr].
Defined.
