(* ===== verification/EpollEcho.v ===== *)
(** * [09_epoll/do_two_thing_epoll.c]: an echo server that also watches its terminal *)
From S2P Require Export EpollServer.

Definition MAX_EVENTS : Z := 10.
Definition PORT : Z := 8080.

(** [char buffer[1024]]: what earlier events left in it is not read again. *)
Definition client_buffer : buffer := new_buffer 1024.

Section program.
Context {e : Env}.

(** [Some z] when the program has called [exit(z)]. *)
Definition set_nonblocking (sockfd : Z) : M trace (option Z) :=
  flags ← sys (Getfl sockfd);
  if r_ret flags =? -1 then
    perror "fcntl";;
    mret (Some 1)
  else
  r ← sys (Setfl sockfd (Z.lor (r_ret flags) O_NONBLOCK_BIT));
  if r_ret r =? -1 then
    perror "fcntl";;
    mret (Some 1)
  else mret None.

Definition new_client (epollfd listen_sock : Z) : M trace (option Z) :=
  conn_sock ← sys (Accept listen_sock);
  let conn_sock := r_ret conn_sock in
  if conn_sock =? -1 then
    perror "accept";;
    mret None
  else
  x ← set_nonblocking conn_sock;
  match x with Some z => mret (Some z) | None =>
    r ← sys (Epoll epollfd (Epoll_add conn_sock (Z.lor EPOLLIN EPOLLET) conn_sock));
    if r_ret r =? -1 then
      perror "epoll_ctl: conn_sock";;
      close conn_sock;;
      mret None
    else mret None
  end.

Definition stdin_event : M trace (option Z) :=
  count ← sys (Read STDIN_FILENO 1024);
  if r_ret count =? -1 then
    perror "read";;
    mret (Some 1)
  else if r_ret count =? 0 then
    printf "stdin closed\n" [];;
    mret (Some 0)
  else
    let buffer := fill client_buffer (r_data count) in
    buffer ← put buffer (r_ret count) "000"%char;
    s ← c_str buffer;
    printf "Read from stdin: %s" [AStr s];;
    mret None.

Definition client_event (fd : Z) : M trace (option Z) :=
  count ← sys (Read fd 1024);
  if r_ret count =? -1 then
    (if negb (r_errno count =? EAGAIN) then
       perror "read";;
       close fd
     else mret tt);;
    mret None
  else if r_ret count =? 0 then
    close fd;;
    mret None
  else
    let buffer := fill client_buffer (r_data count) in
    buffer ← put buffer (r_ret count) "000"%char;
    s ← c_str buffer;
    printf "Read from client: %s" [AStr s];;
    d ← contents (Z.to_nat (r_ret count)) buffer;
    r ← sys (Write fd d);
    (if r_ret r =? -1 then
       perror "write";;
       close fd
     else mret tt);;
    mret None.

Definition handle_event (epollfd listen_sock : Z) (ev : Z * Z) : M trace (option Z) :=
  if ev.2 =? listen_sock then new_client epollfd listen_sock
  else if ev.2 =? STDIN_FILENO then stdin_event
  else client_event ev.2.

Definition serve (epollfd listen_sock : Z) (_ : unit) : M trace (ctl unit unit) :=
  nfds ← sys (Epoll epollfd (Epoll_wait MAX_EVENTS (-1)));
  if r_ret nfds =? -1 then
    perror "epoll_wait";;
    close listen_sock;;
    mret (Return 1)
  else
    x ← for_each (r_ret nfds) (λ n,
      ev ← event_at (r_events nfds) n; handle_event epollfd listen_sock ev);
    match x with Some z => mret (Return z) | None => mret (Next tt) end.

(** The first [n] rounds of the server; [None] when it goes on after them. *)
Definition main (n : nat) : M trace (option Z) :=
  listen_sock ← sys Socket;
  let listen_sock := r_ret listen_sock in
  if listen_sock =? -1 then
    perror "socket";;
    mret (Some 1)
  else
  x ← set_nonblocking listen_sock;
  match x with Some z => mret (Some z) | None =>
  r ← sys (Sockcall "bind" listen_sock [htons PORT]);
  if r_ret r =? -1 then
    perror "bind";;
    close listen_sock;;
    mret (Some 1)
  else
  r ← sys (Sockcall "listen" listen_sock [4096]);
  if r_ret r =? -1 then
    perror "listen";;
    close listen_sock;;
    mret (Some 1)
  else
  epollfd ← sys epoll_create1;
  let epollfd := r_ret epollfd in
  if epollfd =? -1 then
    perror "epoll_create1";;
    close listen_sock;;
    mret (Some 1)
  else
  r ← sys (Epoll epollfd (Epoll_add listen_sock EPOLLIN listen_sock));
  if r_ret r =? -1 then
    perror "epoll_ctl: listen_sock";;
    close listen_sock;;
    mret (Some 1)
  else
  r ← sys (Epoll epollfd (Epoll_add STDIN_FILENO EPOLLIN STDIN_FILENO));
  if r_ret r =? -1 then
    perror "epoll_ctl: stdin";;
    close listen_sock;;
    mret (Some 1)
  else
  after_rounds (rounds n (serve epollfd listen_sock) tt) (λ _ : unit,
    close listen_sock;;
    mret 0)
  end.
End program.

(** ** What the server logs *)

Definition quiet (o : output) : bool := match o with Received _ _ | Sent _ _ => false | _ => true end.

(** A line from the terminal is printed; a message of a client is printed and what
    could be sent of it, at least a byte, goes back to the same client. *)
Inductive echoed : list output → Prop :=
| echoed_quiet o : quiet o = true → echoed [o]
| echoed_stdin d :
    echoed [Received STDIN_FILENO d; Printf "Read from stdin: %s" [AStr (upto_nul d)]]
| echoed_client fd d d' : d' `prefix_of` d → d' ≠ [] →
    echoed [Received fd d; Printf "Read from client: %s" [AStr (upto_nul d)]; Sent fd d']
| echoed_failed fd d :
    echoed [Received fd d; Printf "Read from client: %s" [AStr (upto_nul d)]; Perror "write"].

Section proofs.
Context {e : Env} {w0 : world} (Henv : legal_env w0).
Abbreviation runs := (runs w0).
Abbreviation progress := (progress echoed).

(** What handling an event gives: the server goes on, or the program has ended. *)
Definition event_post (epfd lfd fd : Z) (w : world) (r : option Z) (w' : world) : Prop :=
  match r with
  | None => handled epfd lfd fd w w' ∧ progress w w'
  | Some z => (z = 0 ∨ z = 1) ∧ progress w w'
  end.

Lemma echo_quiet_print o w : quiet o = true → progress w (print o w).
Proof using Type. intros. by apply progress_print, echoed_quiet. Qed.

Lemma set_nonblocking_ok fd o w (Q : option Z → world → Prop) :
  fds w !! fd = Some o →
  (∀ w', progress w w' → Q (Some 1) w') →
  (∀ w', reflagged fd o w w' → Q None w') →
  runs (set_nonblocking fd) w Q.
Proof.
  intros Ho Hexit HQ. unfold set_nonblocking. step. eapply (runs_getfl Henv); [exact Ho|..].
  { intros r n Hr _. step; [|lia]. steps. apply Hexit. by apply (echo_quiet_print _ (set_sigs n w)). }
  intros r Hr _. step; [lia|]. step. eapply (runs_setfl Henv); [exact Ho|..].
  { intros r' n Hr' _. step; [|lia]. steps. apply Hexit. by apply (echo_quiet_print _ (set_sigs n w)). }
  intros r' Hr'. step; [lia|]. steps. apply HQ. split; [by eexists|]. by split_and!.
Qed.

Lemma reflagged_handled epfd lfd k fd o w w' :
  serving epfd lfd w → fds w !! fd = Some o → reflagged fd o w w' →
  handled epfd lfd k w w' ∧ progress w w' ∧ is_Some (fds w' !! fd) ∧
  (∀ o', fds w' !! fd = Some o' → of_kind o' = of_kind o).
Proof using Type.
  intros Hs Ho ((fl & Hfds) & ? & ? & ? & ? & Hout & ? & Hw & ? & Ha & _). split_and!.
  - eapply (handled_alter _ _ _ fd o (mkOF (of_kind o) (of_off o) fl)); [done..|lia].
  - apply progress_same; [done|lia].
  - rewrite Hfds, lookup_insert_eq. by eexists.
  - rewrite Hfds, lookup_insert_eq. by intros o' [= <-].
Qed.

Lemma echo_new_client_ok epfd lfd w :
  serving epfd lfd w → runs (new_client epfd lfd) w (event_post epfd lfd lfd w).
Proof.
  intros Hs. destruct (serving_listen _ _ _ Hs) as (ol & Hl & _).
  destruct (serving_epoll _ _ _ Hs) as (oe & He & _). unfold new_client. step.
  eapply (runs_accept Henv); [by rewrite Hl|..].
  { intros r n Hr _. step; [|lia]. steps. split; [by apply handled_same|].
    by apply (echo_quiet_print _ (set_sigs n w)). }
  intros r Hr Hfd. pose proof (handled_accept epfd lfd lfd _ w Hs Hfd Hr) as Hacc.
  step; [lia|]. set (w1 := set_fds _ w) in *.
  assert (fds w1 !! r_ret r = Some (mkOF KSocket 0 [])) as Hc by (unfold w1; look).
  assert (progress w w1) as HR1 by (by apply progress_same). step.
  eapply set_nonblocking_ok; [exact Hc|..].
  { intros w2 HR2. cbn beta iota. step. split; [by right|]. by etransitivity. }
  intros w2 Hrf. destruct (reflagged_handled epfd lfd lfd _ _ _ _ ltac:(apply Hacc) Hc Hrf)
    as (Hh2 & HR2 & [o2 Ho2] & Hk2). specialize (Hk2 _ Ho2).
  assert (handled epfd lfd lfd w w2) as Hh by (by eapply handled_trans).
  assert (progress w w2) as HR by (by etransitivity). cbn beta iota. step.
  destruct (serving_epoll _ _ _ (handled_serving _ _ _ _ _ Hh)) as (oe2 & He2 & Hke2).
  eapply (runs_epoll_add Henv); [exact He2|exact Ho2|..].
  - intros r2 n Hr2 _. step; [|lia]. steps. split.
    + eapply handled_new; [exact Hs|exact Hfd|exact Hh|].
      eapply (handled_ext _ _ _ w2 (print (Perror "epoll_ctl: conn_sock") (set_sigs n w2))); [done..|].
      assert (serving epfd lfd w2) as Hs2 by apply Hh.
      apply (handled_close epfd lfd (r_ret r) (print (Perror "epoll_ctl: conn_sock") (set_sigs n w2)));
        [by apply (serving_ext epfd lfd w2)| |].
      * intros E. rewrite E, He2 in Ho2. simplify_eq.
      * intros E. rewrite E in Hfd. rewrite Hfd in Hl. done.
    + etransitivity; [exact HR|]. by apply (echo_quiet_print _ (set_sigs n w2)).
  - intros r2 Hr2 _. step; [lia|]. steps. split; [|by etransitivity; [exact HR|apply progress_same]].
    eapply handled_trans; [exact Hh|]. eapply handled_add; [apply Hh|exact Ho2|by rewrite Hk2].
Qed.

(** A message that does not fill the buffer is ended with a NUL within it. *)
Lemma stdin_event_ok epfd lfd o w :
  messages_fit w0 → serving epfd lfd w → fds w !! STDIN_FILENO = Some o → talks (of_kind o) = true →
  runs stdin_event w (event_post epfd lfd STDIN_FILENO w).
Proof.
  intros Hfit Hs Ho Ht. unfold stdin_event. step.
  eapply (runs_fact _ _ (λ r, r_ret r < 1024)); [intros tr Htr; by eapply Hfit|].
  eapply (runs_recv Henv); [exact Ho|exact Ht|..].
  - intros r n Hr _ _. step; [|lia]. steps. split; [by right|]. by apply (echo_quiet_print _ (set_sigs n w)).
  - intros r Hr _ _. step; [lia|]. step; [|lia]. steps. split; [by left|]. by apply echo_quiet_print.
  - intros r k Hr Hd Hk Hlt. do 2 (step; [lia|]). step.
    eapply runs_pure; [intros tr; rewrite <- Hd; apply put_after; rewrite Hd; exact Hlt|]. step.
    eapply runs_pure; [intros tr; apply c_str_terminated|]. steps. split; [apply handled_same; [done..|]|].
    { cbn. lia. }
    eapply progress_group; [apply (echoed_stdin (r_data r))|cbn; by rewrite <- app_assoc|cbn; lia].
Qed.

Lemma echo_client_event_ok epfd lfd fd o w :
  messages_fit w0 → serving epfd lfd w → fds w !! fd = Some o → talks (of_kind o) = true →
  fd ≠ epfd → fd ≠ lfd → runs (client_event fd) w (event_post epfd lfd fd w).
Proof.
  intros Hfit Hs Ho Ht He Hl. unfold client_event. step.
  assert (∀ w1, fds w1 = fds w → watches w1 = watches w → (arrivals w1 ≤ arrivals w)%nat →
    handled epfd lfd fd w (unwatch fd (set_fds (delete fd (fds w1)) w1))) as Hclose.
  { intros w1 E1 E2 Ha. eapply handled_ext; [exact E1|exact E2|exact Ha|].
    apply handled_close; [by eapply serving_ext|done|done]. }
  eapply (runs_fact _ _ (λ r, r_ret r < 1024)); [intros tr Htr; by eapply Hfit|].
  eapply (runs_recv Henv); [exact Ho|exact Ht|..].
  - intros r n Hr _ _. step; [|lia]. step. step; steps.
    + split; [by apply (Hclose (print (Perror "read") (set_sigs n w)))|].
      by apply (echo_quiet_print _ (set_sigs n w)).
    + split; [by apply handled_same|by apply progress_same].
  - intros r Hr _ _. step; [lia|]. step; [|lia]. steps.
    split; [by apply (Hclose w)|by apply progress_same].
  - intros r k Hr Hd Hk Hlt. do 2 (step; [lia|]). step.
    eapply runs_pure; [intros tr; rewrite <- Hd; apply put_after; rewrite Hd; exact Hlt|]. step.
    eapply runs_pure; [intros tr; apply c_str_terminated|]. steps.
    eapply runs_pure.
    { intros tr. rewrite <- Hd. unfold zlen. rewrite Nat2Z.id. apply contents_terminated. }
    step. eapply (runs_send Henv); [cbn; exact Ho|exact Ht|..].
    + intros r2 n Hr2 _. step. step; [|lia]. steps. split.
      { apply (Hclose (print (Perror "write") (set_sigs n (print _ (print _ (set_arrivals k w)))))); [done..|cbn; lia]. }
      eapply progress_group; [apply (echoed_failed fd (r_data r))|cbn; by rewrite <- !app_assoc|cbn; lia].
    + intros r2 Hr2 Hp2. step. step; [lia|]. steps. split; [apply handled_same; [done..|cbn; lia]|].
      eapply progress_group; [|cbn; by rewrite <- !app_assoc|cbn; lia].
      apply (echoed_client fd (r_data r)); [by apply prefix_take|].
      intros Hnil. apply (f_equal zlen) in Hnil. unfold zlen in *. rewrite length_take in Hnil.
      simpl in Hnil. destruct Hp2 as [?|Hnil2]; [lia|]. apply (f_equal length) in Hnil2. simpl in Hnil2. lia.
Qed.

Lemma echo_handle_event_ok epfd lfd ev w :
  messages_fit w0 → serving epfd lfd w → watched epfd w ev.2 →
  runs (handle_event epfd lfd ev) w (event_post epfd lfd ev.2 w).
Proof.
  intros Hfit Hs [x Hx]. destruct (serving_watched _ _ _ Hs _ _ Hx) as (_ & o & Ho & Ht).
  unfold handle_event. step; [|step].
  - replace ev.2 with lfd by lia. by apply echo_new_client_ok.
  - replace ev.2 with STDIN_FILENO in * by lia. by eapply stdin_event_ok.
  - eapply echo_client_event_ok; [done..| |done]. intros E.
    destruct (serving_epoll _ _ _ Hs) as (oe & He & Hk). rewrite E in Ho. simplify_eq.
    by rewrite Hk in Ht.
Qed.

Definition server_post (w : world) (r : option Z) (w' : world) : Prop :=
  progress w w' ∧ match r with None => True | Some z => z = 0 ∨ z = 1 end.

Lemma echo_serve_ok epfd lfd w w1 :
  messages_fit w0 → serving epfd lfd w1 → progress w w1 →
  runs (serve epfd lfd tt) w1 (λ c w2, match c with
    | Next _ => serving epfd lfd w2 ∧ progress w w2
    | Break _ => False
    | Return z => server_post w (Some z) w2 end).
Proof.
  intros Hfit Hs HR. destruct (serving_epoll _ _ _ Hs) as (oe & He & _).
  destruct (serving_listen _ _ _ Hs) as (ol & Hl & _). unfold serve. step.
  eapply (runs_epoll_wait Henv); [exact He|..].
  - intros r n Hr _. step; [|lia]. steps. split; [|by right]. etransitivity; [exact HR|].
    etransitivity; [by apply (echo_quiet_print (Perror "epoll_wait") (set_sigs n w1))|by apply progress_same].
  - intros r Hr Hlen Hdup Hev. step; [lia|]. step. rewrite <- Hlen. eapply runs_mono.
    { eapply (runs_events Henv epfd lfd (handle_event epfd lfd) (arrivals w1) progress
        (λ z w w', (z = 0 ∨ z = 1) ∧ progress w w')); [| |exact Hs|done|done|done].
      - intros z w2 w3 w4 HR2 [Hz HR3]. split; [done|by etransitivity].
      - intros ev w2 _ Hs2 Hw2 _. eapply runs_mono; [by apply echo_handle_event_ok|]. by intros [z|]. }
    intros [z|] w2; cbn beta iota.
    + intros [Hz HR2]. step. split; [by etransitivity|done].
    + intros (Hs2 & _ & HR2). step. split; [done|by etransitivity].
Qed.

(** An exit with a message. *)
Lemma echo_exit x w w1 w' :
  progress w w1 → outs w' = outs w1 ++ [x] → quiet x = true → (arrivals w' ≤ arrivals w1)%nat →
  server_post w (Some 1) w'.
Proof.
  intros HR Ho Hx Ha. split; [|by right]. etransitivity; [exact HR|].
  eapply progress_group; [by apply echoed_quiet|done|done].
Qed.

(** C14: as long as no message fills the buffer, the server does its first [n]
    rounds, for every [n], without undefined behaviour: each line from the
    terminal is printed, and each message of a client is printed and sent back to
    that client and to nobody else, as far as it can be sent. The program ends
    only with 0 or 1. *)
Theorem echo_server_echoes n w o :
  messages_fit w0 → fds w !! STDIN_FILENO = Some o → of_kind o = KTty → fds w !! (-1) = None →
  runs (main n) w (server_post w).
Proof.
  intros Hfit Hin Htty Hneg. unfold main.
  step. eapply (runs_socket Henv).
  { intros r k Hr _. step; [|lia]. steps. by apply (echo_exit (Perror "socket") w w). }
  intros rl Hrl Hfl. step; [lia|]. step.
  eapply set_nonblocking_ok; [look|..].
  { intros w1 HR. cbn beta iota. step. split; [|by right]. etransitivity; [|exact HR]. by apply progress_same. }
  intros w1 ((fl & Hfds) & _ & _ & _ & _ & Ho1 & _ & Hw1 & _ & Ha1 & _). cbn in Hfds, Ho1, Hw1, Ha1.
  rewrite insert_insert_eq in Hfds. cbn beta iota. step.
  assert (progress w w1) as HR1 by (apply progress_same; [done|lia]).
  eapply (runs_sockcall Henv); [look|]. intros rb nb _ _. step.
  { steps. by eapply echo_exit. }
  step. eapply (runs_sockcall Henv); [look|]. intros rn nn _ _. step.
  { steps. by eapply echo_exit. }
  step. eapply (runs_epoll_create Henv).
  { intros re k Hr _. step; [|lia]. steps. by eapply echo_exit. }
  intros re Hre Hfe. fresh_fds. step; [lia|]. step.
  match goal with |- Sys.runs _ _ ?x _ => set (w2 := x) end.
  assert (fds w2 !! r_ret rl = Some (mkOF KSocket 0 fl)) as Hl2 by (unfold w2; look).
  assert (fds w2 !! STDIN_FILENO = Some o) as Hin2.
  { unfold w2. cbn. rewrite Hfds, !lookup_insert_ne; [done|intros E; congruence..]. }
  assert (serving (r_ret re) (r_ret rl) w2) as Hs2.
  { eapply serving_start; [done..|look|done|]. rewrite Hfds, !lookup_insert_ne by lia. done. }
  assert (progress w w2) as HR2 by (apply progress_same; [done|cbn; lia]).
  destruct (serving_epoll _ _ _ Hs2) as (oe & He2 & _).
  eapply (runs_epoll_add Henv); [exact He2|exact Hl2|..].
  { intros r k Hr _. step; [|lia]. steps. by eapply (echo_exit _ w w2). }
  intros r Hr _. step; [lia|]. step.
  pose proof (handled_add _ _ (r_ret rl) _ EPOLLIN _ _ Hs2 Hl2 eq_refl) as [Hs3 _ _ _].
  set (w3 := set_watches _ w2) in *. assert (progress w w3) as HR3 by (etransitivity; [exact HR2|by apply progress_same]).
  eapply (runs_epoll_add Henv); [exact He2|exact Hin2|..].
  { intros r' k Hr' _. step; [|lia]. steps. by eapply (echo_exit _ w w3). }
  intros r' Hr' _. step; [lia|]. step.
  assert (talks (of_kind o) = true) as Ht by (by rewrite Htty).
  pose proof (handled_add _ _ (r_ret rl) _ EPOLLIN _ _ Hs3 Hin2 Ht) as [Hs4 _ _ _].
  eapply (runs_rounds (λ _ : unit, λ w4, serving (r_ret re) (r_ret rl) w4 ∧ progress w w4)).
  { split; [exact Hs4|]. etransitivity; [exact HR3|by apply progress_same]. }
  { intros _ w4 [_ HR4]. by split. }
  intros [] w4 [Hs5 HR5]. eapply runs_mono; [by apply echo_serve_ok|]. by intros [[]|[]|z] w5.
Qed.
End proofs.

(** A message of 1024 bytes fills the buffer, and the NUL after it is stored
    out of bounds, whether it comes from the terminal or from a client. *)
Theorem echo_overflows {e : Env} fd tr :
  r_ret (env tr (Read fd 1024)) = 1024 → zlen (r_data (env tr (Read fd 1024))) = 1024 →
  client_event fd tr = UB OutOfBounds ∧ (fd = STDIN_FILENO → stdin_event tr = UB OutOfBounds).
Proof.
  intros Hr Hd.
  assert (∀ (s : trace), put (fill client_buffer (r_data (env tr (Read fd 1024)))) 1024 "000"%char s = UB OutOfBounds)
    as Hput.
  { intros s. unfold put, zupdate.
    assert (zlen client_buffer = 1024) as Hb by done.
    rewrite bool_decide_eq_false_2; [done|]. rewrite length_fill by lia. lia. }
  split.
  - unfold client_event, sys, mbind at 1, M_bind at 1. rewrite Hr. cbn -[put fill client_buffer].
    unfold mbind at 1, M_bind at 1. by rewrite Hput.
  - intros ->. unfold stdin_event, sys, mbind at 1, M_bind at 1. rewrite Hr. cbn -[put fill client_buffer].
    unfold mbind at 1, M_bind at 1. by rewrite Hput.
Qed.

(** ** The theorems on a small system *)

Definition terminal : world :=
  set_arrivals 1 (set_fds {[STDIN_FILENO := mkOF KTty 0 [O_RDWR]]} (boot ∅)).

Lemma echo_server_echoes_witness :
  ∃ tr w', main (e := fed_env [lit "hello\n"] terminal) 1 [] = Ok (None, tr) ∧
    replay terminal tr = Some w' ∧ progress echoed terminal w' ∧
    outs w' = [Received STDIN_FILENO (lit "hello\n"); Printf "Read from stdin: %s" [AStr (lit "hello\n")]].
Proof.
  destruct (echo_server_echoes (fed_env_legal [lit "hello\n"] terminal) 1 terminal _
    ltac:(apply fed_messages_fit; by repeat constructor) eq_refl eq_refl eq_refl [] eq_refl)
    as (r & tr & w' & Hrun & Hw & HR & _).
  exists tr, w'. assert (r = None) as ->.
  { vm_compute in Hrun. injection Hrun as <- _. reflexivity. }
  split; [exact Hrun|]. split; [exact Hw|]. split; [exact HR|].
  vm_compute in Hrun. injection Hrun as <-. vm_compute in Hw. injection Hw as <-. reflexivity.
Defined.

Lemma echo_overflows_witness :
  client_event (e := fed_env [replicate 1024 "x"%char] (set_arrivals 1 (set_fds {[5 := mkOF KSocket 0 []]} (boot ∅)))) 5 [] =
    UB OutOfBounds.
Proof.
  refine (proj1 (echo_overflows 5 [] _ _)); vm_compute; reflexivity.
Defined.
