(* ===== verification/EpollHup.v ===== *)
(** * [09_epoll/epollhup.c]: a server that watches for hang-ups *)
From S2P Require Export EpollServer.

Definition MAX_EVENTS : Z := 10.
Definition PORT : Z := 8080.

(** [char buffer[1024] = { 0 }] *)
Definition zero_buffer : buffer := zeroed 1024.

Section program.
Context {e : Env}.

Definition handle_client_disconnection (client_fd : Z) : M trace unit :=
  printf "Client (fd: %d) disconnected\n" [AInt client_fd];;
  close client_fd.

Definition set_non_blocking (sockfd : Z) : M trace unit :=
  flags ← sys (Getfl sockfd);
  sys (Setfl sockfd (Z.lor (r_ret flags) O_NONBLOCK_BIT));;
  mret tt.

Definition new_client (epoll_fd server_fd : Z) : M trace (option Z) :=
  client_fd ← sys (Accept server_fd);
  let client_fd := r_ret client_fd in
  if client_fd <? 0 then
    perror "accept failed";;
    mret None
  else
  set_non_blocking client_fd;;
  r ← sys (Epoll epoll_fd (Epoll_add client_fd (Z.lor EPOLLIN EPOLLRDHUP) client_fd));
  if r_ret r <? 0 then
    perror "epoll_ctl add client failed";;
    close client_fd;;
    mret None
  else
  printf "New client connected (fd: %d)\n" [AInt client_fd];;
  mret None.

Definition client_event (epoll_fd : Z) (ev : Z * Z) : M trace (option Z) :=
  let client_fd := ev.2 in
  if negb (Z.land ev.1 (Z.lor EPOLLHUP EPOLLRDHUP) =? 0) then
    printf "from epollhup\n" [];;
    handle_client_disconnection client_fd;;
    sys (Epoll epoll_fd (Epoll_del client_fd));;
    mret None
  else if negb (Z.land ev.1 EPOLLIN =? 0) then
    bytes_read ← sys (Read client_fd 1024);
    let buffer := fill zero_buffer (r_data bytes_read) in
    if 0 <? r_ret bytes_read then
      s ← c_str buffer;
      printf "Received from client (fd: %d): %s\n" [AInt client_fd; AStr s];;
      mret None
    else if r_ret bytes_read =? 0 then
      printf "from read 0\n" [];;
      handle_client_disconnection client_fd;;
      sys (Epoll epoll_fd (Epoll_del client_fd));;
      mret None
    else
      perror "read failed";;
      mret None
  else mret None.

Definition handle_event (epoll_fd server_fd : Z) (ev : Z * Z) : M trace (option Z) :=
  if ev.2 =? server_fd then new_client epoll_fd server_fd else client_event epoll_fd ev.

Definition serve (epoll_fd server_fd : Z) (_ : unit) : M trace (ctl unit unit) :=
  nfds ← sys (Epoll epoll_fd (Epoll_wait MAX_EVENTS (-1)));
  if r_ret nfds <? 0 then
    perror "epoll_wait failed";;
    mret (Break tt)
  else
    for_each (r_ret nfds) (λ i,
      ev ← event_at (r_events nfds) i; handle_event epoll_fd server_fd ev);;
    mret (Next tt).

(** The first [n] rounds of the server; [None] when it goes on after them. *)
Definition main (n : nat) : M trace (option Z) :=
  server_fd ← sys Socket;
  let server_fd := r_ret server_fd in
  if server_fd <? 0 then
    perror "socket failed";;
    mret (Some 1)
  else
  set_non_blocking server_fd;;
  r ← sys (Sockcall "bind" server_fd [htons PORT]);
  if r_ret r <? 0 then
    perror "bind failed";;
    close server_fd;;
    mret (Some 1)
  else
  r ← sys (Sockcall "listen" server_fd [5]);
  if r_ret r <? 0 then
    perror "listen failed";;
    close server_fd;;
    mret (Some 1)
  else
  epoll_fd ← sys epoll_create1;
  let epoll_fd := r_ret epoll_fd in
  if epoll_fd <? 0 then
    perror "epoll_create1 failed";;
    close server_fd;;
    mret (Some 1)
  else
  r ← sys (Epoll epoll_fd (Epoll_add server_fd EPOLLIN server_fd));
  if r_ret r <? 0 then
    perror "epoll_ctl failed";;
    close server_fd;;
    mret (Some 1)
  else
  printf "Server listening on port %d\n" [AInt PORT];;
  after_rounds (rounds n (serve epoll_fd server_fd) tt) (λ _,
    close server_fd;;
    close epoll_fd;;
    mret 0).
End program.

Definition quiet (o : output) : bool := match o with Received _ _ | Sent _ _ => false | _ => true end.

(** What is received from a client is printed with its number. *)
Inductive shown : list output → Prop :=
| shown_quiet o : quiet o = true → shown [o]
| shown_data fd d :
    shown [Received fd d; Printf "Received from client (fd: %d): %s\n" [AInt fd; AStr (upto_nul d)]].

Section proofs.
Context {e : Env} {w0 : world} (Henv : legal_env w0).
Abbreviation runs := (runs w0).
Abbreviation progress := (progress shown).

Lemma hup_quiet_print o w : quiet o = true → progress w (print o w).
Proof using Type. intros. by apply progress_print, shown_quiet. Qed.

Lemma runs_set_non_blocking fd o w (Q : unit → world → Prop) :
  fds w !! fd = Some o → (∀ w', reflagged fd o w w' → Q tt w') → runs (set_non_blocking fd) w Q.
Proof.
  intros Ho HQ. apply (runs_ext (setnonblocking fd;; mret tt)); [done|]. step.
  eapply (runs_setnonblocking Henv); [exact Ho|]. intros r w' Hr. step. by apply HQ.
Qed.

Definition event_post (epfd lfd fd : Z) (w : world) (r : option Z) (w' : world) : Prop :=
  r = None ∧ handled epfd lfd fd w w' ∧ progress w w'.

(** The connection is closed, and the late [EPOLL_CTL_DEL] fails. *)
Definition closed_by (msg : string) (epfd lfd fd : Z) (w w' : world) : Prop :=
  handled epfd lfd fd w w' ∧ fds w' = delete fd (fds w) ∧ misuses w' = S (misuses w) ∧
  arrivals w' = arrivals w ∧
  outs w' = outs w ++ [Printf msg []; Printf "Client (fd: %d) disconnected\n" [AInt fd]].

Lemma disconnect_ok msg epfd lfd fd w (Q : option Z → world → Prop) :
  serving epfd lfd w → is_Some (fds w !! fd) → fd ≠ epfd → fd ≠ lfd →
  (∀ w', closed_by msg epfd lfd fd w w' → Q None w') →
  runs (printf msg [];; handle_client_disconnection fd;;
        sys (Epoll epfd (Epoll_del fd));; mret None) w Q.
Proof.
  intros Hs [o Ho] He Hl HQ. unfold handle_client_disconnection. steps.
  eapply (runs_epoll_dead Henv); [by right|cbn; apply lookup_delete_eq|]. intros r _ _. steps. apply HQ.
  split_and!; [|done..|cbn; by rewrite <- app_assoc].
  pose proof (handled_close epfd lfd fd (print (Printf "Client (fd: %d) disconnected\n" [AInt fd]) (print (Printf msg []) w))
    ltac:(by apply (serving_ext epfd lfd w)) He Hl) as Hc.
  eapply handled_ext; [..|eapply handled_trans; [exact Hc|]]; [done..|].
  apply handled_same; [apply Hc|done..].
Qed.

Lemma closed_progress msg epfd lfd fd w w' : closed_by msg epfd lfd fd w w' → progress w w'.
Proof using Type.
  intros (_ & _ & _ & Ha & Ho). split; [lia|]. eexists. split; [exact Ho|].
  apply (log_group _ [_]); [by constructor|]. by apply log_one, shown_quiet.
Qed.

Lemma hup_new_client_ok epfd lfd w :
  serving epfd lfd w → runs (new_client epfd lfd) w (event_post epfd lfd lfd w).
Proof.
  intros Hs. destruct (serving_listen _ _ _ Hs) as (ol & Hl & _).
  destruct (serving_epoll _ _ _ Hs) as (oe & He & Hke). unfold new_client. step.
  eapply (runs_accept Henv); [by rewrite Hl|..].
  { intros r n Hr _. step; [|lia]. steps. split_and!; [done|by apply handled_same|].
    by apply (hup_quiet_print _ (set_sigs n w)). }
  intros r Hr Hfd. pose proof (handled_accept epfd lfd lfd _ w Hs Hfd Hr) as Hacc.
  step; [lia|]. set (w1 := set_fds _ w) in *. step.
  assert (fds w1 !! r_ret r = Some (mkOF KSocket 0 [])) as Hc by (unfold w1; look).
  eapply runs_set_non_blocking; [exact Hc|]. intros w2 ((fl & Hfds) & _ & _ & _ & _ & Ho2 & _ & Hw2 & _ & Ha2 & _).
  assert (handled epfd lfd lfd w w2) as Hh.
  { eapply handled_trans; [exact Hacc|].
    eapply (handled_alter _ _ _ (r_ret r) _ (mkOF KSocket 0 fl)); [apply Hacc|exact Hc|done..|lia]. }
  assert (progress w w2) as HR by (apply progress_same; [done|cbn in *; lia]).
  assert (fds w2 !! r_ret r = Some (mkOF KSocket 0 fl)) as Hc2 by (by rewrite Hfds, lookup_insert_eq).
  pose proof (handled_serving _ _ _ _ _ Hh) as Hs2.
  destruct (serving_epoll _ _ _ Hs2) as (oe2 & He2 & Hke2). step.
  eapply (runs_epoll_add Henv); [exact He2|exact Hc2|..].
  - intros r2 n Hr2 _. step; [|lia]. steps. split; [done|]. split.
    + eapply handled_new; [exact Hs|exact Hfd|exact Hh|].
      eapply (handled_ext _ _ _ w2 (print (Perror "epoll_ctl add client failed") (set_sigs n w2))); [done..|].
      apply (handled_close epfd lfd (r_ret r) (print (Perror "epoll_ctl add client failed") (set_sigs n w2)));
        [by apply (serving_ext epfd lfd w2)| |].
      * intros E. rewrite E, He2 in Hc2. by simplify_eq.
      * intros E. rewrite E in Hfd. by rewrite Hfd in Hl.
    + etransitivity; [exact HR|]. by apply (hup_quiet_print _ (set_sigs n w2)).
  - intros r2 Hr2 _. step; [lia|]. steps. split; [done|].
    pose proof (handled_add epfd lfd lfd _ (Z.lor EPOLLIN EPOLLRDHUP) _ w2 Hs2 Hc2 eq_refl) as Hadd.
    set (w3 := set_watches _ w2) in *. split.
    + eapply handled_trans; [exact Hh|]. eapply handled_trans; [exact Hadd|].
      by apply handled_same; [apply Hadd|..].
    + etransitivity; [exact HR|]. etransitivity; [|by apply hup_quiet_print]. by apply (progress_same _ w2 w3).
Qed.

(** Data is printed; the end of the connection, or a hang-up, closes it. *)
Lemma hup_client_event_ok epfd lfd ev o w :
  messages_fit w0 → serving epfd lfd w → fds w !! ev.2 = Some o → talks (of_kind o) = true →
  ev.2 ≠ epfd → ev.2 ≠ lfd → runs (client_event epfd ev) w (event_post epfd lfd ev.2 w).
Proof.
  intros Hfit Hs Ho Ht He Hl. unfold client_event. step.
  { eapply (disconnect_ok _ epfd lfd); [done|by eexists|done..|]. intros w' Hc.
    split_and!; [done|apply Hc|by eapply closed_progress]. }
  step; [|by steps; split_and!; [|apply handled_same|]]. step.
  eapply (runs_fact _ _ (λ r, r_ret r < 1024)); [intros tr Htr; by eapply Hfit|].
  eapply (runs_recv Henv); [exact Ho|exact Ht|..].
  - intros r n Hr _ _. step; [lia|]. step; [lia|]. steps. split_and!; [done|by apply handled_same|].
    by apply (hup_quiet_print _ (set_sigs n w)).
  - intros r Hr _ _. step; [lia|]. step; [|lia].
    eapply (disconnect_ok _ epfd lfd); [done|by eexists|done..|]. intros w' Hc.
    split_and!; [done|apply Hc|by eapply closed_progress].
  - intros r k Hr Hd Hk Hlt. step; [|lia]. step.
    eapply runs_pure; [intros tr; apply c_str_zeroed; lia|]. steps.
    split_and!; [done|apply handled_same; [done..|cbn; lia]|].
    eapply progress_group; [apply shown_data|cbn; by rewrite <- app_assoc|cbn; lia].
Qed.

(** When a hang-up is announced, the connection is closed at once and nothing
    is read from it, whatever else the event announces: data that the client has
    sent before it hung up is lost. The [EPOLL_CTL_DEL] that follows comes after
    the [close] and fails. *)
Lemma hangup_discards_data epfd lfd ev w :
  serving epfd lfd w → watched epfd w ev.2 → ev.2 ≠ lfd →
  Z.land ev.1 (Z.lor EPOLLHUP EPOLLRDHUP) ≠ 0 →
  runs (handle_event epfd lfd ev) w (λ r w', r = None ∧ closed_by "from epollhup\n" epfd lfd ev.2 w w').
Proof.
  intros Hs [x Hx] Hl Hhup. destruct (serving_watched _ _ _ Hs _ _ Hx) as (_ & o & Ho & Ht).
  unfold handle_event. step; [done|]. unfold client_event. step; [|done].
  eapply disconnect_ok; [exact Hs|by eexists| |done|by intros w' Hc].
  intros E. destruct (serving_epoll _ _ _ Hs) as (oe & He & Hk). rewrite E in Ho. simplify_eq.
  by rewrite Hk in Ht.
Qed.

Lemma hup_serve_ok epfd lfd w w1 :
  messages_fit w0 → serving epfd lfd w1 → progress w w1 →
  runs (serve epfd lfd tt) w1 (λ c w2, match c with
    | Return _ => False | _ => serving epfd lfd w2 ∧ progress w w2 end).
Proof.
  intros Hfit Hs HR. destruct (serving_epoll _ _ _ Hs) as (oe & He & _). unfold serve. step.
  eapply (runs_epoll_wait Henv); [exact He|..].
  - intros r n Hr _. step; [|lia]. steps. split; [by apply (serving_ext epfd lfd w1)|].
    etransitivity; [exact HR|]. by apply (hup_quiet_print (Perror "epoll_wait failed") (set_sigs n w1)).
  - intros r Hr Hlen Hdup Hev. step; [lia|]. step. rewrite <- Hlen. eapply runs_mono.
    { eapply (runs_events Henv epfd lfd (handle_event epfd lfd) (arrivals w1) progress (λ _ _ _, False));
        [done| |exact Hs|done|done|done].
      intros ev w2 _ Hs2 [x Hx] _. destruct (serving_watched _ _ _ Hs2 _ _ Hx) as (_ & o & Ho & Ht).
      eapply (runs_mono _ _ (event_post epfd lfd ev.2 w2)); [|by intros r' w3 (-> & H)].
      unfold handle_event. step; [replace ev.2 with lfd by lia; by apply hup_new_client_ok|].
      eapply hup_client_event_ok; [done..| |done]. intros E.
      destruct (serving_epoll _ _ _ Hs2) as (oe2 & He2 & Hk). rewrite E in Ho. simplify_eq.
      by rewrite Hk in Ht. }
    intros [z|] w2; cbn beta iota; [done|]. intros (Hs2 & _ & HR2). step.
    split; [done|by etransitivity].
Qed.

(** As long as no message fills the buffer, the server does its first [n]
    rounds, for every [n], without undefined behaviour, prints all that it
    receives, and ends only with 0 or 1. *)
Lemma hup_server_shows n w :
  messages_fit w0 → fds w !! (-1) = None →
  runs (main n) w (λ r w', progress w w' ∧ match r with None => True | Some z => z = 0 ∨ z = 1 end).
Proof.
  intros Hfit Hneg. unfold main.
  assert (∀ x w1 w2, quiet x = true → outs w1 = outs w → arrivals w1 = arrivals w →
    outs w2 = outs (print x w1) → arrivals w2 = arrivals w1 →
    progress w w2 ∧ (1 = 0 ∨ 1 = 1)) as Hexit.
  { intros x w1 w2 Hx Ho1 Ha1 Ho2 Ha2. split; [|by right].
    eapply progress_group; [by apply (shown_quiet x)|rewrite Ho2; cbn; by rewrite Ho1|lia]. }
  step. eapply (runs_socket Henv).
  { intros r k Hr _. step; [|lia]. steps. by apply (Hexit (Perror "socket failed") w). }
  intros rl Hrl Hfl. step; [lia|]. step.
  eapply runs_set_non_blocking; [look|].
  intros w1 ((fl & Hfds) & _ & _ & _ & _ & Ho1 & _ & Hw1 & _ & Ha1 & _). cbn in Hfds, Ho1, Hw1, Ha1.
  rewrite insert_insert_eq in Hfds. step.
  eapply (runs_sockcall Henv); [look|]. intros rb nb _ _. step.
  { steps. by apply (Hexit (Perror "bind failed") w1). }
  step. eapply (runs_sockcall Henv); [look|]. intros rn nn _ _. step.
  { steps. by apply (Hexit (Perror "listen failed") w1). }
  step. eapply (runs_epoll_create Henv).
  { intros re k Hr _. step; [|lia]. steps. by apply (Hexit (Perror "epoll_create1 failed") w1). }
  intros re Hre Hfe. fresh_fds. step; [lia|]. step.
  match goal with |- Sys.runs _ _ ?x _ => set (w2 := x) end.
  assert (fds w2 !! r_ret rl = Some (mkOF KSocket 0 fl)) as Hl2 by (unfold w2; look).
  assert (serving (r_ret re) (r_ret rl) w2) as Hs2.
  { eapply serving_start; [done..|look|done|]. rewrite Hfds, !lookup_insert_ne by lia. done. }
  destruct (serving_epoll _ _ _ Hs2) as (oe & He2 & _).
  eapply (runs_epoll_add Henv); [exact He2|exact Hl2|..].
  { intros r k Hr _. step; [|lia]. steps. by apply (Hexit (Perror "epoll_ctl failed") w1). }
  intros r Hr _. step; [lia|]. step.
  pose proof (handled_add _ _ (r_ret rl) _ EPOLLIN _ _ Hs2 Hl2 eq_refl) as [Hs3 _ _ _].
  step. step. eapply (runs_rounds (λ _ : unit, λ w4, serving (r_ret re) (r_ret rl) w4 ∧ progress w w4)).
  { split; [eapply serving_ext; [..|exact Hs3]; done|].
    etransitivity; [|by apply hup_quiet_print]. apply progress_same; [done|cbn; lia]. }
  { intros _ w4 [_ HR4]. by split. }
  intros [] w4 [Hs5 HR5]. eapply runs_mono; [by apply hup_serve_ok|].
  intros [[]|[]|z] w5; [done| |done]. intros [Hs6 HR6].
  destruct (serving_listen _ _ _ Hs6) as (ol & Hl6 & _).
  destruct (serving_epoll _ _ _ Hs6) as (oe6 & He6 & _). pose proof (serving_ne _ _ _ Hs6) as Hne.
  steps.
  split; [|by left]. etransitivity; [exact HR6|by apply progress_same].
Qed.
End proofs.

(** ** The theorems on small systems *)

(** Client 5 has sent [bye] and hung up. *)
Definition hung_up : world :=
  mkWorld {[3 := mkOF KSocket 0 []; 4 := mkOF KEpoll 0 []; 5 := mkOF KSocket 0 []]} ∅ ∅ ∅ ∅ 0 [] 0
    {[(4, 5) := (Z.lor EPOLLIN EPOLLRDHUP, 5)]} ∅ 1 ∅.

Lemma hung_up_serving : serving 4 3 hung_up.
Proof.
  split; [by eexists|by eexists| |done]. intros fd x Hx. unfold hung_up in Hx. cbn in Hx.
  apply lookup_singleton_Some in Hx as [[= <-] <-]. split; [done|by eexists].
Qed.

Lemma hangup_discards_data_witness :
  ∃ tr w', handle_event (e := fed_env [b "bye"] hung_up) 4 3 (Z.lor EPOLLIN EPOLLRDHUP, 5) [] = Ok (None, tr) ∧
    replay hung_up tr = Some w' ∧ closed_by "from epollhup\n" 4 3 5 hung_up w' ∧ arrivals w' = 1%nat.
Proof.
  destruct (hangup_discards_data (fed_env_legal [b "bye"] hung_up) 4 3 (Z.lor EPOLLIN EPOLLRDHUP, 5) hung_up
    hung_up_serving ltac:(by eexists) ltac:(done) ltac:(done) [] eq_refl) as (r & tr & w' & Hrun & Hw & -> & Hc).
  exists tr, w'. split; [exact Hrun|]. split; [exact Hw|]. split; [exact Hc|].
  destruct Hc as (_ & _ & _ & Ha & _). exact Ha.
Defined.

Lemma hup_server_shows_witness :
  ∃ r tr w', main (e := fed_env [b "hi"] (set_arrivals 1 (boot ∅))) 3 [] = Ok (r, tr) ∧
    replay (set_arrivals 1 (boot ∅)) tr = Some w' ∧ progress shown (set_arrivals 1 (boot ∅)) w'.
Proof.
  destruct (hup_server_shows (fed_env_legal [b "hi"] (set_arrivals 1 (boot ∅))) 3 (set_arrivals 1 (boot ∅))
    ltac:(apply fed_messages_fit; by repeat constructor) eq_refl [] eq_refl)
    as (r & tr & w' & Hrun & Hw & HR & _).
  exists r, tr, w'. split; [exact Hrun|]. split; [exact Hw|exact HR].
Defined.
