(* ===== verification/TwoPhase.v ===== *)
(** * [09_epoll/2pc.c]: the coordinator of a two-phase commit *)
From S2P Require Export SysSock.

Definition PORT : Z := 8080.
Definition MAXLINE : Z := 1024.

Section program.
Context {e : Env}.

Definition send_message (sockfd : Z) (message : string) : M trace unit :=
  sys (Write sockfd (b message));;
  mret tt.

Definition receive_message (sockfd : Z) (buffer : buffer) : M trace Buffer.buffer :=
  n ← sys (Read sockfd MAXLINE);
  put (fill buffer (r_data n)) (r_ret n) "000"%char.

Definition main : M trace Z :=
  let buffer := new_buffer MAXLINE in
  sockfd ← sys Socket;
  let sockfd := r_ret sockfd in
  if sockfd <? 0 then
    perror "Socket creation failed";;
    mret 1
  else
  r ← sys (Sockcall "connect" sockfd [PORT]);
  if r_ret r <? 0 then
    perror "Connection failed";;
    mret 1
  else
  send_message sockfd "PREPARE";;
  buffer ← receive_message sockfd buffer;
  s ← c_str buffer;
  printf "Server: %s\n" [AStr s];;
  s ← c_str buffer;
  (if bool_decide (s = b "READY") then
     send_message sockfd "COMMIT";;
     buffer ← receive_message sockfd buffer;
     s ← c_str buffer;
     printf "Server: %s\n" [AStr s]
   else
     send_message sockfd "ABORT";;
     buffer ← receive_message sockfd buffer;
     s ← c_str buffer;
     printf "Server: %s\n" [AStr s]);;
  close sockfd;;
  mret 0.
End program.

(** ** The protocol *)

(** A message that is sent, as far as [send] takes it, or not at all. *)
Inductive sends (fd : Z) (message : bytes) : list output → Prop :=
| sends_nothing : sends fd message []
| sends_some k : sends fd message [Sent fd (take k message)].

(** An answer, empty at the end of the connection. *)
Definition hears (fd : Z) (d : bytes) : list output := if decide (d = []) then [] else [Received fd d].
Definition shows (d : bytes) : list output := [Printf "Server: %s\n" [AStr (upto_nul d)]].

(** The decision depends on the first answer, up to its first NUL. *)
Definition decision (d : bytes) : string :=
  if bool_decide (upto_nul d = b "READY") then "COMMIT" else "ABORT".

Definition protocol (fd : Z) (out : list output) : Prop :=
  ∃ sent1 d1 sent2 d2,
    sends fd (b "PREPARE") sent1 ∧ sends fd (b (decision d1)) sent2 ∧
    out = sent1 ++ hears fd d1 ++ shows d1 ++ sent2 ++ hears fd d2 ++ shows d2.

Section proofs.
Context {e : Env} {w0 : world} (Henv : legal_env w0).
Abbreviation runs := (runs w0).

(** No [read] from a socket fails, nor fills the buffer. *)
Definition answers_fit : Prop :=
  ∀ tr w fd o, replay w0 tr = Some w → fds w !! fd = Some o → of_kind o = KSocket →
    0 ≤ r_ret (env tr (Read fd MAXLINE)) < MAXLINE.

Definition only_outs (out : list output) (w w' : world) : Prop :=
  fds w' = fds w ∧ files w' = files w ∧ maps w' = maps w ∧ mem w' = mem w ∧
  misuses w' = misuses w ∧ outs w' = outs w ++ out.

Lemma send_message_ok fd o message w (Q : unit → world → Prop) :
  fds w !! fd = Some o → of_kind o = KSocket →
  (∀ out w', sends fd (b message) out → only_outs out w w' → Q tt w') →
  runs (send_message fd message) w Q.
Proof.
  intros Ho Hk HQ. unfold send_message. step. eapply (runs_send Henv); [exact Ho|by rewrite Hk|..].
  - intros r n _ _. steps. apply (HQ []); [constructor|]. repeat split. by rewrite app_nil_r.
  - intros r _ _. steps. eapply HQ; [constructor|by repeat split].
Qed.

Lemma receive_message_ok fd o buf w (Q : buffer → world → Prop) :
  answers_fit → fds w !! fd = Some o → of_kind o = KSocket → zlen buf = MAXLINE →
  (∀ d buf' w', zlen buf' = MAXLINE → only_outs (hears fd d) w w' →
     (∀ s : trace, c_str buf' s = Ok (upto_nul d, s)) → Q buf' w') →
  runs (receive_message fd buf) w Q.
Proof.
  intros Hfit Ho Hk Hlen HQ. unfold receive_message. step.
  assert (∀ d w', zlen d < MAXLINE → only_outs (hears fd d) w w' →
    runs (put (fill buf d) (zlen d) "000"%char) w' Q) as Hput.
  { intros d w' Hd Hw'. eapply runs_pure; [intros tr; apply put_after; lia|].
    apply (HQ d); [|done|intros s; apply c_str_terminated].
    rewrite length_fill; [done|]. unfold zlen in *. rewrite length_app. simpl. lia. }
  eapply (runs_fact _ _ (λ r, 0 ≤ r_ret r < MAXLINE)); [intros tr Htr; by eapply Hfit|].
  eapply (runs_recv Henv); [exact Ho|by rewrite Hk|..].
  - intros r n Hr _ Hlt. lia.
  - intros r Hr Hd Hlt. rewrite Hr, Hd. apply (Hput []); [done|]. repeat split. by rewrite app_nil_r.
  - intros r k Hr Hd _ Hlt. rewrite <- Hd. apply Hput; [lia|]. repeat split.
    unfold hears. rewrite decide_False; [done|]. intros E. rewrite E in Hd. unfold zlen in Hd. simpl in Hd. lia.
Qed.

(** The second phase. *)
Lemma exchange_ok fd o message buf w (Q : unit → world → Prop) :
  answers_fit → fds w !! fd = Some o → of_kind o = KSocket → zlen buf = MAXLINE →
  (∀ sent2 d w', sends fd (b message) sent2 →
     only_outs (sent2 ++ hears fd d ++ shows d) w w' → Q tt w') →
  runs (send_message fd message;; buffer ← receive_message fd buf; s ← c_str buffer;
    printf "Server: %s\n" [AStr s]) w Q.
Proof.
  intros Hfit Ho Hk Hlen HQ. step. eapply send_message_ok; [done..|].
  intros out w1 Hout (F1 & F2 & F3 & F4 & F5 & F6). step.
  eapply receive_message_ok; [done|by rewrite F1|done|done|].
  intros d buf' w2 _ (G1 & G2 & G3 & G4 & G5 & G6) Hstr. step.
  eapply runs_pure; [intros tr; apply Hstr|]. steps. apply (HQ out d); [done|].
  repeat split; cbn; try congruence. by rewrite G6, F6, <- !app_assoc.
Qed.

End proofs.

(** A [read] that fails, or fills the buffer, makes the NUL go out of bounds. *)
Lemma receive_message_overflows {e : Env} sockfd buf tr :
  zlen buf = MAXLINE →
  let r := env tr (Read sockfd MAXLINE) in
  zlen (r_data r) ≤ MAXLINE → r_ret r = -1 ∨ r_ret r = MAXLINE →
  receive_message sockfd buf tr = UB OutOfBounds.
Proof.
  intros Hlen r Hd Hr. unfold receive_message, sys, mbind, M_bind, put, zupdate. fold r.
  by rewrite bool_decide_eq_false_2 by (rewrite length_fill by lia; lia).
Qed.

(** A server that always answers [READY], until the end of the connection. *)
Definition ready (w : world) (c : call) : reply :=
  match c with
  | Read fd n =>
    if bool_decide (of_kind <$> fds w !! fd = Some KSocket) then
      if bool_decide (arrivals w = 0%nat) then answer 0 [] 0 else answer 5 (b "READY") 0
    else fed [] w c
  | _ => fed [] w c
  end.
Definition ready_env (w0 : world) : Env := λ tr c,
  match replay w0 tr with
  | Some w => match posix_step w (c, ready w c) with Some _ => ready w c | None => refuse w c end
  | None => refuse w0 c
  end.

Lemma ready_env_legal w0 : @legal_env (ready_env w0) w0.
Proof.
  intros tr w c Htr. unfold env, ready_env. rewrite Htr.
  destruct (posix_step w (c, ready w c)) eqn:E; [by rewrite E|apply refuse_legal].
Qed.

Lemma ready_answers_fit w0 : @answers_fit (ready_env w0) w0.
Proof.
  intros tr w fd o Htr Ho Hk. unfold env, ready_env. rewrite Htr.
  assert (∃ w', posix_step w (Read fd MAXLINE, ready w (Read fd MAXLINE)) = Some w') as [w' ->].
  { unfold posix_step, ready, on_fd. rewrite Ho. simpl. rewrite Hk, bool_decide_eq_true_2 by done.
    destruct (arrivals w) as [|k] eqn:Ha; cbn; unfold arrive; rewrite ?Ha; by eexists. }
  unfold ready. rewrite Ho. simpl. rewrite Hk, bool_decide_eq_true_2 by done.
  by case_bool_decide.
Qed.

