(* ===== verification/SockLib.v ===== *)
(** * What the programs of [08_socket] and [10_project] share

    Addresses as [printf] shows them, [toupper] on a buffer, [fgets] from the
    keyboard, and the facts about reads and writes that their theorems assume. *)
From S2P Require Export EpollServer.

Definition BUFSIZ : Z := 8192.
Definition EXIT_SUCCESS : Z := 0.
Definition EXIT_FAILURE : Z := 1.

(** ** Addresses

    [accept] stores [sin_addr.s_addr] and [sin_port], in network byte order: they are
    the pair [r_fds] of its reply. *)
Definition sockaddr_in : Type := Z * Z.

Definition ntohs : Z → Z := htons.
Definition inet_ntop (s_addr : Z) : bytes :=
  let part i := show_int (s_addr / 256 ^ i mod 256) in
  part 0 ++ b "." ++ part 1 ++ b "." ++ part 2 ++ b "." ++ part 3.

(** ** Characters *)

(** The value of a [char], which is signed, and the [char] that an [int] becomes. *)
Definition schar (c : ascii) : Z :=
  let z := Z.of_N (N_of_ascii c) in if z <? 128 then z else z - 256.
Definition char_of (z : Z) : ascii := ascii_of_N (Z.to_N (z mod 256)).

Definition to_upper (z : Z) : Z := if (97 <=? z) && (z <=? 122) then z - 32 else z.

(** [toupper] is defined for the values of [unsigned char] and for [EOF] only. *)
Definition toupper {S} (z : Z) : M S Z :=
  if bool_decide (-1 ≤ z ≤ 255) then mret (to_upper z) else ub_fail OutOfBounds.

(** [buf[i]] *)
Definition fetch {S} (buf : buffer) (i : Z) : M S ascii :=
  match zlookup buf i with None => ub_fail OutOfBounds | Some c => use c end.

(** [for (i = 0; i < n; i++) buf[i] = toupper(buf[i]);] *)
Definition upcase {S} (n : Z) (buf : buffer) : M S buffer :=
  for_up 0 n (λ i buf, c ← fetch buf i; z ← toupper (schar c); put buf i (char_of z)) buf.

(** The [n] bytes that [write(fd, buf, n)] takes: a negative [int] is a huge [size_t]. *)
Definition contents_int {S} (buf : buffer) (n : Z) : M S bytes :=
  if (0 <=? n) && (n <=? zlen buf) then contents (Z.to_nat n) buf else ub_fail OutOfBounds.

Arguments upcase : simpl never.
Arguments contents_int : simpl never.
Arguments fetch : simpl never.

Definition upper (c : ascii) : ascii := char_of (to_upper (schar c)).
(** ASCII, and the one byte that is taken for [EOF]. *)
Definition is_text (c : ascii) : bool := -1 <=? schar c.

Lemma zlen_new_buffer n : 0 ≤ n → zlen (new_buffer n) = n.
Proof. intros Hn. unfold zlen, new_buffer. rewrite length_replicate. lia. Qed.

Lemma schar_range c : -128 ≤ schar c ≤ 127.
Proof. destruct c as [[] [] [] [] [] [] [] []]; vm_compute; split; congruence. Qed.

Lemma toupper_ok {S} c (s : S) : is_text c = true → toupper (schar c) s = Ok (to_upper (schar c), s).
Proof.
  unfold is_text. intros Hc. propify. pose proof (schar_range c).
  unfold toupper. rewrite bool_decide_eq_true_2; [done|lia].
Qed.

(** A byte of 128 or more but 255 is a negative [char], for which [toupper] is not defined. *)
Lemma toupper_negative {S} c (s : S) :
  schar c < -1 → toupper (schar c) s = UB OutOfBounds.
Proof. intros Hc. unfold toupper. rewrite bool_decide_eq_false_2; [done|lia]. Qed.

Lemma upcase_none {S} n buf (s : S) : n ≤ 0 → upcase n buf s = Ok (buf, s).
Proof. intros Hn. unfold upcase, for_up. by replace (Z.to_nat (n - 0)) with O by lia. Qed.

Lemma upcase_fill {S} (d : bytes) buf (s : S) :
  forallb is_text d = true → upcase (zlen d) (fill buf d) s = Ok (fill buf (upper <$> d), s).
Proof.
  intros Hd. unfold upcase.
  destruct (for_up_rule (λ k a s', s' = s ∧ 0 ≤ k ∧
      a = (Val <$> ((upper <$> take (Z.to_nat k) d) ++ drop (Z.to_nat k) d)) ++ drop (length d) buf)
    0 (zlen d) (λ i buf, c ← fetch buf i; z ← toupper (schar c); put buf i (char_of z)) (fill buf d) s)
    as (a' & s' & Hrun & -> & _ & ->).
  { apply zlen_nonneg. }
  { done. }
  - intros k a s1 Hk (-> & H0 & ->).
    destruct (lookup_lt_is_Some_2 d (Z.to_nat k)) as [c Hc]; [unfold zlen in *; lia|].
    set (l := (upper <$> take (Z.to_nat k) d) ++ drop (Z.to_nat k) d).
    assert (length (upper <$> take (Z.to_nat k) d) = Z.to_nat k) as Hlen.
    { rewrite length_fmap, length_take. unfold zlen in *. lia. }
    assert (l !! Z.to_nat k = Some c) as Hl.
    { unfold l. rewrite lookup_app_r by lia. rewrite Hlen, Nat.sub_diag, lookup_drop, Nat.add_0_r. done. }
    assert (zlookup ((Val <$> l) ++ drop (length d) buf) k = Some (Val c)) as Hz.
    { apply zlookup_Some. split; [lia|]. rewrite lookup_app_l.
      - by rewrite list_lookup_fmap, Hl.
      - rewrite length_fmap. by eapply lookup_lt_Some. }
    assert (is_text c = true) as Hasc.
    { eapply forallb_forall in Hd; [exact Hd|]. apply list_elem_of_In. by eapply list_elem_of_lookup_2. }
    unfold fetch. rewrite Hz. erewrite bind_Ok by apply use_Val.
    erewrite bind_Ok by (by apply toupper_ok). unfold put. rewrite zupdate_in by (by eapply zlookup_lt).
    eexists _, s. split; [done|]. split; [done|]. split; [lia|].
    rewrite insert_app_l by (rewrite length_fmap; by eapply lookup_lt_Some).
    f_equal. rewrite <- list_fmap_insert. f_equal. unfold l.
    rewrite insert_app_r_alt, Hlen, Nat.sub_diag by lia. rewrite (drop_S _ _ _ Hc).
    replace (Z.to_nat (k + 1)) with (Datatypes.S (Z.to_nat k)) by lia.
    rewrite (take_S_r _ _ _ Hc), fmap_app, <- app_assoc. done.
  - etransitivity; [exact Hrun|]. unfold zlen. rewrite Nat2Z.id, firstn_all, drop_all, app_nil_r.
    unfold fill. by rewrite length_fmap.
Qed.

Lemma contents_int_fill {S} (d : bytes) buf (s : S) :
  zlen d ≤ zlen buf → contents_int (fill buf d) (zlen d) s = Ok (d, s).
Proof.
  intros Hd. unfold contents_int. rewrite length_fill by done.
  rewrite (proj2 (Z.leb_le _ _)), (proj2 (Z.leb_le _ _)) by (done || apply zlen_nonneg).
  unfold zlen. rewrite Nat2Z.id. by apply contents_fill.
Qed.

(** The loop comes to a byte that [toupper] does not take. *)
Lemma upcase_bad {S} (d : bytes) buf (s : S) :
  forallb is_text d = false → upcase (zlen d) (fill buf d) s = UB OutOfBounds.
Proof.
  intros Hd. assert (∃ d1 c d2, d = d1 ++ c :: d2 ∧ forallb is_text d1 = true ∧ schar c < -1)
    as (d1 & c & d2 & -> & H1 & Hc).
  { clear -Hd. induction d as [|c d IH]; [done|]. cbn in Hd. destruct (is_text c) eqn:Hc.
    - destruct (IH Hd) as (d1 & c' & d2 & -> & H1 & H2). exists (c :: d1), c', d2.
      split_and!; [done| |done]. cbn. by rewrite Hc.
    - exists [], c, d. split_and!; [done..|]. unfold is_text in Hc. by propify. }
  set (buf1 := fill buf (d1 ++ c :: d2)).
  assert (buf1 = fill buf1 d1) as Hb1.
  { unfold buf1, fill. rewrite fmap_app, <- app_assoc, drop_app_length' by (by rewrite length_fmap). done. }
  pose proof (upcase_fill d1 buf1 s H1) as Hrun. unfold upcase, for_up in *.
  replace (Z.to_nat (zlen (d1 ++ c :: d2) - 0)) with (length d1 + Datatypes.S (length d2))%nat
    by (unfold zlen; rewrite length_app; simpl; lia).
  replace (Z.to_nat (zlen d1 - 0)) with (length d1) in Hrun by (unfold zlen; lia).
  rewrite Hb1. etransitivity; [apply for_steps_add|]. erewrite bind_Ok by exact Hrun.
  assert (zlookup (fill buf1 (upper <$> d1)) (0 + Z.of_nat (length d1) * 1) = Some (Val c)) as Hz.
  { rewrite Z.mul_1_r. apply zlookup_Some. split; [lia|]. unfold fill.
    rewrite lookup_app_r by (rewrite !length_fmap; lia). rewrite !length_fmap, lookup_drop.
    replace (length d1 + _)%nat with (length (Val <$> d1 : buffer) + 0)%nat by (rewrite length_fmap; lia).
    unfold buf1, fill. rewrite fmap_app, <- app_assoc, lookup_app_r by lia.
    by rewrite Nat.add_0_r, Nat.sub_diag. }
  cbn [for_steps]. unfold fetch. rewrite Hz. unfold mbind, M_bind. rewrite use_Val.
  by rewrite toupper_negative.
Qed.

(** ** Input from the keyboard

    [fgets(buf, n, stdin)]: its result is not [NULL], and the buffer, which keeps
    its content at an end of file and is indeterminate after an error. *)
Definition fgets {e : Env} (buf : buffer) (n : Z) : M trace (bool * buffer) :=
  r ← sys (Gets n);
  mret (if r_ret r <=? 0 then (false, if r_off r =? 0 then buf else new_buffer (zlen buf))
        else (true, fill buf (r_data r ++ ["000"%char]))).

(** A string in a buffer, and what follows its NUL. *)
Lemma c_str_string {S} (d : bytes) rest (s : S) :
  "000"%char ∉ d → c_str ((Val <$> d) ++ Val "000"%char :: rest) s = Ok (d, s).
Proof.
  induction d as [|c d IH]; intros Hd; [done|]. apply not_elem_of_cons in Hd as [Hc Hd].
  cbn. rewrite bool_decide_eq_false_2 by congruence. unfold mbind, M_bind. by rewrite IH.
Qed.
Lemma upto_nul_split (line : bytes) :
  ∃ rest, line ++ ["000"%char] = upto_nul line ++ "000"%char :: rest ∧ "000"%char ∉ upto_nul line.
Proof.
  induction line as [|c line (rest & IH & Hn)]; [exists []; split; [done|set_solver]|]. cbn.
  case_bool_decide as Hc; [subst c; eexists; split; [done|set_solver]|].
  exists rest. rewrite IH. split; [done|]. apply not_elem_of_cons. split; [congruence|done].
Qed.

(** [memset(buf, 0, n)] followed by storing [d] *)
Definition cleared (n : Z) (d : bytes) : buffer := fill (zeroed n) d.

Lemma upto_nul_id d : "000"%char ∉ d → upto_nul d = d.
Proof.
  induction d as [|c d IH]; intros Hd; [done|]. apply not_elem_of_cons in Hd as [Hn Hd].
  cbn. rewrite bool_decide_eq_false_2 by congruence. by rewrite IH.
Qed.

(** A datagram in a cleared buffer is a string if a NUL is in it, or after it. *)
Lemma cleared_string n d (tr : trace) :
  zlen d ≤ n → (zlen d < n ∨ "000"%char ∈ d) → c_str (cleared n d) tr = Ok (upto_nul d, tr).
Proof.
  intros Hd [Hlt|Hin]; [by apply c_str_zeroed|].
  destruct (upto_nul_split d) as (rest & Hsplit & Hnul). unfold cleared, fill.
  destruct rest as [|c rest' _] using rev_ind.
  - exfalso. apply app_inj_2 in Hsplit as [E _]; [|done]. by rewrite <- E in Hnul.
  - rewrite app_comm_cons, app_assoc in Hsplit. apply app_inj_2 in Hsplit as [Hd' _]; [|done].
    rewrite Hd' at 1. rewrite fmap_app, fmap_cons, <- app_assoc. by apply c_str_string.
Qed.

(** What a read has stored: nothing, when it fails. *)
Definition stored (r : reply) : bytes := if r_ret r <? 0 then [] else r_data r.

(** ** Facts about replies *)

(** Something is known of all replies to reads of open sockets: they do not fail; they
    bring bytes that [toupper] takes; or both. *)
Definition socket_reads {e : Env} (w0 : world) (n : Z) (F : reply → Prop) : Prop :=
  ∀ tr w fd o, replay w0 tr = Some w → fds w !! fd = Some o → of_kind o = KSocket →
    F (env tr (Read fd n)).
Definition reads_succeed {e : Env} (w0 : world) : Prop := socket_reads w0 BUFSIZ (λ r, r_ret r ≠ -1).
Definition text_if_any {e : Env} (w0 : world) : Prop :=
  socket_reads w0 BUFSIZ (λ r, 0 < r_ret r → forallb is_text (r_data r) = true).
Definition text_arrives {e : Env} (w0 : world) : Prop :=
  socket_reads w0 BUFSIZ (λ r, r_ret r ≠ -1 ∧ forallb is_text (r_data r) = true).

(** A write to an open socket or terminal takes all the bytes: it blocks until there is room. *)
Definition full_writes {e : Env} (w0 : world) : Prop :=
  ∀ tr w fd o d, replay w0 tr = Some w → fds w !! fd = Some o → talks (of_kind o) = true →
    r_ret (env tr (Write fd d)) = zlen d.

(** A datagram is sent. *)
Definition full_sends {e : Env} (w0 : world) : Prop :=
  ∀ tr w fd o d a, replay w0 tr = Some w → fds w !! fd = Some o → of_kind o = KSocket →
    r_ret (env tr (Sendto fd d a)) = zlen d.

(** The user types on, as long as anything arrives at all. *)
Definition keyboard_in_use {e : Env} (w0 : world) (n : Z) : Prop :=
  ∀ tr w, replay w0 tr = Some w → arrivals w ≠ O → 0 < r_ret (env tr (Gets n)).

Definition sockets_available {e : Env} (w0 : world) : Prop :=
  ∀ tr w, replay w0 tr = Some w → 0 ≤ r_ret (env tr Socket).

(** What one [write] of [data] logs: a part of it, or nothing when it fails, but all of
    it if writes are [full]. *)
Inductive written (full : Prop) (fd : Z) (data : bytes) : list output → Prop :=
| written_some d : d `prefix_of` data → (full → d = data) → written full fd data [Sent fd d]
| written_none : ¬ full → written full fd data [].

Section rules.
Context {e : Env} {w0 : world} (Henv : legal_env w0).
Abbreviation runs := (runs w0).

Lemma runs_gets buf n w (Q : bool * buffer → world → Prop) :
  Q (false, buf) w → Q (false, new_buffer (zlen buf)) w →
  (∀ d k, d ≠ [] → zlen d ≤ n - 1 → arrivals w = S k →
     Q (true, fill buf (d ++ ["000"%char])) (print (Received 0 d) (set_arrivals k w))) →
  runs (fgets buf n) w Q.
Proof.
  intros Heof Herr Hok. unfold fgets. apply runs_bind, (runs_sys Henv). intros r w' Hw'.
  apply runs_ret. unfold posix_step in Hw'. destruct (r_ret r <=? 0) eqn:Hr.
  - simplify_eq. by destruct (r_off r =? 0).
  - case_bool_decide as Hd; [|done]. destruct Hd as [Hne Hline].
    destruct (arrivals w) as [|k]; [done|]. simplify_eq. apply Hok; [done| |done].
    assert (∀ m s, length (first_line m s) ≤ m)%nat as Hlen.
    { induction m as [|m IH]; intros [|c s]; cbn; try lia.
      case_bool_decide; cbn; [lia|]. specialize (IH s). lia. }
    specialize (Hlen (Z.to_nat (n - 1)) (r_data r)). rewrite Hline in Hlen.
    destruct (r_data r); [done|]. unfold zlen. simpl in *. lia.
Qed.

(** A line of the keyboard, when the user types on. *)
Lemma runs_fgets_line buf n w (Q : bool * buffer → world → Prop) :
  keyboard_in_use w0 n → arrivals w ≠ O →
  (∀ d k, d ≠ [] → zlen d ≤ n - 1 → arrivals w = S k →
     Q (true, fill buf (d ++ ["000"%char])) (print (Received 0 d) (set_arrivals k w))) →
  runs (fgets buf n) w Q.
Proof.
  intros Hkey Ha Hok tr Htr.
  destruct (runs_gets buf n w (λ x w', x.1 = true → Q x w')) with tr as (x & tr' & w' & Hrun & Hw' & HQ);
    [done..| |done|].
  { intros d k Hd Hn Hk _. by apply Hok. }
  exists x, tr', w'. split_and!; [done..|]. apply HQ. unfold fgets, sys, mbind, M_bind in Hrun.
  specialize (Hkey tr w Htr Ha). rewrite (proj2 (Z.leb_gt _ _)) in Hrun by done.
  by injection Hrun as <- _.
Qed.

Lemma runs_libcall name args w (Q : reply → world → Prop) :
  (∀ r, -1 ≤ r_ret r → Q r w) → runs (sys (Libcall name args)) w Q.
Proof.
  intros HQ. apply (runs_sys Henv). intros r w' Hw'. unfold posix_step in Hw'.
  apply guard_Some in Hw' as [Hb <-]. propify. by apply HQ.
Qed.

(** [read] from an open socket, of whose replies [F] is known. *)
Lemma runs_recv_known n F fd o w (Q : reply → world → Prop) :
  socket_reads w0 n F → fds w !! fd = Some o → of_kind o = KSocket →
  (∀ r k, r_ret r = -1 → F r → (k ≤ sigs w)%nat → Q r (set_sigs k w)) →
  (∀ r, r_ret r = 0 → r_data r = [] → Q r w) →
  (∀ r k, 0 < r_ret r ≤ n → zlen (r_data r) = r_ret r → F r →
     arrivals w = S k → Q r (print (Received fd (r_data r)) (set_arrivals k w))) →
  runs (sys (Read fd n)) w Q.
Proof.
  intros HF Ho Hk Hfail Heof Hok. apply (runs_fact _ _ F).
  { intros tr Htr. by eapply HF. }
  eapply (runs_recv Henv); [exact Ho|by rewrite Hk|..].
  - intros r k Hr Hn HFr. by apply Hfail.
  - intros r Hr Hd _. by apply Heof.
  - intros r k Hr Hd Hk' HFr. by apply Hok.
Qed.

(** When it does not fail. *)
Lemma runs_recv_fact n F fd o w (Q : reply → world → Prop) :
  socket_reads w0 n F → (∀ r, F r → r_ret r ≠ -1) → fds w !! fd = Some o → of_kind o = KSocket →
  (∀ r, r_ret r = 0 → r_data r = [] → Q r w) →
  (∀ r k, 0 < r_ret r ≤ n → zlen (r_data r) = r_ret r → F r →
     arrivals w = S k → Q r (print (Received fd (r_data r)) (set_arrivals k w))) →
  runs (sys (Read fd n)) w Q.
Proof.
  intros HF Hne Ho Hk Heof Hok. eapply runs_recv_known; [exact HF|done..| | |]; [|done|done].
  intros r k Hr HFr _. by destruct (Hne r HFr).
Qed.

Lemma runs_recv_text fd o w (Q : reply → world → Prop) :
  text_arrives w0 → fds w !! fd = Some o → of_kind o = KSocket →
  (∀ r, r_ret r = 0 → r_data r = [] → Q r w) →
  (∀ r k, 0 < r_ret r ≤ BUFSIZ → zlen (r_data r) = r_ret r → forallb is_text (r_data r) = true →
     arrivals w = S k → Q r (print (Received fd (r_data r)) (set_arrivals k w))) →
  runs (sys (Read fd BUFSIZ)) w Q.
Proof.
  intros HF Ho Hk Heof Hok. eapply runs_recv_fact; [exact HF|by intros r []|done..|].
  intros r k Hr Hd [_ Ha] Hk'. by apply Hok.
Qed.

(** [write] to an open socket or terminal; it fails or is short only when full writes are
    not assumed. *)
Lemma runs_write_out fd data o w (Q : reply → world → Prop) :
  fds w !! fd = Some o → talks (of_kind o) = true →
  (∀ r n, ¬ full_writes w0 → (n ≤ sigs w)%nat → Q r (set_sigs n w)) →
  (∀ r d, d `prefix_of` data → (full_writes w0 → d = data) → Q r (print (Sent fd d) w)) →
  runs (sys (Write fd data)) w Q.
Proof.
  intros Ho Ht Hfail Hok. apply (runs_fact _ _ (λ r, full_writes w0 → r_ret r = zlen data)).
  { intros tr Htr Hfull. by eapply Hfull. }
  eapply (runs_send Henv); [exact Ho|exact Ht|..].
  - intros r n Hr Hn Hz. apply Hfail; [|done]. intros Hfull. specialize (Hz Hfull).
    pose proof (zlen_nonneg data). lia.
  - intros r Hr _ Hz. apply Hok; [apply prefix_take|]. intros Hfull. rewrite (Hz Hfull).
    unfold zlen. by rewrite Nat2Z.id, firstn_all.
Qed.

(** [sendto]: the datagram goes out as a whole, or, when that is not assumed not to happen, not at all. *)
Lemma runs_datagram_out fd data a o w (Q : reply → world → Prop) :
  fds w !! fd = Some o → of_kind o = KSocket →
  (∀ r n, ¬ full_sends w0 → (n ≤ sigs w)%nat → Q r (set_sigs n w)) →
  (∀ r, Q r (print (Sent fd data) w)) →
  runs (sys (Sendto fd data a)) w Q.
Proof.
  intros Ho Hk Hfail Hok. apply (runs_fact _ _ (λ r, full_sends w0 → r_ret r = zlen data)).
  { intros tr Htr Hfull. by eapply Hfull. }
  eapply (runs_sendto Henv); [exact Ho|exact Hk|..].
  - intros r n Hr Hn Hz. apply Hfail; [|done]. intros Hfull. specialize (Hz Hfull).
    pose proof (zlen_nonneg data). lia.
  - intros r _ _. apply Hok.
Qed.

(** The same, as what it adds to the log. *)
Lemma runs_written fd data o w (Q : reply → world → Prop) :
  fds w !! fd = Some o → talks (of_kind o) = true →
  (∀ r w' out, written (full_writes w0) fd data out → outs w' = outs w ++ out → fds w' = fds w →
     arrivals w' = arrivals w → Q r w') →
  runs (sys (Write fd data)) w Q.
Proof.
  intros Ho Ht HQ. eapply runs_write_out; [exact Ho|exact Ht|..].
  - intros r n Hfull _. eapply HQ; [by apply written_none|by rewrite app_nil_r|done..].
  - intros r d Hd Hfull. by eapply HQ; [by apply written_some|..].
Qed.
End rules.

(** The log of a run. *)
Definition log_of {A} (m : M trace A) (w : world) : option (list output) :=
  match m [] with Ok (_, tr) => outs <$> replay w tr | _ => None end.
Lemma log_of_run {A} (m : M trace A) w a tr w' l :
  m [] = Ok (a, tr) → replay w tr = Some w' → log_of m w = Some l → outs w' = l.
Proof. intros Hm Hw. unfold log_of. rewrite Hm, Hw. by intros [= <-]. Qed.

(** *** Computations that end in undefined behaviour, whatever the answers *)
Definition crashes {A} (w0 : world) (m : M trace A) (w : world) (u : ub) : Prop :=
  ∀ tr, replay w0 tr = Some w → m tr = UB u.

Lemma crashes_bind {A B} w0 (m : M trace A) (f : A → M trace B) w u :
  runs w0 m w (λ a w', crashes w0 (f a) w' u) → crashes w0 (m ≫= f) w u.
Proof.
  intros Hm tr Htr. destruct (Hm tr Htr) as (a & tr' & w' & Hrun & Hw' & Hf).
  rewrite (bind_Ok _ _ _ _ _ Hrun). by apply Hf.
Qed.
Lemma crashes_first {A B} w0 (m : M trace A) (f : A → M trace B) w u :
  crashes w0 m w u → crashes w0 (m ≫= f) w u.
Proof. intros Hm tr Htr. unfold mbind, M_bind. by rewrite Hm. Qed.

Lemma rounds_add {S A B} n m (body : A → M S (ctl A B)) a s :
  rounds (n + m) body a s =
    (c ← rounds n body a; match c with Next a' => rounds m body a' | c => mret c end) s.
Proof.
  revert a s. induction n as [|n IH]; intros a s; [done|]. cbn [rounds Nat.add].
  unfold mbind, M_bind. destruct (body a s) as [[[a'|b|z] s']| | |]; [|done..]. apply IH.
Qed.

Lemma crashes_rounds {A B} w0 n m (body : A → M trace (ctl A B)) a w u :
  runs w0 (rounds n body a) w (λ c w', match c with Next a' => crashes w0 (body a') w' u | _ => False end) →
  crashes w0 (rounds (n + S m) body a) w u.
Proof.
  intros Hr tr Htr. rewrite rounds_add. revert tr Htr. apply crashes_bind.
  eapply runs_mono; [exact Hr|]. intros [a'|b|z] w' H; [|done..]. by apply crashes_first.
Qed.

(** ** A system where these facts hold

    Reads of sockets and of the keyboard are answered from [inputs], of which as many
    are left as there are arrivals, and then with an end of file (no datagram, for
    [recvfrom]); everything else is done at once and in full. *)
Definition next_input (inputs : list bytes) (w : world) : bytes :=
  match drop (length inputs - arrivals w) inputs with [] => [] | d :: _ => d end.

Definition live (inputs : list bytes) (w : world) (c : call) : reply :=
  let d := next_input inputs w in
  match c with
  | Read fd n =>
    if talks (default KEpoll (of_kind <$> fds w !! fd)) then
      answer (Z.min n (zlen d)) (take (Z.to_nat n) d) 0
    else attempt (-1) w c
  | Recvfrom fd n =>
    if bool_decide (arrivals w = O) then mkReply (-1) EAGAIN [] 0 (-1, -1) [] []
    else answer (Z.min n (zlen d)) (take (Z.to_nat n) d) 0
  | Gets n =>
    let line := first_line (Z.to_nat (n - 1)) d in
    answer (Z.b2z (negb (bool_decide (line = [])))) line 0
  | _ => attempt (-1) w c
  end.

Lemma next_input_none inputs w : arrivals w = O → next_input inputs w = [].
Proof. intros Ha. unfold next_input. by rewrite Ha, Nat.sub_0_r, drop_all. Qed.
Lemma next_input_in inputs w :
  inputs ≠ [] → arrivals w ≠ O → next_input inputs w ∈ inputs.
Proof.
  intros Hne Ha. unfold next_input.
  destruct (drop (length inputs - arrivals w) inputs) as [|d l] eqn:E.
  - apply (f_equal length) in E. rewrite length_drop in E. destruct inputs; [done|]. simpl in E. lia.
  - rewrite <- (take_drop (length inputs - arrivals w) inputs), E. set_solver.
Qed.

Definition live_env (inputs : list bytes) (w0 : world) : Env := λ tr c,
  match replay w0 tr with
  | Some w =>
    match posix_step w (c, live inputs w c) with Some _ => live inputs w c | None => refuse w c end
  | None => answer (-1) [] 0
  end.

Lemma live_env_legal inputs w0 : @legal_env (live_env inputs w0) w0.
Proof.
  intros tr w c Htr. unfold env, live_env. rewrite Htr.
  destruct (posix_step w (c, live inputs w c)) eqn:E; [by rewrite E|apply refuse_legal].
Qed.

Lemma live_answer inputs w0 tr w c :
  replay w0 tr = Some w → is_Some (posix_step w (c, live inputs w c)) →
  env (Env := live_env inputs w0) tr c = live inputs w c.
Proof. intros Htr [w' Hw']. unfold env, live_env. by rewrite Htr, Hw'. Qed.

Lemma live_reads inputs w fd o n :
  0 < n → inputs ≠ [] → fds w !! fd = Some o → talks (of_kind o) = true →
  is_Some (posix_step w (Read fd n, live inputs w (Read fd n))).
Proof.
  intros Hpos Hin Ho Ht. unfold posix_step, live, on_fd. rewrite Ho. cbn -[Z.min].
  rewrite Ht. cbn -[Z.min]. set (d := next_input _ _).
  pose proof (zlen_nonneg d).
  destruct (Z.ltb_spec (Z.min n (zlen d)) 0); [lia|]. unfold arrive.
  rewrite (proj2 (Z.leb_le _ _)) by lia. rewrite (proj2 (Z.eqb_eq _ _)).
  2: { unfold zlen in *. rewrite length_take. lia. }
  cbn [andb]. destruct (Z.eqb_spec (Z.min n (zlen d)) 0); [by eexists|].
  destruct (arrivals w) as [|k] eqn:Ha; [|by eexists]. exfalso.
  unfold d, zlen in *. rewrite next_input_none in * by done. cbn in *. lia.
Qed.

(** All reads of sockets satisfy what short inputs satisfy. *)
Lemma live_socket_reads inputs w0 n (F : reply → Prop) :
  0 < n → inputs ≠ [] → F (answer 0 [] 0) → Forall (λ d, F (answer (Z.min n (zlen d)) (take (Z.to_nat n) d) 0)) inputs →
  socket_reads (e := live_env inputs w0) w0 n F.
Proof.
  intros Hn Hne Heof Hin tr w fd o Htr Ho Hk.
  assert (talks (of_kind o) = true) as Ht by (by rewrite Hk).
  rewrite (live_answer inputs w0 tr w _ Htr) by (by eapply live_reads).
  unfold live. rewrite Ho. cbn -[Z.min]. rewrite Ht. cbn -[Z.min].
  destruct (decide (arrivals w = O)) as [Ha|Ha].
  - rewrite next_input_none by done. rewrite take_nil. change (zlen []) with 0. by rewrite (Z.min_r n 0) by lia.
  - rewrite Forall_forall in Hin. by apply Hin, next_input_in.
Qed.

Lemma live_text inputs w0 :
  inputs ≠ [] → forallb (forallb is_text) inputs = true → text_arrives (e := live_env inputs w0) w0.
Proof.
  intros Hne Hin. apply live_socket_reads; [done..|]. apply Forall_forall. intros d Hd. split.
  - cbn -[Z.min]. pose proof (zlen_nonneg d). unfold BUFSIZ. lia.
  - cbn [answer r_data]. apply forallb_forall. intros c Hc%list_elem_of_In.
    pose proof (proj1 (forallb_forall _ _) Hin d (proj1 (list_elem_of_In _ _) Hd)) as Hd'.
    apply (proj1 (forallb_forall _ _) Hd'), list_elem_of_In.
    rewrite <- (take_drop (Z.to_nat BUFSIZ) d). by apply elem_of_app; left.
Qed.

Lemma text_reads {e : Env} w0 : text_arrives w0 → reads_succeed w0.
Proof. intros H tr w fd o Htr Ho Hk. by eapply H. Qed.

Lemma text_any {e : Env} w0 : text_arrives w0 → text_if_any w0.
Proof. intros H tr w fd o Htr Ho Hk _. by eapply H. Qed.

Lemma live_full inputs w0 : full_writes (e := live_env inputs w0) w0.
Proof.
  intros tr w fd o d Htr Ho Ht. assert (live inputs w (Write fd d) = answer (zlen d) [] 0) as E.
  { unfold live, attempt. cbn. f_equal. lia. }
  rewrite (live_answer inputs w0 tr w _ Htr); rewrite E; [done|].
  unfold posix_step, on_fd. rewrite Ho. cbn. pose proof (zlen_nonneg d).
  destruct (Z.ltb_spec (zlen d) 0); [lia|]. rewrite (proj2 (Z.leb_le _ _)) by lia.
  assert (sink o = true) as -> by (unfold sink; by destruct (of_kind o)). cbn.
  destruct (Z.ltb_spec 0 (zlen d)); [by eexists|].
  rewrite (proj2 (Z.eqb_eq _ _)) by lia. by eexists.
Qed.

Lemma live_sends inputs w0 : full_sends (e := live_env inputs w0) w0.
Proof.
  intros tr w fd o d a Htr Ho Hk. rewrite (live_answer inputs w0 tr w _ Htr); [done|].
  unfold posix_step, live, on_fd. rewrite Ho. cbn. pose proof (zlen_nonneg d).
  destruct (Z.ltb_spec (zlen d) 0); [lia|]. rewrite bool_decide_eq_true_2, Z.eqb_refl by done.
  by eexists.
Qed.

Lemma live_keyboard inputs w0 n :
  1 < n → inputs ≠ [] → Forall (λ d, d ≠ []) inputs → keyboard_in_use (e := live_env inputs w0) w0 n.
Proof.
  intros Hn Hne Hin tr w Htr Ha.
  set (d := next_input inputs w).
  assert (d ≠ []) as Hdne by (apply (proj1 (Forall_forall _ _) Hin); by apply next_input_in).
  assert (first_line (Z.to_nat (n - 1)) d ≠ []) as Hline.
  { destruct (Z.to_nat (n - 1)) eqn:E; [lia|]. destruct d; [done|]. cbn. by case_bool_decide. }
  assert (live inputs w (Gets n) = answer 1 (first_line (Z.to_nat (n - 1)) d) 0) as E.
  { unfold live. fold d. cbn. by rewrite bool_decide_eq_false_2. }
  rewrite (live_answer inputs w0 tr w _ Htr); rewrite E; [done|].
  unfold posix_step. cbn. rewrite bool_decide_eq_true_2.
  - destruct (arrivals w); [done|by eexists].
  - split; [done|]. generalize (Z.to_nat (n - 1)), d. clear. intros m. induction m as [|m IH]; intros [|c d]; [done..|]. cbn. case_bool_decide as Hc; cbn.
    + by rewrite bool_decide_eq_true_2.
    + rewrite bool_decide_eq_false_2 by done. by rewrite IH.
Qed.

Lemma live_sockets inputs w0 : sockets_available (e := live_env inputs w0) w0.
Proof.
  intros tr w Htr. destruct (next_key_fresh (fds w)) as [H3 Hfree].
  rewrite (live_answer inputs w0 tr w _ Htr); cbn -[next_key]; [lia|].
  unfold posix_step, new_fd. cbn -[next_key]. destruct (Z.ltb_spec (next_key (fds w)) 0); [lia|].
  rewrite bool_decide_eq_true_2 by done. by eexists.
Qed.

(** Connections that wait to be accepted. *)
Definition connections_arrive {e : Env} (w0 : world) : Prop :=
  ∀ tr w fd, replay w0 tr = Some w → is_Some (fds w !! fd) → 0 ≤ r_ret (env tr (Accept fd)).

Lemma live_accept inputs w0 : connections_arrive (e := live_env inputs w0) w0.
Proof.
  intros tr w fd Htr [o Ho]. destruct (next_key_fresh (fds w)) as [H3 Hfree].
  rewrite (live_answer inputs w0 tr w _ Htr); cbn -[next_key]; [lia|].
  unfold posix_step, on_fd, new_fd. rewrite Ho. cbn -[next_key].
  destruct (Z.ltb_spec (next_key (fds w)) 0); [lia|].
  rewrite bool_decide_eq_true_2 by done. by eexists.
Qed.
