(* ===== verification/TcpUdp.v ===== *)
(** * [09_epoll/tcp_udp.c]: one server for TCP connections and UDP datagrams *)
From S2P Require Export SockLib.

Definition MAX_EVENT_NUMBER : Z := 1024.
Definition TCP_BUFFER_SIZE : Z := 512.
Definition UDP_BUFFER_SIZE : Z := 1024.

Section program.
Context {e : Env}.

Definition addfd (epollfd fd : Z) : M trace unit :=
  let events := Z.lor EPOLLIN EPOLLET in
  sys (Epoll epollfd (Epoll_add fd events fd));;
  setnonblocking fd;;
  mret tt.

(** A datagram is answered with the whole buffer but its last byte. *)
Definition udp_event (udpfd : Z) : M trace (option Z) :=
  ret ← sys (Recvfrom udpfd (UDP_BUFFER_SIZE - 1));
  let buf := fill (zeroed UDP_BUFFER_SIZE) (r_data ret) in
  if 0 <? r_ret ret then
    d ← contents (Z.to_nat (UDP_BUFFER_SIZE - 1)) buf;
    sys (Sendto udpfd d (r_off ret));;
    mret None
  else mret None.

(** One round of [while (1)]: after an end of file the loop goes on. *)
Definition tcp_read (sockfd : Z) (_ : unit) : M trace (ctl unit unit) :=
  ret ← sys (Read sockfd (TCP_BUFFER_SIZE - 1));
  let buf := fill (zeroed TCP_BUFFER_SIZE) (r_data ret) in
  if r_ret ret <? 0 then
    if r_errno ret =? EAGAIN then mret (Break tt)
    else
      close sockfd;;
      mret (Break tt)
  else if r_ret ret =? 0 then
    close sockfd;;
    mret (Next tt)
  else
    d ← contents (Z.to_nat (r_ret ret)) buf;
    sys (Write sockfd d);;
    mret (Next tt).

Definition handle_event (fuel : nat) (epollfd listenfd udpfd : Z) (ev : Z * Z)
    : M trace (option Z) :=
  let sockfd := ev.2 in
  if sockfd =? listenfd then
    connfd ← sys (Accept listenfd);
    addfd epollfd (r_ret connfd);;
    mret None
  else if sockfd =? udpfd then udp_event udpfd
  else if negb (Z.land ev.1 EPOLLIN =? 0) then
    loop fuel (tcp_read sockfd) tt;;
    mret None
  else
    printf "something else happened\n" [];;
    mret None.

Definition serve (fuel : nat) (epollfd listenfd udpfd : Z) (_ : unit) : M trace (ctl unit unit) :=
  number ← sys (Epoll epollfd (Epoll_wait MAX_EVENT_NUMBER (-1)));
  if r_ret number <? 0 then
    printf "epoll failure\n" [];;
    mret (Break tt)
  else
    for_each (r_ret number) (λ i,
      ev ← event_at (r_events number) i; handle_event fuel epollfd listenfd udpfd ev);;
    mret (Next tt).

(** The first [n] rounds of the server; [None] when it goes on after them. *)
Definition main (fuel n : nat) (argv : list string) : M trace (option Z) :=
  match argv with
  | argv0 :: ip :: argv2 :: _ =>
    port ← atoi argv2;
    listenfd ← sys Socket;
    let listenfd := r_ret listenfd in
    if listenfd <? 0 then mret (Some ABORTED) else
    ret ← sys (Sockcall "bind" listenfd [htons port]);
    if r_ret ret =? -1 then mret (Some ABORTED) else
    ret ← sys (Sockcall "listen" listenfd [5]);
    if r_ret ret =? -1 then mret (Some ABORTED) else
    udpfd ← sys Socket;
    let udpfd := r_ret udpfd in
    if udpfd <? 0 then mret (Some ABORTED) else
    ret ← sys (Sockcall "bind" udpfd [htons port]);
    if r_ret ret =? -1 then mret (Some ABORTED) else
    epollfd ← sys epoll_create1;
    let epollfd := r_ret epollfd in
    if epollfd =? -1 then mret (Some ABORTED) else
    addfd epollfd listenfd;;
    addfd epollfd udpfd;;
    after_rounds (rounds n (serve fuel epollfd listenfd udpfd) tt) (λ _,
      close listenfd;;
      mret 0)
  | _ =>
    printf "usage:%s ip_address port_number\n" [AStr (basename (default "" (head argv)))];;
    mret (Some 1)
  end.
End program.

(** ** What the server logs *)

(** The answer to a datagram: its bytes, and NULs up to 1023 bytes. *)
Definition padded (d : bytes) : bytes :=
  d ++ replicate (Z.to_nat (UDP_BUFFER_SIZE - 1) - length d) "000"%char.

(** [send] and [sendto] take all that they are given. *)
Definition sends_succeed {e : Env} (w0 : world) : Prop := full_writes w0 ∧ full_sends w0.

(** What comes in on a connection goes out on it, and a datagram is answered with its padded
    copy; only if sending is not [full] may a connection get a part or nothing, and a datagram
    no answer. *)
Inductive answered (full : Prop) (udpfd : Z) : list output → Prop :=
| answered_notice msg :
    msg ∈ ["something else happened\n"; "epoll failure\n"]%string → answered full udpfd [Printf msg []]
| answered_usage name :
    answered full udpfd [Printf "usage:%s ip_address port_number\n" [AStr name]]
| answered_tcp fd d o :
    fd ≠ udpfd → d ≠ [] → written full fd d o → answered full udpfd (Received fd d :: o)
| answered_udp d : d ≠ [] → answered full udpfd [Received udpfd d; Sent udpfd (padded d)]
| answered_lost d : ¬ full → answered full udpfd [Received udpfd d].

Section proofs.
Context {e : Env} {w0 : world} (Henv : legal_env w0).
Abbreviation runs := (runs w0).

Lemma udp_contents (d : bytes) (tr : trace) :
  zlen d < UDP_BUFFER_SIZE →
  contents (Z.to_nat (UDP_BUFFER_SIZE - 1)) (fill (zeroed UDP_BUFFER_SIZE) d) tr = Ok (padded d, tr).
Proof.
  intros Hd. unfold fill. set (n := Z.to_nat (UDP_BUFFER_SIZE - 1)).
  assert (length d ≤ n)%nat as Hle by (unfold n, UDP_BUFFER_SIZE, zlen in *; lia).
  assert (drop (length d) (zeroed UDP_BUFFER_SIZE) =
    (Val <$> replicate (n - length d) "000"%char) ++ [Val "000"%char]) as ->.
  { unfold zeroed. rewrite drop_replicate, fmap_replicate, <- replicate_S_end. f_equal.
    unfold n, UDP_BUFFER_SIZE in *. lia. }
  rewrite app_assoc, <- fmap_app. fold n. change (d ++ _) with (padded d).
  assert (length (padded d) = n) as Hlen.
  { unfold padded. fold n. rewrite length_app, length_replicate. lia. }
  pose proof (contents_terminated (S := trace) (padded d) [] "000"%char tr) as Hc.
  unfold fill in Hc. rewrite drop_nil, app_nil_r, fmap_app in Hc. rewrite <- Hlen. exact Hc.
Qed.

Section handlers.
Context (epfd lfd udpfd : Z).
Abbreviation progress := (progress (answered (sends_succeed w0) udpfd)).

Lemma udp_event_ok o w :
  serving epfd lfd w → fds w !! udpfd = Some o → of_kind o = KSocket →
  runs (udp_event udpfd) w (λ r w', r = None ∧ handled epfd lfd udpfd w w' ∧ progress w w' ∧ fds w' = fds w).
Proof.
  intros Hs Ho Hk. unfold udp_event. step. eapply (runs_recvfrom Henv); [exact Ho|exact Hk|..].
  - intros r n Hr _. step; [lia|]. steps. split_and!; [done|by apply handled_same|by apply progress_same|done].
  - intros r Hr _. step; [lia|]. steps. split_and!; [done|by apply handled_same|done|done].
  - intros r k Hr Hd Hk'. step; [|lia]. step.
    eapply runs_pure; [intros tr; apply udp_contents; unfold UDP_BUFFER_SIZE in *; lia|]. step.
    eapply (runs_datagram_out Henv); [cbn; exact Ho|exact Hk|..].
    + intros r' n Hfull _. steps. split_and!; [done|apply handled_same; [done..|cbn; lia]| |done].
      eapply progress_group; [apply answered_lost|cbn; done|cbn; lia]. by intros [_ ?].
    + intros r'. steps. split_and!; [done|apply handled_same; [done..|cbn; lia]| |done].
      eapply progress_group; [apply (answered_udp _ _ (r_data r))|cbn; by rewrite <- app_assoc|cbn; lia].
      intros E. rewrite E in Hd. unfold zlen in Hd. simpl in Hd. lia.
Qed.

Lemma tcp_read_open fd o w (Q : ctl unit unit → world → Prop) :
  fds w !! fd = Some o → talks (of_kind o) = true → fd ≠ udpfd →
  (∀ n, Q (Break tt) (set_sigs n w)) →
  (∀ n, Q (Break tt) (unwatch fd (set_fds (delete fd (fds w)) (set_sigs n w)))) →
  Q (Next tt) (unwatch fd (set_fds (delete fd (fds w)) w)) →
  (∀ k w', arrivals w = S k → fds w' = fds w → watches w' = watches w →
     arrivals w' = k → progress w w' → Q (Next tt) w') →
  runs (tcp_read fd tt) w Q.
Proof.
  intros Ho Ht Hne Hlater Herr Heof Hdata. unfold tcp_read. step.
  eapply (runs_recv Henv); [exact Ho|exact Ht|..].
  - intros r n Hr _. step; [|lia]. step; steps; [apply Hlater|apply Herr].
  - intros r Hr _. step; [lia|]. step; [|lia]. steps. apply Heof.
  - intros r k Hr Hd Hk. step; [lia|]. step; [lia|]. step. eapply runs_pure.
    { intros tr. rewrite <- Hd. unfold zlen. rewrite Nat2Z.id. apply contents_fill.
      rewrite Hd. change (zlen (zeroed TCP_BUFFER_SIZE)) with TCP_BUFFER_SIZE.
      unfold TCP_BUFFER_SIZE in *. lia. }
    assert (r_data r ≠ []) as Hd0 by (intros E; rewrite E in Hd; unfold zlen in Hd; simpl in Hd; lia).
    step. eapply (runs_write_out Henv); [cbn; exact Ho|exact Ht|..].
    + intros r' n Hfull _. steps. eapply (Hdata k); [done..|].
      eapply progress_group; [apply (answered_tcp _ _ fd (r_data r)); [done..|]|cbn; done|cbn; lia].
      apply written_none. by intros [? _].
    + intros r' d' Hp Hfull. steps. eapply (Hdata k); [done..|].
      eapply progress_group; [apply (answered_tcp _ _ fd (r_data r)); [done..|]
        |cbn; by rewrite <- app_assoc|cbn; lia].
      apply written_some; [done|]. intros [? _]. by apply Hfull.
Qed.

Lemma tcp_read_closed fd w (Q : ctl unit unit → world → Prop) :
  fds w !! fd = None → Q (Break tt) (misuse (misuse w)) → runs (tcp_read fd tt) w Q.
Proof.
  intros Hfd HQ. unfold tcp_read. step. eapply (runs_dead Henv); [by left|done|].
  intros r Hr He. step; [|lia]. step; [unfold EAGAIN, EBADF in *; lia|].
  step. unfold close. step. eapply (runs_dead Henv); [right; by left|done|]. intros r' _ _. steps. done.
Qed.

Lemma tcp_loop_ok fuel fd o w :
  serving epfd lfd w → fds w !! fd = Some o → talks (of_kind o) = true →
  fd ≠ epfd → fd ≠ lfd → fd ≠ udpfd → (arrivals w + 1 < fuel)%nat →
  runs (loop fuel (tcp_read fd) tt) w (λ _ w', handled epfd lfd fd w w' ∧ progress w w').
Proof.
  intros Hs Ho Ht He Hl Hu Hfuel.
  apply (runs_loop (λ _ w1, handled epfd lfd fd w w1 ∧ progress w w1 ∧
      (fds w1 !! fd = Some o ∨ fds w1 !! fd = None))
    (λ _ w1, arrivals w1 + if decide (fds w1 !! fd = None) then 0 else 1)%nat).
  { split_and!; [by apply handled_same|done|by left]. }
  { case_decide; lia. }
  intros [] w1 (Hh & HR & [Hfd|Hfd]).
  - assert (∀ w2, handled epfd lfd fd w1 w2 → handled epfd lfd fd w w2) as Htr
      by (intros; by eapply handled_trans).
    assert (serving epfd lfd w1) as Hs1 by apply Hh.
    destruct (decide (fds w1 !! fd = None)) as [|_]; [congruence|].
    eapply tcp_read_open; [exact Hfd|done|done|..].
    + intros n. split; [apply Htr; by apply handled_same|]. etransitivity; [exact HR|by apply progress_same].
    + intros n. split.
      * apply Htr. eapply (handled_ext _ _ _ w1 (set_sigs n w1)); [done..|].
        apply (handled_close epfd lfd fd (set_sigs n w1)); [by apply (serving_ext epfd lfd w1)|done|done].
      * etransitivity; [exact HR|by apply progress_same].
    + split; [split; [apply Htr; by apply handled_close|split]|].
      * etransitivity; [exact HR|by apply progress_same].
      * right. cbn. apply lookup_delete_eq.
      * cbn. rewrite lookup_delete_eq. case_decide; [lia|done].
    + intros k w2 Hk Hf2 Hw2 Ha2 HR2. split; [split; [|split]|].
      * apply Htr, handled_same; [done..|lia].
      * by etransitivity.
      * left. congruence.
      * rewrite Hf2. case_decide; lia.
  - apply tcp_read_closed; [done|]. split.
    + eapply handled_trans; [exact Hh|]. apply handled_same; [apply Hh|done..].
    + etransitivity; [exact HR|by apply progress_same].
Qed.

Definition udp_open (w : world) : Prop := ∃ o, fds w !! udpfd = Some o ∧ of_kind o = KSocket.

Lemma udp_open_ext w w' : fds w' = fds w → udp_open w → udp_open w'.
Proof using Type. unfold udp_open. by intros ->. Qed.

Lemma handled_udp_open fd w w' : fd ≠ udpfd → handled epfd lfd fd w w' → udp_open w → udp_open w'.
Proof using Type.
  intros Hne Hh (o & Ho & Hk). destruct (handled_kinds _ _ _ _ _ Hh _ _ (not_eq_sym Hne) Ho) as (o' & Ho' & E).
  exists o'. split; [done|congruence].
Qed.

(** The UDP socket stays open, and the log is one of answers. *)
Definition kept (w w' : world) : Prop := progress w w' ∧ (udp_open w → udp_open w').

#[export] Instance kept_preorder : PreOrder kept.
Proof.
  split; [by intros w; split|]. intros w1 w2 w3 [H1 U1] [H2 U2].
  split; [by etransitivity|auto].
Qed.

Lemma notice_kept msg w :
  msg ∈ ["something else happened\n"; "epoll failure\n"]%string → kept w (print (Printf msg []) w).
Proof using Type. split; [by apply progress_print, answered_notice|by apply udp_open_ext]. Qed.

Lemma answer_event_ok fuel ev w :
  lfd ≠ udpfd → serving epfd lfd w → watched epfd w ev.2 → udp_open w → (arrivals w + 1 < fuel)%nat →
  runs (handle_event fuel epfd lfd udpfd ev) w (λ r w', match r with
    | None => handled epfd lfd ev.2 w w' ∧ kept w w' | Some _ => False end).
Proof.
  intros Hlu Hs [x Hx] (ou & Hou & Hku) Hfuel.
  destruct (serving_watched _ _ _ Hs _ _ Hx) as (_ & o & Ho & Ht). unfold handle_event.
  destruct (Z.eqb_spec ev.2 lfd) as [->|Hl]; [|destruct (Z.eqb_spec ev.2 udpfd) as [->|Hu]; [|step]].
  - eapply runs_mono; [by apply (accept_registers Henv epfd lfd (Z.lor EPOLLIN EPOLLET) w)|].
    intros r w' (-> & Hh & Hout). split; [done|].
    split; [by apply progress_same; [|apply Hh]|by apply (handled_udp_open lfd)].
  - eapply runs_mono; [by eapply udp_event_ok|].
    intros r w' (-> & Hh & HR & Hf). split; [done|]. split; [done|by apply udp_open_ext].
  - assert (ev.2 ≠ epfd) as He.
    { intros E. destruct (serving_epoll _ _ _ Hs) as (oe & He & Hk). rewrite E in Ho. simplify_eq.
      by rewrite Hk in Ht. }
    step. eapply runs_mono; [by eapply tcp_loop_ok|]. intros r w' (Hh & HR). step.
    split; [done|]. split; [done|by apply (handled_udp_open ev.2)].
  - steps. split; [by apply handled_same|apply notice_kept; set_solver].
Qed.

Lemma answer_serve_ok fuel w w1 :
  lfd ≠ udpfd → serving epfd lfd w1 → udp_open w1 → progress w w1 → (arrivals w + 1 < fuel)%nat →
  runs (serve fuel epfd lfd udpfd tt) w1 (λ c w2, match c with
    | Return _ => False | _ => serving epfd lfd w2 ∧ udp_open w2 ∧ progress w w2 end).
Proof.
  intros Hlu Hs Hopen HR Hfuel. destruct (serving_epoll _ _ _ Hs) as (oe & He & _). unfold serve. step.
  eapply (runs_epoll_wait Henv); [exact He|..].
  - intros r n Hr _. step; [|lia]. steps.
    destruct (notice_kept "epoll failure\n" (set_sigs n w1)) as [HR2 HU]; [set_solver|].
    split_and!; [by apply (serving_ext epfd lfd w1)|by apply HU|by etransitivity].
  - intros r Hr Hlen Hdup Hev. step; [lia|]. step. rewrite <- Hlen. eapply runs_mono.
    { eapply (runs_events Henv epfd lfd (handle_event fuel epfd lfd udpfd) (arrivals w1) kept (λ _ _ _, False));
        [done| |exact Hs|done|done|done].
      intros ev w2 [HR2 HU2] Hs2 Hw2 Ha2. eapply runs_mono.
      { apply answer_event_ok; [done..|by apply HU2|]. destruct HR as [Ha _]. lia. }
      by intros [z|]. }
    intros [z|] w2; cbn beta iota; [done|]. intros (Hs2 & _ & HR2 & HU2). step.
    split_and!; [done|by apply HU2|by etransitivity].
Qed.
End handlers.

End proofs.

(** A datagram arrives, and then a message on a connection. *)
Definition busy_world : world := set_arrivals 2 (boot ∅).

