(* ===== verification/EpollListen.v ===== *)
(** * [09_epoll/01_epoll.c]: a server that listens on several addresses

    Line 125 uses [listen_fd] outside the loop that declares it, so that the file does
    not compile: what it stands for there is an argument of the model. *)
From S2P Require Export SockLib.

Definition MAX_EVENTS : Z := 10.
Definition BACKLOG : Z := 10.

(** The addresses and ports to listen on. *)
Definition ips : list string := ["192.168.1.100"; "192.168.1.101"].
Definition ports : list Z := [8080; 8081].

Section program.
Context {e : Env} (inet_addr : string → Z).

Definition create_and_bind (ip : string) (port : Z) : M trace Z :=
  listen_fd ← sys Socket;
  let listen_fd := r_ret listen_fd in
  if listen_fd =? -1 then
    perror "socket failed";;
    mret (-1)
  else
  r ← sys (Sockcall "setsockopt" listen_fd [1]);
  if r_ret r =? -1 then
    perror "setsockopt failed";;
    close listen_fd;;
    mret (-1)
  else
  r ← sys (Sockcall "bind" listen_fd [inet_addr ip; htons port]);
  if r_ret r =? -1 then
    perror "bind failed";;
    close listen_fd;;
    mret (-1)
  else
  r ← sys (Sockcall "listen" listen_fd [BACKLOG]);
  if r_ret r =? -1 then
    perror "listen failed";;
    close listen_fd;;
    mret (-1)
  else mret listen_fd.

Definition handle_new_connection (epoll_fd listen_fd : Z) : M trace unit :=
  r ← sys (Accept listen_fd);
  let client_fd := r_ret r in
  let client_addr : sockaddr_in := r_fds r in
  if client_fd =? -1 then perror "accept failed"
  else
  printf "Accepted new connection from %s:%d\n" [AStr (inet_ntop client_addr.1); AInt (ntohs client_addr.2)];;
  r ← sys (Setfl client_fd O_NONBLOCK_BIT);
  if r_ret r =? -1 then
    perror "fcntl failed";;
    close client_fd
  else
  r ← sys (Epoll epoll_fd (Epoll_add client_fd EPOLLIN client_fd));
  if r_ret r =? -1 then
    perror "epoll_ctl failed";;
    close client_fd
  else mret tt.

(** The loop that makes the listening sockets; [Some z] when [main] has returned [z]. *)
Fixpoint listen_all (epoll_fd : Z) (addrs : list (string * Z)) : M trace (option Z) :=
  match addrs with
  | [] => mret None
  | (ip, port) :: addrs =>
    listen_fd ← create_and_bind ip port;
    if listen_fd =? -1 then
      close epoll_fd;;
      mret (Some (-1))
    else
    r ← sys (Epoll epoll_fd (Epoll_add listen_fd EPOLLIN listen_fd));
    if r_ret r =? -1 then
      perror "epoll_ctl failed";;
      close listen_fd;;
      close epoll_fd;;
      mret (Some (-1))
    else listen_all epoll_fd addrs
  end.

Definition handle_event (epoll_fd listen_fd : Z) (ev : Z * Z) : M trace unit :=
  if Z.land ev.1 EPOLLIN =? 0 then mret tt
  else if ev.2 =? listen_fd then handle_new_connection epoll_fd listen_fd
  else printf "Data from client: %d\n" [AInt ev.2].

(** The body of [while (1)]. *)
Definition serve (epoll_fd listen_fd : Z) (_ : unit) : M trace (ctl unit unit) :=
  nfds ← sys (Epoll epoll_fd (Epoll_wait MAX_EVENTS (-1)));
  if r_ret nfds =? -1 then
    perror "epoll_wait failed";;
    mret (Break tt)
  else
    for_up 0 (r_ret nfds) (λ i _, ev ← event_at (r_events nfds) i; handle_event epoll_fd listen_fd ev) tt;;
    mret (Next tt).

(** The first [n] rounds of the server. *)
Definition main (listen_fd : Z) (n : nat) : M trace (option Z) :=
  epoll_fd ← sys epoll_create1;
  let epoll_fd := r_ret epoll_fd in
  if epoll_fd =? -1 then
    perror "epoll_create1 failed";;
    mret (Some (-1))
  else
  x ← listen_all epoll_fd (zip ips ports);
  match x with Some z => mret (Some z) | None =>
  after_rounds (rounds n (serve epoll_fd listen_fd) tt) (λ _ : unit,
    close epoll_fd;;
    mret 0)
  end.
End program.

(** ** What the server keeps *)

(** From [w] on: no dead descriptor was used, what was open still is, and nothing has been
    received or sent. *)
Record kept (w w' : world) : Prop := {
  kept_misuses : misuses w' = misuses w;
  kept_fds k o : fds w !! k = Some o → fds w' !! k = Some o;
  kept_quiet : ∃ o, outs w' = outs w ++ o ∧
    Forall (λ x, match x with Received _ _ | Sent _ _ => False | _ => True end) o }.

#[export] Instance kept_preorder : PreOrder kept.
Proof.
  split.
  - intros w. split; [done..|]. exists []. by rewrite app_nil_r.
  - intros w1 w2 w3 [M1 F1 (o1 & E1 & Q1)] [M2 F2 (o2 & E2 & Q2)]. split; [congruence|auto|].
    exists (o1 ++ o2). rewrite E2, E1, app_assoc. split; [done|]. by apply Forall_app.
Qed.

(** The epoll instance is open, and what it watches is open and registered under its number. *)
Record watching (epfd : Z) (w : world) : Prop := {
  watching_epoll : ∃ o, fds w !! epfd = Some o ∧ of_kind o = KEpoll;
  watching_open fd x : watches w !! (epfd, fd) = Some x → x.2 = fd ∧ is_Some (fds w !! fd) }.

Lemma kept_print x w w' :
  outs w' = outs w ++ [x] → match x with Received _ _ | Sent _ _ => False | _ => True end →
  fds w' = fds w → misuses w' = misuses w → kept w w'.
Proof. intros Ho Hx Hf Hm. split; [done|by rewrite Hf|]. exists [x]. split; [done|]. by constructor. Qed.

Lemma kept_same w w1 w' :
  kept w w1 → fds w' = fds w1 → misuses w' = misuses w1 → outs w' = outs w1 → kept w w'.
Proof. intros Hk Ef Em Eo. etransitivity; [exact Hk|]. split; [done|by intros; rewrite Ef|]. exists []. by rewrite app_nil_r. Qed.
Lemma watching_same epfd w w' : watching epfd w → fds w' = fds w → watches w' = watches w → watching epfd w'.
Proof. intros [He Hw] Ef Ew. split; [by rewrite Ef|]. intros fd x. rewrite Ef, Ew. apply Hw. Qed.

(** A new descriptor, whatever becomes of it. *)
Lemma kept_new w c o w' :
  fds w !! c = None → fds w' = <[c := o]> (fds w) → misuses w' = misuses w → outs w' = outs w → kept w w'.
Proof.
  intros Hc Ef Em Eo. split; [done| |by exists []; rewrite app_nil_r].
  intros k o' Hk. rewrite Ef, lookup_insert_ne; [done|congruence].
Qed.
Lemma watching_new epfd w c o w' :
  watching epfd w → fds w !! c = None → fds w' = <[c := o]> (fds w) → watches w' = watches w → watching epfd w'.
Proof.
  intros [(oe & He & Hk) Hw] Hc Ef Ew. split.
  - exists oe. rewrite Ef, lookup_insert_ne; [done|congruence].
  - intros fd x. rewrite Ew, Ef. intros [Hx Ho]%Hw. split; [done|]. by apply lookup_insert_is_Some'; right.
Qed.
Lemma watching_add epfd w c mask :
  watching epfd w → is_Some (fds w !! c) →
  watching epfd (set_watches (<[(epfd, c) := (mask, c)]> (watches w)) w).
Proof.
  intros [He Hw] Hc. split; [done|]. intros fd x. cbn.
  intros [[[= <-] <-]|[_ Hx]]%lookup_insert_Some; [done|by apply Hw].
Qed.
(** Closing [c], which was not open in [w]. *)
Lemma kept_close w c w1 :
  kept w w1 → fds w !! c = None → kept w (unwatch c (set_fds (delete c (fds w1)) w1)).
Proof.
  intros [Hm Hf Hq] Hc. split; [done| |done]. intros k o Hk. cbn. rewrite lookup_delete_ne by congruence. by apply Hf.
Qed.
Lemma watching_close epfd c w :
  watching epfd w → c ≠ epfd → watching epfd (unwatch c (set_fds (delete c (fds w)) w)).
Proof.
  intros [(oe & He & Hk) Hw] Hne. split.
  - exists oe. cbn. by rewrite lookup_delete_ne.
  - intros fd x. cbn. intros [Hx [_ Hfd]]%map_lookup_filter_Some. cbn in Hfd. rewrite lookup_delete_ne by done. by apply Hw.
Qed.

Section proofs.
Context {e : Env} {w0 : world} (Henv : legal_env w0) (inet_addr : string → Z).
Abbreviation runs := (runs w0).

Definition goes_on (epfd : Z) (w w' : world) : Prop := kept w w' ∧ watching epfd w'.

(** A descriptor [c] that was made after [w], in a state [w1] that differs in it only. *)
Definition made (c : Z) (w w1 : world) : Prop :=
  0 ≤ c ∧ fds w !! c = None ∧ (∃ o, fds w1 = <[c := o]> (fds w)) ∧
  watches w1 = watches w ∧ misuses w1 = misuses w ∧ outs w1 = outs w.

Lemma made_goes_on epfd c w w1 : watching epfd w → made c w w1 → goes_on epfd w w1.
Proof using Type.
  intros Hw (_ & Hc & (o & Ef) & Ew & Em & Eo). split; [by eapply kept_new|by eapply watching_new].
Qed.

(** It is given up, with a message. *)
Lemma runs_drop {A} (a : A) epfd c w w1 x (Q : A → world → Prop) :
  watching epfd w → made c w w1 → (∀ w', goes_on epfd w w' → Q a w') →
  runs (perror x;; close c;; mret a) w1 Q.
Proof.
  intros Hw Hm HQ. pose proof (made_goes_on _ _ _ _ Hw Hm) as [Hk Hw1]. destruct Hm as (_ & Hc & (o & Ef) & _).
  step. step. step. apply (runs_close Henv); [cbn; rewrite Ef, lookup_insert_eq; eauto|]. step. apply HQ. split.
  - eapply (kept_close w c (print (Perror x) w1)); [|done]. etransitivity; [exact Hk|by eapply kept_print].
  - apply watching_close; [by eapply watching_same|]. destruct (watching_epoll _ _ Hw) as (oe & He & _). congruence.
Qed.

Lemma create_and_bind_ok epfd ip port w :
  watching epfd w →
  runs (create_and_bind inet_addr ip port) w (λ r w',
    goes_on epfd w w' ∧ (r = -1 ∨ 0 ≤ r ∧ fds w !! r = None ∧ is_Some (fds w' !! r))).
Proof.
  intros Hw. unfold create_and_bind. step. apply (runs_socket Henv).
  { intros r k Hr _. step; [|lia]. steps. split; [|by left]. split; [|by eapply watching_same]. by eapply kept_print. }
  intros r Hr Hfd. step; [lia|]. set (w1 := set_fds _ w).
  assert (∀ n, made (r_ret r) w (set_sigs n w1)) as Hmade by (intros n; repeat split; by eauto).
  assert (∀ n, fds (set_sigs n w1) !! r_ret r = Some (mkOF KSocket 0 [])) as Hfd1
    by (intros n; apply lookup_insert_eq).
  step. eapply (runs_sockcall Henv); [apply (Hfd1 (sigs w))|]. intros r1 n1 _ _. step.
  { eapply (runs_drop (-1) epfd _ w); [done|apply (Hmade n1)|]. intros w' Hg. split; [done|by left]. }
  step. eapply (runs_sockcall Henv); [apply (Hfd1 n1)|]. intros r2 n2 _ _. step.
  { eapply (runs_drop (-1) epfd _ w); [done|apply (Hmade n2)|]. intros w' Hg. split; [done|by left]. }
  step. eapply (runs_sockcall Henv); [apply (Hfd1 n2)|]. intros r3 n3 _ _. step.
  { eapply (runs_drop (-1) epfd _ w); [done|apply (Hmade n3)|]. intros w' Hg. split; [done|by left]. }
  step. split; [by eapply made_goes_on, (Hmade n3)|]. right. split; [done|]. split; [done|]. cbn. by rewrite lookup_insert_eq.
Qed.

Lemma goes_on_print epfd x w w1 :
  match x with Received _ _ | Sent _ _ => False | _ => True end →
  goes_on epfd w w1 → goes_on epfd w (print x w1).
Proof using Type.
  intros Hx [Hk Hw]. split; [|by eapply watching_same]. etransitivity; [exact Hk|by eapply kept_print].
Qed.

(** A connection is accepted, or a message says why not. *)
Lemma handle_new_connection_ok epfd lfd w :
  watching epfd w → is_Some (fds w !! lfd) →
  runs (handle_new_connection epfd lfd) w (λ _ w', goes_on epfd w w').
Proof.
  intros Hw Hl. assert (goes_on epfd w w) as Hrefl by done. destruct (watching_epoll _ _ Hw) as (oe & He & _).
  unfold handle_new_connection. step. apply (runs_accept Henv); [done|..].
  { intros r n Hr _. step; [|lia]. step. split; [|by eapply watching_same]. by eapply kept_print. }
  intros r Hr Hfd. step; [lia|]. step. step. set (x := Printf _ _). set (w1 := print x w).
  assert (goes_on epfd w w1) as H1 by (by apply goes_on_print).
  set (c := r_ret r). assert (∀ w2 msg, made c w1 w2 →
    runs (perror msg;; close c) w2 (λ _ w', goes_on epfd w w')) as Hdrop.
  { intros w2 msg Hm. eapply runs_ext; [|apply (runs_drop tt epfd c w1 w2 msg); [apply H1|exact Hm|]].
    - intros tr. done.
    - intros w' [Hk Hw']. split; [|done]. etransitivity; [apply H1|exact Hk]. }
  assert (∀ n fl w2, fds w2 = <[c := mkOF KSocket 0 fl]> (fds w) → watches w2 = watches w → misuses w2 = misuses w →
    outs w2 = outs w ++ [x] → made c w1 (set_sigs n w2)) as Hmade.
  { intros n fl w2 Ef Ew Em Eo. split; [done|]. split; [done|]. split; [by eexists|done]. }
  step. eapply (runs_setfl Henv); [cbn; apply lookup_insert_eq|..].
  { intros r1 n Hr1 _. step; [|lia]. by eapply Hdrop, Hmade. }
  intros r1 Hr1. step; [lia|]. step. cbn [of_kind of_off of_flags fds set_fds print]. rewrite insert_insert_eq.
  set (w2 := set_fds _ _). assert (made c w1 (set_sigs (sigs w2) w2)) as Hm2 by (by eapply Hmade).
  pose proof (made_goes_on _ _ _ _ (proj2 H1) Hm2) as [Hk2 Hw2].
  assert (fds w2 !! c = Some (mkOF KSocket 0 (with_flags O_NONBLOCK_BIT []))) as Hc by apply lookup_insert_eq.
  destruct (watching_epoll _ _ Hw2) as (oe2 & He2 & _).
  eapply (runs_epoll_add Henv); [exact He2|exact Hc|..].
  { intros r2 n Hr2 _. step; [|lia]. by eapply Hdrop, Hmade. }
  intros r2 Hr2 _. step; [lia|]. step. split.
  - etransitivity; [apply H1|]. by eapply kept_same; [exact Hk2|..].
  - eapply (watching_add epfd w2); [|by eexists]. by eapply watching_same.
Qed.

(** What the loop over the addresses leaves: it goes on, or it has closed the epoll instance. *)
Lemma listen_all_ok epfd addrs w w1 :
  fds w !! epfd = None → goes_on epfd w w1 →
  runs (listen_all inet_addr epfd addrs) w1 (λ r w', match r with
    | None => goes_on epfd w w'
    | Some z => z = -1 ∧ kept w w' end).
Proof.
  intros Hfresh. revert w1. induction addrs as [|[ip port] addrs IH]; intros w1 [Hk Hw]; cbn [listen_all]; [by step|].
  assert (∀ w2, kept w1 w2 → watching epfd w2 →
    runs (close epfd;; mret (Some (-1))) w2 (λ r w', match r with
      | None => goes_on epfd w w' | Some z => z = -1 ∧ kept w w' end)) as Hend.
  { intros w2 Hk2 Hw2. destruct (watching_epoll _ _ Hw2) as (oe & He & _). step.
    apply (runs_close Henv); [by eexists|]. step. split; [done|]. eapply kept_close; [|done]. by etransitivity. }
  step. eapply runs_mono; [by apply create_and_bind_ok|]. intros lfd w2 [[Hk2 Hw2] Hlfd]. step; [by apply Hend|].
  destruct Hlfd as [?|(Hpos & Hnew & [ol Hl])]; [lia|]. destruct (watching_epoll _ _ Hw2) as (oe & He & _).
  step. eapply (runs_epoll_add Henv); [exact He|exact Hl|..].
  - intros r n Hr _. step; [|lia]. step. step. step. apply (runs_close Henv); [cbn; by eexists|].
    apply Hend.
    + eapply (kept_close w1 lfd (print _ _)); [|done]. etransitivity; [exact Hk2|by eapply kept_print].
    + apply watching_close; [by eapply watching_same|]. destruct (watching_epoll _ _ Hw) as (oe1 & He1 & _). congruence.
  - intros r Hr _. step; [lia|]. apply IH. split.
    + etransitivity; [exact Hk|]. by eapply kept_same; [exact Hk2|..].
    + apply watching_add; [done|by eexists].
Qed.

Lemma handle_event_ok epfd lfd ev w :
  watching epfd w → is_Some (fds w !! ev.2) →
  runs (handle_event epfd lfd ev) w (λ _ w', goes_on epfd w w').
Proof.
  intros Hw Ho. assert (goes_on epfd w w) as Hrefl by done. unfold handle_event. step; [by step|]. step.
  - subst lfd. by apply handle_new_connection_ok.
  - step. by apply goes_on_print.
Qed.

(** A connection to another address is announced as data, and stays where it is. *)
Lemma other_listener_ignored epfd lfd ev w :
  Z.land ev.1 EPOLLIN ≠ 0 → ev.2 ≠ lfd →
  runs (handle_event epfd lfd ev) w (λ _ w', w' = print (Printf "Data from client: %d\n" [AInt ev.2]) w).
Proof. intros He Hl. unfold handle_event. step; [done|]. step; [done|]. by step. Qed.

(** The events of one [epoll_wait]. *)
Lemma events_ok epfd lfd evs w w1 :
  goes_on epfd w w1 → Forall (λ ev, is_Some (fds w1 !! ev.2)) evs →
  runs (for_up 0 (zlen evs) (λ i _, ev ← event_at evs i; handle_event epfd lfd ev) tt) w1 (λ _ w', goes_on epfd w w').
Proof.
  intros Hg Hev. unfold for_up. replace (Z.to_nat (zlen evs - 0)) with (length evs) by (unfold zlen; lia).
  assert (∀ post pre w2, goes_on epfd w w2 → Forall (λ ev, is_Some (fds w2 !! ev.2)) post →
    runs (for_steps (length post) 1 (zlen pre) (λ i _, ev ← event_at (pre ++ post) i; handle_event epfd lfd ev) tt) w2
      (λ _ w', goes_on epfd w w')) as Hloop; [|exact (Hloop evs [] w1 Hg Hev)].
  clear w1 Hg Hev. induction post as [|ev post IH]; intros pre w2 [Hk Hw] Hev; [cbn [for_steps length]; by step|].
  apply Forall_cons in Hev as [[o Ho] Hev]. cbn [for_steps length]. step. step. eapply (runs_pure _ ev).
  { intros tr. unfold event_at. replace (pre ++ ev :: post) with ((pre ++ [ev]) ++ post) by (by rewrite <- app_assoc).
    rewrite zlookup_app_l by (rewrite zlen_app, zlen_one; lia). by rewrite zlookup_snoc. }
  eapply runs_mono; [by eapply handle_event_ok|]. intros [] w3 [Hk3 Hw3].
  replace (zlen pre + 1) with (zlen (pre ++ [ev])) by (by rewrite zlen_app, zlen_one).
  replace (pre ++ ev :: post) with ((pre ++ [ev]) ++ post) by (by rewrite <- app_assoc).
  apply IH; [split; [by etransitivity|done]|]. eapply Forall_impl; [exact Hev|].
  intros ev' [o' Ho']. exists o'. by apply (kept_fds _ _ Hk3).
Qed.

Lemma serve_ok epfd lfd w w1 :
  goes_on epfd w w1 →
  runs (serve epfd lfd tt) w1 (λ c w', goes_on epfd w w' ∧ match c with Return _ => False | _ => True end).
Proof.
  intros [Hk Hw]. destruct (watching_epoll _ _ Hw) as (oe & He & _). unfold serve. step.
  eapply (runs_epoll_wait Henv); [exact He|..].
  - intros r n Hr _. step; [|lia]. steps. split; [|done]. split; [|by eapply watching_same].
    etransitivity; [exact Hk|by eapply kept_print].
  - intros r Hr Hlen _ Hev. step; [lia|]. step. rewrite <- Hlen. eapply runs_mono.
    { apply (events_ok epfd lfd _ w); [done|]. eapply Forall_impl; [exact Hev|].
      intros ev (fd & mask & Hx). by destruct (watching_open _ _ Hw _ _ Hx) as [<- Ho]. }
    intros [] w' Hg. by step.
Qed.

(** C27: whichever descriptor [listen_fd] is in the loop, the server does its first [n] rounds,
    for every [n], without undefined behaviour and without a call on a descriptor
    that is not open; what was open before stays open; and no data of a client is ever read or sent. It
    ends with -1 or, after a failed [epoll_wait], with 0. *)
Theorem listen_server_keeps listen_fd n w :
  runs (main inet_addr listen_fd n) w (λ r w', kept w w' ∧ (r = None ∨ r = Some 0 ∨ r = Some (-1))).
Proof.
  unfold main. step. apply (runs_epoll_create Henv).
  { intros r k Hr _. step; [|lia]. steps. split; [by eapply kept_print|by right; right]. }
  intros r Hr Hfd. step; [lia|]. set (epfd := r_ret r). set (w1 := set_fds _ _). step.
  assert (goes_on epfd w w1) as Hg.
  { split; [by eapply kept_new|]. split.
    - exists (mkOF KEpoll 0 []). split; [apply lookup_insert_eq|done].
    - by intros fd x [_ [Hx _]]%map_lookup_filter_Some. }
  eapply runs_mono; [by apply (listen_all_ok epfd _ w)|]. intros [z|] w2; cbn beta iota.
  { intros [-> Hk]. step. split; [done|by right; right]. }
  intros Hg2. step. eapply (runs_rounds (λ _ : unit, λ w3, goes_on epfd w w3)); [done| |].
  { intros _ w3 [Hk _]. split; [done|by left]. }
  intros [] w3 Hg3. eapply runs_mono; [by apply serve_ok|]. intros [[]|[]|z] w4 [Hg4 Hz]; [done| |done].
  destruct Hg4 as [Hk4 Hw4]. destruct (watching_epoll _ _ Hw4) as (oe & He & _). steps. split; [by apply kept_close|by right; left].
Qed.
End proofs.

Lemma listen_server_keeps_witness :
  let w := boot ∅ in
  ∃ r tr w', main (e := kenv (-1) w) (λ _, 0) 4 2 [] = Ok (r, tr) ∧ replay w tr = Some w' ∧ kept w w'.
Proof.
  destruct (listen_server_keeps (kenv_legal (-1) (boot ∅)) (λ _, 0) 4 2 (boot ∅) [] eq_refl)
    as (r & tr & w' & Hrun & Hw & Hk & _).
  exists r, tr, w'. split; [exact Hrun|]. split; [exact Hw|exact Hk].
Defined.
