(* ===== verification/UpperServer.v ===== *)
(** * [10_project/server.c]: a server that sends back capitals, for one connection *)
From S2P Require Export SockLib.

Definition SERV_PORT : Z := 6666.

(** The greeting of the servers of [10_project]. *)
Definition greeting (addr : sockaddr_in) : output :=
  Printf "client IP: %s, client port: %d\n" [AStr (inet_ntop addr.1); AInt (ntohs addr.2)].

Section program.
Context {e : Env}.

(** One round of the last [while (1)], which nothing ends. *)
Definition echo_upper (cfd : Z) (buf : buffer) : M trace (ctl buffer unit) :=
  n ← sys (Read cfd BUFSIZ);
  buf ← upcase (r_ret n) (fill buf (r_data n));
  d ← contents_int buf (r_ret n);
  sys (Write cfd d);;
  mret (Next buf).

(** The program up to its first [n] rounds; [None] when it goes on after them. *)
Definition main (n : nat) : M trace (option Z) :=
  lfd ← sys Socket;
  let lfd := r_ret lfd in
  if lfd =? -1 then
    perror "socket error!";;
    mret (Some 1)
  else
  res ← sys (Sockcall "bind" lfd [htons SERV_PORT]);
  if r_ret res =? -1 then
    perror "bind error!";;
    mret (Some 1)
  else
  sys (Sockcall "listen" lfd [128]);;
  if r_ret res =? -1 then
    perror "listen error!";;
    mret (Some 1)
  else
  cfd ← sys (Accept lfd);
  let clie_addr := r_fds cfd in
  let cfd := r_ret cfd in
  if cfd =? -1 then
    perror "accept error!";;
    mret (Some 1)
  else
  printf "client IP: %s, client port: %d\n" [AStr (inet_ntop clie_addr.1); AInt (ntohs clie_addr.2)];;
  after_rounds (rounds n (echo_upper cfd) (new_buffer BUFSIZ)) (λ _,
    close lfd;;
    close cfd;;
    mret 0).
End program.

(** ** What the server logs *)

(** What is read from a connection goes back in capitals, all of it if writes are
    [full]; after the end of the input, nothing is sent again and again. *)
Inductive capitals (full : Prop) (fd : Z) : list output → Prop :=
| capitals_sent d d' : d' `prefix_of` (upper <$> d) → (full → d' = upper <$> d) →
    capitals full fd [Received fd d; Sent fd d']
| capitals_lost d : ¬ full → capitals full fd [Received fd d]
| capitals_end : capitals full fd [Sent fd []].

(** Everything that was received has been sent back. *)
Definition answered_all (fd : Z) (out : list output) : Prop :=
  sent fd out = upper <$> received fd out.

Lemma answered_all_app fd l1 l2 :
  answered_all fd l1 → answered_all fd l2 → answered_all fd (l1 ++ l2).
Proof. unfold answered_all. rewrite sent_app, received_app, fmap_app. by intros -> ->. Qed.

Lemma capitals_answered (full : Prop) fd out :
  full → log (capitals full fd) out → answered_all fd out.
Proof.
  intros Hfull. induction 1 as [|g l Hg _ IH]; [done|]. apply answered_all_app; [|done]. clear IH l.
  destruct Hg as [d d' _ Hd|d Hd|]; [rewrite Hd by done|done|];
    unfold answered_all, sent, received; cbn; rewrite bool_decide_eq_true_2 by done;
    by rewrite ?app_nil_r.
Qed.

Section proofs.
Context {e : Env} {w0 : world} (Henv : legal_env w0).
Abbreviation runs := (runs w0).

Lemma echo_upper_ok cfd buf w :
  text_arrives w0 → fds w !! cfd = Some (mkOF KSocket 0 []) → zlen buf = BUFSIZ →
  runs (echo_upper cfd buf) w (λ c w', match c with
    | Next buf' => zlen buf' = BUFSIZ ∧ fds w' = fds w ∧ progress (capitals (full_writes w0) cfd) w w'
    | _ => False end).
Proof.
  intros Htext Ho Hbuf. unfold echo_upper. step.
  eapply (runs_recv_text Henv); [done|exact Ho|done|..].
  - intros r Hr Hd. rewrite Hr, Hd. step. eapply runs_pure; [intros; apply upcase_none; lia|]. step.
    eapply runs_pure; [intros tr; apply (contents_int_fill []), zlen_nonneg|]. step.
    eapply (runs_write_out Henv); [exact Ho|done|..].
    + intros r' n _ _. step. split_and!; [done..|by apply progress_same].
    + intros r' d' Hd' _. step. apply prefix_nil_inv in Hd' as ->.
      split_and!; [done..|]. apply progress_print, capitals_end.
  - intros r k Hr Hd Ha Hk. rewrite <- Hd. step.
    eapply runs_pure; [intros; by apply upcase_fill|]. step.
    eapply (runs_pure _ (upper <$> r_data r)).
    { intros tr. replace (zlen (r_data r)) with (zlen (upper <$> r_data r))
        by (unfold zlen; by rewrite length_fmap). apply contents_int_fill.
      unfold zlen in *. rewrite length_fmap. lia. }
    assert (zlen (fill buf (upper <$> r_data r)) = BUFSIZ) as Hlen.
    { rewrite length_fill; [done|]. unfold zlen in *. rewrite length_fmap. lia. }
    step. eapply (runs_write_out Henv); [cbn; exact Ho|done|..].
    + intros r' n Hfull _. step. split_and!; [done..|].
      eapply progress_group; [by apply (capitals_lost _ _ (r_data r))|cbn; done|cbn; lia].
    + intros r' d' Hp Hfull. step. split_and!; [done..|].
      eapply progress_group; [by apply (capitals_sent _ _ (r_data r) d')|cbn; by rewrite <- app_assoc|cbn; lia].
Qed.

(** C22: the server accepts one connection, greets, and then sends back in capitals
    what it reads from it, chunk by chunk, for any number of rounds, without undefined
    behaviour as long as reads do not fail and the bytes are ASCII. Every byte is answered when
    writes are full; nothing else is sent, and the program never leaves its loop: it ends only with status 1, when
    the connection could not be set up, and says so. *)
Theorem server_upcases n w :
  text_arrives w0 →
  runs (main n) w (λ r w', match r with
    | Some z => z = 1 ∧ ∃ msg, outs w' = outs w ++ [Perror msg]
    | None => ∃ cfd addr out, outs w' = outs w ++ greeting addr :: out ∧
        log (capitals (full_writes w0) cfd) out
    end).
Proof.
  intros Htext. unfold main. step. eapply (runs_socket Henv).
  { intros r k Hr _. step; [|lia]. steps. split; [done|by eexists]. }
  intros rl Hrl Hfl. step; [lia|]. step. eapply (runs_sockcall Henv); [look|].
  intros rb nb _ _. step; [steps; split; [done|by eexists]|]. step.
  eapply (runs_sockcall Henv); [look|]. intros rn nn _ _. step.
  eapply (runs_accept Henv); [look| |].
  { intros rc k Hr _. step; [|lia]. steps. split; [done|by eexists]. }
  intros rc Hrc Hfc. fresh_fds. step; [lia|]. steps.
  eapply (runs_rounds (λ buf w1, zlen buf = BUFSIZ ∧ fds w1 !! r_ret rc = Some (mkOF KSocket 0 []) ∧
    ∃ out, outs w1 = outs w ++ greeting (r_fds rc) :: out ∧ log (capitals (full_writes w0) (r_ret rc)) out)).
  { split; [done|]. split; [look|]. exists []. split; [done|constructor]. }
  { intros buf w1 (_ & _ & out & Ho & Hl). by exists (r_ret rc), (r_fds rc), out. }
  intros buf w1 (Hbuf & Ho & out & Hout & Hl). eapply runs_mono; [by apply echo_upper_ok|].
  intros [buf'|[]|z] w2; [|done..]. intros (Hbuf' & Hf2 & _ & g & Hg & Hlg).
  split; [done|]. split; [by rewrite Hf2|]. exists (out ++ g). rewrite Hg, Hout, <- app_assoc.
  split; [done|]. by apply log_app.
Qed.
End proofs.

(** What the client can do to the server: a connection that fails to be read (it
    was reset) makes [write] send memory beyond the buffer, and a byte of 128 or more
    makes [toupper] look outside its table. *)
Theorem server_bad_input {e : Env} cfd buf (tr : trace) :
  let r := env tr (Read cfd BUFSIZ) in
  (r_ret r = -1 ∨ (r_ret r = zlen (r_data r) ∧ forallb is_text (r_data r) = false)) →
  echo_upper cfd buf tr = UB OutOfBounds.
Proof.
  intros r Hr. unfold echo_upper, sys, mbind at 1, M_bind at 1. fold r. destruct Hr as [Hr|[Hr Hd]].
  - rewrite Hr. erewrite bind_Ok by (apply upcase_none; lia). done.
  - rewrite Hr. unfold mbind at 1, M_bind at 1. by rewrite upcase_bad.
Qed.

(** ** The theorems on a small system *)

(** "hi" arrives. *)
Lemma server_upcases_witness :
  ∃ tr w', main (e := live_env [b "hi"] (set_arrivals 1 (boot ∅))) 2 [] = Ok (None, tr) ∧
    replay (set_arrivals 1 (boot ∅)) tr = Some w' ∧
    outs w' = [greeting (-1, -1); Received 4 (b "hi"); Sent 4 (b "HI"); Sent 4 []] ∧
    ∃ cfd addr out, outs w' = greeting addr :: out ∧
      log (capitals (full_writes (e := live_env [b "hi"] (set_arrivals 1 (boot ∅))) (set_arrivals 1 (boot ∅))) cfd) out.
Proof.
  set (w := set_arrivals 1 (boot ∅)).
  destruct (server_upcases (live_env_legal [b "hi"] w) 2 w
    ltac:(apply live_text; [done|by vm_compute]) [] eq_refl) as (r & tr & w' & Hrun & Hw & H).
  assert (r = None) as -> by (vm_compute in Hrun; by injection Hrun as <- _).
  exists tr, w'. split; [exact Hrun|]. split; [exact Hw|]. split; [|exact H].
  vm_compute in Hrun. injection Hrun as <-. vm_compute in Hw. injection Hw as <-. reflexivity.
Defined.

Lemma server_bad_input_witness :
  echo_upper (e := live_env [["200"%char]] (set_arrivals 1 (set_fds {[5 := mkOF KSocket 0 []]} (boot ∅)))) 5
    (new_buffer BUFSIZ) [] = UB OutOfBounds.
Proof. apply server_bad_input. right. vm_compute. split; reflexivity. Defined.
