(* ===== verification/UpperClient.v ===== *)
(** * [10_project/client.c], and its sessions with [10_project/server.c] *)
From S2P Require Export UpperServer.

Section program.
Context {e : Env}.

(** One round of [while (1)]: the results of [fgets] and of [read] are not tested. *)
Definition talk (cfd : Z) (buf : buffer) : M trace (ctl buffer unit) :=
  '(_, buf) ← fgets buf BUFSIZ;
  line ← c_str buf;
  sys (Write cfd line);;
  n ← sys (Read cfd BUFSIZ);
  let buf := fill buf (r_data n) in
  d ← contents_int buf (r_ret n);
  sys (Write STDOUT_FILENO d);;
  mret (Next buf).

(** The program up to its first [n] rounds. *)
Definition main (n : nat) : M trace (option Z) :=
  cfd ← sys Socket;
  let cfd := r_ret cfd in
  sys (Sockcall "connect" cfd [htons SERV_PORT]);;
  after_rounds (rounds n (talk cfd) (new_buffer BUFSIZ)) (λ _,
    close cfd;;
    mret 0).
End program.

(** ** What the client logs *)

(** A line goes out, up to its first NUL; the reply is shown. *)
Inductive asked (full : Prop) (fd : Z) : list output → Prop :=
| asked_sent line l : l `prefix_of` upto_nul line → (full → l = upto_nul line) →
    asked full fd [Received STDIN_FILENO line; Sent fd l]
| asked_lost line : ¬ full → asked full fd [Received STDIN_FILENO line].
Inductive shown (full : Prop) (fd : Z) : list output → Prop :=
| shown_reply d d' : d' `prefix_of` d → (full → d' = d) →
    shown full fd [Received fd d; Sent STDOUT_FILENO d']
| shown_lost d : ¬ full → shown full fd [Received fd d]
| shown_end : shown full fd [Sent STDOUT_FILENO []]
| shown_nothing : ¬ full → shown full fd [].
Inductive exchange (full : Prop) (fd : Z) : list output → Prop :=
| exchange_intro a s : asked full fd a → shown full fd s → exchange full fd (a ++ s).

(** The lines that were typed, without what follows a NUL. *)
Definition typed (out : list output) : bytes :=
  out ≫= λ o, match o with
    | Received k d => if bool_decide (k = STDIN_FILENO) then upto_nul d else []
    | _ => []
    end.
Lemma typed_app l1 l2 : typed (l1 ++ l2) = typed l1 ++ typed l2.
Proof. apply bind_app. Qed.

(** What was typed has been sent, and what was received has been shown. *)
Definition relayed (fd : Z) (out : list output) : Prop :=
  sent fd out = typed out ∧ sent STDOUT_FILENO out = received fd out.

Lemma relayed_app fd l1 l2 : relayed fd l1 → relayed fd l2 → relayed fd (l1 ++ l2).
Proof. unfold relayed. rewrite !sent_app, received_app, typed_app. by intros [-> ->] [-> ->]. Qed.

Lemma exchange_relayed (full : Prop) fd out :
  full → fd ≠ STDIN_FILENO → fd ≠ STDOUT_FILENO → log (exchange full fd) out → relayed fd out.
Proof.
  intros Hfull H0 H1. induction 1 as [|g l Hg _ IH]; [done|]. apply relayed_app; [|done]. clear IH l.
  destruct Hg as [a s Ha Hs]. apply relayed_app.
  - destruct Ha as [line l _ Hl|]; [|done]. rewrite Hl by done.
    unfold relayed, sent, received, typed. cbn.
    rewrite bool_decide_eq_true_2, (bool_decide_eq_false_2 (fd = _)),
      (bool_decide_eq_false_2 (0 = fd)) by done. by rewrite !app_nil_r.
  - destruct Hs as [d d' _ Hd| | |]; [rewrite Hd by done|done|..|done];
      unfold relayed, sent, received, typed; cbn;
      rewrite ?(bool_decide_eq_false_2 (1 = fd)), ?(bool_decide_eq_false_2 (fd = 0)),
        ?(bool_decide_eq_true_2 (fd = fd)) by done; by rewrite ?app_nil_r.
Qed.

Section proofs.
Context {e : Env} {w0 : world} (Henv : legal_env w0).
Abbreviation runs := (runs w0).
Context (Hkey : keyboard_in_use w0 BUFSIZ) (Hread : reads_succeed w0).

(** The terminal and the connection are open. *)
Record online (cfd : Z) (w : world) : Prop := {
  online_socket : fds w !! cfd = Some (mkOF KSocket 0 []);
  online_screen : ∃ o, fds w !! STDOUT_FILENO = Some o ∧ of_kind o = KTty }.

Lemma online_ext cfd w w' : fds w' = fds w → online cfd w → online cfd w'.
Proof using Type. intros E []. by split; rewrite E. Qed.

(** The second half of a round. *)
Lemma show_ok cfd buf w :
  online cfd w → zlen buf = BUFSIZ →
  runs (n ← sys (Read cfd BUFSIZ);
        let buf := fill buf (r_data n) in
        d ← contents_int buf (r_ret n);
        sys (Write STDOUT_FILENO d);;
        mret (Next (B := unit) buf)) w
    (λ c w', match c with
      | Next buf' => zlen buf' = BUFSIZ ∧ online cfd w' ∧ (arrivals w' ≤ arrivals w ≤ S (arrivals w'))%nat ∧
          ∃ s, shown (full_writes w0) cfd s ∧ outs w' = outs w ++ s
      | _ => False end).
Proof.
  intros Hon Hbuf. pose proof Hon as [Ho (o & H1 & Hk)].
  assert (talks (of_kind o) = true) as Ht by (by rewrite Hk). step.
  eapply (runs_recv_fact Henv); [exact Hread|done|exact Ho|done|..].
  - intros r Hr Hd. cbv zeta. rewrite Hr, Hd. step.
    eapply runs_pure; [intros tr; apply (contents_int_fill []), zlen_nonneg|]. step.
    eapply (runs_write_out Henv); [exact H1|exact Ht|..].
    + intros r' n Hfull _. step. split_and!; [done|by apply (online_ext cfd w)|cbn; lia..|].
      exists []. split; [by apply shown_nothing|by rewrite app_nil_r].
    + intros r' d' Hd' _. step. apply prefix_nil_inv in Hd' as ->.
      split_and!; [done|by apply (online_ext cfd w)|cbn; lia..|].
      eexists. split; [apply shown_end|done].
  - intros r k Hr Hd _ Hk'. cbv zeta. rewrite <- Hd. step. eapply runs_pure.
    { intros tr. apply contents_int_fill. lia. }
    assert (zlen (fill buf (r_data r)) = BUFSIZ) as Hlen by (rewrite length_fill; lia).
    step. eapply (runs_write_out Henv); [exact H1|exact Ht|..].
    + intros r' n Hfull _. step. split_and!; [done|by apply (online_ext cfd w)|cbn; lia..|].
      eexists. split; [by apply (shown_lost _ _ (r_data r))|done].
    + intros r' d' Hp Hfull. step. split_and!; [done|by apply (online_ext cfd w)|cbn; lia..|].
      eexists. split; [by apply (shown_reply _ _ (r_data r) d')|cbn; by rewrite <- app_assoc].
Qed.

Lemma talk_ok cfd buf w :
  online cfd w → zlen buf = BUFSIZ → arrivals w ≠ O →
  runs (talk cfd buf) w (λ c w', match c with
    | Next buf' => zlen buf' = BUFSIZ ∧ online cfd w' ∧ (arrivals w ≤ 2 + arrivals w')%nat ∧
        ∃ g, exchange (full_writes w0) cfd g ∧ outs w' = outs w ++ g
    | _ => False end).
Proof.
  intros Hon Hbuf Ha. pose proof (online_socket _ _ Hon) as Ho. unfold talk. step.
  eapply (runs_fgets_line Henv); [done|done|]. intros line k _ Hline Hk. cbn. step.
  eapply runs_pure; [intros tr; apply c_str_terminated|]. step.
  assert (zlen (fill buf (line ++ ["000"%char])) = BUFSIZ) as Hlen.
  { rewrite length_fill; rewrite ?zlen_app, ?zlen_one; lia. }
  eapply (runs_write_out Henv); [exact Ho|done|..].
  - intros r n Hfull _. eapply runs_mono; [apply show_ok; [by apply (online_ext cfd w)|done]|].
    intros [buf'|[]|z] w' H; [|done..]. destruct H as (Hb & Hon' & Ha' & s & Hs' & Hout).
    cbn in *. split_and!; [done|done|lia|]. exists ([Received STDIN_FILENO line] ++ s).
    split; [by apply exchange_intro; [apply asked_lost|]|]. by rewrite Hout, <- app_assoc.
  - intros r l Hl Hfull. eapply runs_mono; [apply show_ok; [by apply (online_ext cfd w)|done]|].
    intros [buf'|[]|z] w' H; [|done..]. destruct H as (Hb & Hon' & Ha' & s & Hs' & Hout).
    cbn in *. split_and!; [done|done|lia|]. exists ([Received STDIN_FILENO line; Sent cfd l] ++ s).
    split; [by apply exchange_intro; [apply asked_sent|]|]. by rewrite Hout, <- !app_assoc.
Qed.

(** The rounds of a client whose user types on. *)
Lemma talk_rounds_ok cfd n buf w :
  online cfd w → zlen buf = BUFSIZ → (2 * n ≤ arrivals w)%nat →
  runs (rounds n (talk cfd) buf) w (λ c w', match c with
    | Next buf' => ∃ out, outs w' = outs w ++ out ∧ log (exchange (full_writes w0) cfd) out
    | _ => False end).
Proof.
  revert buf w. induction n as [|n IH]; intros buf w Hon Hbuf Ha; cbn [rounds].
  { step. exists []. by rewrite app_nil_r; split; [|constructor]. }
  step. eapply runs_mono; [by apply talk_ok; [..|lia]|].
  intros [buf'|[]|z] w1 H; [|done..]. destruct H as (Hb & Hon' & Ha' & g & Hg & Hout).
  eapply runs_mono; [by apply IH; [..|lia]|]. intros [buf2|[]|z] w2; [|done..].
  intros (out & Ho2 & Hl). exists (g ++ out). rewrite Ho2, Hout, <- app_assoc. split; [done|].
  by constructor.
Qed.

(** The client, for any number of rounds during which the user types: each line is sent,
    up to its first NUL, and what is then read is shown; nothing else is sent or shown. *)
Lemma client_relays n w o :
  sockets_available w0 → fds w !! STDOUT_FILENO = Some o → of_kind o = KTty →
  is_Some (fds w !! STDIN_FILENO) → (2 * n ≤ arrivals w)%nat →
  runs (main n) w (λ r w', r = None ∧ ∃ cfd out, cfd ≠ STDIN_FILENO ∧ cfd ≠ STDOUT_FILENO ∧
    outs w' = outs w ++ out ∧ log (exchange (full_writes w0) cfd) out).
Proof.
  intros Hsock Ho Hk [oi Hi] Ha. unfold main. step.
  apply (runs_fact _ _ (λ r, 0 ≤ r_ret r)); [intros tr Htr; by eapply Hsock|].
  eapply (runs_socket Henv); [lia|]. intros r Hr Hfd _. step.
  eapply (runs_sockcall Henv); [look|]. intros rc nc _ _. steps.
  assert (r_ret r ≠ STDOUT_FILENO ∧ r_ret r ≠ STDIN_FILENO) as [Hn1 Hn0] by (split; intros E; congruence).
  eapply runs_mono; [apply talk_rounds_ok; [|done|cbn; lia]|].
  { split; [look|]. exists o. split; [|done]. cbn. by rewrite lookup_insert_ne. }
  intros [buf'|[]|z] w'; [|done..]. intros (out & Hout & Hl). split; [done|].
  by exists (r_ret r), out.
Qed.
End proofs.

(** Without input, the first round uses a buffer that nothing was stored into: the
    [NULL] of [fgets] is not tested. *)
Lemma client_end_of_input {e : Env} cfd (tr : trace) :
  r_ret (env tr (Gets BUFSIZ)) ≤ 0 → talk cfd (new_buffer BUFSIZ) tr = UB Uninit.
Proof.
  intros Hr. unfold talk, fgets, sys, mbind, M_bind. rewrite (proj2 (Z.leb_le _ _)) by done.
  unfold mret, M_ret. assert (∃ l, new_buffer BUFSIZ = Indet :: l) as [l Hl].
  { unfold new_buffer. by exists (replicate (Z.to_nat (BUFSIZ - 1)) Indet). }
  rewrite zlen_new_buffer by done. by destruct (r_off _ =? 0); rewrite Hl.
Qed.

(** ** A session

    The channels are reliable: what one side has received is a part, from the start,
    of what the other has sent. *)
Section session.
Context (es ec : Env) (ws wc : world).
Context (Hes : @legal_env es ws) (Hec : @legal_env ec wc).
Context (Htext : @text_arrives es ws) (Hfs : @full_writes es ws).
Context (Hkey : @keyboard_in_use ec wc BUFSIZ) (Hread : @reads_succeed ec wc) (Hfc : @full_writes ec wc).

(** C6: a client and the server talk over one connection, [n] and [m] rounds long.
    Neither does anything undefined. If both channels are reliable, then what the
    client shows is what the user typed, in capitals, or the start of it; it is all of
    it when nothing is under way. *)
Theorem session_shows_capitals cfd sfd n m bs bc :
  fds ws !! cfd = Some (mkOF KSocket 0 []) → outs ws = [] → zlen bs = BUFSIZ →
  online sfd wc → sfd ≠ STDIN_FILENO → sfd ≠ STDOUT_FILENO → outs wc = [] → zlen bc = BUFSIZ →
  (2 * m ≤ arrivals wc)%nat →
  ∃ bs' ts ws' bc' tc wc',
    rounds n (echo_upper (e := es) cfd) bs [] = Ok (Next bs', ts) ∧ replay ws ts = Some ws' ∧
    rounds m (talk (e := ec) sfd) bc [] = Ok (Next bc', tc) ∧ replay wc tc = Some wc' ∧
    (received cfd (outs ws') `prefix_of` sent sfd (outs wc') →
     received sfd (outs wc') `prefix_of` sent cfd (outs ws') →
     sent STDOUT_FILENO (outs wc') `prefix_of` (upper <$> typed (outs wc'))) ∧
    (received cfd (outs ws') = sent sfd (outs wc') →
     received sfd (outs wc') = sent cfd (outs ws') →
     sent STDOUT_FILENO (outs wc') = (upper <$> typed (outs wc'))).
Proof.
  intros Ho Hos Hbs Hon H0 H1 Hoc Hbc Ha.
  assert (@runs _ ws (rounds n (echo_upper (e := es) cfd) bs) ws
    (λ c w', match c with Next _ => answered_all cfd (outs w') | _ => False end)) as Hserver.
  { eapply (runs_rounds (λ buf w1, zlen buf = BUFSIZ ∧ fds w1 !! cfd = Some (mkOF KSocket 0 []) ∧
      answered_all cfd (outs w1))); [by rewrite Hos|by intros ?? (_ & _ & ?)|].
    intros buf w1 (Hbuf & Ho1 & Hans). eapply runs_mono; [by apply (echo_upper_ok Hes)|].
    intros [buf'|[]|z] w2; [|done..]. intros (Hb & Hf & _ & out & Hout & Hl). rewrite Hf, Hout.
    split_and!; [done..|]. apply answered_all_app; [done|]. exact (capitals_answered _ _ _ Hfs Hl). }
  destruct (Hserver [] eq_refl) as ([bs'|[]|z] & ts & ws' & Hrs & Hws & Hans); [|done..].
  destruct (talk_rounds_ok Hec Hkey Hread sfd m bc wc Hon Hbc Ha [] eq_refl)
    as ([bc'|[]|z] & tc & wc' & Hrc & Hwc & Hout); [|done..].
  destruct Hout as (out & Hout & Hl). rewrite Hoc in Hout. cbn in Hout. rewrite <- Hout in Hl.
  destruct (exchange_relayed _ _ _ Hfc H0 H1 Hl) as [Hsent Hshown].
  exists bs', ts, ws', bc', tc, wc'. split_and!; [done..| |]; rewrite Hshown, <- Hsent.
  - intros Hup Hdown. etransitivity; [exact Hdown|]. rewrite Hans.
    destruct Hup as [k ->]. rewrite fmap_app. by exists (upper <$> k).
  - intros Hup ->. by rewrite Hans, Hup.
Qed.
End session.

(** ** The theorems on small systems *)

(** A terminal and a connection, on which a line is typed and its answer arrives. *)
Definition client_world : world :=
  set_arrivals 2 (set_fds {[0 := mkOF KTty 0 []; 1 := mkOF KTty 0 []; 3 := mkOF KSocket 0 []]} (boot ∅)).
Definition server_world : world :=
  set_arrivals 1 (set_fds {[4 := mkOF KSocket 0 []]} (boot ∅)).
Definition user_types : Env := live_env [lit "hi\n"; lit "HI\n"] client_world.

Lemma client_relays_witness :
  ∃ tr w', main (e := user_types) 1 [] = Ok (None, tr) ∧ replay client_world tr = Some w' ∧
    outs w' = [Received 0 (lit "hi\n"); Sent 4 (lit "hi\n"); Received 4 (lit "HI\n"); Sent 1 (lit "HI\n")] ∧
    ∃ cfd out, outs w' = out ∧ log (exchange (full_writes (e := user_types) client_world) cfd) out.
Proof.
  destruct (client_relays (live_env_legal [lit "hi\n"; lit "HI\n"] client_world)
    ltac:(by apply live_keyboard; [|by vm_compute|repeat constructor; by vm_compute])
    ltac:(apply text_reads, live_text; [by vm_compute|by vm_compute]) 1 client_world (mkOF KTty 0 [])
    ltac:(apply live_sockets) eq_refl eq_refl ltac:(by eexists) ltac:(vm_compute; lia) [] eq_refl)
    as (r & tr & w' & Hrun & Hw & -> & cfd & out & _ & _ & Hout & Hl).
  exists tr, w'. split; [exact Hrun|]. split; [exact Hw|]. split; [|exists cfd, out; split; [exact Hout|exact Hl]].
  vm_compute in Hrun. injection Hrun as <-. vm_compute in Hw. injection Hw as <-. reflexivity.
Defined.

Lemma client_end_of_input_witness :
  talk (e := live_env [] client_world) 3 (new_buffer BUFSIZ) [] = UB Uninit.
Proof. apply client_end_of_input. vm_compute. discriminate. Defined.

Lemma session_shows_capitals_witness :
  ∃ tc wc', (∃ bc', rounds 1 (talk (e := user_types) 3) (new_buffer BUFSIZ) [] = Ok (Next bc', tc)) ∧
    replay client_world tc = Some wc' ∧
    typed (outs wc') = lit "hi\n" ∧ sent STDOUT_FILENO (outs wc') = (upper <$> typed (outs wc')).
Proof.
  destruct (session_shows_capitals (live_env [lit "hi\n"] server_world) user_types server_world client_world
    (live_env_legal _ _) (live_env_legal _ _) ltac:(apply live_text; by vm_compute) (live_full _ _)
    ltac:(by apply live_keyboard; [|by vm_compute|repeat constructor; by vm_compute])
    ltac:(apply text_reads, live_text; by vm_compute) (live_full _ _)
    4 3 1 1 (new_buffer BUFSIZ) (new_buffer BUFSIZ) eq_refl eq_refl eq_refl
    ltac:(by split; [|eexists]) ltac:(done) ltac:(done) eq_refl eq_refl ltac:(vm_compute; lia))
    as (bs' & ts & ws' & bc' & tc & wc' & Hrs & Hws & Hrc & Hwc & _ & Hall).
  exists tc, wc'. split; [by exists bc'|]. split; [exact Hwc|].
  vm_compute in Hrs. injection Hrs as _ <-. vm_compute in Hrc. injection Hrc as _ <-.
  vm_compute in Hws. injection Hws as <-. vm_compute in Hwc. injection Hwc as <-.
  split; [reflexivity|]. apply Hall; reflexivity.
Defined.
