(* ===== verification/UpperFork.v ===== *)
(** * [10_project/multiprocess.c]: a process for each connection

    The program as one process runs it: [fork] returns 0 in the child, which leaves the
    loop, and the number of the child in the parent, which goes on. *)
From S2P Require Export UpperServer.

Section program.
Context {e : Env}.

(** One round of the loop that accepts connections. *)
Definition accept_fork (lfd : Z) (_ : unit) : M trace (ctl unit (Z * sockaddr_in)) :=
  cfd ← sys (Accept lfd);
  let clie_addr := r_fds cfd in
  let cfd := r_ret cfd in
  if cfd =? -1 then
    perror "accept error!";;
    mret (Return 1)
  else
  printf "client IP: %s, client port: %d\n" [AStr (inet_ntop clie_addr.1); AInt (ntohs clie_addr.2)];;
  pid ← sys (Libcall "fork" []);
  if r_ret pid =? 0 then
    close lfd;;
    mret (Break (cfd, clie_addr))
  else if r_ret pid =? -1 then
    perror "fork error";;
    mret (Return 1)
  else
    close cfd;;
    mret (Next tt).

(** One round of the child. *)
Definition child (cfd : Z) (clie_addr : sockaddr_in) (buf : buffer) : M trace (ctl buffer unit) :=
  n ← sys (Read cfd BUFSIZ);
  if r_ret n =? 0 then
    printf "close port = %d\n" [AInt (ntohs clie_addr.2)];;
    close cfd;;
    mret (Return 1)
  else if r_ret n =? -1 then
    perror "read error";;
    mret (Return 1)
  else
    buf ← upcase (r_ret n) (fill buf (r_data n));
    d ← contents_int buf (r_ret n);
    sys (Write 1 d);;
    d ← contents_int buf (r_ret n);
    sys (Write cfd d);;
    mret (Next buf).

(** Up to [n] connections, and in a child [m] rounds with its client. *)
Definition main (n m : nat) : M trace (option Z) :=
  lfd ← sys Socket;
  let lfd := r_ret lfd in
  if lfd =? -1 then
    perror "socket error!";;
    mret (Some 1)
  else
  res ← sys (Sockcall "bind" lfd [htons SERV_PORT]);
  if r_ret res =? -1 then
    perror "bind error!";;
    mret (Some 1)
  else
  sys (Sockcall "listen" lfd [128]);;
  if r_ret res =? -1 then
    perror "listen error!";;
    mret (Some 1)
  else
  c ← rounds n (accept_fork lfd) tt;
  match c with
  | Next _ => mret None
  | Return z => mret (Some z)
  | Break (cfd, clie_addr) => after_rounds (rounds m (child cfd clie_addr) (new_buffer BUFSIZ)) (λ _, mret 0)
  end.
End program.

(** What a chunk from the client makes the child write: to the screen and back. *)
Inductive repeated (full : Prop) (cfd : Z) : list output → Prop :=
| repeated_intro d o1 o2 :
    d ≠ [] → written full 1 (upper <$> d) o1 → written full cfd (upper <$> d) o2 →
    repeated full cfd (Received cfd d :: o1 ++ o2).

(** The child ends with [x]: its client has closed the connection, which is closed now, or
    [read] has failed, which leaves the connection open. [fd0] was open beside it. *)
Definition parting {e : Env} (w0 : world) (cfd : Z) (addr : sockaddr_in) (fd0 : gmap Z ofile)
    (x : output) (w' : world) : Prop :=
  (x = Printf "close port = %d\n" [AInt (ntohs addr.2)] ∧ fds w' = fd0) ∨
  (¬ reads_succeed w0 ∧ x = Perror "read error" ∧ fds w' = <[cfd := mkOF KSocket 0 []]> fd0).

(** What the child has logged after at most [m] rounds: a group for each chunk that it took
    from its client, [m] of them when it goes on, and else its last words and status 1. *)
Definition child_done {e : Env} (w0 : world) (m : nat) (cfd : Z) (addr : sockaddr_in)
    (fd0 : gmap Z ofile) (w : world) (pre : list output) (r : option Z) (w' : world) : Prop :=
  ∃ gs, Forall (repeated (full_writes w0) cfd) gs ∧ (length gs + arrivals w')%nat = arrivals w ∧
    match r with
    | None => length gs = m ∧ outs w' = pre ++ concat gs ∧ fds w' = <[cfd := mkOF KSocket 0 []]> fd0
    | Some z => z = 1 ∧ ∃ x, parting w0 cfd addr fd0 x w' ∧ outs w' = pre ++ concat gs ++ [x]
    end.

Section proofs.
Context {e : Env} {w0 : world} (Henv : legal_env w0).
Abbreviation runs := (runs w0).

Lemma child_ok cfd addr buf w fd0 o :
  text_if_any w0 → fds w = <[cfd := mkOF KSocket 0 []]> fd0 → fd0 !! cfd = None →
  fds w !! 1 = Some o → of_kind o = KTty → zlen buf = BUFSIZ →
  runs (child cfd addr buf) w (λ c w', match c with
    | Next buf' => zlen buf' = BUFSIZ ∧ fds w' = fds w ∧ S (arrivals w') = arrivals w ∧
        ∃ g, repeated (full_writes w0) cfd g ∧ outs w' = outs w ++ g
    | Return z => z = 1 ∧ arrivals w' = arrivals w ∧
        ∃ x, parting w0 cfd addr fd0 x w' ∧ outs w' = outs w ++ [x]
    | Break _ => False end).
Proof.
  intros Htext Hf Hfresh H1 Hk Hbuf.
  assert (fds w !! cfd = Some (mkOF KSocket 0 [])) as Ho by (rewrite Hf; apply lookup_insert_eq).
  assert (talks (of_kind o) = true) as Ht by (by rewrite Hk).
  unfold child. step. eapply (runs_recv_known Henv _ (λ r,
    (0 < r_ret r → forallb is_text (r_data r) = true) ∧ (reads_succeed w0 → r_ret r ≠ -1))); [|exact Ho|done|..].
  - intros tr w1 fd1 o1 Htr Ho1 Hk1. split; [by eapply Htext|]. intros Hs. by eapply Hs.
  - intros r n Hr [_ Hs] _. step; [lia|]. step; [|lia]. steps. split_and!; [done..|].
    eexists. split; [|done]. right. split; [|done]. intros H. by apply Hs.
  - intros r Hr _. step; [|lia]. steps. split_and!; [done..|].
    eexists. split; [|done]. left. split; [done|]. cbn. rewrite Hf. by apply delete_insert_id.
  - intros r k Hr Hd [Ha _] Hk'. step; [lia|]. step; [lia|]. rewrite <- Hd. step.
    eapply runs_pure; [intros tr; apply upcase_fill, Ha; lia|]. step.
    assert (zlen (upper <$> r_data r) = zlen (r_data r)) as El by (unfold zlen; by rewrite length_fmap).
    assert (∀ tr : trace, contents_int (fill buf (upper <$> r_data r)) (zlen (r_data r)) tr =
      Ok (upper <$> r_data r, tr)) as Hc.
    { intros tr. rewrite <- El. apply contents_int_fill. lia. }
    assert (zlen (fill buf (upper <$> r_data r)) = BUFSIZ) as Hlen by (rewrite length_fill; lia).
    eapply runs_pure; [exact Hc|]. step. eapply (runs_written Henv); [cbn; exact H1|exact Ht|].
    intros r1 w1 o1 Ho1 Hout1 Hf1 Ha1. step. eapply runs_pure; [exact Hc|]. step.
    eapply (runs_written Henv); [rewrite Hf1; cbn; exact Ho|done|].
    intros r2 w2 o2 Ho2 Hout2 Hf2 Ha2. step. split_and!; [done|by rewrite Hf2, Hf1| |].
    { by rewrite Ha2, Ha1, Hk'. }
    eexists. split; [apply (repeated_intro _ _ (r_data r) o1 o2); [|done..]|].
    { intros E. rewrite E in Hd. unfold zlen in Hd. simpl in Hd. lia. }
    rewrite Hout2, Hout1. cbn. by rewrite <- !app_assoc.
Qed.

(** The rounds of the child. *)
Lemma child_rounds_ok cfd addr m w fd0 o :
  text_if_any w0 → fds w = <[cfd := mkOF KSocket 0 []]> fd0 → fd0 !! cfd = None →
  fds w !! 1 = Some o → of_kind o = KTty →
  runs (after_rounds (rounds m (child cfd addr) (new_buffer BUFSIZ)) (λ _, mret 0)) w
    (child_done w0 m cfd addr fd0 w (outs w)).
Proof.
  intros Htext Hf Hfresh H1 Hk. step.
  eapply (runs_rounds_count (λ k buf w1, zlen buf = BUFSIZ ∧ fds w1 = fds w ∧
    ∃ gs, length gs = k ∧ Forall (repeated (full_writes w0) cfd) gs ∧
      (k + arrivals w1)%nat = arrivals w ∧ outs w1 = outs w ++ concat gs)).
  { split_and!; [by apply zlen_new_buffer|done|]. exists []. cbn. by rewrite app_nil_r. }
  { intros buf w1 (_ & Hf1 & gs & Hl & Hgs & Ha & Ho). exists gs. rewrite Hl, Hf1, Hf. done. }
  intros k buf w1 _ (Hb & Hf1 & gs & Hl & Hgs & Ha & Hout). eapply runs_mono.
  { eapply (child_ok cfd addr buf w1); [done|by rewrite Hf1|done|by rewrite Hf1|done..]. }
  intros [buf'|[]|z] w2; [|done|].
  - intros (Hb' & Hf2 & Ha2 & g & Hg & Ho2). split_and!; [done|congruence|]. exists (gs ++ [g]).
    rewrite Ho2, Hout, concat_app, length_app, <- app_assoc. cbn. rewrite app_nil_r.
    split_and!; [lia| |lia|done]. apply Forall_app. by rewrite Forall_singleton.
  - intros (-> & Ha2 & x & Hx & Ho2). exists gs. split_and!; [done|lia|done|]. exists x.
    by rewrite Ho2, Hout, <- app_assoc.
Qed.

(** A connection is given to a child, or [fork] or [accept] fails. *)
Lemma accept_fork_ok lfd w fd0 :
  fds w = <[lfd := mkOF KSocket 0 []]> fd0 → fd0 !! lfd = None →
  runs (accept_fork lfd tt) w (λ c w', arrivals w' = arrivals w ∧ match c with
    | Next _ => ∃ addr, outs w' = outs w ++ [greeting addr] ∧ fds w' = fds w
    | Break (cfd, addr) => outs w' = outs w ++ [greeting addr] ∧
        fds w' = <[cfd := mkOF KSocket 0 []]> fd0 ∧ fd0 !! cfd = None
    | Return z => z = 1 ∧ ∃ addrs msg, outs w' = outs w ++ (greeting <$> addrs) ++ [Perror msg]
    end).
Proof.
  intros Hf Hl. unfold accept_fork. step. eapply (runs_accept Henv); [rewrite Hf; look| |].
  { intros r k Hr _. step; [|lia]. steps. split_and!; [done..|]. exists []. by eexists. }
  intros rc Hrc Hfc. pose proof Hfc as Hfc'.
  rewrite Hf in Hfc. apply lookup_insert_None in Hfc as [Hfc Hne].
  step; [lia|]. step. step. step. eapply (runs_libcall Henv). intros rf Hrf. step; [|step].
  - step. step. step. cbn. rewrite Hf.
    split_and!; [done|done| |done]. rewrite delete_insert_ne by done. by rewrite delete_insert_id.
  - steps. split_and!; [done..|]. exists [r_fds rc], "fork error"%string. cbn. by rewrite <- app_assoc.
  - steps. split; [done|]. exists (r_fds rc). split; [done|]. cbn. by rewrite delete_insert_id.
Qed.

End proofs.

(** A client sends "hi" and closes the connection. *)
Definition fork_world : world := set_arrivals 1 (set_fds {[1 := mkOF KTty 0 []]} (boot ∅)).

