(* ===== verification/UpperThreads.v ===== *)
(** * [10_project/multithread.c]: a thread for each connection

    The thread that accepts connections, and the work of one thread, each as it sees
    the system: the entry of [ts] that a thread gets is written once, before it
    starts, and is its own. *)
From S2P Require Export UpperFork.

Definition SERV_PORT : Z := 9999.
Definition NUM_CLIENTS : Z := 256.

(** [struct s_info], and the array of them in [main]. *)
Definition s_info : Type := sockaddr_in * Z.

Section program.
Context {e : Env}.

Definition work (ts : s_info) (buf : buffer) : M trace (ctl buffer unit) :=
  let '(cliaddr, cfd) := ts in
  n ← sys (Read cfd BUFSIZ);
  if r_ret n =? 0 then
    printf "the client %d closed ... \n" [AInt cfd];;
    mret (Break tt)
  else
    printf "client IP: %s, client port: %d\n" [AStr (inet_ntop cliaddr.1); AInt (ntohs cliaddr.2)];;
    buf ← upcase (r_ret n) (fill buf (r_data n));
    d ← contents_int buf (r_ret n);
    sys (Write STDOUT_FILENO d);;
    d ← contents_int buf (r_ret n);
    sys (Write cfd d);;
    mret (Next buf).

Definition do_work (fuel : nat) (ts : s_info) : M trace Z :=
  after (loop fuel (work ts) (new_buffer BUFSIZ)) (λ _,
    close ts.2;;
    mret 0).

(** [pthread_create(&tid, NULL, do_work, &ts[j])]: the thread gets entry [j]. With it the call
    has what the thread finds there: no entry is written after its thread has started. *)
Definition start_work (ts : list (cell s_info)) (j : Z) : M trace reply :=
  match zlookup ts j with
  | None => ub_fail OutOfBounds
  | Some c =>
    s ← use c;
    let '((ip, port), cfd) := s in
    sys (Libcall "pthread_create" [j; ip; port; cfd])
  end.

(** One round of the loop of [main]: thread [i] gets [&ts[i]]. [tid] is indeterminate after a
    call that has failed. *)
Definition accept_thread (lfd : Z) (st : Z * list (cell s_info))
    : M trace (ctl (Z * list (cell s_info)) unit) :=
  let '(i, ts) := st in
  cfd ← sys (Accept lfd);
  if r_ret cfd =? -1 then
    perror "accept error!";;
    mret (Return 1)
  else
    ts ← (match zupdate ts i (Val (r_fds cfd, r_ret cfd)) with
          | None => ub_fail OutOfBounds
          | Some ts => mret ts
          end);
    r ← start_work ts i;
    tid ← use (if r_ret r =? 0 then Val (r_off r) else Indet);
    sys (Libcall "pthread_detach" [tid]);;
    mret (Next (i + 1, ts)).

Definition no_clients : list (cell s_info) := replicate (Z.to_nat NUM_CLIENTS) Indet.

Definition main (n : nat) : M trace (option Z) :=
  lfd ← sys Socket;
  let lfd := r_ret lfd in
  sys (Sockcall "bind" lfd [htons SERV_PORT]);;
  sys (Sockcall "listen" lfd [128]);;
  printf "Accepting client connect ...\n" [];;
  after_rounds (rounds n (accept_thread lfd) (0, no_clients)) (λ _, mret 0).
End program.

(** A chunk: the address of the client is shown, then the text, which goes back too. *)
Inductive announced (full : Prop) (ts : s_info) : list output → Prop :=
| announced_intro d o1 o2 :
    written full STDOUT_FILENO (upper <$> d) o1 → written full ts.2 (upper <$> d) o2 →
    announced full ts (Received ts.2 d :: greeting ts.1 :: o1 ++ o2).

(** [pthread_create] succeeds, or fails, each time. *)
Definition threads_start {e : Env} (w0 : world) : Prop :=
  ∀ tr w args, replay w0 tr = Some w → r_ret (env tr (Libcall "pthread_create" args)) = 0.
Definition threads_fail {e : Env} (w0 : world) : Prop :=
  ∀ tr w args, replay w0 tr = Some w → r_ret (env tr (Libcall "pthread_create" args)) ≠ 0.

(** What the calls of a run say: the connections that were accepted; the threads that were
    created, each with the index and the content of its entry; and their numbers, as they were
    given and as they were detached. *)
Definition accepted (tr : trace) : list s_info :=
  omap (λ ev, match ev with
    | (Accept _, r) => if r_ret r =? -1 then None else Some (r_fds r, r_ret r)
    | _ => None end) tr.
Definition created (tr : trace) : list (Z * s_info) :=
  omap (λ ev, match ev with
    | (Libcall "pthread_create" [i; ip; port; cfd], r) =>
      if r_ret r =? 0 then Some (i, ((ip, port), cfd)) else None
    | _ => None end) tr.
Definition tids (tr : trace) : list Z :=
  omap (λ ev, match ev with
    | (Libcall "pthread_create" _, r) => if r_ret r =? 0 then Some (r_off r) else None
    | _ => None end) tr.
Definition detached (tr : trace) : list Z :=
  omap (λ ev, match ev with (Libcall "pthread_detach" [tid], _) => Some tid | _ => None end) tr.

(** Every connection is given to a thread of its own, through an entry of its own. *)
Definition one_thread_each (tr : trace) : Prop :=
  created tr = imap (λ i c, (Z.of_nat i, c)) (accepted tr) ∧ detached tr = tids tr.

Lemma live_threads inputs w0 : threads_start (e := live_env inputs w0) w0.
Proof. intros tr w args Htr. by rewrite (live_answer inputs w0 tr w _ Htr) by (by eexists). Qed.

(** The connections of the first threads, in the array. *)
Definition filled (conns : list s_info) : list (cell s_info) :=
  (Val <$> conns) ++ replicate (Z.to_nat NUM_CLIENTS - length conns) Indet.

Lemma filled_snoc conns c :
  zlen conns < NUM_CLIENTS → zupdate (filled conns) (zlen conns) (Val c) = Some (filled (conns ++ [c])).
Proof.
  intros Hlt. unfold filled. rewrite zupdate_in.
  - f_equal. replace (Z.to_nat (zlen conns)) with (length (Val <$> conns : list (cell s_info)) + 0)%nat
      by (rewrite length_fmap; unfold zlen; lia).
    rewrite insert_app_r. rewrite length_app, fmap_app, <- app_assoc. f_equal.
    replace (Z.to_nat NUM_CLIENTS - length conns)%nat
      with (Datatypes.S (Z.to_nat NUM_CLIENTS - (length conns + length [c])))
      by (unfold zlen, NUM_CLIENTS in *; simpl length; lia). done.
  - split; [apply zlen_nonneg|]. unfold zlen in *. rewrite length_app, length_fmap, length_replicate.
    unfold NUM_CLIENTS in *. lia.
Qed.

Lemma filled_full conns c :
  zlen conns = NUM_CLIENTS → zupdate (filled conns) (zlen conns) (Val c) = None.
Proof.
  intros Heq. unfold zupdate. rewrite bool_decide_eq_false_2; [done|].
  unfold filled, zlen in *. rewrite length_app, length_fmap, length_replicate. unfold NUM_CLIENTS in *. lia.
Qed.

(** *** Runs with the calls that they make *)
Section traced.
Context {e : Env} {w0 : world}.

Definition traced {A} (m : M trace A) (w : world) (Q : A → trace → world → Prop) : Prop :=
  ∀ tr, replay w0 tr = Some w →
    ∃ a ext w', m tr = Ok (a, tr ++ ext) ∧ replay w0 (tr ++ ext) = Some w' ∧ Q a ext w'.

Lemma traced_ret {A} (a : A) w (Q : A → trace → world → Prop) : Q a [] w → traced (mret a) w Q.
Proof using Type. intros HQ tr Htr. exists a, [], w. by rewrite app_nil_r. Qed.

Lemma traced_bind {A B} (m : M trace A) (k : A → M trace B) w (Q : B → trace → world → Prop) :
  traced m w (λ a x w1, traced (k a) w1 (λ b y, Q b (x ++ y))) → traced (m ≫= k) w Q.
Proof using Type.
  intros Hm tr Htr. destruct (Hm tr Htr) as (a & x & w1 & Hrun & Hw1 & Hk).
  destruct (Hk _ Hw1) as (z & y & w2 & Hrun2 & Hw2 & HQ). exists z, (x ++ y), w2.
  rewrite app_assoc. split; [by erewrite bind_Ok|done].
Qed.

Lemma traced_sys c w (Q : reply → trace → world → Prop) :
  runs w0 (sys c) w (λ r w', Q r [(c, r)] w') → traced (sys c) w Q.
Proof using Type.
  intros Hc tr Htr. destruct (Hc tr Htr) as (r & tr' & w' & Hrun & Hw' & HQ).
  unfold sys in Hrun. injection Hrun as <- <-. eexists _, _, _. split; [done|]. by split.
Qed.

Lemma traced_void c w (Q : unit → trace → world → Prop) :
  runs w0 (sys c) w (λ r w', Q tt [(c, r)] w') → traced (sys c;; mret tt) w Q.
Proof using Type. intros Hc. apply traced_bind, traced_sys. eapply runs_mono; [exact Hc|]. intros r w' HQ. by apply traced_ret. Qed.

Lemma traced_pure {A} (m : M trace A) a w (Q : A → trace → world → Prop) :
  (∀ tr, m tr = Ok (a, tr)) → Q a [] w → traced m w Q.
Proof using Type. intros Hm HQ tr Htr. exists a, [], w. by rewrite app_nil_r, Hm. Qed.

Lemma traced_runs {A} (m : M trace A) w Q : traced m w (λ a _ w', Q a w') → runs w0 m w Q.
Proof using Type. intros Hm tr Htr. destruct (Hm tr Htr) as (a & x & w' & ? & ? & ?). by exists a, (tr ++ x), w'. Qed.

(** Rounds that keep an invariant of the calls made since they have begun. *)
Lemma traced_rounds {A B} (I : nat → A → trace → world → Prop) (body : A → M trace (ctl A B)) n a x w
    (Q : ctl A B → trace → world → Prop) :
  I O a x w → (∀ a x w, I n a x w → Q (Next a) x w) →
  (∀ k a x w, (k < n)%nat → I k a x w → traced (body a) w (λ c y w',
     match c with Next a' => I (S k) a' (x ++ y) w' | c => Q c (x ++ y) w' end)) →
  traced (rounds n body a) w (λ c y, Q c (x ++ y)).
Proof using Type.
  revert I a x w. induction n as [|n IH]; intros I a x w HI HQ Hbody; cbn [rounds].
  { apply traced_ret. rewrite app_nil_r. by apply HQ. }
  apply traced_bind. intros tr Htr.
  destruct (Hbody O a x w ltac:(lia) HI tr Htr) as (c & y & w1 & Hrun & Hw1 & Hc).
  exists c, y, w1. split; [done|]. split; [done|]. destruct c as [a'|b|z]; cbn in Hc.
  - intros tr1 Htr1. destruct (IH (λ k, I (S k)) a' (x ++ y) w1) with tr1 as (c & y' & w2 & ? & ? & ?);
      [done|done| |done|].
    { intros k a1 x1 w3 Hk. apply Hbody. lia. }
    exists c, y', w2. by rewrite <- app_assoc in *.
  - apply traced_ret. by rewrite app_nil_r.
  - apply traced_ret. by rewrite app_nil_r.
Qed.
End traced.
Arguments traced w0 {A} m w Q : rename.

Lemma filled_lookup conns c :
  zlookup (filled (conns ++ [c])) (zlen conns) = Some (Val c).
Proof.
  apply zlookup_Some. split; [apply zlen_nonneg|]. unfold filled, zlen. rewrite Nat2Z.id.
  rewrite lookup_app_l by (rewrite length_fmap, length_app; cbn; lia).
  rewrite fmap_app, lookup_app_r by (by rewrite length_fmap). by rewrite length_fmap, Nat.sub_diag.
Qed.

(** The threads of the first connections, which are open. *)
Definition served_by_threads (conns : list s_info) (x : trace) (w : world) : Prop :=
  accepted x = conns ∧ one_thread_each x ∧
  NoDup conns.*2 ∧ Forall (λ c, fds w !! c = Some (mkOF KSocket 0 [])) conns.*2.

(** What a round adds to them. *)
Lemma served_by_threads_snoc conns x w w' addr cfd ra rc rd lfd :
  served_by_threads conns x w → fds w !! cfd = None → fds w' = <[cfd := mkOF KSocket 0 []]> (fds w) →
  r_ret ra ≠ -1 → (r_fds ra, r_ret ra) = (addr, cfd) → r_ret rc = 0 →
  served_by_threads (conns ++ [(addr, cfd)])
    (x ++ [(Accept lfd, ra);
           (Libcall "pthread_create" [zlen conns; addr.1; addr.2; cfd], rc);
           (Libcall "pthread_detach" [r_off rc], rd)]) w'.
Proof.
  intros (Ha & (Hc & Hd) & Hdup & Hopen) Hfree Hf Hra Heq Hrc.
  unfold served_by_threads, one_thread_each, accepted, created, detached, tids in *.
  rewrite !omap_app, Ha, Hc, Hd. cbn -[zlen]. apply Z.eqb_neq in Hra. rewrite Hra, Hrc, Heq. cbn -[zlen].
  split_and!; [done| |done|..].
  - rewrite imap_app. cbn -[zlen]. rewrite Ha, Nat.add_0_r. by destruct addr.
  - rewrite fmap_app. apply NoDup_app. split_and!; [done| |by repeat constructor; set_solver].
    intros c Hin Hin'. apply list_elem_of_singleton in Hin' as ->.
    rewrite Forall_forall in Hopen. specialize (Hopen _ Hin). cbn in Hopen. congruence.
  - rewrite fmap_app. apply Forall_app. split.
    + eapply Forall_impl; [exact Hopen|]. intros c Hin. cbn in Hin.
      rewrite Hf, lookup_insert_ne; [done|]. intros ->. congruence.
    + constructor; [|constructor]. cbn. by rewrite Hf, lookup_insert_eq.
Qed.

Section proofs.
Context {e : Env} {w0 : world} (Henv : legal_env w0).
Abbreviation runs := (runs w0).

Lemma runs_output o w (Q : reply → world → Prop) : (∀ r, Q r (print o w)) → runs (sys (Output o)) w Q.
Proof. intros HQ. apply (runs_sys Henv). intros r w' Hw'. unfold posix_step in Hw'. by simplify_eq. Qed.

Lemma work_ok addr cfd buf w o :
  text_arrives w0 → fds w !! cfd = Some (mkOF KSocket 0 []) →
  fds w !! STDOUT_FILENO = Some o → of_kind o = KTty → zlen buf = BUFSIZ →
  runs (work (addr, cfd) buf) w (λ c w', fds w' = fds w ∧ match c with
    | Next buf' => zlen buf' = BUFSIZ ∧ (arrivals w' < arrivals w)%nat ∧
        ∃ g, announced (full_writes w0) (addr, cfd) g ∧ outs w' = outs w ++ g
    | Break _ => outs w' = outs w ++ [Printf "the client %d closed ... \n" [AInt cfd]]
    | Return _ => False end).
Proof.
  intros Htext Ho H1 Hk Hbuf. assert (talks (of_kind o) = true) as Ht by (by rewrite Hk).
  unfold work. step. eapply (runs_recv_text Henv); [done|exact Ho|done|..].
  - intros r Hr _. step; [|lia]. steps. done.
  - intros r k Hr Hd Ha Hk'. step; [lia|]. rewrite <- Hd. step. step. step.
    eapply runs_pure; [intros tr; apply upcase_fill, Ha|]. step.
    assert (zlen (upper <$> r_data r) = zlen (r_data r)) as El by (unfold zlen; by rewrite length_fmap).
    assert (∀ tr : trace, contents_int (fill buf (upper <$> r_data r)) (zlen (r_data r)) tr =
      Ok (upper <$> r_data r, tr)) as Hc.
    { intros tr. rewrite <- El. apply contents_int_fill. lia. }
    assert (zlen (fill buf (upper <$> r_data r)) = BUFSIZ) as Hlen by (rewrite length_fill; lia).
    eapply runs_pure; [exact Hc|]. step. eapply (runs_written Henv); [cbn; exact H1|exact Ht|].
    intros r1 w1 o1 Ho1 Hout1 Hf1 Ha1. step. eapply runs_pure; [exact Hc|]. step.
    eapply (runs_written Henv); [rewrite Hf1; cbn; exact Ho|done|].
    intros r2 w2 o2 Ho2 Hout2 Hf2 Ha2. step. split; [by rewrite Hf2, Hf1|].
    split; [done|]. split; [cbn in *; lia|].
    eexists. split; [by apply (announced_intro _ (addr, cfd) (r_data r) o1 o2)|].
    rewrite Hout2, Hout1. cbn. by rewrite <- !app_assoc.
Qed.

(** The work of a thread ends, when its client has closed the connection, with that
    connection closed and no other descriptor touched. Each chunk that it reads, it announces,
    shows in capitals, and sends back in capitals. *)
Theorem do_work_ends fuel addr cfd w o :
  text_arrives w0 → fds w !! cfd = Some (mkOF KSocket 0 []) →
  fds w !! STDOUT_FILENO = Some o → of_kind o = KTty → (arrivals w < fuel)%nat →
  runs (do_work fuel (addr, cfd)) w (λ r w', r = 0 ∧ fds w' = delete cfd (fds w) ∧
    ∃ l, log (announced (full_writes w0) (addr, cfd)) l ∧
      outs w' = outs w ++ l ++ [Printf "the client %d closed ... \n" [AInt cfd]]).
Proof.
  intros Htext Ho H1 Hk Hfuel. unfold do_work. step.
  eapply (runs_loop (λ buf w1, zlen buf = BUFSIZ ∧ fds w1 = fds w ∧
      ∃ l, log (announced (full_writes w0) (addr, cfd)) l ∧ outs w1 = outs w ++ l)
    (λ _ w1, arrivals w1)); [| |].
  { split_and!; [by apply zlen_new_buffer|done|]. exists []. by split; [constructor|rewrite app_nil_r]. }
  { done. }
  intros buf w1 (Hb & Hf1 & l & Hl & Hout). eapply runs_mono.
  { eapply work_ok; [done|by rewrite Hf1|by rewrite Hf1|done|done]. }
  intros [buf'|[]|z] w2 [Hf2 H]; [| |done].
  - destruct H as (Hb' & Ha & g & Hg & Ho2). split; [|done]. split_and!; [done|congruence|].
    exists (l ++ g). rewrite Ho2, Hout, <- app_assoc. split; [|done]. apply log_app; [done|by apply log_one].
  - cbn. steps. cbn. split_and!; [done|by rewrite Hf2, Hf1|].
    exists l. by rewrite H, Hout, <- app_assoc.
Qed.

(** One connection: its descriptor is new, its entry the next one, and its thread is given that one. *)
Lemma accept_thread_ok lfd (conns : list s_info) w :
  threads_start w0 → is_Some (fds w !! lfd) → zlen conns < NUM_CLIENTS →
  traced w0 (accept_thread lfd (zlen conns, filled conns)) w (λ c x w', match c with
    | Next st => ∃ addr cfd ra rc rd, st = (zlen (conns ++ [(addr, cfd)]), filled (conns ++ [(addr, cfd)])) ∧
        fds w !! cfd = None ∧ fds w' = <[cfd := mkOF KSocket 0 []]> (fds w) ∧ outs w' = outs w ∧
        r_ret ra ≠ -1 ∧ (r_fds ra, r_ret ra) = (addr, cfd) ∧ r_ret rc = 0 ∧
        x = [(Accept lfd, ra); (Libcall "pthread_create" [zlen conns; addr.1; addr.2; cfd], rc);
             (Libcall "pthread_detach" [r_off rc], rd)]
    | Return z => z = 1 ∧ outs w' = outs w ++ [Perror "accept error!"] ∧ fds w' = fds w ∧
        ¬ connections_arrive w0 ∧ ∃ r r', r_ret r = -1 ∧ x = [(Accept lfd, r); (Output (Perror "accept error!"), r')]
    | Break _ => False end).
Proof.
  intros Hstart Hl Hlt. unfold accept_thread. apply traced_bind, traced_sys.
  apply (runs_fact _ _ (λ r, connections_arrive w0 → 0 ≤ r_ret r)); [intros tr Htr Hc; by eapply Hc|].
  eapply (runs_accept Henv); [done| |].
  { intros r k Hr _ Hc. rewrite Hr. cbn [Z.eqb Z.opp Pos.eqb].
    apply traced_bind, traced_void, runs_output. intros r'. apply traced_ret.
    split_and!; [done..|intros Hc'; specialize (Hc Hc'); lia|]. by exists r, r'. }
  intros r Hr Hfd _. destruct (Z.eqb_spec (r_ret r) (-1)); [lia|].
  apply traced_bind. eapply (traced_pure _ (filled (conns ++ [(r_fds r, r_ret r)]))).
  { intros tr. by rewrite filled_snoc. }
  apply traced_bind. unfold start_work. rewrite filled_lookup. apply traced_bind.
  eapply traced_pure; [intros; apply use_Val|]. destruct (r_fds r) as [ip port] eqn:Er. apply traced_sys.
  apply (runs_fact _ _ (λ r, r_ret r = 0)); [intros tr Htr; by eapply Hstart|].
  eapply (runs_libcall Henv). intros rt _ Ht. rewrite Ht. cbn [Z.eqb]. apply traced_bind.
  eapply traced_pure; [intros; apply use_Val|]. apply traced_bind, traced_sys, (runs_libcall Henv).
  intros rd _. apply traced_ret. exists (ip, port), (r_ret r), r, rt, rd.
  split_and!; [by rewrite zlen_app|done..|by rewrite Er|done|done].
Qed.

(** The first [n] connections. *)
Lemma accept_rounds_ok lfd n w :
  threads_start w0 → is_Some (fds w !! lfd) → Z.of_nat n ≤ NUM_CLIENTS →
  traced w0 (rounds n (accept_thread lfd) (0, no_clients)) w (λ c x w', ∃ conns,
    served_by_threads conns x w' ∧ match c with
    | Next st => st = (zlen conns, filled conns) ∧ length conns = n ∧ outs w' = outs w ∧ is_Some (fds w' !! lfd)
    | Return z => z = 1 ∧ outs w' = outs w ++ [Perror "accept error!"] ∧ ¬ connections_arrive w0
    | Break _ => False end).
Proof.
  intros Hstart Hl Hle.
  apply (traced_rounds (λ k st x w1, ∃ conns, served_by_threads conns x w1 ∧
    st = (zlen conns, filled conns) ∧ length conns = k ∧ outs w1 = outs w ∧ is_Some (fds w1 !! lfd))
    _ _ _ []).
  { exists []. by repeat split; try constructor. }
  { done. }
  intros k st x w1 Hk (conns & Hs & -> & Hlen & Hout & Hl1).
  assert (zlen conns < NUM_CLIENTS) as Hlt by (unfold zlen; lia).
  intros tr Htr. destruct (accept_thread_ok lfd conns w1 Hstart Hl1 Hlt tr Htr)
    as (c & y & w2 & Hrun & Hw2 & H). exists c, y, w2. split; [done|]. split; [done|].
  destruct c as [st|[]|z].
  - destruct H as (addr & cfd & ra & rc & rd & -> & Hfree & Hf & Ho & Hra & Heq & Hrc & ->).
    exists (conns ++ [(addr, cfd)]). split; [by eapply served_by_threads_snoc|].
    split_and!; [done|rewrite length_app; cbn; lia|congruence|].
    rewrite Hf. destruct Hl1 as [o Ho1]. rewrite lookup_insert_ne by congruence. by exists o.
  - done.
  - destruct H as (-> & Ho & Hf & Hno & r & r' & Hr & ->). exists conns. split; [|split_and!; [done|congruence|done]].
    destruct Hs as (Ha & (Hc & Hd) & Hdup & Hopen). apply Z.eqb_eq in Hr.
    unfold served_by_threads, one_thread_each, accepted, created, detached, tids in *.
    rewrite !omap_app. cbn. rewrite Hr. by rewrite !app_nil_r, Hf.
Qed.

(** What comes before the loop. *)
Lemma traced_main n w Q :
  sockets_available w0 →
  (∀ lfd x w1, fds w !! lfd = None → fds w1 = <[lfd := mkOF KSocket 0 []]> (fds w) →
     outs w1 = outs w ++ [Printf "Accepting client connect ...\n" []] →
     accepted x = [] → created x = [] → tids x = [] → detached x = [] →
     traced w0 (rounds n (accept_thread lfd) (0, no_clients)) w1 (λ c y w', match c with
       | Next _ => Q None (x ++ y) w' | Return z => Q (Some z) (x ++ y) w' | Break _ => False end)) →
  traced w0 (main n) w Q.
Proof.
  intros Hsock HQ. unfold main. apply traced_bind, traced_sys.
  apply (runs_fact _ _ (λ r, 0 ≤ r_ret r)); [intros tr Htr; by eapply Hsock|].
  eapply (runs_socket Henv); [intros r k Hr _ Hr'; lia|]. intros r Hr Hfd _.
  apply traced_bind, traced_sys. eapply (runs_sockcall Henv); [look|]. intros rb nb _ _.
  apply traced_bind, traced_sys. eapply (runs_sockcall Henv); [look|]. intros rl nl _ _.
  apply traced_bind, traced_void, runs_output. intros rp.
  apply traced_bind. intros tr Htr.
  match type of Htr with replay _ _ = Some ?w1 =>
    destruct (HQ (r_ret r) [(Socket, r); (Sockcall "bind" (r_ret r) [htons SERV_PORT], rb);
      (Sockcall "listen" (r_ret r) [128], rl);
      (Output (Printf "Accepting client connect ...\n" []), rp)] w1 Hfd eq_refl eq_refl
      eq_refl eq_refl eq_refl eq_refl tr Htr) as (c & y & w' & Hrun & Hw' & H)
  end.
  exists c, y, w'. split; [done|]. split; [done|].
  destruct c as [st|[]|z]; [|done|]; apply traced_ret; by rewrite app_nil_r.
Qed.

(** The same for a run that ends in undefined behaviour in the loop. *)
Lemma crashes_main n w u :
  sockets_available w0 →
  (∀ lfd w1, fds w !! lfd = None → fds w1 = <[lfd := mkOF KSocket 0 []]> (fds w) →
     crashes w0 (rounds n (accept_thread lfd) (0, no_clients)) w1 u) →
  crashes w0 (main n) w u.
Proof.
  intros Hsock Hr. unfold main. apply crashes_bind.
  apply (runs_fact _ _ (λ r, 0 ≤ r_ret r)); [intros tr Htr; by eapply Hsock|].
  eapply (runs_socket Henv); [intros r k Hr' _ Hr''; lia|]. intros r Hr' Hfd _. apply crashes_bind.
  eapply (runs_sockcall Henv); [look|]. intros rb nb _ _. apply crashes_bind.
  eapply (runs_sockcall Henv); [look|]. intros rl nl _ _. apply crashes_bind. step.
  by apply crashes_first, Hr.
Qed.

(** The connection that has no entry. *)
Lemma overflow_crashes lfd conns w :
  connections_arrive w0 → is_Some (fds w !! lfd) → zlen conns = NUM_CLIENTS →
  crashes w0 (accept_thread lfd (zlen conns, filled conns)) w OutOfBounds.
Proof.
  intros Hconn Hl Hlen. unfold accept_thread. apply crashes_bind.
  apply (runs_fact _ _ (λ r, 0 ≤ r_ret r)); [intros tr Htr; by eapply Hconn|].
  eapply (runs_accept Henv); [done|intros rc k Hrc _ Hrc'; lia|]. intros rc Hrc _ _ tr _.
  destruct (Z.eqb_spec (r_ret rc) (-1)); [lia|]. by rewrite filled_full.
Qed.

(** The first connection, when no thread can be created. *)
Lemma no_thread_crashes lfd w :
  connections_arrive w0 → threads_fail w0 → is_Some (fds w !! lfd) →
  crashes w0 (accept_thread lfd (0, no_clients)) w Uninit.
Proof.
  intros Hconn Hfail Hl. unfold accept_thread. apply crashes_bind.
  apply (runs_fact _ _ (λ r, 0 ≤ r_ret r)); [intros tr Htr; by eapply Hconn|].
  eapply (runs_accept Henv); [done|intros rc k Hrc _ Hrc'; lia|]. intros rc Hrc _ _.
  destruct (Z.eqb_spec (r_ret rc) (-1)); [lia|]. apply crashes_bind.
  eapply (runs_pure _ (filled [(r_fds rc, r_ret rc)])); [intros tr; by rewrite (filled_snoc [])|].
  assert (zlookup (filled [(r_fds rc, r_ret rc)]) 0 = Some (Val (r_fds rc, r_ret rc))) as Hl0
    by apply (filled_lookup []).
  unfold start_work. rewrite Hl0. destruct (r_fds rc) as [ip port].
  apply crashes_bind. step. eapply runs_pure; [intros; apply use_Val|].
  apply (runs_fact _ _ (λ r, r_ret r ≠ 0)); [intros tr Htr; by eapply Hfail|].
  eapply (runs_libcall Henv). intros rt _ Ht. apply Z.eqb_neq in Ht. rewrite Ht.
  by apply crashes_first.
Qed.

End proofs.

(** ** The theorems on a small system *)

(** A client sends "hi" and closes the connection. *)
Lemma do_work_ends_witness :
  ∃ tr w', do_work (e := live_env [b "hi"] (set_fds {[1 := mkOF KTty 0 []; 5 := mkOF KSocket 0 []]} fork_world)) 2
      ((2130706433, 8080), 5) [] = Ok (0, tr) ∧
    replay (set_fds {[1 := mkOF KTty 0 []; 5 := mkOF KSocket 0 []]} fork_world) tr = Some w' ∧
    fds w' !! 5 = None ∧
    outs w' = [Received 5 (b "hi"); greeting (2130706433, 8080); Sent 1 (b "HI"); Sent 5 (b "HI");
      Printf "the client %d closed ... \n" [AInt 5]].
Proof.
  set (w := set_fds {[1 := mkOF KTty 0 []; 5 := mkOF KSocket 0 []]} fork_world).
  destruct (do_work_ends (live_env_legal [b "hi"] w) 2 (2130706433, 8080) 5 w (mkOF KTty 0 [])
    ltac:(apply live_text; by vm_compute) eq_refl eq_refl eq_refl ltac:(vm_compute; lia) [] eq_refl)
    as (r & tr & w' & Hrun & Hw & -> & Hf & _).
  exists tr, w'. split; [exact Hrun|]. split; [exact Hw|].
  split; [by rewrite Hf|]. vm_compute in Hrun. injection Hrun as <-. vm_compute in Hw. injection Hw as <-. reflexivity.
Defined.

