(* ===== verification/TcpDemos.v ===== *)
(** * The TCP examples of [08_socket]

    In this order: [01_socket_bind_ip.c], [02_ephemeral_port.c],
    [03_tcp_socket_client.c], [04_tcp_socket_server.c] and [09_gethostbyname.c]. *)
From S2P Require Export SockLib.

(** ** [01_socket_bind_ip.c] *)

Definition bind_ip_main {e : Env} : M trace Z :=
  server_fd ← sys Socket;
  let server_fd := r_ret server_fd in
  if server_fd =? 0 then
    perror "socket failed";;
    mret EXIT_FAILURE
  else
  r ← sys (Sockcall "bind" server_fd [htons 8080]);
  if r_ret r <? 0 then
    perror "bind failed";;
    close server_fd;;
    mret EXIT_FAILURE
  else
  r ← sys (Sockcall "listen" server_fd [3]);
  if r_ret r <? 0 then
    perror "listen";;
    close server_fd;;
    mret EXIT_FAILURE
  else
  printf "Listening on 127.0.0.1:8080\n" [];;
  new_socket ← sys (Accept server_fd);
  let new_socket := r_ret new_socket in
  if new_socket <? 0 then
    perror "accept";;
    close server_fd;;
    mret EXIT_FAILURE
  else
  printf "Connection accepted\n" [];;
  close new_socket;;
  close server_fd;;
  mret 0.

Definition listening : output := Printf "Listening on 127.0.0.1:8080\n" [].

(** Whatever fails, no descriptor stays open (with the standard descriptors open,
    [socket] does not give 0), and success is reported exactly when a client has connected. *)
Lemma bind_ip_releases {e : Env} {w0 : world} (Henv : legal_env w0) w :
  is_Some (fds w !! 0) → fds w !! (-1) = None →
  runs w0 bind_ip_main w (λ r w', fds w' = fds w ∧
    ((r = 0 ∧ outs w' = outs w ++ [listening; Printf "Connection accepted\n" []]) ∨
     (r = EXIT_FAILURE ∧ ∃ msg pre, outs w' = outs w ++ pre ++ [Perror msg] ∧ (pre = [] ∨ pre = [listening])))).
Proof.
  intros H0 Hneg. unfold bind_ip_main. step. eapply (runs_socket Henv).
  - intros r n Hr _. step; [lia|]. step. rewrite Hr. eapply (runs_dead Henv); [by left|done|].
    intros rb Hrb _. step; [|lia]. step. step. unfold close. step. step.
    eapply (runs_dead Henv); [right; by left|done|]. intros rc _ _. steps. split; [done|].
    right. split; [done|]. exists "bind failed"%string, []. split; [done|by left].
  - intros r Hr Hfd. step; [destruct H0 as [o Ho]; congruence|]. step.
    eapply (runs_sockcall Henv); [look|]. intros rb nb _ _. step.
    { steps. split; [by apply delete_insert_id|]. right. split; [done|].
      exists "bind failed"%string, []. split; [done|by left]. }
    step. eapply (runs_sockcall Henv); [look|]. intros rl nl _ _. step.
    { steps. split; [by apply delete_insert_id|]. right. split; [done|].
      exists "listen"%string, []. split; [done|by left]. }
    steps. eapply (runs_accept Henv); [look| |].
    { intros ra na Hra _. step; [|lia]. steps. split; [by apply delete_insert_id|]. right.
      split; [done|]. exists "accept"%string, [listening].
      split; [cbn; by rewrite <- app_assoc|by right]. }
    intros ra Hra Hfa. fresh_fds. step; [lia|]. steps. cbn. split; [|left].
    + rewrite delete_insert_id by look. by apply delete_insert_id.
    + split; [done|]. cbn. by rewrite <- app_assoc.
Qed.

(** ** [02_ephemeral_port.c] *)

Definition MAX_CONNECTION : Z := 20.

(** The port, or the status with which the program ends. *)
Definition get_ephemeral_port {e : Env} (server_port lfd : Z) : M trace (loop_exit Z) :=
  if server_port =? 0 then
    r ← sys (Sockcall "getsockname" lfd []);
    if r_ret r =? -1 then
      perror "getsockname: ";;
      mret (Returned EXIT_FAILURE)
    else mret (Left (ntohs (r_off r)))
  else mret (Left server_port).

Definition ephemeral_port_main {e : Env} (argv : list string) : M trace Z :=
  server_port ← (if 2 <=? zlen argv then atoi (default "" (head argv)) else mret 0);
  lfd ← sys Socket;
  let lfd := r_ret lfd in
  if lfd =? -1 then
    perror "create socket";;
    mret EXIT_FAILURE
  else
  sys (Sockcall "setsockopt" lfd [1]);;
  r ← sys (Sockcall "bind" lfd [htons server_port]);
  if r_ret r =? -1 then
    perror "bind: ";;
    mret EXIT_FAILURE
  else
  r ← sys (Sockcall "listen" lfd [MAX_CONNECTION]);
  if r_ret r =? -1 then
    perror "listen: ";;
    mret EXIT_FAILURE
  else
  after (get_ephemeral_port server_port lfd) (λ real_port,
    printf "port = %d\n" [AInt real_port];;
    mret 0).

(** The usage is [./server [port]], but the port is read from the name of the program:
    unless that starts with a number, arguments change nothing. *)
Lemma port_argument_ignored {e : Env} argv0 args tr :
  atoi (S := trace) argv0 tr = Ok (0, tr) → ephemeral_port_main (argv0 :: args) tr = ephemeral_port_main [argv0] tr.
Proof.
  intros Hat. unfold ephemeral_port_main. change (zlen [argv0]) with 1. cbn [Z.leb Z.compare].
  destruct (Z.leb_spec 2 (zlen (argv0 :: args))); [|done]. cbn [head default].
  by erewrite bind_Ok by exact Hat.
Qed.

(** The port that is printed is the one that the system has given to the socket. *)
Lemma ephemeral_port_printed {e : Env} {w0 : world} (Henv : legal_env w0) argv0 args w :
  (∀ tr, atoi (S := trace) argv0 tr = Ok (0, tr)) → is_Some (fds w !! 0) →
  runs w0 (ephemeral_port_main (argv0 :: args)) w (λ r w',
    (r = 0 ∧ ∃ port, outs w' = outs w ++ [Printf "port = %d\n" [AInt port]]) ∨
    (r = EXIT_FAILURE ∧ ∃ msg, outs w' = outs w ++ [Perror msg])).
Proof.
  intros Hat H0. eapply (runs_ext (ephemeral_port_main [argv0])); [intros tr; by apply port_argument_ignored|].
  unfold ephemeral_port_main. change (zlen [argv0]) with 1. step. step; [lia|]. step. step.
  eapply (runs_socket Henv).
  { intros r n Hr _. step; [|lia]. steps. right. split; [done|by eexists]. }
  intros r Hr Hfd. step; [lia|]. step. eapply (runs_sockcall Henv); [look|].
  intros rs ns _ _. step. eapply (runs_sockcall Henv); [look|]. intros rb nb _ _. step.
  { steps. right. split; [done|by eexists]. }
  step. eapply (runs_sockcall Henv); [look|]. intros rl nl _ _. step.
  { steps. right. split; [done|by eexists]. }
  step. unfold get_ephemeral_port. cbn [Z.eqb]. step. eapply (runs_sockcall Henv); [look|].
  intros rg ng _ _. step; steps; [right|left]; (split; [done|by eexists]).
Qed.

(** ** [03_tcp_socket_client.c] *)

(** [buf] without the newline at its end. *)
Definition chomp {S} (buf : buffer) : M S buffer :=
  s ← c_str buf;
  let len := zlen s in
  if 1 <=? len then
    c ← fetch buf (len - 1);
    if bool_decide (c = newline) then put buf (len - 1) "000"%char else mret buf
  else mret buf.

Definition tcp_client_main {e : Env} : M trace Z :=
  cfd ← sys Socket;
  let cfd := r_ret cfd in
  sys (Sockcall "connect" cfd [htons 8080]);;
  printf "please input a string: " [];;
  '(_, buf) ← fgets (new_buffer BUFSIZ) BUFSIZ;
  buf ← chomp buf;
  d ← c_str buf;
  sys (Write cfd d);;
  sys (Sockcall "shutdown" cfd [1]);;
  sys (Sleep 100);;
  mret 0.

(** The text of a line. *)
Definition strip (line : bytes) : bytes :=
  let s := upto_nul line in
  if bool_decide (last s = Some newline) then take (length s - 1) s else s.

Lemma chomp_ok line buf :
  zlen line < zlen buf →
  ∃ buf', (∀ tr : trace, chomp (fill buf (line ++ ["000"%char])) tr = Ok (buf', tr)) ∧
    ∀ tr : trace, c_str buf' tr = Ok (strip line, tr).
Proof.
  intros Hlt. destruct (upto_nul_split line) as (rest & Hsplit & Hnul).
  assert (∃ rest', fill buf (line ++ ["000"%char]) = (Val <$> upto_nul line) ++ Val "000"%char :: rest') as [rest' E].
  { unfold fill. rewrite Hsplit, fmap_app, fmap_cons, <- app_assoc. by eexists. }
  rewrite E. unfold chomp, strip. set (s := upto_nul line) in *.
  assert (∀ tr : trace, c_str ((Val <$> s) ++ Val "000"%char :: rest') tr = Ok (s, tr)) as Hs
    by (intros tr; by apply c_str_string).
  destruct (last s) as [c|] eqn:Hlast.
  - apply last_Some in Hlast as [s' Hs']. rewrite Hs' in *.
    assert (zlen (s' ++ [c]) - 1 = zlen s') as Hlen by (rewrite zlen_app, zlen_one; lia).
    assert ((1 <=? zlen (s' ++ [c])) = true) as Hle.
    { pose proof (zlen_nonneg s'). apply Z.leb_le. lia. }
    assert (zlookup ((Val <$> s' ++ [c]) ++ Val "000"%char :: rest') (zlen s') = Some (Val c)) as Hc.
    { apply zlookup_Some. split; [apply zlen_nonneg|]. rewrite fmap_app, <- app_assoc.
      rewrite lookup_app_r; rewrite length_fmap; unfold zlen; [|lia]. by rewrite Nat2Z.id, Nat.sub_diag. }
    case_bool_decide as Hnl.
    + injection Hnl as ->. exists ((Val <$> s') ++ Val "000"%char :: Val "000"%char :: rest'). split.
      * intros tr. erewrite bind_Ok by apply Hs. cbv zeta. rewrite Hle, Hlen. unfold fetch. rewrite Hc.
        unfold mbind, M_bind. rewrite use_Val. rewrite bool_decide_eq_true_2 by done.
        unfold put. rewrite zupdate_in by (by eapply zlookup_lt). unfold mret, M_ret. do 2 f_equal.
        rewrite fmap_app, <- app_assoc. replace (Z.to_nat (zlen s')) with (length (Val <$> s') + 0)%nat
          by (rewrite length_fmap; unfold zlen; lia). by rewrite insert_app_r.
      * intros tr. rewrite c_str_string by set_solver. do 2 f_equal.
        rewrite length_app, Nat.add_sub. by rewrite take_app_length.
    + exists ((Val <$> s' ++ [c]) ++ Val "000"%char :: rest'). split; [|exact Hs].
      intros tr. erewrite bind_Ok by apply Hs. cbv zeta. rewrite Hle, Hlen. unfold fetch. rewrite Hc.
      unfold mbind, M_bind. rewrite use_Val. rewrite bool_decide_eq_false_2; [done|]. congruence.
  - apply last_None in Hlast. rewrite Hlast in *. exists ((Val <$> []) ++ Val "000"%char :: rest').
    split; [|exact Hs]. intros tr. by erewrite bind_Ok by apply Hs.
Qed.

(** The line that the user types is sent without its newline; nothing is read. *)
Lemma client_sends_line {e : Env} {w0 : world} (Henv : legal_env w0) w :
  keyboard_in_use w0 BUFSIZ → sockets_available w0 → arrivals w ≠ O → is_Some (fds w !! 0) →
  runs w0 tcp_client_main w (λ r w', r = 0 ∧ ∃ cfd line out, written (full_writes w0) cfd (strip line) out ∧
    outs w' = outs w ++ [Printf "please input a string: " []; Received 0 line] ++ out).
Proof.
  intros Hkey Hsock Ha H0. unfold tcp_client_main. step.
  apply (runs_fact _ _ (λ r, 0 ≤ r_ret r)); [intros tr Htr; by eapply Hsock|].
  eapply (runs_socket Henv); [intros r k Hr _ Hr'; lia|]. intros r Hr Hfd _. step.
  eapply (runs_sockcall Henv); [look|]. intros rc nc _ _. steps.
  eapply (runs_fgets_line Henv); [done|done|]. intros line k _ Hlen _. cbn beta iota.
  destruct (chomp_ok line (new_buffer BUFSIZ)) as (buf' & Hchomp & Hstr).
  { rewrite zlen_new_buffer by done. lia. }
  step. eapply runs_pure; [exact Hchomp|]. step. eapply runs_pure; [exact Hstr|]. step.
  eapply (runs_written Henv); [cbn; apply lookup_insert_eq|done|].
  intros r1 w1 out Hw Hout Hf _. step. eapply (runs_sockcall Henv); [rewrite Hf; cbn; apply lookup_insert_eq|].
  intros r2 n2 _ _. step. apply (runs_sys Henv). intros r3 w3 Hw3. unfold posix_step in Hw3. simplify_eq.
  steps. split; [done|]. exists (r_ret r), line, out. split; [done|]. cbn. rewrite Hout. cbn.
  by rewrite <- !app_assoc.
Qed.

(** At the end of the input, [strlen] reads a buffer that nothing was stored into. *)
Lemma client_without_line {e : Env} buf (tr : trace) :
  buf = new_buffer BUFSIZ → chomp buf tr = UB Uninit.
Proof. by intros ->. Qed.

(** ** [04_tcp_socket_server.c] *)

(** The body of [while (1)]; [i] is [n], or 0 when [n] is negative. *)
Definition serve {e : Env} (cfd : Z) (buf : buffer) : M trace (ctl buffer unit) :=
  n ← sys (Read cfd BUFSIZ);
  buf ← upcase (r_ret n) (fill buf (stored n));
  let i := Z.max 0 (r_ret n) in
  buf ← put buf i "!"%char;
  s ← c_str buf;
  printf "recv a string: \n%s\n" [AStr s];;
  d ← contents_int buf (r_ret n + 1);
  sys (Write cfd d);;
  printf "\n" [];;
  mret (Next buf).

(** The first [n] rounds; a failed [accept] leaves the address of the client
    indeterminate. *)
Definition tcp_server_main {e : Env} (n : nat) (argv : list string) : M trace (option Z) :=
  match argv with
  | [_; argv1] =>
    server_port ← atoi argv1;
    lfd ← sys Socket;
    let lfd := r_ret lfd in
    sys (Sockcall "bind" lfd [htons server_port]);;
    sys (Sockcall "listen" lfd [128]);;
    cfd ← sys (Accept lfd);
    clie_addr ← use (if r_ret cfd <? 0 then Indet else Val (r_fds cfd));
    let cfd := r_ret cfd in
    printf "client IP: %s, client port: %d\n" [AStr (inet_ntop clie_addr.1); AInt (ntohs clie_addr.2)];;
    after_rounds (rounds n (serve cfd) (new_buffer BUFSIZ)) (λ _,
      close lfd;;
      close cfd;;
      mret 0)
  | _ =>
    printf "usage: ./a.out port\n" [];;
    mret (Some 0)
  end.

Lemma c_str_unterminated {S} (d : bytes) rest (s : S) :
  "000"%char ∉ d → c_str ((Val <$> d) ++ rest) s =
    match c_str rest s with Ok (x, s) => Ok (d ++ x, s) | UB u => UB u | Throw => Throw | NoFuel => NoFuel end.
Proof.
  induction d as [|c d IH]; intros Hd; [cbn; destruct (c_str rest s) as [[]| | |]; done|].
  apply not_elem_of_cons in Hd as [Hc Hd]. cbn. rewrite bool_decide_eq_false_2 by congruence.
  unfold mbind, M_bind. rewrite IH by done. by destruct (c_str rest s) as [[]| | |].
Qed.

(** Every first message breaks the server: [%s] runs on past the "!" into the part of
    the buffer that nothing was stored into, and for a message that fills the buffer the
    "!" itself is out of bounds. *)
Theorem first_message_undefined {e : Env} cfd (tr : trace) :
  let r := env tr (Read cfd BUFSIZ) in
  zlen (stored r) = Z.max 0 (r_ret r) → r_ret r ≤ BUFSIZ →
  forallb is_text (stored r) = true → "000"%char ∉ (upper <$> stored r) →
  serve cfd (new_buffer BUFSIZ) tr = UB (if BUFSIZ - 1 <=? r_ret r then OutOfBounds else Uninit).
Proof.
  intros r Hlen Hle Htext Hnul. unfold serve, sys, mbind at 1, M_bind at 1. fold r. clearbody r.
  set (d := upper <$> stored r) in *. set (buf := new_buffer BUFSIZ).
  assert (zlen buf = BUFSIZ) as Hbuf by (by apply zlen_new_buffer).
  assert (∀ s : trace, upcase (r_ret r) (fill buf (stored r)) s = Ok (fill buf d, s)) as Hup.
  { intros s. destruct (Z.ltb_spec (r_ret r) 0).
    - rewrite upcase_none by lia. unfold d, stored. by rewrite (proj2 (Z.ltb_lt _ _)).
    - replace (r_ret r) with (zlen (stored r)) by lia. by apply upcase_fill. }
  assert (Z.max 0 (r_ret r) = zlen d) as Hd by (unfold d, zlen in *; rewrite length_fmap; lia).
  erewrite bind_Ok by apply Hup. cbv zeta. rewrite Hd. unfold mbind at 1, M_bind at 1.
  destruct (decide (r_ret r = BUFSIZ)) as [Hfull|Hless].
  - rewrite (proj2 (Z.leb_le _ _)) by lia. unfold put, zupdate. rewrite bool_decide_eq_false_2; [done|].
    assert (0 < BUFSIZ) by done. rewrite length_fill by lia. lia.
  - rewrite put_after by (unfold BUFSIZ in *; lia). unfold mbind at 1, M_bind at 1.
    unfold fill. rewrite c_str_unterminated by set_solver.
    unfold buf, new_buffer. rewrite drop_replicate, length_app. change (length ["!"%char]) with 1%nat.
    destruct (Z.leb_spec (BUFSIZ - 1) (r_ret r)).
    + replace (Z.to_nat BUFSIZ - (length d + 1))%nat with O by (unfold BUFSIZ, zlen in *; lia). done.
    + replace (Z.to_nat BUFSIZ - (length d + 1))%nat
        with (Datatypes.S (Z.to_nat BUFSIZ - (length d + 2))) by (unfold BUFSIZ, zlen in *; lia). done.
Qed.

Lemma first_message_undefined_witness :
  serve (e := live_env [b "hi"] (set_arrivals 1 (set_fds {[4 := mkOF KSocket 0 []]} (boot ∅)))) 4
    (new_buffer BUFSIZ) [] = UB Uninit.
Proof.
  refine (first_message_undefined 4 [] _ _ _ _); [vm_compute; reflexivity|vm_compute; discriminate|vm_compute; reflexivity|].
  apply (bool_decide_eq_true_1 ("000"%char ∉ _)). vm_compute. reflexivity.
Defined.

(** ** [09_gethostbyname.c] *)

Definition gethostbyname_main {e : Env} : M trace Z :=
  sockfd ← sys Socket;
  let sockfd := r_ret sockfd in
  if sockfd <? 0 then
    perror "ERROR opening socket";;
    mret 1
  else
  server ← sys (Libcall "gethostbyname" []);
  if r_off server =? 0 then
    eprintf "ERROR, no such host\n" [];;
    mret 0
  else
  ret ← sys (Sockcall "connect" sockfd [htons 3306; r_off server]);
  if r_ret ret <? 0 then
    perror "ERROR connecting";;
    mret 1
  else
  printf "Connected to MySQL server\n" [];;
  close sockfd;;
  mret 0.

(** The status tells a failure from success, but for an unknown host: that ends with 0, like
    success, in which the descriptor is closed again. *)
Lemma connects_or_says_why {e : Env} {w0 : world} (Henv : legal_env w0) w :
  runs w0 gethostbyname_main w (λ r w', ∃ o, outs w' = outs w ++ [o] ∧
    ((r = 0 ∧ o = Printf "Connected to MySQL server\n" [] ∧ fds w' = fds w) ∨
     (r = 0 ∧ o = Eprintf "ERROR, no such host\n" []) ∨ (r = 1 ∧ ∃ msg, o = Perror msg))).
Proof.
  unfold gethostbyname_main. step. eapply (runs_socket Henv).
  { intros r n Hr _. step; [|lia]. steps. eexists. split; [done|]. right; right. eauto. }
  intros r Hr Hfd. step; [lia|]. step. eapply (runs_libcall Henv). intros rg _. step.
  { steps. eexists. split; [done|]. right; left. done. }
  step. eapply (runs_sockcall Henv); [look|]. intros rc nc _ _. step.
  { steps. eexists. split; [done|]. right; right. eauto. }
  steps. eexists. split; [done|]. left. split_and!; [done..|]. by apply delete_insert_id.
Qed.

