(* ===== verification/UdpDemos.v ===== *)
(** * [08_socket/05_udp_socket_client.c] and [06_udp_socket_server.c], and their exchange *)
From S2P Require Export SockLib.

Definition SERVER_PORT : Z := 8888.

(** ** [06_udp_socket_server.c] *)
Section program.
Context {e : Env}.

Definition SERVER_BUFF_LEN : Z := 1024.

(** [sprintf(buf, "I have recieved %d bytes data!\n", count)] into a cleared buffer *)
Definition reply_format : string := "I have recieved %d bytes data!\n".
Definition reply_args (count : Z) : list arg := [AInt count].
Definition reply_text (count : Z) : bytes := format (lit reply_format) (reply_args count).

(** The body of [while (1)]. *)
Definition answer_datagram (fd : Z) (_ : unit) : M trace (ctl unit unit) :=
  count ← sys (Recvfrom fd SERVER_BUFF_LEN);
  let buf := cleared SERVER_BUFF_LEN (stored count) in
  if r_ret count =? -1 then
    printf "recieve data fail!\n" [];;
    mret (Break tt)
  else
    s ← c_str buf;
    printf "client:%s\n" [AStr s];;
    let buf := cleared SERVER_BUFF_LEN (reply_text (r_ret count) ++ ["000"%char]) in
    s ← c_str buf;
    printf "server:%s\n" [AStr s];;
    d ← contents_int buf SERVER_BUFF_LEN;
    sys (Sendto fd d (r_off count));;
    mret (Next tt).

(** Up to [n] datagrams. *)
Definition udp_server_main (n : nat) : M trace (option Z) :=
  server_fd ← sys Socket;
  let server_fd := r_ret server_fd in
  if server_fd <? 0 then
    printf "create socket fail!\n" [];;
    mret (Some (-1))
  else
  ret ← sys (Sockcall "bind" server_fd [htons SERVER_PORT]);
  if r_ret ret <? 0 then
    printf "socket bind fail!\n" [];;
    mret (Some (-1))
  else
  after_rounds (rounds n (answer_datagram server_fd) tt) (λ _,
    close server_fd;;
    mret 0).
End program.
(** ** [05_udp_socket_client.c] *)
Section program.
Context {e : Env}.

Definition CLIENT_BUFF_LEN : Z := 512.
Definition message : bytes := lit "TEST UDP MSG!\n".

(** The body of [while (1)]: the initialiser of [buf] fills up with NULs. *)
Definition send_message (fd : Z) (_ : unit) : M trace (ctl unit unit) :=
  let buf := cleared CLIENT_BUFF_LEN message in
  s ← c_str buf;
  printf "client:%s\n" [AStr s];;
  d ← contents_int buf CLIENT_BUFF_LEN;
  sys (Sendto fd d (htons SERVER_PORT));;
  r ← sys (Recvfrom fd CLIENT_BUFF_LEN);
  s ← c_str (cleared CLIENT_BUFF_LEN (stored r));
  printf "server:%s\n" [AStr s];;
  sys (Sleep 1);;
  mret (Next tt).

Definition udp_msg_sender (n : nat) (fd : Z) : M trace (ctl unit unit) :=
  rounds n (send_message fd) tt.

(** The first [n] messages. *)
Definition udp_client_main (n : nat) : M trace (option Z) :=
  client_fd ← sys Socket;
  let client_fd := r_ret client_fd in
  if client_fd <? 0 then
    printf "create socket fail!\n" [];;
    mret (Some (-1))
  else
  after_rounds (udp_msg_sender n client_fd) (λ _,
    close client_fd;;
    mret 0).
End program.
(** ** What is logged *)

(** [d], and NULs up to [n] bytes. *)
Definition padded (n : Z) (d : bytes) : bytes := d ++ replicate (Z.to_nat n - length d) "000"%char.

Lemma cleared_contents n d (tr : trace) :
  zlen d ≤ n → contents_int (cleared n d) n tr = Ok (padded n d, tr).
Proof.
  intros Hd. pose proof (zlen_nonneg d). unfold cleared.
  assert (fill (zeroed n) d = fill (zeroed n) (padded n d)) as ->.
  { unfold fill, padded, zeroed. rewrite length_app, length_replicate, fmap_app, fmap_replicate, !drop_replicate.
    rewrite <- app_assoc. f_equal. rewrite <- replicate_add. f_equal. unfold zlen in *. lia. }
  assert (zlen (padded n d) = n) as Hlen.
  { unfold padded, zlen in *. rewrite length_app, length_replicate. lia. }
  pose proof (contents_int_fill (padded n d) (zeroed n) tr) as Hc. rewrite Hlen in Hc. apply Hc.
  unfold zlen, zeroed. rewrite length_replicate. lia.
Qed.

(** A NUL at the end is part of the padding. *)
Lemma padded_nul n d : zlen d < n → padded n (d ++ ["000"%char]) = padded n d.
Proof.
  intros Hd. unfold padded. rewrite <- app_assoc. f_equal.
  change (["000"%char] ++ ?l) with ("000"%char :: l). rewrite <- replicate_S. f_equal.
  rewrite length_app. unfold zlen in Hd. simpl. lia.
Qed.

(** What is known of the datagrams that are read into [n] bytes: they leave room for a
    NUL, or contain one; and, when that is asked for, they are not empty. *)
Definition datagrams {e : Env} (w0 : world) (n : Z) (F : reply → Prop) : Prop :=
  ∀ tr w fd o, replay w0 tr = Some w → fds w !! fd = Some o → of_kind o = KSocket →
    F (env tr (Recvfrom fd n)).
Definition strings_fit {e : Env} (w0 : world) (n : Z) : Prop :=
  datagrams w0 n (λ r, r_ret r < n ∨ "000"%char ∈ r_data r).
Definition none_empty {e : Env} (w0 : world) (n : Z) : Prop :=
  datagrams w0 n (λ r, r_ret r ≠ 0).

Lemma length_digits n : (length (digits n) ≤ Datatypes.S (Z.to_nat (Z.log2 n)))%nat.
Proof.
  unfold digits. assert (∀ fuel n acc, length (digits_loop fuel n acc) ≤ fuel + length acc)%nat as H.
  { induction fuel as [|fuel IH]; intros m acc; [done|]. cbn [digits_loop].
    case_match; [simpl; lia|]. etransitivity; [apply IH|]. simpl. lia. }
  etransitivity; [apply H|]. simpl. lia.
Qed.

Lemma digits_no_nul n : "000"%char ∉ digits n.
Proof.
  unfold digits. assert (∀ fuel n acc, "000"%char ∉ acc → "000"%char ∉ digits_loop fuel n acc) as H.
  { induction fuel as [|fuel IH]; intros m acc Hacc; [done|]. cbn [digits_loop].
    assert ("000"%char ∉ digit (m `mod` 10) :: acc) as Hacc'.
    { apply not_elem_of_cons. split; [|done]. unfold digit.
      assert (0 ≤ m `mod` 10 < 10) as Hm by lia. intros E.
      apply (f_equal N_of_ascii) in E. rewrite N_ascii_embedding in E by lia. cbn in E. lia. }
    case_match; [done|]. by apply IH. }
  apply H. set_solver.
Qed.

Lemma reply_text_eq count :
  reply_text count = lit "I have recieved " ++ show_int count ++ lit " bytes data!\n".
Proof. reflexivity. Qed.

(** What [sprintf] makes fits the buffer, and is read back whole. *)
Lemma reply_text_ok count :
  0 ≤ count ≤ SERVER_BUFF_LEN →
  zlen (reply_text count) < 100 ∧ upto_nul (reply_text count) = reply_text count.
Proof.
  intros Hc. rewrite reply_text_eq. unfold show_int.
  destruct (Z.ltb_spec count 0); [lia|]. split.
  - rewrite !zlen_app. change (zlen (lit "I have recieved ")) with 16. change (zlen (lit " bytes data!\n")) with 13.
    pose proof (length_digits count). unfold SERVER_BUFF_LEN in Hc.
    assert (Z.log2 count ≤ Z.log2 1024) by (apply Z.log2_le_mono; lia).
    change (Z.log2 1024) with 10 in *. unfold zlen. lia.
  - apply upto_nul_id. rewrite !not_elem_of_app. split_and!; [|apply digits_no_nul|];
      apply (bool_decide_eq_true_1 _); by vm_compute.
Qed.

Section proofs.
Context {e : Env} {w0 : world} (Henv : legal_env w0).
Abbreviation runs := (runs w0).

Lemma runs_sent fd data a o w (Q : reply → world → Prop) :
  fds w !! fd = Some o → of_kind o = KSocket →
  (∀ r w' out, written (full_sends w0) fd data out → outs w' = outs w ++ out → fds w' = fds w → Q r w') →
  runs (sys (Sendto fd data a)) w Q.
Proof.
  intros Ho Hk HQ. eapply (runs_datagram_out Henv); [exact Ho|exact Hk|..].
  - intros r n Hfull _. eapply HQ; [by apply written_none|by rewrite app_nil_r|done].
  - intros r. by eapply HQ; [by apply written_some|..].
Qed.

Lemma runs_datagram fd n o w (Q : reply → world → Prop) :
  0 < n → strings_fit w0 n → fds w !! fd = Some o → of_kind o = KSocket →
  (∀ r w', r_ret r = -1 → stored r = [] → outs w' = outs w → fds w' = fds w → Q r w') →
  (∀ r w', r_ret r = 0 → stored r = [] → ¬ none_empty w0 n → outs w' = outs w → fds w' = fds w → Q r w') →
  (∀ r w', stored r = r_data r → zlen (r_data r) = r_ret r → 0 < r_ret r ≤ n →
     (zlen (r_data r) < n ∨ "000"%char ∈ r_data r) →
     outs w' = outs w ++ [Received fd (r_data r)] → fds w' = fds w → Q r w') →
  runs (sys (Recvfrom fd n)) w Q.
Proof.
  intros Hn Hfit Ho Hk Hfail Hempty Hok.
  apply (runs_fact _ _ (λ r, (r_ret r < n ∨ "000"%char ∈ r_data r) ∧ (none_empty w0 n → r_ret r ≠ 0))).
  { intros tr Htr. split; [by eapply Hfit|]. intros Hne. by eapply Hne. }
  eapply (runs_recvfrom Henv); [exact Ho|exact Hk|..].
  - intros r k Hr _ _. apply Hfail; [done| |done..]. unfold stored. by rewrite Hr.
  - intros r Hr Hd [_ Hne]. apply Hempty; [done|unfold stored; by rewrite Hr| |done|done].
    intros H. by apply (Hne H).
  - intros r k Hr Hd Hk' [Hlt _]. apply Hok; [|done|lia| |done|done].
    + unfold stored. by rewrite (proj2 (Z.ltb_ge _ _)) by lia.
    + destruct Hlt; [left; lia|by right].
Qed.

(** ** The server *)

(** The answer to [count] bytes [d]. *)
Definition answer_to (d : bytes) (count : Z) : list output :=
  [Printf "client:%s\n" [AStr (upto_nul d)]; Printf "server:%s\n" [AStr (reply_text count)]].
Definition reply_datagram (count : Z) : bytes := padded SERVER_BUFF_LEN (reply_text count).

(** A datagram is shown and answered; or receiving has failed, and the server stops. *)
Inductive served (full nonempty : Prop) (fd : Z) : list output → Prop :=
| served_answer d out :
    written full fd (reply_datagram (zlen d)) out →
    served full nonempty fd (Received fd d :: answer_to d (zlen d) ++ out)
| served_empty out :
    ¬ nonempty → written full fd (reply_datagram 0) out →
    served full nonempty fd (answer_to [] 0 ++ out)
| served_failure : served full nonempty fd [Printf "recieve data fail!\n" []].

(** The part of a round after a datagram has come. *)
Lemma answer_ok fd (r : reply) w (Q : ctl unit unit → world → Prop) :
  fds w !! fd = Some (mkOF KSocket 0 []) → 0 ≤ r_ret r ≤ SERVER_BUFF_LEN →
  (∀ w' out, written (full_sends w0) fd (reply_datagram (r_ret r)) out → fds w' = fds w →
     outs w' = outs w ++ [Printf "server:%s\n" [AStr (reply_text (r_ret r))]] ++ out → Q (Next tt) w') →
  runs (let buf := cleared SERVER_BUFF_LEN (reply_text (r_ret r) ++ ["000"%char]) in
        s ← c_str buf;
        printf "server:%s\n" [AStr s];;
        d ← contents_int buf SERVER_BUFF_LEN;
        sys (Sendto fd d (r_off r));;
        mret (Next tt)) w Q.
Proof.
  intros Ho Hr HQ. destruct (reply_text_ok (r_ret r)) as [Hlen Hnul]; [done|]. cbv zeta. step.
  eapply runs_pure; [intros tr; apply c_str_terminated|]. rewrite Hnul. steps.
  eapply runs_pure.
  { intros tr. apply cleared_contents. rewrite zlen_app, zlen_one. unfold SERVER_BUFF_LEN. lia. }
  rewrite padded_nul by (unfold SERVER_BUFF_LEN; lia). step.
  eapply runs_sent; [cbn; exact Ho|done|]. intros r2 w2 out Hw Hout2 Hf2. step.
  apply (HQ _ out); [done..|]. rewrite Hout2. cbn. by rewrite <- app_assoc.
Qed.

Lemma answer_datagram_ok fd w :
  strings_fit w0 SERVER_BUFF_LEN → fds w !! fd = Some (mkOF KSocket 0 []) →
  runs (answer_datagram fd tt) w (λ c w', match c with
    | Return _ => False
    | _ => fds w' = fds w ∧ ∃ g, served (full_sends w0) (none_empty w0 SERVER_BUFF_LEN) fd g ∧
        outs w' = outs w ++ g end).
Proof.
  intros Hfit Ho. unfold answer_datagram. step.
  eapply runs_datagram; [|exact Hfit|exact Ho|done|..]; [done|..].
  - intros r w' Hr _ Hout Hf. cbv zeta. step; [|lia]. steps. split; [done|].
    eexists. split; [apply served_failure|]. cbn. by rewrite Hout.
  - intros r w' Hr Hd Hne Hout Hf. cbv zeta. step; [lia|]. step.
    rewrite Hd.
    eapply runs_pure; [intros tr; apply cleared_string; [done|by left]|]. step. step.
    apply answer_ok; [cbn; by rewrite Hf|rewrite Hr; done|]. intros w2 out Hw Hf2 Hout2. rewrite Hr in *.
    split; [by rewrite Hf2|]. eexists. split; [by apply served_empty|].
    rewrite Hout2. cbn. by rewrite Hout, <- !app_assoc.
  - intros r w' Hst Hd Hr Hs Hout Hf. cbv zeta. step; [lia|]. step. rewrite Hst.
    eapply runs_pure; [intros tr; apply cleared_string; [lia|done]|]. step. step.
    apply answer_ok; [cbn; by rewrite Hf|lia|]. intros w2 out Hw Hf2 Hout2. rewrite <- Hd in *.
    split; [by rewrite Hf2|]. eexists. split; [by apply served_answer|].
    rewrite Hout2. cbn. by rewrite Hout, <- !app_assoc.
Qed.

Lemma answer_rounds_ok fd n w :
  strings_fit w0 SERVER_BUFF_LEN → fds w !! fd = Some (mkOF KSocket 0 []) →
  runs (rounds n (answer_datagram fd) tt) w (λ c w', match c with
    | Return _ => False
    | _ => fds w' = fds w ∧ ∃ l, log (served (full_sends w0) (none_empty w0 SERVER_BUFF_LEN) fd) l ∧
        outs w' = outs w ++ l end).
Proof.
  intros Hfit Ho. eapply (runs_rounds (λ _ w1, fds w1 = fds w ∧
    ∃ l, log (served (full_sends w0) (none_empty w0 SERVER_BUFF_LEN) fd) l ∧ outs w1 = outs w ++ l)).
  { split; [done|]. exists []. split; [constructor|by rewrite app_nil_r]. }
  { done. }
  intros [] w1 (Hf1 & l & Hl & Hout). eapply runs_mono; [apply answer_datagram_ok; [done|by rewrite Hf1]|].
  intros [[]|[]|z] w2; [| |done]; intros (Hf2 & g & Hg & Hout2);
    (split; [congruence|]; exists (l ++ g); split; [apply log_app; [done|by apply log_one]|];
     by rewrite Hout2, Hout, <- app_assoc).
Qed.

(** The server answers every datagram with its length, until receiving fails. *)
Lemma udp_server_answers n w :
  strings_fit w0 SERVER_BUFF_LEN →
  runs (udp_server_main n) w (λ r w', match r with
    | Some (-1) => ∃ msg, outs w' = outs w ++ [Printf msg []]
    | _ => (r = None ∨ (r = Some 0 ∧ fds w' = fds w)) ∧
        ∃ fd l, log (served (full_sends w0) (none_empty w0 SERVER_BUFF_LEN) fd) l ∧ outs w' = outs w ++ l
    end).
Proof.
  intros Hfit. unfold udp_server_main. step. eapply (runs_socket Henv).
  { intros r k Hr _. step; [|lia]. steps. by eexists. }
  intros r Hr Hfd. step; [lia|]. step. eapply (runs_sockcall Henv); [look|]. intros rb nb _ _.
  step; [steps; by eexists|]. step. eapply runs_mono; [apply answer_rounds_ok; [done|look]|].
  intros [[]|[]|z] w1; [| |done]; intros (Hf1 & l & Hl & Hout).
  - split; [by left|]. by exists (r_ret r), l.
  - steps; [rewrite Hf1; look|]. split; [right; split; [done|]|by exists (r_ret r), l].
    cbn. rewrite Hf1. cbn. by apply delete_insert_id.
Qed.

(** ** The client *)

Definition message_datagram : bytes := padded CLIENT_BUFF_LEN message.

(** A message, and what came back: a datagram, or nothing. *)
Inductive messaged (full : Prop) (fd : Z) : list output → Prop :=
| messaged_reply d out :
    written full fd message_datagram out →
    messaged full fd (Printf "client:%s\n" [AStr message] :: out ++
      [Received fd d; Printf "server:%s\n" [AStr (upto_nul d)]])
| messaged_nothing out :
    written full fd message_datagram out →
    messaged full fd (Printf "client:%s\n" [AStr message] :: out ++ [Printf "server:%s\n" [AStr []]]).

Lemma send_datagram_ok fd w :
  strings_fit w0 CLIENT_BUFF_LEN → fds w !! fd = Some (mkOF KSocket 0 []) →
  runs (send_message fd tt) w (λ c w', match c with
    | Next _ => fds w' = fds w ∧ ∃ g, messaged (full_sends w0) fd g ∧ outs w' = outs w ++ g
    | _ => False end).
Proof.
  intros Hfit Ho. unfold send_message. cbv zeta. step.
  eapply runs_pure; [intros tr; apply cleared_string; [done|by left]|].
  change (upto_nul message) with message. steps.
  eapply runs_pure; [intros tr; by apply cleared_contents|]. step.
  eapply runs_sent; [cbn; exact Ho|done|]. intros r1 w1 out Hw Hout1 Hf1. step.
  assert (∀ (s : bytes) w2 x, outs w2 = outs w1 ++ x → fds w2 = fds w1 →
    messaged (full_sends w0) fd (Printf "client:%s\n" [AStr message] :: out ++ x ++ [Printf "server:%s\n" [AStr s]]) →
    runs (printf "server:%s\n" [AStr s];; sys (Sleep 1);; mret (Next (B := unit) tt)) w2 (λ c w', match c with
      | Next _ => fds w' = fds w ∧ ∃ g, messaged (full_sends w0) fd g ∧ outs w' = outs w ++ g
      | _ => False end)) as Hend.
  { intros s w2 x Hx Hf2 Hm. step. step. step. apply (runs_sys Henv). intros r3 w3 Hw3.
    unfold posix_step in Hw3. simplify_eq. step. cbn. split; [by rewrite Hf2, Hf1|]. eexists.
    split; [exact Hm|]. rewrite Hx, Hout1. cbn. by rewrite <- !app_assoc. }
  eapply runs_datagram; [|exact Hfit|rewrite Hf1; exact Ho|done|..]; [done|..].
  - intros r w2 _ Hst Hout Hf. rewrite Hst. step.
    eapply runs_pure; [intros tr; apply cleared_string; [done|by left]|].
    apply (Hend _ _ []); [by rewrite app_nil_r|done|by apply messaged_nothing].
  - intros r w2 _ Hst _ Hout Hf. rewrite Hst. step.
    eapply runs_pure; [intros tr; apply cleared_string; [done|by left]|].
    apply (Hend _ _ []); [by rewrite app_nil_r|done|by apply messaged_nothing].
  - intros r w2 Hst Hd Hr Hs Hout Hf. rewrite Hst. step.
    eapply runs_pure; [intros tr; apply cleared_string; [lia|done]|].
    apply (Hend _ _ [Received fd (r_data r)]); [done|done|by apply messaged_reply].
Qed.

(** The rounds of the client, which nothing ends. *)
Lemma udp_msg_sender_ok fd n w :
  strings_fit w0 CLIENT_BUFF_LEN → fds w !! fd = Some (mkOF KSocket 0 []) →
  runs (udp_msg_sender n fd) w (λ c w', match c with
    | Next _ => fds w' = fds w ∧ ∃ l, log (messaged (full_sends w0) fd) l ∧ outs w' = outs w ++ l
    | _ => False end).
Proof.
  intros Hfit Ho. unfold udp_msg_sender. eapply (runs_rounds (λ _ w1, fds w1 = fds w ∧
    ∃ l, log (messaged (full_sends w0) fd) l ∧ outs w1 = outs w ++ l)).
  { split; [done|]. exists []. split; [constructor|by rewrite app_nil_r]. }
  { done. }
  intros [] w1 (Hf1 & l & Hl & Hout). eapply runs_mono; [apply send_datagram_ok; [done|by rewrite Hf1]|].
  intros [[]|[]|z] w2; [|done..]. intros (Hf2 & g & Hg & Hout2). split; [congruence|]. exists (l ++ g).
  split; [apply log_app; [done|by apply log_one]|]. by rewrite Hout2, Hout, <- app_assoc.
Qed.

Lemma udp_client_sends n w :
  strings_fit w0 CLIENT_BUFF_LEN →
  runs (udp_client_main n) w (λ r w', match r with
    | Some z => z = -1 ∧ outs w' = outs w ++ [Printf "create socket fail!\n" []]
    | None => ∃ fd l, log (messaged (full_sends w0) fd) l ∧ outs w' = outs w ++ l
    end).
Proof.
  intros Hfit. unfold udp_client_main. step. eapply (runs_socket Henv).
  { intros r k Hr _. step; [|lia]. by steps. }
  intros r Hr Hfd. step; [lia|]. step. eapply runs_mono; [apply udp_msg_sender_ok; [done|look]|].
  intros [[]|[]|z] w1; [|done..]. intros (_ & l & Hl & Hout). by exists (r_ret r), l.
Qed.
End proofs.

(** ** The exchange *)

(** An entry of a log is in one of its groups. *)
Lemma log_elem G l x : log G l → x ∈ l → ∃ g, G g ∧ x ∈ g ∧ g ⊆ l.
Proof.
  induction 1 as [|g l Hg _ IH]; [set_solver|]. intros [Hx|Hx]%elem_of_app.
  - exists g. split_and!; [done..|set_solver].
  - destruct (IH Hx) as (g' & ? & ? & ?). exists g'. split_and!; [done..|set_solver].
Qed.

Lemma written_sent (full : Prop) fd k data d out :
  full → written full fd data out → Sent k d ∈ out → d = data.
Proof.
  intros Hfull [d' _ Hd'|]; [|set_solver]. intros ?%list_elem_of_singleton. simplify_eq. by apply Hd'.
Qed.

Lemma written_only (full : Prop) fd data out o :
  written full fd data out → o ∈ out → ∃ d, o = Sent fd d.
Proof. intros [d' _ _|]; [|set_solver]. intros ->%list_elem_of_singleton. by eexists. Qed.

Lemma served_sent (full nonempty : Prop) fd k d l :
  full → nonempty → log (served full nonempty fd) l → Sent k d ∈ l →
  ∃ d', Received fd d' ∈ l ∧ d = reply_datagram (zlen d').
Proof.
  intros Hfull Hne Hl Hin. destruct (log_elem _ _ _ Hl Hin) as (g & Hg & Hing & Hsub).
  destruct Hg as [d' out Hw|out Hno _|]; [|done|set_solver].
  exists d'. split; [set_solver|]. eapply (written_sent full); [exact Hfull|exact Hw|].
  by repeat (apply elem_of_cons in Hing as [Hing|Hing]; [done|]).
Qed.

Lemma messaged_sent (full : Prop) fd k d l :
  full → log (messaged full fd) l → Sent k d ∈ l → d = message_datagram.
Proof.
  intros Hfull Hl Hin. destruct (log_elem _ _ _ Hl Hin) as (g & Hg & Hing & Hsub).
  destruct Hg as [d' out Hw|out Hw]; (eapply (written_sent full); [exact Hfull|exact Hw|]);
    apply elem_of_cons in Hing as [Hing|Hing]; try done; apply elem_of_app in Hing as [Hing|Hing]; try done;
    by repeat (apply elem_of_cons in Hing as [Hing|Hing]; [done|]); apply elem_of_nil in Hing.
Qed.

Lemma messaged_shown (full : Prop) fd s l :
  log (messaged full fd) l → Printf "server:%s\n" [AStr s] ∈ l →
  s = [] ∨ ∃ d, Received fd d ∈ l ∧ s = upto_nul d.
Proof.
  intros Hl Hin. destruct (log_elem _ _ _ Hl Hin) as (g & Hg & Hing & Hsub).
  destruct Hg as [d out Hw|out Hw]; apply elem_of_cons in Hing as [Hing|Hing]; [done| |done|];
    apply elem_of_app in Hing as [Hing|Hing]; try (destruct (written_only _ _ _ _ _ Hw Hing); done).
  - right. exists d. split; [set_solver|].
    apply elem_of_cons in Hing as [Hing|Hing%list_elem_of_singleton]; [done|]. by simplify_eq.
  - left. apply list_elem_of_singleton in Hing. by simplify_eq.
Qed.

Section exchange.
Context (es ec : Env) (ws wc : world).
Context (Hes : @legal_env es ws) (Hec : @legal_env ec wc).
Context (Hfs : @strings_fit es ws SERVER_BUFF_LEN) (Hfc : @strings_fit ec wc CLIENT_BUFF_LEN).
Context (Hne : @none_empty es ws SERVER_BUFF_LEN) (Hss : @full_sends es ws) (Hsc : @full_sends ec wc).

(** The client sends [m] messages and the server answers [n] datagrams; neither does
    anything undefined. Datagrams may be lost, repeated and reordered, and are cut to the
    buffers that they are read into; but if each that arrives was sent by the other side, then all that
    the client ever shows of its server is that 512 bytes have been received, or nothing. *)
Theorem client_shows_replies fd sfd n m :
  fds ws !! fd = Some (mkOF KSocket 0 []) → outs ws = [] →
  fds wc !! sfd = Some (mkOF KSocket 0 []) → outs wc = [] →
  ∃ cs ts ws' cc tc wc',
    rounds n (answer_datagram (e := es) fd) tt [] = Ok (cs, ts) ∧ replay ws ts = Some ws' ∧
    udp_msg_sender (e := ec) m sfd [] = Ok (cc, tc) ∧ replay wc tc = Some wc' ∧
    ((∀ d, Received fd d ∈ outs ws' → ∃ d', Sent sfd d' ∈ outs wc' ∧ d = take (Z.to_nat SERVER_BUFF_LEN) d') →
     (∀ d, Received sfd d ∈ outs wc' → ∃ d', Sent fd d' ∈ outs ws' ∧ d = take (Z.to_nat CLIENT_BUFF_LEN) d') →
     ∀ s, Printf "server:%s\n" [AStr s] ∈ outs wc' → s = [] ∨ s = lit "I have recieved 512 bytes data!\n").
Proof.
  intros Hfd Hos Hsfd Hoc.
  destruct (answer_rounds_ok Hes fd n ws Hfs Hfd [] eq_refl) as (cs & ts & ws' & Hrs & Hws & Hls).
  destruct (udp_msg_sender_ok Hec sfd m wc Hfc Hsfd [] eq_refl) as (cc & tc & wc' & Hrc & Hwc & Hlc).
  exists cs, ts, ws', cc, tc, wc'. split_and!; [done..|]. intros Hup Hdown s Hin.
  assert (log (served (@full_sends es ws) (@none_empty es ws SERVER_BUFF_LEN) fd) (outs ws')) as Hs.
  { destruct cs; try done; destruct Hls as (_ & l & Hl & ->); by rewrite Hos. }
  assert (log (messaged (@full_sends ec wc) sfd) (outs wc')) as Hc.
  { destruct cc; try done; destruct Hlc as (_ & l & Hl & ->); by rewrite Hoc. }
  destruct (messaged_shown _ _ _ _ Hc Hin) as [->|(d & Hd & ->)]; [by left|right].
  destruct (Hdown _ Hd) as (d1 & Hd1 & ->). destruct (served_sent _ _ _ _ _ _ Hss Hne Hs Hd1) as (d2 & Hd2 & ->).
  destruct (Hup _ Hd2) as (d3 & Hd3 & ->). rewrite (messaged_sent _ _ _ _ _ Hsc Hc Hd3).
  by vm_compute.
Qed.
End exchange.

(** ** The exchange on small systems *)

Lemma live_datagrams inputs w0 n (F : reply → Prop) :
  0 < n → inputs ≠ [] → F (mkReply (-1) EAGAIN [] 0 (-1, -1) [] []) →
  Forall (λ d, F (answer (Z.min n (zlen d)) (take (Z.to_nat n) d) 0)) inputs →
  datagrams (e := live_env inputs w0) w0 n F.
Proof.
  intros Hn Hne Hnone Hin tr w fd o Htr Ho Hk. rewrite (live_answer inputs w0 tr w _ Htr).
  - unfold live. case_bool_decide as Ha; [done|].
    rewrite Forall_forall in Hin. by apply Hin, next_input_in.
  - unfold posix_step, live, on_fd. rewrite Ho. case_bool_decide as Ha; [by eexists|].
    cbn -[Z.min]. set (d := next_input _ _). pose proof (zlen_nonneg d).
    destruct (Z.ltb_spec (Z.min n (zlen d)) 0); [lia|]. rewrite bool_decide_eq_true_2 by done.
    unfold arrive. rewrite (proj2 (Z.leb_le _ _)) by lia. rewrite (proj2 (Z.eqb_eq _ _)).
    2: { unfold zlen in *. rewrite length_take. lia. }
    cbn [andb]. case_match; [by eexists|]. destruct (arrivals w); [done|by eexists].
Qed.

Definition udp_world : world := set_arrivals 1 (set_fds {[3 := mkOF KSocket 0 []]} (boot ∅)).
Definition reply_512 : bytes := reply_datagram 512.

Definition text_512 : bytes := lit "I have recieved 512 bytes data!\n".
Definition server_log : list output :=
  [Received 3 message_datagram; Printf "client:%s\n" [AStr message];
   Printf "server:%s\n" [AStr text_512]; Sent 3 reply_512].
Definition client_log : list output :=
  [Printf "client:%s\n" [AStr message]; Sent 3 message_datagram;
   Received 3 (take 512 reply_512); Printf "server:%s\n" [AStr text_512]].

Lemma received_first fd d x (l : list output) :
  Received fd d ∈ Received fd x :: l → forallb (λ o, negb (arrival o)) l = true → d = x.
Proof.
  intros [Hd|Hd]%elem_of_cons Hl; [by simplify_eq|]. apply list_elem_of_In in Hd.
  by apply (proj1 (forallb_forall _ _) Hl) in Hd.
Qed.

Lemma client_shows_replies_witness :
  ∃ cc tc wc', udp_msg_sender (e := live_env [reply_512] udp_world) 1 3 [] = Ok (cc, tc) ∧
    replay udp_world tc = Some wc' ∧ outs wc' = client_log ∧
    ∀ s, Printf "server:%s\n" [AStr s] ∈ client_log → s = [] ∨ s = text_512.
Proof.
  destruct (client_shows_replies (live_env [message_datagram] udp_world) (live_env [reply_512] udp_world)
    udp_world udp_world (live_env_legal _ _) (live_env_legal _ _)
    ltac:(apply live_datagrams; [done|done|by left|repeat constructor; by left])
    ltac:(apply live_datagrams; [done|done|by left|repeat constructor; right; apply (bool_decide_eq_true_1 _); by vm_compute])
    ltac:(apply live_datagrams; [done|done|done|repeat constructor; done])
    (live_sends _ _) (live_sends _ _) 3 3 1 1 eq_refl eq_refl eq_refl eq_refl)
    as (cs & ts & ws' & cc & tc & wc' & Hrs & Hws & Hrc & Hwc & Hall).
  assert (outs ws' = server_log) as Hs by (eapply log_of_run; [exact Hrs|exact Hws|by vm_compute]).
  assert (outs wc' = client_log) as Hc by (eapply log_of_run; [exact Hrc|exact Hwc|by vm_compute]).
  exists cc, tc, wc'. split; [exact Hrc|]. split; [exact Hwc|]. split; [exact Hc|].
  rewrite Hs, Hc in Hall. apply Hall; intros d Hd.
  - exists message_datagram. split; [by apply (list_elem_of_lookup_2 _ 1)|].
    rewrite (received_first 3 d message_datagram _ Hd eq_refl). by vm_compute.
  - exists reply_512. split; [by apply (list_elem_of_lookup_2 _ 3)|].
    apply elem_of_cons in Hd as [Hd|Hd]; [done|]. apply elem_of_cons in Hd as [Hd|Hd]; [done|].
    rewrite (received_first 3 d (take 512 reply_512) _ Hd eq_refl). by vm_compute.
Defined.
