(* ===== verification/UnixDemos.v ===== *)
(** * [08_socket/07_uds_socket_client.c] and [08_uds_socket_server.c], and their session *)
From S2P Require Export UpperClient.

#[local] Arguments Z.eqb : simpl never.

Definition BUFFER_SIZE : Z := 256.
Definition LISTENQ : Z := 5.

(** ** [07_uds_socket_client.c] *)
Section program.
Context {e : Env}.

(** [bzero(buf, sizeof(BUFFER_SIZE))]: the size is that of an [int]. *)
Definition bzero_int (buf : buffer) : buffer := fill buf (replicate 4 "000"%char).

(** The body of [while (1)]. *)
Definition type_line (sockfd : Z) (buf : buffer) : M trace (ctl buffer unit) :=
  printf ">> " [];;
  '(got, buf) ← fgets (bzero_int buf) BUFFER_SIZE;
  if (got : bool) then
    d ← c_str buf;
    sys (Write sockfd d);;
    mret (Next buf)
  else mret (Break tt).

Definition unix_client_main (fuel : nat) : M trace Z :=
  sockfd ← sys Socket;
  let sockfd := r_ret sockfd in
  sys (Sockcall "connect" sockfd []);;
  after (loop fuel (type_line sockfd) (new_buffer BUFFER_SIZE)) (λ _,
    close sockfd;;
    mret 0).
End program.
(** ** [08_uds_socket_server.c] *)
Section program.
Context {e : Env}.

(** The body of [while (1)]: only the end of the input ends the loop. *)
Definition receive (connfd : Z) (_ : unit) : M trace (ctl unit unit) :=
  r ← sys (Read connfd BUFFER_SIZE);
  if r_ret r =? 0 then mret (Break tt)
  else
    s ← c_str (fill (zeroed BUFFER_SIZE) (stored r));
    printf "Receive: %s" [AStr s];;
    mret (Next tt).

Definition unix_server_main (fuel : nat) : M trace Z :=
  listenfd ← sys Socket;
  let listenfd := r_ret listenfd in
  if -1 =? listenfd then
    perror "socket";;
    mret EXIT_FAILURE
  else
  sys (Libcall "unlink" []);;
  r ← sys (Sockcall "bind" listenfd []);
  if -1 =? r_ret r then
    perror "bind";;
    mret EXIT_FAILURE
  else
  sys (Sockcall "listen" listenfd [LISTENQ]);;
  connfd ← sys (Accept listenfd);
  let connfd := r_ret connfd in
  if -1 =? connfd then
    perror "accept";;
    mret EXIT_FAILURE
  else
  after (loop fuel (receive connfd) tt) (λ _,
    close listenfd;;
    close connfd;;
    sys (Libcall "unlink" []);;
    mret 0).
End program.
(** ** The client *)

(** What the client logs for a line, and at the end of the input. *)
Inductive prompted (full : Prop) (fd : Z) : list output → Prop :=
| prompted_line line out : written full fd (upto_nul line) out →
    prompted full fd (Printf ">> " [] :: Received STDIN_FILENO line :: out).

Section client.
Context {e : Env} {w0 : world} (Henv : legal_env w0).
Abbreviation runs := (runs w0).

Lemma type_line_ok sockfd buf w :
  fds w !! sockfd = Some (mkOF KSocket 0 []) → zlen buf = BUFFER_SIZE →
  runs (type_line sockfd buf) w (λ c w', fds w' = fds w ∧ match c with
    | Next buf' => zlen buf' = BUFFER_SIZE ∧ (arrivals w' < arrivals w)%nat ∧
        ∃ g, prompted (full_writes w0) sockfd g ∧ outs w' = outs w ++ g
    | Break _ => outs w' = outs w ++ [Printf ">> " []]
    | Return _ => False end).
Proof.
  intros Ho Hbuf. unfold type_line. step. step. step.
  assert (zlen (bzero_int buf) = BUFFER_SIZE) as Hz.
  { unfold bzero_int. rewrite length_fill; [done|]. rewrite Hbuf. done. }
  eapply (runs_gets Henv).
  - steps. done.
  - steps. done.
  - intros line k _ Hlen Hk. cbn iota beta. step.
    eapply runs_pure; [intros tr; apply c_str_terminated|]. step.
    eapply (runs_written Henv); [cbn; exact Ho|done|]. intros r w' out Hw Hout Hf Ha. step.
    split; [done|]. split.
    { rewrite length_fill; rewrite ?zlen_app, ?zlen_one; lia. }
    split; [cbn in *; lia|]. eexists. split; [by apply (prompted_line _ _ line out)|].
    rewrite Hout. cbn. by rewrite <- !app_assoc.
Qed.

Lemma client_loop_ok fuel sockfd buf w :
  fds w !! sockfd = Some (mkOF KSocket 0 []) → zlen buf = BUFFER_SIZE → (arrivals w < fuel)%nat →
  runs (loop fuel (type_line sockfd) buf) w (λ x w', match x with
    | Left _ => fds w' = fds w ∧ ∃ l, log (prompted (full_writes w0) sockfd) l ∧
        outs w' = outs w ++ l ++ [Printf ">> " []]
    | Returned _ => False end).
Proof.
  intros Ho Hbuf Hfuel. eapply (runs_loop (λ buf w1, zlen buf = BUFFER_SIZE ∧ fds w1 = fds w ∧
      ∃ l, log (prompted (full_writes w0) sockfd) l ∧ outs w1 = outs w ++ l) (λ _ w1, arrivals w1)).
  { split_and!; [done..|]. exists []. split; [constructor|by rewrite app_nil_r]. }
  { done. }
  intros buf1 w1 (Hb & Hf1 & l & Hl & Hout). eapply runs_mono; [apply type_line_ok; [by rewrite Hf1|done]|].
  intros [buf2|[]|z] w2 [Hf2 H]; [| |done].
  - destruct H as (Hb2 & Ha & g & Hg & Ho2). split; [|done]. split_and!; [done|congruence|].
    exists (l ++ g). rewrite Ho2, Hout, <- app_assoc. split; [|done]. apply log_app; [done|by apply log_one].
  - split; [congruence|]. exists l. by rewrite H, Hout, <- app_assoc.
Qed.

(** The client sends every line until the input ends, and closes its socket. *)
Lemma unix_client_sends fuel w :
  sockets_available w0 → (arrivals w < fuel)%nat →
  runs (unix_client_main fuel) w (λ r w', r = 0 ∧ fds w' = fds w ∧
    ∃ fd l, log (prompted (full_writes w0) fd) l ∧ outs w' = outs w ++ l ++ [Printf ">> " []]).
Proof.
  intros Hsock Hfuel. unfold unix_client_main. step.
  apply (runs_fact _ _ (λ r, 0 ≤ r_ret r)); [intros tr Htr; by eapply Hsock|].
  eapply (runs_socket Henv); [intros r k Hr _ Hr'; lia|]. intros r Hr Hfd _. step.
  eapply (runs_sockcall Henv); [look|]. intros rc nc _ _. step.
  eapply runs_mono; [apply client_loop_ok; [look|by apply zlen_new_buffer|done]|].
  intros [[]|z] w1; [|done]. intros (Hf1 & l & Hl & Hout). steps; [rewrite Hf1; look|].
  split; [done|]. split; [cbn; rewrite Hf1; by apply delete_insert_id|]. by exists (r_ret r), l.
Qed.
End client.

(** ** The server *)

(** Chunks that are read do not fail, and do not fill the buffer unless they contain a NUL. *)
Definition chunks_fit {e : Env} (w0 : world) : Prop :=
  socket_reads w0 BUFFER_SIZE (λ r, r_ret r ≠ -1 ∧ (r_ret r < BUFFER_SIZE ∨ "000"%char ∈ r_data r)).

Inductive displayed (fd : Z) : list output → Prop :=
| displayed_chunk d : displayed fd [Received fd d; Printf "Receive: %s" [AStr (upto_nul d)]].

Section server.
Context {e : Env} {w0 : world} (Henv : legal_env w0).
Abbreviation runs := (runs w0).

Lemma receive_ok connfd w :
  chunks_fit w0 → fds w !! connfd = Some (mkOF KSocket 0 []) →
  runs (receive connfd tt) w (λ c w', fds w' = fds w ∧ match c with
    | Next _ => (arrivals w' < arrivals w)%nat ∧ ∃ g, displayed connfd g ∧ outs w' = outs w ++ g
    | Break _ => outs w' = outs w
    | Return _ => False end).
Proof.
  intros Hfit Ho. unfold receive. step.
  eapply (runs_recv_fact Henv); [exact Hfit|by intros r []|exact Ho|done|..].
  - intros r Hr _. step; [|lia]. by step.
  - intros r k Hr Hd [_ Hs] Hk. step; [lia|]. step.
    assert (stored r = r_data r) as -> by (unfold stored; by rewrite (proj2 (Z.ltb_ge _ _)) by lia).
    eapply runs_pure; [intros tr; apply cleared_string; [lia|destruct Hs; [left; lia|by right]]|].
    steps. split; [done|]. split; [cbn; lia|]. eexists. split; [apply displayed_chunk|].
    cbn. by rewrite <- app_assoc.
Qed.

Lemma receive_loop_ok fuel connfd w :
  chunks_fit w0 → fds w !! connfd = Some (mkOF KSocket 0 []) → (arrivals w < fuel)%nat →
  runs (loop fuel (receive connfd) tt) w (λ x w', match x with
    | Left _ => fds w' = fds w ∧ ∃ l, log (displayed connfd) l ∧ outs w' = outs w ++ l
    | Returned _ => False end).
Proof.
  intros Hfit Ho Hfuel. eapply (runs_loop (λ _ w1, fds w1 = fds w ∧
      ∃ l, log (displayed connfd) l ∧ outs w1 = outs w ++ l) (λ _ w1, arrivals w1)).
  { split; [done|]. exists []. split; [constructor|by rewrite app_nil_r]. }
  { done. }
  intros [] w1 (Hf1 & l & Hl & Hout). eapply runs_mono; [apply receive_ok; [done|by rewrite Hf1]|].
  intros [[]|[]|z] w2 [Hf2 H]; [| |done].
  - destruct H as (Ha & g & Hg & Ho2). split; [|done]. split; [congruence|].
    exists (l ++ g). rewrite Ho2, Hout, <- app_assoc. split; [|done]. apply log_app; [done|by apply log_one].
  - split; [congruence|]. exists l. by rewrite H, Hout.
Qed.

(** The server shows every chunk until the client has closed the connection, and closes
    what it has opened. *)
Lemma unix_server_shows fuel w :
  chunks_fit w0 → (arrivals w < fuel)%nat →
  runs (unix_server_main fuel) w (λ r w',
    (r = 0 ∧ fds w' = fds w ∧ ∃ fd l, log (displayed fd) l ∧ outs w' = outs w ++ l) ∨
    (r = EXIT_FAILURE ∧ ∃ msg, outs w' = outs w ++ [Perror msg])).
Proof.
  intros Hfit Hfuel. unfold unix_server_main. step. eapply (runs_socket Henv).
  { intros r k Hr _. step; [|lia]. steps. right. split; [done|by eexists]. }
  intros r Hr Hfd. step; [lia|]. step. eapply (runs_libcall Henv). intros ru _. step.
  eapply (runs_sockcall Henv); [look|]. intros rb nb _ _. step.
  { steps. right. split; [done|by eexists]. }
  step. eapply (runs_sockcall Henv); [look|]. intros rl nl _ _. step.
  eapply (runs_accept Henv); [look| |].
  { intros ra k Hra _. step; [|lia]. steps. right. split; [done|by eexists]. }
  intros ra Hra Hfa. fresh_fds. step; [lia|]. step.
  eapply runs_mono; [apply receive_loop_ok; [done|look|done]|].
  intros [[]|z] w1; [|done]. intros (Hf1 & l & Hl & Hout). cbn in Hf1. steps.
  cbn. eapply (runs_libcall Henv). intros rv _. step. left. split; [done|].
  split; [|by exists (r_ret ra), l]. cbn. rewrite Hf1.
  rewrite delete_insert_ne by congruence. rewrite (delete_insert_id (fds w)) by done.
  by apply delete_insert_id.
Qed.

(** A chunk of 256 bytes without a NUL: [%s] runs out of the buffer. *)
Lemma full_chunk_overread connfd tr :
  let r := env tr (Read connfd BUFFER_SIZE) in
  r_ret r = BUFFER_SIZE → zlen (r_data r) = BUFFER_SIZE → "000"%char ∉ r_data r →
  receive connfd tt tr = UB OutOfBounds.
Proof using Type.
  intros r Hr Hd Hnul. unfold receive, sys, mbind, M_bind, stored. fold r. rewrite Hr.
  change (BUFFER_SIZE =? 0) with false. change (BUFFER_SIZE <? 0) with false. cbn iota.
  cbv beta. rewrite c_str_full; [done| |done]. unfold zlen, zeroed in *. by rewrite length_replicate.
Qed.
End server.

(** ** A session *)

Definition no_nul (l : list output) : Prop :=
  Forall (λ o, match o with Received _ d => "000"%char ∉ d | _ => True end) l.
(** The text that the server has shown. *)
Definition text_shown (l : list output) : bytes :=
  l ≫= λ o, match o with Printf "Receive: %s" [AStr s] => s | _ => [] end.

Lemma displayed_text fd l : no_nul l → log (displayed fd) l → text_shown l = received fd l.
Proof.
  intros Hnul. induction 1 as [|g l Hg _ IH]; [done|]. apply Forall_app in Hnul as [Hn Hnul].
  unfold text_shown. rewrite bind_app, received_app. f_equal; [|by apply IH]. clear IH Hnul.
  destruct Hg as [d]. apply Forall_cons in Hn as [Hn _]. cbn. rewrite upto_nul_id by done.
  unfold received. cbn. by rewrite bool_decide_eq_true_2.
Qed.

Lemma prompted_typed (full : Prop) fd l :
  full → fd ≠ STDIN_FILENO → log (prompted full fd) l → sent fd l = typed l.
Proof.
  intros Hfull Hfd. induction 1 as [|g l Hg _ IH]; [done|]. rewrite sent_app, typed_app, IH. f_equal.
  destruct Hg as [line out Hw]. destruct Hw as [d _ Hd|]; [rewrite Hd by done|done].
  unfold sent, typed. cbn. by rewrite bool_decide_eq_true_2.
Qed.

Section session.
Context (es ec : Env) (ws wc : world).
Context (Hes : @legal_env es ws) (Hec : @legal_env ec wc).
Context (Hfit : @chunks_fit es ws) (Hfull : @full_writes ec wc).

(** C16: a session over a local socket. The client takes lines until its input ends, the
    server shows chunks until the client has closed the socket; both loops end. If
    the channel is reliable and no NUL is sent, what the server shows is the start
    of what was typed, however the stream was cut into chunks, and all of it if
    everything arrives. *)
Theorem unix_session_shows cfd sfd fuels fuelc bc :
  fds ws !! cfd = Some (mkOF KSocket 0 []) → outs ws = [] → (arrivals ws < fuels)%nat →
  fds wc !! sfd = Some (mkOF KSocket 0 []) → sfd ≠ STDIN_FILENO → outs wc = [] →
  zlen bc = BUFFER_SIZE → (arrivals wc < fuelc)%nat →
  ∃ ts ws' tc wc',
    loop fuels (receive (e := es) cfd) tt [] = Ok (Left tt, ts) ∧ replay ws ts = Some ws' ∧
    loop fuelc (type_line (e := ec) sfd) bc [] = Ok (Left tt, tc) ∧ replay wc tc = Some wc' ∧
    (no_nul (outs ws') → received cfd (outs ws') `prefix_of` sent sfd (outs wc') →
       text_shown (outs ws') `prefix_of` typed (outs wc')) ∧
    (no_nul (outs ws') → received cfd (outs ws') = sent sfd (outs wc') →
       text_shown (outs ws') = typed (outs wc')).
Proof.
  intros Hs Hos Hfs Hc H0 Hoc Hbc Hfc.
  destruct (receive_loop_ok Hes fuels cfd ws Hfit Hs Hfs [] eq_refl)
    as ([[]|z] & ts & ws' & Hrs & Hws & H); [|done]. destruct H as (_ & ls & Hls & Hout). rewrite Hos in Hout. cbn in Hout.
  destruct (client_loop_ok Hec fuelc sfd bc wc Hc Hbc Hfc [] eq_refl)
    as ([[]|z] & tc & wc' & Hrc & Hwc & H); [|done]. destruct H as (_ & lc & Hlc & Houtc). rewrite Hoc in Houtc. cbn in Houtc.
  exists ts, ws', tc, wc'. split; [done|]. split; [done|]. split; [done|]. split; [done|].
  rewrite Hout, Houtc, sent_app, typed_app. cbn. rewrite !app_nil_r.
  rewrite (prompted_typed _ _ _ Hfull H0 Hlc).
  split; intros Hnul Hlink; by rewrite (displayed_text _ _ Hnul Hls).
Qed.
End session.

(** ** The session on small systems: two lines arrive as one chunk *)

Definition typing_world : world :=
  set_arrivals 2 (set_fds {[0 := mkOF KTty 0 []; 3 := mkOF KSocket 0 []]} (boot ∅)).
Definition showing_world : world := set_arrivals 1 (set_fds {[4 := mkOF KSocket 0 []]} (boot ∅)).

Lemma unix_session_shows_witness :
  ∃ ts ws', loop 2 (receive (e := live_env [lit "a\nb\n"] showing_world) 4) tt [] = Ok (Left tt, ts) ∧
    replay showing_world ts = Some ws' ∧ text_shown (outs ws') = lit "a\nb\n".
Proof.
  destruct (unix_session_shows (live_env [lit "a\nb\n"] showing_world) (live_env [lit "a\n"; lit "b\n"] typing_world)
    showing_world typing_world (live_env_legal _ _) (live_env_legal _ _)
    ltac:(apply live_socket_reads; [done|done|by split; [|left]|repeat constructor; done])
    (live_full _ _) 4 3 2 3 (new_buffer BUFFER_SIZE) eq_refl eq_refl ltac:(vm_compute; lia) eq_refl ltac:(done)
    eq_refl eq_refl ltac:(vm_compute; lia))
    as (ts & ws' & tc & wc' & Hrs & Hws & Hrc & Hwc & _ & Hall).
  assert (outs ws' = [Received 4 (lit "a\nb\n"); Printf "Receive: %s" [AStr (lit "a\nb\n")]]) as Hs
    by (eapply log_of_run; [exact Hrs|exact Hws|by vm_compute]).
  assert (outs wc' = [Printf ">> " []; Received 0 (lit "a\n"); Sent 3 (lit "a\n");
    Printf ">> " []; Received 0 (lit "b\n"); Sent 3 (lit "b\n"); Printf ">> " []]) as Hc
    by (eapply log_of_run; [exact Hrc|exact Hwc|by vm_compute]).
  exists ts, ws'. split; [exact Hrs|]. split; [exact Hws|].
  rewrite Hs, Hc in *. apply Hall; [|done]. repeat constructor. apply (bool_decide_eq_true_1 _). by vm_compute.
Defined.
