(* ===== verification/PipeDemos.v ===== *)
(** * Small programs of [05_ipc/pipe]

    [basic_io.cpp] copies a file; [main.c], called A, shows the lines of its standard
    input; [popen_test.c] runs A and writes to it. *)
From S2P Require Export SockLib.

#[local] Arguments Z.eqb : simpl never.

(** ** [basic_io.cpp] *)

Definition source : string := "hello.txt".
Definition target : string := "newhello.txt".

Section program.
Context {e : Env}.

(** The body of [while (n = read(fd, buf, sizeof(buf)))]. *)
Definition copy_body (fd fx : Z) (buf : buffer) : M trace (ctl buffer unit) :=
  n ← sys (Read fd 1024);
  let buf := fill buf (stored n) in
  if r_ret n =? 0 then mret (Break tt)
  else
    d ← contents_int buf (r_ret n);
    ret ← sys (Write fx d);
    if r_ret ret =? -1 then
      perror "write error";;
      mret (Return 1)
    else
      printf "write bytes: %d\n" [AInt (r_ret n)];;
      mret (Next buf).

Definition basic_io_main (fuel : nat) : M trace Z :=
  fd ← sys (Open source [O_RDONLY]);
  let fd := r_ret fd in
  if fd =? -1 then
    printf "open failed!\n" [];;
    mret 0
  else
  fx ← sys (Open target [O_CREAT; O_WRONLY]);
  let fx := r_ret fx in
  after (loop fuel (copy_body fd fx) (new_buffer 1024)) (λ _,
    close fd;;
    close fx;;
    mret 0).

(** ** [main.c] *)

(** The body of [while (fgets(buffer, sizeof(buffer), stdin))]. *)
Definition show_line (buf : buffer) : M trace (ctl buffer unit) :=
  '(got, buf) ← fgets buf 128;
  if (got : bool) then
    s ← c_str buf;
    printf "Received: %s" [AStr s];;
    mret (Next buf)
  else mret (Break tt).

Definition A_main (fuel : nat) : M trace Z :=
  printf "Waiting for input...\n" [];;
  after (loop fuel show_line (new_buffer 128)) (λ _,
    printf "EOF detected. Exiting...\n" [];;
    mret 0).
End program.

(** ** [popen_test.c] *)

(** With the results of [popen] and [pclose]: what is written to A, what is shown, and
    the exit status. *)
Definition popen_main (popen_ok : bool) (pclose_ret : Z) : bytes * list output * Z :=
  if negb popen_ok then ([], [Perror "popen"], EXIT_FAILURE)
  else
  let text := lit "Hello, A!\n" ++ lit "Another line\n" in
  if pclose_ret =? -1 then (text, [Perror "pclose"], EXIT_FAILURE)
  else (text, [Printf "A has exited\n" []], 0).

(** ** The copy *)

(** [d] written over the start of [old], which is not truncated. *)
Definition overwritten (old d : bytes) : bytes := d ++ drop (length d) old.

Lemma write_over old d1 d2 : write_at (overwritten old d1) (length d1) d2 = overwritten old (d1 ++ d2).
Proof.
  unfold write_at, overwritten. rewrite length_app.
  replace (length d1 - (length d1 + length (drop (length d1) old)))%nat with O by lia.
  rewrite app_nil_r, take_app_length, <- !app_assoc. f_equal. f_equal.
  rewrite drop_app_ge by lia. rewrite drop_drop, length_app. f_equal. lia.
Qed.

(** Reads of files do not fail, and writes to files are full or fail. *)
Definition file_reads {e : Env} (w0 : world) : Prop :=
  ∀ tr w fd p off fl n, replay w0 tr = Some w → fds w !! fd = Some (mkOF (KFile p) off fl) →
    0 ≤ r_ret (env tr (Read fd n)).
Definition file_writes {e : Env} (w0 : world) : Prop :=
  ∀ tr w fd p off fl d, replay w0 tr = Some w → fds w !! fd = Some (mkOF (KFile p) off fl) →
    r_ret (env tr (Write fd d)) = -1 ∨ r_ret (env tr (Write fd d)) = zlen d.

Section proofs.
Context {e : Env} {w0 : world} (Henv : legal_env w0).
Abbreviation runs := (runs w0).

(** [n] bytes have been copied over [old]. *)
Definition copying (w : world) (f : file) (old : bytes) (fd fx : Z) (n : nat) (w1 : world) : Prop :=
  (n ≤ length (content f))%nat ∧
  fds w1 = <[fx := mkOF (KFile target) (Z.of_nat n) [O_CREAT; O_WRONLY]]>
    (<[fd := mkOF (KFile source) (Z.of_nat n) [O_RDONLY]]> (fds w)) ∧
  files w1 !! source = Some f ∧
  ∃ s, files w1 !! target = Some (mkFile (overwritten old (take n (content f))) s).

Lemma copy_ok fuel w w1 f old fd fx :
  file_reads w0 → file_writes w0 → fd ≠ fx →
  copying w f old fd fx 0 w1 → (length (content f) < fuel)%nat →
  runs (loop fuel (copy_body fd fx) (new_buffer 1024)) w1 (λ x w2,
    match x with
    | Left _ => copying w f old fd fx (length (content f)) w2
    | Returned z => z = 1 ∧ last (outs w2) = Some (Perror "write error")
    end).
Proof.
  intros Hreads Hwrites Hne H1 Hfuel.
  apply (runs_loop (λ buf w1, zlen buf = 1024 ∧ ∃ n, copying w f old fd fx n w1)
    (λ _ w1, length (content f) - Z.to_nat (match fds w1 !! fd with Some o => of_off o | None => 0 end))%nat).
  { split; [done|]. by exists 0%nat. }
  { lia. }
  intros buf w2 (Hbuf & n & Hn & Hfds & Hsrc & s & Htgt). unfold copy_body. step.
  assert (fds w2 !! fd = Some (mkOF (KFile source) (Z.of_nat n) [O_RDONLY])) as Hfd.
  { rewrite Hfds, lookup_insert_ne by done. by rewrite lookup_insert_eq. }
  apply (runs_fact _ _ (λ r, 0 ≤ r_ret r)); [intros tr Htr; by eapply Hreads|].
  eapply (runs_read Henv); [exact Hfd|exact Hsrc|intros r k Hr _ _ Hr0; lia|].
  rewrite Nat2Z.id. intros r Hr Hlen Hpos Hdata _. unfold stored.
  rewrite (proj2 (Z.ltb_ge _ _)) by lia. step.
  { step. assert (n = length (content f)) as ->.
    { destruct Hpos as [?|[?|Hd]]; [lia|done|]. apply (f_equal length) in Hd.
      rewrite length_drop in Hd. simpl in Hd. lia. }
    split; [done|]. cbn. split; [|by eauto]. rewrite Hfds. rewrite Heqb, Z.add_0_r.
    by rewrite insert_insert_ne, insert_insert_eq by done. }
  assert (r_ret r = zlen (r_data r)) as Hz
    by (rewrite Hdata; unfold zlen in *; rewrite length_take; lia).
  step. eapply runs_pure.
  { intros tr. rewrite Hz. apply contents_int_fill. lia. }
  assert (fds (set_fds (<[fd := mkOF (KFile source) (Z.of_nat n + r_ret r) [O_RDONLY]]> (fds w2)) w2) !! fx =
    Some (mkOF (KFile target) (Z.of_nat n) [O_CREAT; O_WRONLY])) as Hfx.
  { cbn. rewrite lookup_insert_ne by done. by rewrite Hfds, lookup_insert_eq. }
  step. apply (runs_fact _ _ (λ r', r_ret r' = -1 ∨ r_ret r' = zlen (r_data r))).
  { intros tr Htr. by eapply Hwrites. }
  eapply (runs_write Henv); [exact Hfx|exact Htgt|set_solver|..].
  { intros r' k Hr' _ _ _. step; [|lia]. steps. cbn. split; [done|]. by rewrite last_snoc. }
  intros r' Hr' _ Hfull. step; [lia|]. destruct Hfull as [?|Hfull]; [lia|]. steps.
  assert (n + length (r_data r) ≤ length (content f))%nat as Hle.
  { unfold zlen in *. rewrite length_drop in Hlen. lia. }
  split; [split|].
  - rewrite length_fill by lia. done.
  - exists (n + length (r_data r))%nat. unfold copying. cbn. split; [done|]. rewrite Hfull, Hz.
    split.
    { rewrite Hfds. unfold zlen. rewrite <- Nat2Z.inj_add. apply map_eq. intros k.
      rewrite !lookup_insert. repeat case_decide; simplify_eq; done. }
    split; [by rewrite lookup_insert_ne by done|]. eexists. rewrite lookup_insert_eq. do 2 f_equal.
    unfold zlen. rewrite !Nat2Z.id, firstn_all.
    assert (take n (content f) ++ r_data r = take (n + length (r_data r)) (content f)) as <-.
    { rewrite Hdata. rewrite <- take_take_drop. do 2 f_equal. rewrite length_take. unfold zlen in *. lia. }
    rewrite <- write_over. f_equal. rewrite length_take. lia.
  - cbn. rewrite Hfds. rewrite lookup_insert_ne by done. rewrite lookup_insert_eq. cbn.
    rewrite lookup_insert_ne, lookup_insert_eq by done. cbn. unfold zlen in *. lia.
Qed.

(** The program ends. When both files can be opened it has copied the whole of its source
    over the start of its target, of which the rest stays, since the file is not
    truncated; with 1 a write has failed. *)
Lemma basic_io_copies fuel w f :
  file_reads w0 → file_writes w0 → files w !! source = Some f →
  (∀ tr w, replay w0 tr = Some w → 0 ≤ r_ret (env tr (Open target [O_CREAT; O_WRONLY]))) →
  (length (content f) < fuel)%nat →
  runs (basic_io_main fuel) w (λ r w',
    (r = 0 ∧ (last (outs w') = Some (Printf "open failed!\n" []) ∨
      ∃ g, files w' !! target = Some g ∧ fds w' = fds w ∧
        content g = overwritten (content (default (mkFile [] false) (files w !! target))) (content f))) ∨
    (r = 1 ∧ last (outs w') = Some (Perror "write error"))).
Proof.
  intros Hreads Hwrites Hf Hopen Hfuel. unfold basic_io_main. step.
  eapply (runs_open Henv); [done..| |].
  { intros r n Hr _. step; [|lia]. steps. left. cbn. split; [done|]. left. by rewrite last_snoc. }
  intros rf f' Hrf Hfd Hf'. simplify_eq. step; [lia|]. step.
  apply (runs_fact _ _ (λ r, 0 ≤ r_ret r)); [intros tr w1; intros Htr; by eapply Hopen|].
  eapply (runs_open_or_creat Henv); [done..|intros r n Hr _ Hr'; lia|].
  intros rx g Hrx Hfx Hg _. cbn in Hfx. apply lookup_insert_None in Hfx as [Hfx Hne]. step.
  eapply runs_mono; [apply (copy_ok fuel w _ f (content g)); [done..| |done]|].
  { split; [lia|]. cbn. split; [done|]. split; [by rewrite lookup_insert_ne|].
    exists (synced g). rewrite lookup_insert_eq. destruct g. done. }
  intros [[]|z] w2; cbn beta iota.
  - intros (_ & Hfds & _ & s & Ht). steps.
    left. split; [done|]. right. eexists. cbn. split; [exact Ht|]. split.
    + rewrite Hfds. map_solve.
    + rewrite firstn_all. by rewrite <- Hg.
  - intros [-> Hl]. by right.
Qed.

(** ** What A shows *)

(** A line that A reads, and what it shows of it. *)
Definition line_shown (d : bytes) : list output :=
  [Received 0 d; Printf "Received: %s" [AStr (upto_nul d)]].

(** A ends when its input does, and has shown each line. *)
Lemma A_shows fuel w :
  (arrivals w < fuel)%nat →
  runs (A_main fuel) w (λ r w', r = 0 ∧ ∃ lines,
    outs w' = outs w ++ [Printf "Waiting for input...\n" []] ++ (lines ≫= line_shown) ++
      [Printf "EOF detected. Exiting...\n" []]).
Proof.
  intros Hfuel. unfold A_main. steps.
  eapply (runs_loop (λ buf w1, zlen buf = 128 ∧ ∃ lines,
    outs w1 = outs w ++ [Printf "Waiting for input...\n" []] ++ (lines ≫= line_shown)) (λ _ w1, arrivals w1)).
  { split; [done|]. exists []. done. }
  { done. }
  intros buf w1 (Hbuf & lines & Ho). unfold show_line. step. apply (runs_gets Henv).
  - cbn beta iota. steps. split; [done|]. exists lines. cbn. by rewrite Ho, <- !app_assoc.
  - cbn beta iota. steps. split; [done|]. exists lines. cbn. by rewrite Ho, <- !app_assoc.
  - intros d k Hd Hlen Hk. cbn beta iota. step. eapply runs_pure; [intros tr; apply c_str_terminated|]. steps.
    split; [split|].
    + rewrite length_fill; [done|]. rewrite zlen_app. change (zlen ["000"%char]) with 1. lia.
    + exists (lines ++ [d]). cbn. rewrite Ho, bind_app. simpl. by rewrite <- !app_assoc.
    + cbn. lia.
Qed.
End proofs.

(** A run by [popen_test.c]: it is given both lines, shows them, and ends. *)
Lemma popen_runs_A :
  let '(text, shown, status) := popen_main true 0 in
  let lines := [lit "Hello, A!\n"; lit "Another line\n"] in
  let w := set_arrivals 2 (boot ∅) in
  concat lines = text ∧ shown = [Printf "A has exited\n" []] ∧ status = 0 ∧
  ∃ tr w', A_main (e := live_env lines w) 3 [] = Ok (0, tr) ∧ replay w tr = Some w' ∧
    outs w' = Printf "Waiting for input...\n" [] :: (lines ≫= line_shown) ++ [Printf "EOF detected. Exiting...\n" []].
Proof.
  split; [done|]. split; [done|]. split; [done|].
  destruct (A_main (e := live_env _ _) 3 []) as [[z tr]| | |] eqn:E; [|vm_compute in E; discriminate E..].
  exists tr. destruct (replay (set_arrivals 2 (boot ∅)) tr) as [w'|] eqn:R;
    [|vm_compute in E; simplify_eq; vm_compute in R; discriminate R].
  exists w'. vm_compute in E. simplify_eq. split; [done|]. split; [done|].
  vm_compute in R. by simplify_eq.
Qed.
