(* ===== verification/Threads.v ===== *)
(** * Interleavings of threads, mutexes and semaphores

    A program of several threads is a [System]: what each actor does next in a
    state. One [move] is one access to shared memory or one call; executions are
    the interleavings of moves. A move can be [Blocked], which is no step, or
    [Undefined], which the programs must exclude. *)
From S2P Require Export Prelude.

Inductive outcome (S : Type) := Moved (s : S) | Blocked | Undefined.
Arguments Moved {S} s.
Arguments Blocked {S}.
Arguments Undefined {S}.

#[global] Instance outcome_ret : MRet outcome := λ A a, Moved a.
#[global] Instance outcome_bind : MBind outcome := λ A B f m,
  match m with Moved a => f a | Blocked => Blocked | Undefined => Undefined end.

Class System (T S : Type) := move : T → S → outcome S.

(** ** Mutexes (POSIX [PTHREAD_MUTEX_DEFAULT]) and semaphores *)

Inductive mutex_t (T : Type) := NoMutex | Unlocked | LockedBy (t : T).
Arguments NoMutex {T}.
Arguments Unlocked {T}.
Arguments LockedBy {T} t.

Section sync.
Context {T : Type} `{EqDecision T}.

(** Relocking a mutex that one holds is undefined, as are unlocking one that is
    not locked by the caller and destroying a locked one. *)
Definition pthread_mutex_lock (t : T) (m : mutex_t T) : outcome (mutex_t T) :=
  match m with
  | NoMutex => Undefined
  | Unlocked => Moved (LockedBy t)
  | LockedBy t' => if decide (t = t') then Undefined else Blocked
  end.
Definition pthread_mutex_unlock (t : T) (m : mutex_t T) : outcome (mutex_t T) :=
  match m with
  | LockedBy t' => if decide (t = t') then Moved Unlocked else Undefined
  | _ => Undefined
  end.
Definition pthread_mutex_destroy (m : mutex_t T) : outcome (mutex_t T) :=
  match m with Unlocked => Moved NoMutex | _ => Undefined end.
End sync.

(** The value of an initialised [sem_t]. *)
Definition sem_t := option Z.
Definition SEM_VALUE_MAX : Z := INT_MAX.

Definition sem_wait (s : sem_t) : outcome sem_t :=
  match s with
  | None => Undefined
  | Some v => if v <=? 0 then Blocked else Moved (Some (v - 1))
  end.

(** At [SEM_VALUE_MAX] the call fails and leaves the value as it is. *)
Definition sem_post (s : sem_t) : outcome sem_t :=
  match s with
  | None => Undefined
  | Some v => Moved (Some (if v <? SEM_VALUE_MAX then v + 1 else v))
  end.

(** ** Executions *)

Section executions.
Context {T S : Type} `{System T S}.

Definition step (s s' : S) : Prop := ∃ t, move t s = Moved s'.
Definition reachable : S → S → Prop := rtc step.

(** The execution that follows a schedule; [Blocked] when the schedule picks an
    actor that cannot move. *)
Fixpoint run (ts : list T) (s : S) : outcome S :=
  match ts with [] => Moved s | t :: ts => s ← move t s; run ts s end.

Lemma run_reachable ts s s' : run ts s = Moved s' → reachable s s'.
Proof.
  revert s. induction ts as [|t ts IH]; intros s Hrun; simpl in Hrun.
  - injection Hrun as ->. apply rtc_refl.
  - destruct (move t s) as [s1| |] eqn:Hm; try discriminate Hrun.
    eapply rtc_l; [by exists t|]. by apply IH.
Qed.

Lemma run_app ts1 ts2 s : run (ts1 ++ ts2) s = s ← run ts1 s; run ts2 s.
Proof.
  revert s. induction ts1 as [|t ts1 IH]; intros s; [done|]. simpl.
  destruct (move t s); simpl; auto.
Qed.

(** Rule induction: what holds at first and is kept by every move. *)
Lemma reachable_inv (I : S → Prop) s0 s :
  I s0 → (∀ t s s', I s → move t s = Moved s' → I s') → reachable s0 s → I s.
Proof.
  intros H0 Hstep Hreach. induction Hreach as [s|s1 s2 s3 [t Ht] _ IH]; [done|].
  apply IH. by eapply Hstep.
Qed.

(** A measure that every move decreases bounds the length of executions. *)
Lemma run_bounded (I : S → Prop) (measure : S → nat) ts s s' :
  I s → (∀ t s s', I s → move t s = Moved s' → I s' ∧ (measure s' < measure s)%nat) →
  run ts s = Moved s' → (length ts + measure s' ≤ measure s)%nat.
Proof.
  intros HI Hstep. revert s HI. induction ts as [|t ts IH]; intros s HI Hrun; simpl in Hrun.
  - injection Hrun as ->. simpl. lia.
  - destruct (move t s) as [s1| |] eqn:Hm; try discriminate Hrun.
    destruct (Hstep t s s1 HI Hm) as [HI1 Hlt]. specialize (IH s1 HI1 Hrun). simpl. lia.
Qed.

(** ** Fair executions

    An endless execution under a scheduler: at every point the actor that the
    scheduler picks moves if it can, and otherwise goes on waiting. *)
Definition attempt (t : T) (s : S) : S := match move t s with Moved s' => s' | _ => s end.
Fixpoint exec (sched : nat → T) (n : nat) (s : S) : S :=
  match n with O => s | Datatypes.S n => attempt (sched n) (exec sched n s) end.

Lemma exec_ind (P : S → Prop) sched n n' s :
  (n ≤ n')%nat → P (exec sched n s) →
  (∀ t s s', P s → move t s = Moved s' → P s') → P (exec sched n' s).
Proof.
  intros Hle H0 Hstep. induction Hle as [|n' _ IH]; [done|]. simpl. unfold attempt.
  destruct (move _ _) eqn:Hm; [by eapply Hstep|done..].
Qed.

Lemma exec_reachable sched n s : reachable s (exec sched n s).
Proof.
  apply (exec_ind (reachable s) sched 0); [lia|apply rtc_refl|].
  intros t s1 s2 H1 Hm. eapply rtc_r; [exact H1|by exists t].
Qed.

(** Progress under weak fairness. Actors are picked in classes; in every state of
    the invariant some class can move, and a move advances [count] or decreases
    [measure]. Then [count] keeps advancing when each class is picked again and
    again. *)
Section fair.
Context {A : Type} (class : T → A) (sched : nat → T).
Context (I : S → Prop) (measure count : S → nat).
Context (keeps : ∀ t s s', I s → move t s = Moved s' → I s').
Context (enabled : ∀ s, I s →
  ∃ a, ∀ n, class (sched n) = a → ∃ s', move (sched n) s = Moved s').
Context (advances : ∀ t s s', I s → move t s = Moved s' →
  (count s < count s' ∨ (count s = count s' ∧ measure s' < measure s))%nat).
Context (fair : ∀ a n, ∃ m, (n ≤ m)%nat ∧ class (sched m) = a).

(** From [n] on nothing moves, or there is a first move. *)
Lemma first_move n m s :
  I (exec sched n s) → (n ≤ m)%nat → exec sched m s = exec sched n s ∨
  ∃ k, (n < k ≤ m)%nat ∧ I (exec sched k s) ∧
    (count (exec sched n s) < count (exec sched k s) ∨
     (count (exec sched n s) = count (exec sched k s) ∧
      measure (exec sched k s) < measure (exec sched n s)))%nat.
Proof.
  intros HI Hle. induction Hle as [|m Hle [IH|(k & Hk & IH)]]; [by left| |].
  - simpl. rewrite IH. unfold attempt. destruct (move _ _) as [s'| |] eqn:Hm; [|by left..].
    right. exists (Datatypes.S m). simpl. rewrite IH. unfold attempt. rewrite Hm.
    split; [lia|]. split; [by eapply keeps|by eapply advances].
  - right. exists k. split; [lia|done].
Qed.

Lemma fair_advance n s :
  I (exec sched n s) → ∃ m, (n ≤ m)%nat ∧ (count (exec sched n s) < count (exec sched m s))%nat.
Proof.
  remember (measure (exec sched n s)) as k eqn:Hk. revert n Hk.
  induction (lt_wf k) as [k _ IH]. intros n -> HI.
  destruct (enabled _ HI) as [a Ha]. destruct (fair a n) as (m & Hm & Hcls).
  assert (∃ k, (n < k)%nat ∧ I (exec sched k s) ∧
    (count (exec sched n s) < count (exec sched k s) ∨
     (count (exec sched n s) = count (exec sched k s) ∧
      measure (exec sched k s) < measure (exec sched n s)))%nat)
    as (k & Hlt & HIk & [Hadv|[Heq Hdec]]).
  { destruct (first_move n m s HI Hm) as [Hsame|(k & Hk & Hrest)]; [|exists k; split; [lia|done]].
    destruct (Ha m Hcls) as [s' Hs']. exists (Datatypes.S m). simpl. rewrite Hsame.
    unfold attempt. rewrite Hs'. split; [lia|]. split; [by eapply keeps|by eapply advances]. }
  - exists k. split; [lia|done].
  - destruct (IH _ Hdec k eq_refl HIk) as (m' & Hm' & Hadv). exists m'. split; [lia|]. lia.
Qed.

Lemma fair_later s n c : I s → ∃ m, (n ≤ m)%nat ∧ (c ≤ count (exec sched m s))%nat.
Proof.
  intros HI. induction c as [|c (m & Hnm & IH)]; [exists n; lia|].
  destruct (fair_advance m s) as (m' & Hm' & Hlt).
  - apply (exec_ind I sched 0); [lia|done|apply keeps].
  - exists m'. lia.
Qed.
End fair.

(** ** Exhaustive exploration

    For a system with finitely many executions: all states that are reached by the
    same number of moves are computed together, until none is left. *)
Section explore.
Context `{EqDecision S} (allowed : T → Prop) (actors : S → list T).
Context (actors_ok : ∀ t s, allowed t → t ∈ actors s ∨ move t s = Blocked).
Context (good : S → bool).

Definition successors (s : S) : list S :=
  omap (λ t, match move t s with Moved s' => Some s' | _ => None end) (actors s).

Fixpoint explore (n : nat) (ss : list S) : bool :=
  match ss, n with
  | [], _ => true
  | _, O => false
  | _, Datatypes.S n => forallb good ss && explore n (remove_dups (ss ≫= successors))
  end.

Lemma explore_sound n ss s ts s' :
  explore n ss = true → s ∈ ss → Forall allowed ts → run ts s = Moved s' →
  (length ts < n)%nat ∧ good s' = true.
Proof.
  revert n ss s. induction ts as [|t ts IH]; intros n ss s Hex Hin Hall Hrun.
  - injection Hrun as ->. destruct ss as [|s0 ss]; [by apply not_elem_of_nil in Hin|].
    destruct n as [|n]; [done|]. apply andb_prop in Hex as [Hgood _].
    rewrite forallb_forall in Hgood. split; [simpl; lia|].
    apply Hgood. by apply list_elem_of_In.
  - simpl in Hrun. destruct (move t s) as [s1| |] eqn:Hm; try discriminate Hrun.
    apply Forall_cons in Hall as [Ht Hall].
    destruct ss as [|s0 ss]; [by apply not_elem_of_nil in Hin|].
    destruct n as [|n]; [done|]. apply andb_prop in Hex as [_ Hex].
    destruct (IH n _ s1 Hex) as [Hlen Hgood]; [|done|done|split; [simpl; lia|done]].
    apply elem_of_remove_dups, list_elem_of_bind. exists s. split; [|done].
    apply list_elem_of_omap. exists t. rewrite Hm. split; [|done].
    destruct (actors_ok t s Ht) as [|Hb]; [done|by rewrite Hb in Hm].
Qed.
End explore.

(** Every execution of allowed moves has at most [n] of them, none of which is
    undefined, and it can only stop where [final] holds. *)
Definition completes (allowed : T → Prop) (n : nat) (final : S → Prop) (s0 : S) : Prop :=
  ∀ ts s, Forall allowed ts → run ts s0 = Moved s →
    (length ts ≤ n)%nat ∧ (∀ t, allowed t → move t s ≠ Undefined) ∧
    (final s ∨ ∃ t s', allowed t ∧ move t s = Moved s').

Definition moves (t : T) (s : S) : bool := match move t s with Moved _ => true | _ => false end.
Definition defined (t : T) (s : S) : bool := match move t s with Undefined => false | _ => true end.

Lemma explore_completes `{EqDecision S} (allowed : T → Prop) (actors : S → list T)
    (final : S → Prop) `{∀ s, Decision (final s)} n s0 :
  (∀ t s, allowed t → t ∈ actors s ∨ move t s = Blocked) →
  (∀ t s, t ∈ actors s → allowed t) →
  explore actors (λ s, forallb (λ t, defined t s) (actors s) &&
    (bool_decide (final s) || existsb (λ t, moves t s) (actors s))) (Datatypes.S n) [s0] = true →
  completes allowed n final s0.
Proof.
  intros Hact Hin Hex ts s Hall Hrun.
  destruct (explore_sound _ _ Hact _ _ _ _ _ _ Hex ltac:(by left) Hall Hrun) as [Hlen Hgood].
  apply andb_prop in Hgood as [Hdef Hgood]. rewrite forallb_forall in Hdef. split_and!; [lia| |].
  - intros t Ht Hu. destruct (Hact t s Ht) as [Ht'|Hb]; [|by rewrite Hb in Hu].
    apply list_elem_of_In, Hdef in Ht'. unfold defined in Ht'. by rewrite Hu in Ht'.
  - apply orb_prop in Hgood as [Hf|Hm]; [left; by apply bool_decide_eq_true in Hf|right].
    apply existsb_exists in Hm as (t & Ht & Hm). apply list_elem_of_In, Hin in Ht.
    unfold moves in Hm. destruct (move t s) as [s'| |] eqn:E; [|done..]. by exists t, s'.
Qed.
End executions.
