(* ===== verification/GlibcAio.v ===== *)
(** * [09_epoll/glibc_aio.c]: an asynchronous read, and a handler for its completion

    The file has two programs, each with a [main] of its own, so that it cannot be compiled
    as it is. In the first a thread that the library makes runs the handler, in the second a signal.
    The library ([aio_read], [aio_error], [aio_return]) and the kernel are not part of the code:
    the request completes at any time after it was made, with any result. *)
From S2P Require Export Buffer Format Threads.

Definition BUFFER_LEN : Z := 1024.
Definition EXIT_FAILURE : Z := 1.

Inductive line :=
| Perror (msg : string)
| Read_bytes (n : Z) (text : bytes).          (* [Read %d bytes: %s] *)

(** The request of [aio_req]: [aio_error] is [EINPROGRESS], 0, or an error (when [res] is -1). *)
Inductive request := Idle | InProgress | Completed (res : Z).

(** Where the handler is: at [aio_error], at [aio_return], at the [printf], at its [perror]. *)
Inductive hpc := HNone | HTest | HReturn | HPrint (n : Z) | HPerror | HDone.

(** Where [main] is; [PFail] and [PFree] have the message and the exit status that follow,
    [PReturn] is only in the first program and [PSigaction], [PCall] and [PPause] only in the second:
    [main] is about to call [pause], and waits in it. *)
Inductive mpc :=
| POpen | PMalloc | PSigaction | PSubmit | PPoll | PCall | PPause | PReturn
| PFail (msg : string) | PFree (z : Z) | PClose (z : Z) | PGone (z : Z).

(** [buf] is the allocated buffer, [fd] tells that the file is open, and [pending] that the
    signal has been sent and not delivered. *)
Record state := mkState {
  main_at : mpc; req : request; buf : option buffer; fd : bool; hnd : hpc; pending : bool; screen : list line }.
Definition init : state := mkState POpen Idle None false HNone false [].

Definition goto (p : mpc) (s : state) : state :=
  mkState p (req s) (buf s) (fd s) (hnd s) (pending s) (screen s).
Definition set_req (r : request) (s : state) : state :=
  mkState (main_at s) r (buf s) (fd s) (hnd s) (pending s) (screen s).
Definition set_buf (x : option buffer) (s : state) : state :=
  mkState (main_at s) (req s) x (fd s) (hnd s) (pending s) (screen s).
Definition set_fd (x : bool) (s : state) : state :=
  mkState (main_at s) (req s) (buf s) x (hnd s) (pending s) (screen s).
Definition set_hnd (h : hpc) (s : state) : state :=
  mkState (main_at s) (req s) (buf s) (fd s) h (pending s) (screen s).
Definition set_pending (x : bool) (s : state) : state :=
  mkState (main_at s) (req s) (buf s) (fd s) (hnd s) x (screen s).
Definition say (l : line) (s : state) : state :=
  mkState (main_at s) (req s) (buf s) (fd s) (hnd s) (pending s) (screen s ++ [l]).

(** [Main ok] is a move of [main], in which a call succeeds if [ok]; [Kernel res data] completes the
    request with [res], after [data] has been stored; [Notify] starts the handler. *)
Inductive actor := Main (ok : bool) | Kernel (res : Z) (data : bytes) | Notify | Handler.

(** ** The handlers *)

Definition aio_completion_handler (s : state) : outcome state :=
  match hnd s with
  | HNone | HDone => Blocked
  | HTest =>
    match req s with
    | Idle => Undefined
    | InProgress => Moved (set_hnd HPerror s)
    | Completed res => Moved (set_hnd (if res <? 0 then HPerror else HReturn) s)
    end
  | HReturn => match req s with Completed res => Moved (set_hnd (HPrint res) s) | _ => Undefined end
  | HPrint n =>
    match buf s with
    | None => Undefined
    | Some x =>
      match c_str x tt with
      | Ok (text, _) => Moved (set_hnd HDone (say (Read_bytes n text) s))
      | _ => Undefined
      end
    end
  | HPerror => Moved (set_hnd HDone (say (Perror "aio_error") s))
  end.

(** The second program has the same handler, under the name [signal_handler]. When it
    returns [pause] does. *)
Definition signal_handler (s : state) : outcome state :=
  s ← aio_completion_handler s;
  Moved (match hnd s, main_at s with HDone, PPause => goto PPoll s | _, _ => s end).

(** ** The calls that both programs make *)

Definition open_example (ok : bool) (s : state) : state :=
  if ok then goto PMalloc (set_fd true s) else goto (PGone EXIT_FAILURE) (say (Perror "open") s).
Definition malloc (ok : bool) (next : mpc) (s : state) : state :=
  if ok then goto next (set_buf (Some (new_buffer BUFFER_LEN)) s)
  else goto (PClose EXIT_FAILURE) (say (Perror "malloc") s).
Definition start_read (ok : bool) (s : state) : state :=
  if ok then goto PPoll (set_req InProgress s) else goto (PFail "aio_read") s.

(** The ways out: [perror(msg)], [free(buffer)], [close(fd)], [exit]. *)
Definition leave (s : state) : outcome state :=
  match main_at s with
  | PFail msg => Moved (goto (PFree EXIT_FAILURE) (say (Perror msg) s))
  | PFree z => match buf s with None => Undefined | Some _ => Moved (goto (PClose z) (set_buf None s)) end
  | PClose z => Moved (goto (PGone z) (set_fd false s))
  | _ => Blocked
  end.

(** The request completes. *)
Definition kernel (res : Z) (data : bytes) (notify : state → state) (s : state) : outcome state :=
  match req s with
  | InProgress =>
    if res =? -1 then Moved (notify (set_req (Completed res) s))
    else if (0 <=? res) && (res <=? BUFFER_LEN) && (zlen data =? res) then
      Moved (notify (set_req (Completed res) (set_buf ((λ x, fill x data) <$> buf s) s)))
    else Blocked
  | _ => Blocked
  end.

(** ** The program with a thread *)

Definition thread_main (ok : bool) (s : state) : outcome state :=
  match main_at s with
  | POpen => Moved (open_example ok s)
  | PMalloc => Moved (malloc ok PSubmit s)
  | PSubmit => Moved (start_read ok s)
  | PPoll => match req s with InProgress => Moved s | _ => Moved (goto PReturn s) end
  | PReturn =>
    match req s with
    | Completed res => Moved (goto (if res =? -1 then PFail "aio_return" else PFree 0) s)
    | _ => Undefined
    end
  | _ => leave s
  end.

(** The thread exists from the completion on; it runs until [main] has returned. *)
Definition threaded (a : actor) (s : state) : outcome state :=
  match main_at s with
  | PGone _ => Blocked
  | _ =>
    match a with
    | Main ok => thread_main ok s
    | Kernel res data => kernel res data (set_hnd HTest) s
    | Notify => Blocked
    | Handler => aio_completion_handler s
    end
  end.

(** ** The program with a signal *)

Definition signal_main (ok : bool) (s : state) : outcome state :=
  match main_at s with
  | POpen => Moved (open_example ok s)
  | PMalloc => Moved (malloc ok PSigaction s)
  | PSigaction => Moved (goto (if ok then PSubmit else PFail "sigaction") s)
  | PSubmit => Moved (start_read ok s)
  | PPoll => Moved (goto (match req s with InProgress => PCall | _ => PFree 0 end) s)
  | PCall => Moved (goto PPause s)
  | PPause => Blocked
  | _ => leave s
  end.

(** The handler interrupts [main], at any point of it. *)
Definition signalled (a : actor) (s : state) : outcome state :=
  match main_at s with
  | PGone _ => Blocked
  | _ =>
    match a, hnd s with
    | Kernel res data, _ => kernel res data (set_pending true) s
    | Main ok, (HNone | HDone) => signal_main ok s
    | Notify, HNone => if pending s then Moved (set_hnd HTest (set_pending false s)) else Blocked
    | Handler, _ => signal_handler s
    | _, _ => Blocked
    end
  end.

(** ** What both programs hold *)

(** The buffer and the descriptor are live between their calls and their releases. *)
Definition holds (s : state) : Prop :=
  match main_at s with
  | POpen | PGone _ => buf s = None ∧ fd s = false
  | PMalloc | PClose _ => buf s = None ∧ fd s = true
  | _ => is_Some (buf s) ∧ fd s = true
  end.

(** How far the request and its handler are, with regard to [main]. *)
Definition phase (s : state) : Prop :=
  match req s with
  | Idle =>
    hnd s = HNone ∧ pending s = false ∧
    match main_at s with PPoll | PCall | PPause | PReturn => False | _ => True end
  | InProgress =>
    hnd s = HNone ∧ pending s = false ∧ match main_at s with PPoll | PCall | PPause => True | _ => False end
  | Completed _ =>
    match main_at s with POpen | PMalloc | PSigaction | PSubmit => False | _ => True end ∧
    (if pending s then hnd s = HNone else hnd s ≠ HNone)
  end.

Lemma kernel_moved res data notify s s' :
  kernel res data notify s = Moved s' →
  req s = InProgress ∧ ∃ x, s' = notify (set_req (Completed res) (set_buf x s)) ∧ (is_Some (buf s) → is_Some x).
Proof.
  unfold kernel. destruct (req s) eqn:Hr; [done| |done]. destruct (res =? -1).
  - intros [= <-]. split; [done|]. exists (buf s). by destruct s.
  - destruct (_ && _ && _); [|done]. intros [= <-]. split; [done|]. eexists. split; [done|].
    intros [x ->]. by eexists.
Qed.

(** The moves that the handler still has. *)
Definition todo (h : hpc) : nat :=
  match h with HTest => 3 | HReturn => 2 | HPrint _ | HPerror => 1 | HNone | HDone => 0 end.

Lemma handler_moved s s' :
  aio_completion_handler s = Moved s' →
  hnd s ≠ HNone ∧ hnd s ≠ HDone ∧ hnd s' ≠ HNone ∧ (todo (hnd s') < todo (hnd s))%nat ∧
  ∃ o, s' = mkState (main_at s) (req s) (buf s) (fd s) (hnd s') (pending s) o.
Proof.
  destruct s as [p q x f h b o]. unfold aio_completion_handler. cbn. destruct h; try done.
  - destruct q as [| |res]; [done| |]; intros [= <-]; cbn; [|destruct (res <? 0)]; cbn; eauto 10 with lia.
  - destruct q as [| |res]; [done..|]. intros [= <-]. cbn. eauto 10 with lia.
  - destruct x as [x|]; [|done]. destruct (c_str x tt) as [[t []]| | |]; [|done..].
    intros [= <-]. cbn. eauto 10 with lia.
  - intros [= <-]. cbn. eauto 10 with lia.
Qed.

Lemma leave_moved s s' :
  leave s = Moved s' → ∃ p x f o, s' = mkState p (req s) x f (hnd s) (pending s) o ∧
    match main_at s with
    | PFail _ => p = PFree EXIT_FAILURE ∧ x = buf s ∧ f = fd s
    | PFree z => p = PClose z ∧ x = None ∧ f = fd s
    | PClose z => p = PGone z ∧ x = buf s ∧ f = false
    | _ => False
    end.
Proof.
  destruct s as [p q x f h b o]. unfold leave. cbn.
  destruct p; try done; [..|destruct x as [x|]; [|done]|]; intros [= <-]; eauto 10.
Qed.

Lemma kernel_read data notify s :
  req s = InProgress → zlen data ≤ BUFFER_LEN →
  kernel (zlen data) data notify s =
    Moved (notify (set_req (Completed (zlen data)) (set_buf ((λ x, fill x data) <$> buf s) s))).
Proof.
  intros Hr Hlen. unfold kernel. rewrite Hr. pose proof (zlen_nonneg data).
  rewrite (proj2 (Z.eqb_neq _ _)) by lia. by rewrite !(proj2 (Z.leb_le _ _)), Z.eqb_refl by lia.
Qed.

(** ** The program with a signal *)

Section signal.
#[local] Instance signal_system : System actor state := signalled.

Definition sig_inv (s : state) : Prop := holds s ∧ phase s ∧ main_at s ≠ PReturn.

(** How far [main] is from its end, and the rest of the program with it. *)
Definition ahead (p : mpc) : nat :=
  match p with
  | POpen => 10 | PMalloc => 9 | PSigaction => 8 | PSubmit => 7 | PPoll => 5 | PCall | PReturn => 4
  | PPause | PFail _ => 3
  | PFree _ => 2 | PClose _ => 1 | PGone _ => 0
  end.
Definition rank (s : state) : nat :=
  ahead (main_at s) + match req s with Completed _ => 0 | _ => 20 end +
  (if pending s then 10 else 0) + 3 * todo (hnd s).

Lemma signal_main_step ok s s' :
  sig_inv s → hnd s = HNone ∨ hnd s = HDone → signal_main ok s = Moved s' → sig_inv s' ∧ (rank s' < rank s)%nat.
Proof.
  destruct s as [p q x f h b o]. unfold sig_inv, holds, phase, rank. cbn. intros (Hh & Hp & Hr) Hhnd Hm.
  unfold signal_main in Hm. cbn in Hm.
  destruct p; try (apply leave_moved in Hm as (p' & x' & f' & o' & -> & Hp'); cbn in *; destruct Hp' as (-> & -> & ->)); try done;
    cbn in *; try (injection Hm as <-; destruct ok); destruct q; cbn in *; destruct_and?; subst; try done; cbn;
    split_and!; try done; try lia.
Qed.

Lemma signal_step a s s' : sig_inv s → signalled a s = Moved s' → sig_inv s' ∧ (rank s' < rank s)%nat.
Proof.
  intros Hinv Hm. assert (∀ z, main_at s ≠ PGone z) as Hgone.
  { intros z E. unfold signalled in Hm. by rewrite E in Hm. }
  assert (match a, hnd s with
    | Kernel res data, _ => kernel res data (set_pending true) s = Moved s'
    | Main ok, (HNone | HDone) => signal_main ok s = Moved s'
    | Notify, HNone => pending s = true ∧ s' = set_hnd HTest (set_pending false s)
    | Handler, _ => signal_handler s = Moved s'
    | _, _ => False end) as Hm'.
  { unfold signalled in Hm. destruct (main_at s) eqn:Hp; [..|by destruct (Hgone z)];
      destruct a, (hnd s); try done; destruct (pending s); try done; by injection Hm as <-. }
  clear Hm. destruct a as [ok|res data| |].
  - destruct (hnd s) eqn:Hh; try done; eapply signal_main_step; eauto.
  - apply kernel_moved in Hm' as (Hr & x & -> & Hx). destruct s as [p q x0 f h b o]. cbn in *. subst q.
    destruct Hinv as (Hh & Hp & Hr). unfold sig_inv, holds, phase, rank in *. cbn in *. destruct_and?. subst.
    destruct p; try done; destruct_and?; split_and!; try done; try (by apply Hx); cbn; lia.
  - destruct (hnd s) eqn:Hh; try done. destruct Hm' as [Hb ->]. destruct s as [p q x f h b o]. cbn in *. subst.
    destruct Hinv as (Hho & Hp & Hr). unfold sig_inv, holds, phase, rank in *. cbn in *.
    destruct q; destruct_and?; try done. split_and!; try done. cbn. lia.
  - unfold signal_handler in Hm'. destruct (aio_completion_handler s) as [s1| |] eqn:E; try done.
    cbn in Hm'. apply handler_moved in E as (H1 & H2 & H3 & H4 & o & E). rewrite E in *.
    destruct s as [p q x f h b o0]. cbn in *. unfold sig_inv, holds, phase in *. cbn in *. destruct Hinv as (Hho & Hp & Hr).
    destruct (hnd s1), p; injection Hm' as <-; cbn in *; destruct q; destruct_and?; subst; try done;
      unfold rank; cbn in *; (split; [|lia]); split_and!; try done; by destruct b.
Qed.

Lemma signal_program_inv s : reachable init s → sig_inv s.
Proof. apply reachable_inv; [by repeat split|]. intros a s1 s2 Hi Hm. by eapply signal_step. Qed.

(** Nothing can happen any more: nobody moves, ... *)
Definition stuck (s : state) : Prop := ∀ a, move a s = Blocked.
(** ... or what comes next is undefined. *)
Definition halted (s : state) : Prop := ∀ a s', move a s ≠ Moved s'.

(** The three ways in which the program comes to its end. It has exited, with the buffer and
    the descriptor released; *)
Definition exited (s : state) : Prop := ∃ z, main_at s = PGone z ∧ buf s = None ∧ fd s = false.
(** it waits in [pause] for a signal that has been handled before it got there; *)
Definition waits_for_ever (s : state) : Prop :=
  main_at s = PPause ∧ hnd s = HDone ∧ (∃ res, req s = Completed res) ∧ is_Some (buf s) ∧ fd s = true ∧
  stuck s.
(** or its handler is about to print the buffer, with [%s], when that has been freed or has no
    string in it: what was read is not ended by a NUL. *)
Definition unprintable (s : state) : Prop :=
  ∃ n, hnd s = HPrint n ∧ (buf s = None ∨ ∃ x, buf s = Some x ∧ ∀ y, c_str x tt ≠ Ok y).

Lemma handler_blocked s : aio_completion_handler s = Blocked → hnd s = HNone ∨ hnd s = HDone.
Proof.
  unfold aio_completion_handler. destruct (hnd s); [by left|by destruct (req s)..| | |by right]; try done.
  destruct (buf s); [|done]. by destruct (c_str _ _) as [[??]| | |].
Qed.

(** Undefined behaviour is always that of the handler's [printf]. *)
Lemma handler_undefined s : phase s → aio_completion_handler s = Undefined → unprintable s.
Proof.
  unfold phase, aio_completion_handler, unprintable. intros Hp Hu. destruct (hnd s) as [| | |n| |]; [done|..|done|done].
  - destruct (req s) as [| |res]; [by destruct Hp|done|]. by destruct (res <? 0).
  - destruct (req s); [by destruct Hp..|done].
  - exists n. split; [done|]. destruct (buf s) as [x|]; [right; exists x|by left]. split; [done|].
    intros [t u] Hx. by rewrite Hx in Hu.
Qed.

Lemma signal_undefined a s : sig_inv s → signalled a s = Undefined → a = Handler ∧ unprintable s.
Proof.
  intros (Hh & Hp & Hr) Hu. assert (∀ s0, leave s0 = Undefined → ∃ z, main_at s0 = PFree z ∧ buf s0 = None) as Hleave.
  { intros s0. unfold leave. destruct (main_at s0); try done. destruct (buf s0); [done|]. by eexists. }
  assert (a = Handler ∨ signalled a s ≠ Undefined) as [->|Hne]; [|split; [done|]|done].
  - destruct a as [ok|res data| |]; [right..|by left]; clear Hu; intros Hu; unfold signalled in Hu.
    + assert (signal_main ok s = Undefined) as Hm by (by destruct (main_at s), (hnd s)).
      unfold holds, signal_main in *. destruct (main_at s) eqn:E; try done;
        destruct (Hleave _ Hm) as (z' & E' & Hb); rewrite E in E'; try done; destruct Hh as [[? Hb'] _]; congruence.
    + assert (kernel res data (set_pending true) s = Undefined) as Hk by (by destruct (main_at s)).
      unfold kernel in Hk. by repeat case_match.
    + destruct (main_at s), (hnd s); try done; by destruct (pending s).
  - apply handler_undefined; [done|]. unfold signalled in Hu.
    assert (signal_handler s = Undefined) as Hs by (by destruct (main_at s), (hnd s)).
    unfold signal_handler in Hs. by destruct (aio_completion_handler s).
Qed.

Lemma signal_stuck s :
  sig_inv s → signalled (Main true) s = Blocked → signalled (Kernel (-1) []) s = Blocked →
  signalled Notify s = Blocked → signalled Handler s = Blocked → exited s ∨ waits_for_ever s.
Proof.
  intros (Hh & Hp & Hr) Hmain Hker Hnot Hhan.
  destruct s as [p q x f h b o]. unfold signalled, signal_handler, holds, phase in *. cbn in *.
  assert ((∃ z, p = PGone z) ∨ h = HNone ∨ h = HDone) as [[z ->]|Hidle].
  { destruct p as [| | | | | | | | | | |z']; [right..|left; by exists z']; apply (handler_blocked (mkState POpen q x f h b o));
      unfold aio_completion_handler in *; cbn in *; repeat case_match; done. }
  { left. exists z. by destruct Hh. }
  destruct p; try (by destruct Hidle as [-> | ->]).
  all: try (destruct Hidle as [-> | ->]; destruct Hh as [[? ->] _]; done).
  2: left; exists z; by destruct Hh.
  right. destruct q as [| |res]; [by destruct Hp as (_ & _ & [])|done|]. destruct Hp as [_ Hp].
  destruct b; [by subst h|]. destruct Hidle as [->|Hidle]; [done|]. destruct Hh. cbn in Hidle. subst h.
  unfold waits_for_ever. cbn. split_and!; eauto. by intros [].
Qed.

Lemma signal_halted s : sig_inv s → halted s → exited s ∨ waits_for_ever s ∨ unprintable s.
Proof.
  intros Hinv Hs. assert (∀ a, signalled a s = Blocked ∨ (a = Handler ∧ unprintable s)) as Hb.
  { intros a. destruct (signalled a s) as [s'| |] eqn:E; [by destruct (Hs a s')|by left|right].
    by apply signal_undefined. }
  destruct (Hb Handler) as [Hhan|[_ Hu]]; [|by right; right].
  destruct (Hb (Main true)) as [?|[? _]], (Hb (Kernel (-1) [])) as [?|[? _]], (Hb Notify) as [?|[? _]]; try done.
  destruct (signal_stuck s) as [?|?]; [done..|by left|by right; left].
Qed.

(** A run into undefined behaviour has a last state before it. *)
Lemma run_undefined ts s0 :
  run ts s0 = Undefined → ∃ ts1 a ts2 s, ts = ts1 ++ a :: ts2 ∧ run ts1 s0 = Moved s ∧ move a s = Undefined.
Proof.
  revert s0. induction ts as [|a ts IH]; intros s0 Hrun; [done|]. cbn in Hrun.
  destruct (move a s0) as [s1| |] eqn:Hm; [|done|by exists [], a, ts, s0].
  destruct (IH s1 Hrun) as (ts1 & a' & ts2 & s & -> & Hr & Hu).
  exists (a :: ts1), a', ts2, s. split_and!; [done| |done]. cbn. by rewrite Hm.
Qed.

(** C25: the program with a signal comes to an end, whatever is answered and whenever the
    request completes and its signal comes: after at most 30 moves nothing defined can happen any
    more. Then the program has exited, with the buffer and the descriptor released; or it waits
    in [pause] for ever, for the signal of a completion that was handled before it got there; or its
    handler is about to print a buffer that was freed or has no NUL, and this is also the only
    undefined behaviour that any schedule comes to. *)
Theorem signal_program_stops ts :
  match run ts init with
  | Moved s => (length ts ≤ 30)%nat ∧ (halted s → exited s ∨ waits_for_ever s ∨ unprintable s)
  | Undefined => ∃ ts1 ts2 s, ts = ts1 ++ Handler :: ts2 ∧ run ts1 init = Moved s ∧ unprintable s
  | Blocked => True
  end.
Proof.
  destruct (run ts init) as [s| |] eqn:Hrun; [|done|].
  - split; [|apply signal_halted, signal_program_inv; by eapply run_reachable].
    pose proof (run_bounded sig_inv rank ts init s ltac:(by repeat split) signal_step Hrun) as Hb.
    change (rank init) with 30%nat in Hb. lia.
  - apply run_undefined in Hrun as (ts1 & a & ts2 & s & -> & Hrun & Hu).
    apply signal_undefined in Hu as [-> Hu]; [|apply signal_program_inv; by eapply run_reachable].
    by exists ts1, ts2, s.
Qed.

#[local] Arguments kernel : simpl never.
#[local] Arguments aio_completion_handler : simpl never.
#[local] Arguments new_buffer : simpl never.

Definition resume (p : mpc) : mpc := match p with PPause => PPoll | p => p end.

(** The handler from its start, with the data in the buffer, or after the buffer is gone. *)
Lemma signal_handler_runs p data f b o :
  (∀ z, p ≠ PGone z) → "000"%char ∈ data →
  let s x h p o := mkState p (Completed (zlen data)) x f h b o in
  run (replicate 3 Handler) (s None HTest p o) = Undefined ∧
  run (replicate 3 Handler) (s (Some (fill (new_buffer BUFFER_LEN) data)) HTest p o) =
    Moved (s (Some (fill (new_buffer BUFFER_LEN) data)) HDone (resume p)
             (o ++ [Read_bytes (zlen data) (upto_nul data)])).
Proof.
  intros Hp Hd s. pose proof (zlen_nonneg data) as Hpos. unfold s.
  assert ((zlen data <? 0) = false) as Hlt by (by apply Z.ltb_ge).
  destruct p as [| | | | | | | | | | |z]; [..|by destruct (Hp z)];
    unfold signal_system, signalled, signal_handler, aio_completion_handler, move; cbn; rewrite Hlt; cbn;
    (split; [done|by rewrite c_str_has_nul]).
Qed.

(** [open], [malloc], [sigaction] and [aio_read]. *)
Definition started : list actor := replicate 4 (Main true).
Definition handling : list actor := Notify :: replicate 3 Handler.

(** C26: when the completion comes makes the difference. Before the test of the loop, and its
    signal after the [free]: the handler prints freed memory. Between the test and [pause]: the
    data is shown, and the program waits for ever. In [pause]: all is well. *)
Theorem signal_races (data : bytes) :
  "000"%char ∈ data → zlen data ≤ BUFFER_LEN →
  let completion := Kernel (zlen data) data in
  let shown := [Read_bytes (zlen data) (upto_nul data)] in
  run (started ++ [completion; Main true; Main true] ++ handling) init = Undefined ∧
  (∃ s, run (started ++ [Main true; completion] ++ handling ++ [Main true]) init = Moved s ∧
    stuck s ∧ main_at s = PPause ∧ screen s = shown) ∧
  (∃ s, run (started ++ [Main true; Main true; completion] ++ handling ++ replicate 3 (Main true)) init = Moved s ∧
    main_at s = PGone 0 ∧ screen s = shown).
Proof.
  intros Hd Hlen completion shown. set (x := fill (new_buffer BUFFER_LEN) data).
  set (s := λ p y, mkState p (Completed (zlen data)) y true HTest false []).
  assert (run (started ++ [completion; Main true; Main true; Notify]) init = Moved (s (PClose 0) None)) as H1
    by (cbn; by rewrite kernel_read).
  assert (run (started ++ [Main true; completion; Notify]) init = Moved (s PCall (Some x))) as H2
    by (cbn; by rewrite kernel_read).
  assert (run (started ++ [Main true; Main true; completion; Notify]) init = Moved (s PPause (Some x))) as H3
    by (cbn; by rewrite kernel_read).
  split_and!.
  - change (_ ++ _ ++ handling) with ((started ++ [completion; Main true; Main true; Notify]) ++ replicate 3 Handler).
    rewrite run_app, H1. by apply (signal_handler_runs (PClose 0)).
  - change (_ ++ _ ++ handling ++ _) with
      ((started ++ [Main true; completion; Notify]) ++ replicate 3 Handler ++ [Main true]).
    rewrite run_app, H2. cbn [mbind outcome_bind]. rewrite run_app. unfold s, x.
    rewrite (proj2 (signal_handler_runs PCall data true false [] ltac:(done) Hd)).
    eexists. split; [reflexivity|]. split; [|done]. by intros [].
  - change (_ ++ _ ++ handling ++ _) with
      ((started ++ [Main true; Main true; completion; Notify]) ++ replicate 3 Handler ++ replicate 3 (Main true)).
    rewrite run_app, H3. cbn [mbind outcome_bind]. rewrite run_app. unfold s, x.
    rewrite (proj2 (signal_handler_runs PPause data true false [] ltac:(done) Hd)).
    eexists. by split; [reflexivity|].
Qed.
End signal.

(** ** The program with a thread *)

Section thread.
#[local] Instance thread_system : System actor state := threaded.

Definition thread_inv (s : state) : Prop := holds s ∧ phase s.

Lemma thread_main_step ok s s' : thread_inv s → thread_main ok s = Moved s' → thread_inv s'.
Proof.
  destruct s as [p q x f h b o]. unfold thread_inv, holds, phase. cbn. intros [Hh Hp] Hm.
  unfold thread_main in Hm. cbn in Hm.
  destruct p;
    try (apply leave_moved in Hm as (p' & x' & f' & o' & -> & Hp'); cbn in *; destruct Hp' as (-> & -> & ->)); try done;
    cbn in *; try (injection Hm as <-; destruct ok); destruct q as [| |res]; cbn in *; destruct_and?; subst; try done;
    try (injection Hm as <-); cbn; try (destruct (res =? -1)); cbn; split_and!; done.
Qed.

Lemma thread_step a s s' : thread_inv s → threaded a s = Moved s' → thread_inv s'.
Proof.
  intros Hinv Hm. assert (match a with
    | Main ok => thread_main ok s = Moved s'
    | Kernel res data => kernel res data (set_hnd HTest) s = Moved s'
    | Notify => False
    | Handler => aio_completion_handler s = Moved s' end) as Hm'.
  { unfold threaded in Hm. by destruct (main_at s), a. }
  clear Hm. destruct a as [ok|res data| |]; [by eapply thread_main_step| |done|].
  - apply kernel_moved in Hm' as (Hr & x & -> & Hx). destruct s as [p q x0 f h b o]. cbn in *. subst q.
    unfold thread_inv, holds, phase in *. cbn in *. destruct_and?. subst.
    destruct p; try done; destruct_and?; split_and!; try done; by apply Hx.
  - apply handler_moved in Hm' as (H1 & H2 & H3 & H4 & o & E). rewrite E.
    destruct s as [p q x f h b o0]. unfold thread_inv, holds, phase in *. cbn in *.
    destruct Hinv as [Hho Hp]. split; [done|]. destruct q; destruct_and?; try done. split; [done|]. by destruct b.
Qed.

(** On every way out of [main] the buffer and the descriptor have been released, each once. *)
Lemma thread_exits_release s z :
  reachable init s → main_at s = PGone z → buf s = None ∧ fd s = false.
Proof.
  intros Hs Hp. assert (thread_inv s) as [Hh _].
  { revert Hs. apply reachable_inv; [by repeat split|]. intros a s1 s2 Hi Hm. by eapply thread_step. }
  unfold holds in Hh. by rewrite Hp in Hh.
Qed.

#[local] Arguments kernel : simpl never.
#[local] Arguments aio_completion_handler : simpl never.
#[local] Arguments new_buffer : simpl never.

(** [open], [malloc] and [aio_read], and the completion. *)
Definition completed (data : bytes) : list actor := replicate 3 (Main true) ++ [Kernel (zlen data) data].

Lemma thread_handler_runs p data :
  (∀ z, p ≠ PGone z) → "000"%char ∈ data →
  let s x h o := mkState p (Completed (zlen data)) x true h false o in
  run (replicate 3 Handler) (s None HTest []) = Undefined ∧
  run (replicate 3 Handler) (s (Some (fill (new_buffer BUFFER_LEN) data)) HTest []) =
    Moved (s (Some (fill (new_buffer BUFFER_LEN) data)) HDone [Read_bytes (zlen data) (upto_nul data)]).
Proof.
  intros Hp Hd s. pose proof (zlen_nonneg data) as Hpos. unfold s.
  assert ((zlen data <? 0) = false) as Hlt by (by apply Z.ltb_ge).
  destruct p as [| | | | | | | | | | |z]; [..|by destruct (Hp z)];
    unfold thread_system, threaded, aio_completion_handler, move; cbn; rewrite Hlt; cbn;
    (split; [done|by rewrite c_str_has_nul]).
Qed.

(** Nothing orders the handler's thread and [main]: the data is shown when the thread is
    first, it is lost when [main] ends first, and freed memory is printed when the
    thread comes between the [free] and the end. *)
Lemma thread_races (data : bytes) :
  "000"%char ∈ data → zlen data ≤ BUFFER_LEN →
  (∃ s, run (completed data ++ replicate 3 Handler ++ replicate 4 (Main true)) init = Moved s ∧
    main_at s = PGone 0 ∧ screen s = [Read_bytes (zlen data) (upto_nul data)]) ∧
  (∃ s, run (completed data ++ replicate 4 (Main true)) init = Moved s ∧ main_at s = PGone 0 ∧ screen s = []) ∧
  run (completed data ++ replicate 3 (Main true) ++ replicate 3 Handler) init = Undefined.
Proof.
  intros Hd Hlen. set (x := fill (new_buffer BUFFER_LEN) data). pose proof (zlen_nonneg data) as Hpos.
  assert ((zlen data =? -1) = false) as Hne by (apply Z.eqb_neq; lia).
  assert (run (completed data) init = Moved (mkState PPoll (Completed (zlen data)) (Some x) true HTest false [])) as H1
    by (cbn; by rewrite kernel_read).
  split_and!.
  - rewrite !run_app, H1. cbn [mbind outcome_bind]. rewrite run_app. unfold x.
    rewrite (proj2 (thread_handler_runs PPoll data ltac:(done) Hd)). cbn. rewrite Hne. by eexists.
  - rewrite run_app, H1. cbn. rewrite Hne. by eexists.
  - rewrite run_app, H1. cbn [mbind outcome_bind]. rewrite run_app.
    assert (run (replicate 3 (Main true)) (mkState PPoll (Completed (zlen data)) (Some x) true HTest false []) =
      Moved (mkState (PClose 0) (Completed (zlen data)) None true HTest false [])) as -> by (cbn; by rewrite Hne).
    by apply (thread_handler_runs (PClose 0)).
Qed.
End thread.

(** A file that holds a text with its NUL. *)
Definition example : bytes := lit "text" ++ ["000"%char].

(** The three ends: [open] fails; the completion is handled before [pause]; the file has
    five bytes, none of them a NUL. *)
Definition early : list actor := started ++ [Main true; Kernel 5 example] ++ handling ++ [Main true].
Definition no_nul : list actor := started ++ [Main true; Main true; Kernel 5 (b "hello"); Notify; Handler; Handler].
Definition ends (ts : list actor) (P : state → Prop) : Prop :=
  ∃ s, run (H := signalled) ts init = Moved s ∧ halted s ∧ P s.

Lemma signal_program_stops_witness :
  ends [Main false] exited ∧ ends early waits_for_ever ∧ ends no_nul unprintable.
Proof.
  split_and!.
  all: match goal with |- ends ?ts _ =>
    pose proof (signal_program_stops ts) as Hs;
    destruct (run ts init) as [s| |] eqn:Hrun; [|by vm_compute in Hrun..];
    assert (halted s) as Hh
      by (vm_compute in Hrun; injection Hrun as Hrun; subst s; intros [ok|res data| |] s'; vm_compute; discriminate);
    exists s; split; [exact Hrun|split; [exact Hh|]]; destruct (proj2 Hs Hh) as [He|[He|He]]; try exact He;
    exfalso; vm_compute in Hrun; injection Hrun as Hrun; subst s; clear -He end.
  - by destruct He as [? _].
  - by destruct He as (n & ? & _).
  - by destruct He as (z & ? & _).
  - by destruct He as (n & ? & _).
  - by destruct He as (z & ? & _).
  - by destruct He as (_ & ? & _).
Defined.

Lemma signal_races_witness :
  ∃ s, run (H := signalled) (started ++ [Main true; Kernel 5 example] ++ handling ++ [Main true]) init = Moved s ∧
    main_at s = PPause ∧ screen s = [Read_bytes 5 (b "text")].
Proof.
  destruct (signal_races example ltac:(by apply (bool_decide_unpack _)) ltac:(done)) as (_ & (s & Hrun & _ & Hp & Ho) & _).
  by exists s.
Defined.
