(* ===== verification/Mutex.v ===== *)
(** * [06_mutex/pthread_mutex.c]: threads that count under a mutex *)
From S2P Require Export Threads.

Definition NUM_THREADS : Z := 2.
Definition NUM_INCREMENTS : Z := 10000.

(** Where a thread is in [increment_counter]; [counter++] is a load and a
    store, between which [tmp] is the value loaded. *)
Inductive tpc :=
| Loop (i : Z)
| Lock (i : Z)
| Load (i : Z)
| Store (i tmp : Z)
| Unlock (i : Z)
| Finished.

#[global] Instance tpc_eq_dec : EqDecision tpc.
Proof. solve_decision. Defined.

(** Where [main] is. *)
Inductive mpc := MInit | MCreate (i : Z) | MJoin (i : Z) | MDestroy | MPrint | MReturned.
#[global] Instance mpc_eq_dec : EqDecision mpc.
Proof. solve_decision. Defined.

Inductive actor := Main | Thread (k : nat).
#[global] Instance actor_eq_dec : EqDecision actor.
Proof. solve_decision. Defined.

Record state := mkState {
  counter : Z; mutex : mutex_t actor; threads : list tpc; main_at : mpc;
  printed : option Z }.

Definition set_thread (k : nat) (p : tpc) (s : state) : state :=
  mkState (counter s) (mutex s) (<[k := p]> (threads s)) (main_at s) (printed s).
Definition set_counter (z : Z) (s : state) : state :=
  mkState z (mutex s) (threads s) (main_at s) (printed s).
Definition set_mutex (m : mutex_t actor) (s : state) : state :=
  mkState (counter s) m (threads s) (main_at s) (printed s).
Definition set_main (p : mpc) (s : state) : state :=
  mkState (counter s) (mutex s) (threads s) p (printed s).

(** One move of thread [k], which is at [p]. *)
Definition increment_counter (k : nat) (p : tpc) (s : state) : outcome state :=
  match p with
  | Loop i => Moved (set_thread k (if i <? NUM_INCREMENTS then Lock i else Finished) s)
  | Lock i =>
    m ← pthread_mutex_lock (Thread k) (mutex s);
    Moved (set_thread k (Load i) (set_mutex m s))
  | Load i => Moved (set_thread k (Store i (counter s)) s)
  | Store i tmp =>
    if int_ok (tmp + 1) then Moved (set_thread k (Unlock i) (set_counter (tmp + 1) s))
    else Undefined
  | Unlock i =>
    m ← pthread_mutex_unlock (Thread k) (mutex s);
    Moved (set_thread k (Loop (i + 1)) (set_mutex m s))
  | Finished => Blocked
  end.

(** One move of [main]. *)
Definition main (s : state) : outcome state :=
  match main_at s with
  | MInit => Moved (set_main (MCreate 0) (set_mutex Unlocked s))
  | MCreate i =>
    if i <? NUM_THREADS then
      Moved (mkState (counter s) (mutex s) (threads s ++ [Loop 0]) (MCreate (i + 1)) (printed s))
    else Moved (set_main (MJoin 0) s)
  | MJoin i =>
    if i <? NUM_THREADS then
      match zlookup (threads s) i with
      | None => Undefined
      | Some Finished => Moved (set_main (MJoin (i + 1)) s)
      | Some _ => Blocked
      end
    else Moved (set_main MDestroy s)
  | MDestroy => m ← pthread_mutex_destroy (mutex s); Moved (set_main MPrint (set_mutex m s))
  | MPrint => Moved (mkState (counter s) (mutex s) (threads s) MReturned (Some (counter s)))
  | MReturned => Blocked
  end.

#[global] Instance counting : System actor state := λ t s,
  match t with
  | Main => main s
  | Thread k => match threads s !! k with None => Blocked | Some p => increment_counter k p s end
  end.

(** [counter] is 0 and the other objects are as before [main]. *)
Definition init : state := mkState 0 NoMutex [] MInit None.

Arguments NUM_THREADS : simpl never.
Arguments NUM_INCREMENTS : simpl never.

(** ** The invariant *)

(** The increments that a thread has stored. *)
Definition stored (p : tpc) : Z :=
  match p with
  | Loop i | Lock i | Load i | Store i _ => i
  | Unlock i => i + 1
  | Finished => NUM_INCREMENTS
  end.
Fixpoint total (f : tpc → Z) (l : list tpc) : Z :=
  match l with [] => 0 | p :: l => f p + total f l end.

Definition critical (p : tpc) : Prop :=
  match p with Load _ | Store _ _ | Unlock _ => True | _ => False end.

Definition thread_ok (c : Z) (p : tpc) : Prop :=
  match p with
  | Loop i => 0 ≤ i ≤ NUM_INCREMENTS
  | Lock i | Load i | Unlock i => 0 ≤ i < NUM_INCREMENTS
  | Store i tmp => 0 ≤ i < NUM_INCREMENTS ∧ tmp = c
  | Finished => True
  end.

(** The threads before the [n]-th have finished. *)
Definition joined (n : Z) (l : list tpc) : Prop :=
  ∀ k p, Z.of_nat k < n → l !! k = Some p → p = Finished.

Definition main_ok (s : state) : Prop :=
  match main_at s with
  | MInit => mutex s = NoMutex ∧ threads s = []
  | MCreate i => mutex s ≠ NoMutex ∧ 0 ≤ i ≤ NUM_THREADS ∧ zlen (threads s) = i
  | MJoin i =>
    mutex s ≠ NoMutex ∧ 0 ≤ i ≤ NUM_THREADS ∧ zlen (threads s) = NUM_THREADS ∧ joined i (threads s)
  | MDestroy => mutex s ≠ NoMutex ∧ zlen (threads s) = NUM_THREADS ∧ joined NUM_THREADS (threads s)
  | MPrint => zlen (threads s) = NUM_THREADS ∧ joined NUM_THREADS (threads s)
  | MReturned => zlen (threads s) = NUM_THREADS ∧ joined NUM_THREADS (threads s) ∧ printed s = Some (counter s)
  end.

(** The thread in its critical section holds the mutex, and conversely: so at
    most one thread is in its critical section. *)
Record inv (s : state) : Prop := {
  inv_main : main_ok s;
  inv_threads k p : threads s !! k = Some p →
    thread_ok (counter s) p ∧ (critical p ↔ mutex s = LockedBy (Thread k));
  inv_holder t : mutex s = LockedBy t →
    ∃ k p, t = Thread k ∧ threads s !! k = Some p ∧ critical p;
  inv_counter : counter s = total stored (threads s) }.

Lemma total_insert f l k p p' :
  l !! k = Some p → total f (<[k := p']> l) = total f l - f p + f p'.
Proof.
  revert k. induction l as [|q l IH]; intros [|k] Hk; simplify_eq/=; [lia|].
  rewrite (IH k) by done. lia.
Qed.

Lemma total_app f l l' : total f (l ++ l') = total f l + total f l'.
Proof. induction l; simpl; lia. Qed.

Lemma stored_bounds c p : thread_ok c p → 0 ≤ stored p ≤ NUM_INCREMENTS.
Proof. unfold NUM_INCREMENTS. destruct p; simpl; unfold NUM_INCREMENTS; lia. Qed.

Lemma total_bounds c l :
  (∀ k p, l !! k = Some p → thread_ok c p) → 0 ≤ total stored l ≤ zlen l * NUM_INCREMENTS.
Proof.
  induction l as [|p l IH]; intros Hl; [done|]. simpl.
  pose proof (stored_bounds c p (Hl 0%nat p eq_refl)).
  assert (0 ≤ total stored l ≤ zlen l * NUM_INCREMENTS) by (apply IH; intros k; apply (Hl (S k))).
  unfold zlen in *. simpl. lia.
Qed.

Lemma total_finished l :
  (∀ k p, l !! k = Some p → p = Finished) → total stored l = zlen l * NUM_INCREMENTS.
Proof.
  induction l as [|p l IH]; intros Hl; [done|]. simpl.
  rewrite (Hl 0%nat p eq_refl), IH by (intros k; apply (Hl (S k))).
  unfold zlen. simpl. lia.
Qed.

Lemma joined_all l k p :
  zlen l = NUM_THREADS → joined NUM_THREADS l → l !! k = Some p → p = Finished.
Proof.
  intros Hlen Hj Hk. eapply Hj; [|done]. apply lookup_lt_Some in Hk. unfold zlen in Hlen. lia.
Qed.

(** No increment of [counter] overflows. *)
Lemma counter_bounds s : inv s → 0 ≤ counter s ≤ NUM_THREADS * NUM_INCREMENTS.
Proof.
  intros Hs. rewrite (inv_counter s Hs).
  assert (zlen (threads s) ≤ NUM_THREADS) as Hlen.
  { pose proof (inv_main s Hs) as Hm. unfold main_ok in Hm.
    destruct (main_at s); destruct_and?; [|lia..].
    match goal with H : threads s = [] |- _ => rewrite H end. done. }
  destruct (total_bounds (counter s) (threads s)) as [H0 H1].
  { intros k p Hk. by apply (inv_threads s Hs) in Hk as [? _]. }
  split; [done|]. transitivity (zlen (threads s) * NUM_INCREMENTS); [done|].
  by apply Z.mul_le_mono_nonneg_r.
Qed.

(** The mutex is initialised as long as a thread runs. *)
Lemma mutex_live s k p :
  inv s → threads s !! k = Some p → p ≠ Finished → mutex s ≠ NoMutex.
Proof.
  intros Hs Hk Hp. pose proof (inv_main s Hs) as Hm. unfold main_ok in Hm.
  destruct (main_at s); destruct_and?; try done.
  - match goal with H : threads s = [] |- _ => by rewrite H in Hk end.
  - destruct Hp. by apply (joined_all (threads s) k).
  - destruct Hp. by apply (joined_all (threads s) k).
Qed.

(** ** Preservation *)

Lemma inv_init : inv init.
Proof. split; [done|done|done|done]. Qed.

Lemma joined_insert l k p p' n :
  l !! k = Some p → p ≠ Finished → joined n l → joined n (<[k := p']> l).
Proof.
  intros Hk Hp Hj k' q Hk' Hq. destruct (decide (k' = k)) as [->|Hne].
  - destruct Hp. by eapply Hj.
  - rewrite list_lookup_insert_ne in Hq by done. by eapply Hj.
Qed.

Lemma main_ok_thread s k p p' c m :
  main_ok s → threads s !! k = Some p → p ≠ Finished → m ≠ NoMutex →
  main_ok (mkState c m (<[k := p']> (threads s)) (main_at s) (printed s)).
Proof.
  intros Hm Hk Hp Hmu. unfold main_ok in *. simpl.
  assert (zlen (<[k := p']> (threads s)) = zlen (threads s)) as ->.
  { unfold zlen. by rewrite length_insert. }
  destruct (main_at s).
  - destruct Hm as [_ Hm]. by rewrite Hm in Hk.
  - naive_solver.
  - destruct Hm as (? & ? & ? & ?). split_and!; first [done|lia|by apply (joined_insert _ k p)].
  - destruct Hm as (? & ? & ?). split_and!; first [done|lia|by apply (joined_insert _ k p)].
  - destruct Hm as [? ?]. destruct Hp. by apply (joined_all (threads s) k).
  - destruct Hm as (? & ? & ?). destruct Hp. by apply (joined_all (threads s) k).
Qed.

(** A move of thread [k] from [p] to [p'], which may take or release the mutex
    and changes the counter only while it holds it. *)
Lemma thread_moves s k p p' c m :
  inv s → threads s !! k = Some p → p ≠ Finished → thread_ok c p' →
  c = counter s - stored p + stored p' →
  (c = counter s ∨ critical p) →
  (critical p' ↔ m = LockedBy (Thread k)) →
  (m = mutex s ∨ (m = Unlocked ∧ mutex s = LockedBy (Thread k)) ∨
   (m = LockedBy (Thread k) ∧ mutex s = Unlocked)) → m ≠ NoMutex →
  inv (mkState c m (<[k := p']> (threads s)) (main_at s) (printed s)).
Proof.
  intros [Hmain Hthr Hhold Hcnt] Hk Hp Hok Hc Hcc Hcrit Hm Hmn.
  assert (k < length (threads s))%nat as Hlt by (by eapply lookup_lt_Some).
  split; simpl.
  - by apply (main_ok_thread s k p).
  - intros k' q Hq. destruct (decide (k' = k)) as [->|Hne].
    + rewrite list_lookup_insert_eq in Hq by done. by simplify_eq.
    + rewrite list_lookup_insert_ne in Hq by done.
      destruct (Hthr k' q Hq) as [Hq1 Hq2]. split.
      * destruct Hcc as [->|Hcc]; [done|].
        destruct (Hthr k p Hk) as [_ Hp2]. apply Hp2 in Hcc as Hlk.
        destruct q; try done. destruct Hq2 as [Hq2 _]. rewrite Hlk in Hq2.
        specialize (Hq2 I). congruence.
      * rewrite Hq2. destruct Hm as [->|[[-> ->]|[-> ->]]]; [done|..];
          split; intros; simplify_eq.
  - intros t ->. destruct Hm as [Hm|[[Hm _]|[Hm _]]]; [|done|].
    + destruct (Hhold t (eq_sym Hm)) as (k' & q & -> & Hq & Hqc).
      destruct (decide (k' = k)) as [->|Hne].
      * exists k, p'. rewrite list_lookup_insert_eq by done.
        split_and!; [done|done|by apply Hcrit].
      * exists k', q. by rewrite list_lookup_insert_ne.
    + injection Hm as ->. exists k, p'. rewrite list_lookup_insert_eq by done.
      split_and!; [done|done|by apply Hcrit].
  - rewrite (total_insert _ _ _ p) by done. lia.
Qed.

Lemma increment_counter_inv s s' k p :
  inv s → threads s !! k = Some p → increment_counter k p s = Moved s' → inv s'.
Proof.
  intros Hs Hk Hmv. destruct (inv_threads s Hs k p Hk) as [Hok Hcr].
  assert (mutex s = NoMutex → ¬ critical p) as Hno by (intros Hm Hp; apply Hcr in Hp; congruence).
  destruct (decide (p = Finished)) as [->|Hpf]; [done|].
  pose proof (mutex_live s k p Hs Hk Hpf) as Hmn.
  assert (¬ critical p → mutex s ≠ LockedBy (Thread k)) as Hnc by (rewrite Hcr; tauto).
  destruct p as [i|i|i|i tmp|i|]; simpl in *; try done.
  - injection Hmv as <-. apply (thread_moves s k (Loop i)); try done; try tauto;
      destruct (Z.ltb_spec i NUM_INCREMENTS); simpl; lia || tauto || (split; [done|]; tauto).
  - destruct (mutex s) as [| |t] eqn:Hmu; simpl in Hmv; try done; [|by case_decide].
    injection Hmv as <-. apply (thread_moves s k (Lock i)); rewrite ?Hmu; try done; simpl; first [lia|done|tauto|split; done].
  - injection Hmv as <-. apply (thread_moves s k (Load i)); try done; simpl; tauto || lia.
  - destruct (int_ok (tmp + 1)); [|done]. injection Hmv as <-.
    apply (thread_moves s k (Store i tmp)); try done; simpl; tauto || lia.
  - destruct (mutex s) as [| |t] eqn:Hmu; simpl in Hmv; try done. case_decide; [|done].
    subst t. injection Hmv as <-.
    apply (thread_moves s k (Unlock i)); rewrite ?Hmu; try done; simpl; first [lia|done|tauto|split; done].
Qed.

Lemma main_inv s s' : inv s → main s = Moved s' → inv s'.
Proof.
  intros Hs Hmv. destruct Hs as [Hmain Hthr Hhold Hcnt]. unfold main, main_ok in *.
  destruct s as [c m l pc pr]. simpl in *. destruct pc as [|i|i| | |]; simpl in *.
  - destruct Hmain as [-> ->]. injection Hmv as <-. split; simpl; [|done..].
    split_and!; [done|done|done|done].
  - destruct Hmain as (Hm & Hi & Hlen). destruct (Z.ltb_spec i NUM_THREADS) as [Hlt|Hge];
      injection Hmv as <-; split; simpl; try done.
    + unfold main_ok, zlen in *. simpl. rewrite length_app. simpl. split_and!; done || lia.
    + intros k p Hk. apply lookup_app_Some in Hk as [Hk|[Hle Hk]]; [by apply Hthr|].
      apply list_lookup_singleton_Some in Hk as [Hk <-]. split; [done|]. split; [done|].
      intros ->. destruct (Hhold _ eq_refl) as (k' & q & [= <-] & Hq & _).
      apply lookup_lt_Some in Hq. lia.
    + intros t Ht. destruct (Hhold t Ht) as (k & p & -> & Hk & Hp). exists k, p.
      split_and!; [done|by apply lookup_app_l_Some|done].
    + rewrite total_app. simpl. lia.
    + unfold main_ok. simpl. split_and!; try (done || lia). intros k p Hk. lia.
  - destruct Hmain as (Hm & Hi & Hlen & Hj). destruct (Z.ltb_spec i NUM_THREADS) as [Hlt|Hge].
    + destruct (zlookup l i) as [p|] eqn:Hp; [|done]. destruct p; try done.
      injection Hmv as <-. split; simpl; try done. unfold main_ok. simpl.
      split_and!; try (done || lia). intros k q Hk Hq.
      destruct (decide (Z.of_nat k = i)) as [<-|Hne]; [|apply (Hj k); [lia|done]].
      apply zlookup_Some in Hp as [_ Hp]. rewrite Nat2Z.id in Hp. congruence.
    + injection Hmv as <-. split; simpl; try done. unfold main_ok. simpl.
      split_and!; [done|done|]. intros k q Hk. apply Hj. lia.
  - destruct Hmain as (Hm & Hlen & Hj). destruct m as [| |t]; try done.
    injection Hmv as <-. split; simpl; [by split| |done|done]. intros k p Hk.
    destruct (Hthr k p Hk) as [Hok Hcr]. split; [done|]. rewrite Hcr. split; done.
  - destruct Hmain as (Hlen & Hj). injection Hmv as <-. by split.
  - done.
Qed.

Lemma move_inv t s s' : inv s → move t s = Moved s' → inv s'.
Proof.
  intros Hs Hmv. unfold move, counting in Hmv. destruct t as [|k]; [by eapply main_inv|].
  destruct (threads s !! k) as [p|] eqn:Hk; [|done]. by eapply increment_counter_inv.
Qed.

Lemma reachable_init s : reachable init s → inv s.
Proof. apply reachable_inv; [apply inv_init|]. intros. by eapply move_inv. Qed.

(** ** Progress and termination *)

Lemma critical_moves s k p :
  inv s → threads s !! k = Some p → critical p → ∃ s', move (Thread k) s = Moved s'.
Proof.
  intros Hs Hk Hp. destruct (inv_threads s Hs k p Hk) as [Hok Hcr].
  unfold move, counting. rewrite Hk. destruct p as [i|i|i|i tmp|i|]; try done; simpl.
  - by eexists.
  - unfold int_ok. pose proof (counter_bounds s Hs) as Hb. destruct Hok as [_ ->].
    rewrite bool_decide_eq_true_2; [by eexists|].
    unfold INT_MIN, INT_MAX, NUM_THREADS, NUM_INCREMENTS in *. lia.
  - apply Hcr in Hp as ->. simpl. rewrite decide_True by done. by eexists.
Qed.

(** A thread outside its critical section waits only for the mutex. *)
Lemma outside_moves s k p :
  inv s → threads s !! k = Some p → ¬ critical p → p ≠ Finished →
  (mutex s = Unlocked ∨ ∃ i, p = Loop i) → ∃ s', move (Thread k) s = Moved s'.
Proof.
  intros Hs Hk Hp Hpf Hm. unfold move, counting. rewrite Hk.
  destruct p as [i|i|i|i tmp|i|]; try done; simpl in *; try tauto; [by eexists|].
  destruct Hm as [->|[? [=]]]. by eexists.
Qed.

Lemma move_defined s t : inv s → move t s ≠ Undefined.
Proof.
  intros Hs. destruct t as [|k].
  - pose proof (inv_main s Hs) as Hm. unfold move, counting, main, main_ok in *.
    destruct (main_at s) as [|i|i| | |]; try done.
    + by case_match.
    + destruct (Z.ltb_spec i NUM_THREADS); [|done].
      destruct (zlookup (threads s) i) as [p|] eqn:Hp; [by destruct p|].
      destruct (proj2 (zlookup_is_Some (threads s) i)); [lia|congruence].
    + destruct Hm as (Hm & Hlen & Hj). destruct (mutex s) as [| |t] eqn:Hmu; [done|done|].
      destruct (inv_holder s Hs t Hmu) as (k & p & _ & Hk & Hp).
      by rewrite (joined_all _ _ _ Hlen Hj Hk) in Hp.
  - destruct (threads s !! k) as [p|] eqn:Hk; [|unfold move, counting; by rewrite Hk].
    destruct (inv_threads s Hs k p Hk) as [_ Hcr].
    assert (critical p ∨ ¬ critical p) as [Hp|Hp] by (destruct p; simpl; tauto).
    { by destruct (critical_moves s k p Hs Hk Hp) as [s' ->]. }
    unfold move, counting. rewrite Hk. destruct p as [i|i|i|i tmp|i|]; simpl in *; try done.
    pose proof (mutex_live s k (Lock i) Hs Hk ltac:(done)).
    destruct (mutex s) as [| |t]; simpl; try done. case_decide; [|done]. subst t. tauto.
Qed.

(** Until [main] has returned, somebody can move. *)
Lemma mutex_progress s : inv s → main_at s ≠ MReturned → ∃ t s', move t s = Moved s'.
Proof.
  intros Hs Hpc. pose proof (inv_main s Hs) as Hm. pose proof (move_defined s Main Hs) as Hd.
  unfold main_ok in Hm. destruct (move Main s) as [s'| |] eqn:Hmv; [by exists Main, s'| |done].
  unfold move, counting, main in Hmv. destruct (main_at s) as [|i|i| | |]; try done.
  - by destruct (i <? NUM_THREADS).
  - destruct (i <? NUM_THREADS); [|done].
    destruct (zlookup (threads s) i) as [p|] eqn:Hp; [|done].
    apply zlookup_Some in Hp as [_ Hp].
    assert (p ≠ Finished) as Hpf by (by intros ->).
    destruct (mutex s) as [| |t] eqn:Hmu.
    + by destruct (mutex_live s _ p Hs Hp Hpf).
    + exists (Thread (Z.to_nat i)).
      assert (critical p ∨ ¬ critical p) as [Hc|Hc] by (destruct p; simpl; tauto).
      * by eapply critical_moves.
      * eapply outside_moves; [done|done|done|done|by left].
    + destruct (inv_holder s Hs t Hmu) as (k & q & -> & Hk & Hq).
      exists (Thread k). by eapply critical_moves.
  - by destruct (mutex s).
Qed.

(** The moves that are left. *)
Definition thread_moves_left (p : tpc) : Z :=
  match p with
  | Loop i => 5 * (NUM_INCREMENTS - i) + 1
  | Lock i => 5 * (NUM_INCREMENTS - i)
  | Load i => 5 * (NUM_INCREMENTS - i) - 1
  | Store i _ => 5 * (NUM_INCREMENTS - i) - 2
  | Unlock i => 5 * (NUM_INCREMENTS - i) - 3
  | Finished => 0
  end.
Definition main_moves_left (p : mpc) : Z :=
  match p with
  | MInit => NUM_THREADS * (5 * NUM_INCREMENTS + 2) + NUM_THREADS + 5
  | MCreate i => (NUM_THREADS - i) * (5 * NUM_INCREMENTS + 2) + NUM_THREADS + 4
  | MJoin i => NUM_THREADS - i + 3
  | MDestroy => 2
  | MPrint => 1
  | MReturned => 0
  end.
Definition moves_left (s : state) : nat :=
  Z.to_nat (main_moves_left (main_at s) + total thread_moves_left (threads s)).

Lemma thread_moves_left_nonneg c p : thread_ok c p → 0 ≤ thread_moves_left p.
Proof. destruct p; simpl; lia. Qed.

Lemma threads_left_nonneg s : inv s → 0 ≤ total thread_moves_left (threads s).
Proof.
  intros Hs. assert (∀ k p, threads s !! k = Some p → 0 ≤ thread_moves_left p) as Hl.
  { intros k p Hk. apply (inv_threads s Hs) in Hk as [Hk _].
    by eapply thread_moves_left_nonneg. }
  induction (threads s) as [|q l IH]; simpl; [done|].
  pose proof (Hl 0%nat q eq_refl). specialize (IH (λ k, Hl (S k))). lia.
Qed.

Lemma main_left_nonneg s : inv s → 0 ≤ main_moves_left (main_at s).
Proof.
  intros Hs. pose proof (inv_main s Hs) as Hm. unfold main_ok in Hm.
  assert (0 < NUM_THREADS ∧ 0 < NUM_INCREMENTS) by done.
  destruct (main_at s); simpl; nia.
Qed.

Lemma increment_counter_left s s' k p :
  inv s → threads s !! k = Some p → increment_counter k p s = Moved s' →
  main_at s' = main_at s ∧
  total thread_moves_left (threads s') < total thread_moves_left (threads s).
Proof.
  intros Hs Hk Hmv.
  assert (∀ p', thread_moves_left p' < thread_moves_left p →
    total thread_moves_left (<[k := p']> (threads s)) < total thread_moves_left (threads s))
    as Hleft by (intros p' Hlt; rewrite (total_insert _ _ _ p) by done; lia).
  destruct (inv_threads s Hs k p Hk) as [Hok _].
  destruct p as [i|i|i|i tmp|i|]; simpl in *; [| | | | |done].
  - injection Hmv as <-. split; [done|]. apply Hleft.
    destruct (Z.ltb_spec i NUM_INCREMENTS); simpl; lia.
  - destruct (pthread_mutex_lock _ _); simplify_eq/=. split; [done|]. apply Hleft. simpl. lia.
  - injection Hmv as <-. split; [done|]. apply Hleft. simpl. lia.
  - destruct (int_ok _); simplify_eq/=. split; [done|]. apply Hleft. simpl. lia.
  - destruct (pthread_mutex_unlock _ _); simplify_eq/=. split; [done|]. apply Hleft. simpl. lia.
Qed.

Lemma main_left s s' :
  inv s → main s = Moved s' →
  main_moves_left (main_at s') + total thread_moves_left (threads s') <
  main_moves_left (main_at s) + total thread_moves_left (threads s).
Proof.
  intros Hs Hmv. pose proof (inv_main s Hs) as Hm. unfold main, main_ok in *.
  destruct (main_at s) as [|i|i| | |]; try done.
  - injection Hmv as <-. simpl. lia.
  - destruct (Z.ltb_spec i NUM_THREADS); injection Hmv as <-; simpl.
    + rewrite total_app. simpl. lia.
    + assert (NUM_THREADS - i = 0) as -> by lia. lia.
  - destruct (Z.ltb_spec i NUM_THREADS).
    + destruct (zlookup (threads s) i) as [[]|]; try done. injection Hmv as <-. simpl. lia.
    + injection Hmv as <-. simpl. lia.
  - destruct (pthread_mutex_destroy _); simplify_eq/=. lia.
  - injection Hmv as <-. simpl. lia.
Qed.

Lemma move_left t s s' :
  inv s → move t s = Moved s' → inv s' ∧ (moves_left s' < moves_left s)%nat.
Proof.
  intros Hs Hmv. pose proof (move_inv t s s' Hs Hmv) as Hs'. split; [done|].
  pose proof (threads_left_nonneg s Hs). pose proof (threads_left_nonneg s' Hs').
  pose proof (main_left_nonneg s Hs). pose proof (main_left_nonneg s' Hs').
  unfold moves_left. unfold move, counting in Hmv. destruct t as [|k].
  - pose proof (main_left s s' Hs Hmv). lia.
  - destruct (threads s !! k) as [p|] eqn:Hk; [|done].
    destruct (increment_counter_left s s' k p Hs Hk Hmv) as [Hmain Hlt].
    rewrite Hmain in *. lia.
Qed.

(** ** Correctness *)

(** C5: under every interleaving no call is misused, nothing overflows and no
    increment is lost: after a schedule that the program can follow, [main] has
    either printed exactly [NUM_THREADS * NUM_INCREMENTS] and returned, or some
    thread can move on; and since no schedule is longer than 100,011 moves, the
    program ends. At most one thread is between [Lock] and [Unlock]. *)
Theorem counter_is_exact ts s :
  run ts init = Moved s →
  (∀ t, move t s ≠ Undefined) ∧
  (∀ k k' p p', threads s !! k = Some p → threads s !! k' = Some p' →
     critical p → critical p' → k = k') ∧
  (main_at s = MReturned ∧ printed s = Some (NUM_THREADS * NUM_INCREMENTS) ∨
   main_at s ≠ MReturned ∧ ∃ t s', move t s = Moved s') ∧
  zlen ts ≤ 100011.
Proof.
  intros Hrun. pose proof (reachable_init s (run_reachable _ _ _ Hrun)) as Hs. split_and!.
  - intros t. by apply move_defined.
  - intros k k' p p' Hk Hk' Hp Hp'. apply (inv_threads s Hs) in Hk as [_ Hk].
    apply (inv_threads s Hs) in Hk' as [_ Hk']. apply Hk in Hp. apply Hk' in Hp'. congruence.
  - destruct (decide (main_at s = MReturned)) as [Hpc|Hpc]; [left|by right; auto using mutex_progress].
    pose proof (inv_main s Hs) as Hm. unfold main_ok in Hm. rewrite Hpc in Hm.
    destruct Hm as (Hlen & Hj & ->). split; [done|]. f_equal. rewrite (inv_counter s Hs).
    rewrite total_finished, Hlen; [done|]. intros k p. by apply joined_all.
  - pose proof (run_bounded inv moves_left ts init s inv_init move_left Hrun) as Hb.
    assert (moves_left init = Z.to_nat 100011) as Hi by done. unfold zlen. lia.
Qed.

(** A schedule in which the two threads alternate, to the end. *)
Definition alternating : list actor :=
  let round := [Thread 0; Thread 1; Thread 0; Thread 0; Thread 0; Thread 0;
                Thread 1; Thread 1; Thread 1; Thread 1]%nat in
  replicate 4 Main ++ concat (replicate (Z.to_nat NUM_INCREMENTS) round) ++
  [Thread 0; Thread 1]%nat ++ replicate 5 Main.

Lemma counter_is_exact_witness :
  ∃ s, run alternating init = Moved s ∧ printed s = Some 20000 ∧ zlen alternating ≤ 100011.
Proof.
  eexists (mkState 20000 NoMutex [Finished; Finished] MReturned (Some 20000)).
  assert (run alternating init = Moved
    (mkState 20000 NoMutex [Finished; Finished] MReturned (Some 20000))) as Hrun
    by (vm_compute; reflexivity).
  destruct (counter_is_exact alternating _ Hrun) as (_ & _ & [[_ Hp]|[Hp _]] & Hlen).
  - split_and!; [exact Hrun|exact Hp|exact Hlen].
  - destruct Hp. reflexivity.
Defined.
