(* ===== verification/Semaphore.v ===== *)
(** * [06_mutex/semaphone.c]: a producer and a consumer with semaphores *)
From S2P Require Export Threads.

Definition BUFFER_SIZE : Z := 5.

(** Where [producer] and [consumer] are; [item] is their local variable. *)
Inductive ppc :=
| PRand | PWait (item : Z) | PLock (item : Z) | PWrite (item : Z) | PPrint (item : Z)
| PAdvance | PUnlock | PPost | PSleep.
Inductive cpc :=
| CWait | CLock | CRead | CPrint (item : Z) | CAdvance | CUnlock | CPost | CSleep.
Inductive mpc :=
| MInitEmpty | MInitFull | MInitMutex | MCreateProducer | MCreateConsumer | MJoin.

(** Who moves; for the producer with what [rand] gives it if it calls it. *)
Inductive actor := Main | Producer | Consumer.
#[global] Instance actor_eq_dec : EqDecision actor.
Proof. solve_decision. Defined.
Definition choice : Type := actor * Z.
Definition RAND_MAX : Z := INT_MAX.

Inductive line := Produced (item : Z) | Consumed (item : Z).

(** The globals [buffer], [in], [out], [empty], [full] and [mutex], the program
    counters ([None] for a thread that has not been created) and the output. *)
Record state := mkState {
  buffer : list Z; in_ : Z; out : Z; empty : sem_t; full : sem_t; mutex : mutex_t actor;
  main_at : mpc; producer_at : option ppc; consumer_at : option cpc; lines : list line }.

Definition set_buffer x (s : state) : state :=
  mkState x (in_ s) (out s) (empty s) (full s) (mutex s) (main_at s) (producer_at s)
    (consumer_at s) (lines s).
Definition set_in x (s : state) : state :=
  mkState (buffer s) x (out s) (empty s) (full s) (mutex s) (main_at s) (producer_at s)
    (consumer_at s) (lines s).
Definition set_out x (s : state) : state :=
  mkState (buffer s) (in_ s) x (empty s) (full s) (mutex s) (main_at s) (producer_at s)
    (consumer_at s) (lines s).
Definition set_empty x (s : state) : state :=
  mkState (buffer s) (in_ s) (out s) x (full s) (mutex s) (main_at s) (producer_at s)
    (consumer_at s) (lines s).
Definition set_full x (s : state) : state :=
  mkState (buffer s) (in_ s) (out s) (empty s) x (mutex s) (main_at s) (producer_at s)
    (consumer_at s) (lines s).
Definition set_mutex x (s : state) : state :=
  mkState (buffer s) (in_ s) (out s) (empty s) (full s) x (main_at s) (producer_at s)
    (consumer_at s) (lines s).
Definition to_main x (s : state) : state :=
  mkState (buffer s) (in_ s) (out s) (empty s) (full s) (mutex s) x (producer_at s)
    (consumer_at s) (lines s).
Definition to_producer x (s : state) : state :=
  mkState (buffer s) (in_ s) (out s) (empty s) (full s) (mutex s) (main_at s) (Some x)
    (consumer_at s) (lines s).
Definition to_consumer x (s : state) : state :=
  mkState (buffer s) (in_ s) (out s) (empty s) (full s) (mutex s) (main_at s)
    (producer_at s) (Some x) (lines s).
Definition print x (s : state) : state :=
  mkState (buffer s) (in_ s) (out s) (empty s) (full s) (mutex s) (main_at s)
    (producer_at s) (consumer_at s) (lines s ++ [x]).

(** [(z + 1) % BUFFER_SIZE] in [int]. *)
Definition advance (z : Z) : outcome Z :=
  if int_ok (z + 1) then Moved (Z.rem (z + 1) BUFFER_SIZE) else Undefined.

(** One move of the producer, which is at [p]; [r] is what [rand] would give. *)
Definition producer (r : Z) (p : ppc) (s : state) : outcome state :=
  match p with
  | PRand =>
    if (0 <=? r) && (r <=? RAND_MAX) then Moved (to_producer (PWait (Z.rem r 100)) s)
    else Blocked
  | PWait item => v ← sem_wait (empty s); Moved (to_producer (PLock item) (set_empty v s))
  | PLock item =>
    m ← pthread_mutex_lock Producer (mutex s);
    Moved (to_producer (PWrite item) (set_mutex m s))
  | PWrite item =>
    match zupdate (buffer s) (in_ s) item with
    | None => Undefined
    | Some buf => Moved (to_producer (PPrint item) (set_buffer buf s))
    end
  | PPrint item => Moved (to_producer PAdvance (print (Produced item) s))
  | PAdvance => i ← advance (in_ s); Moved (to_producer PUnlock (set_in i s))
  | PUnlock =>
    m ← pthread_mutex_unlock Producer (mutex s);
    Moved (to_producer PPost (set_mutex m s))
  | PPost => v ← sem_post (full s); Moved (to_producer PSleep (set_full v s))
  | PSleep => Moved (to_producer PRand s)
  end.

Definition consumer (p : cpc) (s : state) : outcome state :=
  match p with
  | CWait => v ← sem_wait (full s); Moved (to_consumer CLock (set_full v s))
  | CLock =>
    m ← pthread_mutex_lock Consumer (mutex s);
    Moved (to_consumer CRead (set_mutex m s))
  | CRead =>
    match zlookup (buffer s) (out s) with
    | None => Undefined
    | Some item => Moved (to_consumer (CPrint item) s)
    end
  | CPrint item => Moved (to_consumer CAdvance (print (Consumed item) s))
  | CAdvance => i ← advance (out s); Moved (to_consumer CUnlock (set_out i s))
  | CUnlock =>
    m ← pthread_mutex_unlock Consumer (mutex s);
    Moved (to_consumer CPost (set_mutex m s))
  | CPost => v ← sem_post (empty s); Moved (to_consumer CSleep (set_empty v s))
  | CSleep => Moved (to_consumer CWait s)
  end.

(** [main]; the threads never end, so its [pthread_join] never returns. *)
Definition main (s : state) : outcome state :=
  match main_at s with
  | MInitEmpty => Moved (to_main MInitFull (set_empty (Some BUFFER_SIZE) s))
  | MInitFull => Moved (to_main MInitMutex (set_full (Some 0) s))
  | MInitMutex => Moved (to_main MCreateProducer (set_mutex Unlocked s))
  | MCreateProducer => Moved (to_main MCreateConsumer (to_producer PRand s))
  | MCreateConsumer => Moved (to_main MJoin (to_consumer CWait s))
  | MJoin => Blocked
  end.

#[global] Instance bounded_buffer : System choice state := λ t s,
  match t with
  | (Main, _) => main s
  | (Producer, r) => match producer_at s with None => Blocked | Some p => producer r p s end
  | (Consumer, _) => match consumer_at s with None => Blocked | Some p => consumer p s end
  end.

Definition init : state :=
  mkState (replicate (Z.to_nat BUFFER_SIZE) 0) 0 0 None None NoMutex MInitEmpty None None [].

(** What was printed as produced and as consumed, in order. *)
Definition produced (l : list line) : list Z :=
  omap (λ x, match x with Produced i => Some i | _ => None end) l.
Definition consumed (l : list line) : list Z :=
  omap (λ x, match x with Consumed i => Some i | _ => None end) l.

(** ** The invariant *)

(** An item is stored when the producer has written it to [buffer], and taken
    when the consumer has read it; it is printed only one move later. *)
Definition pending (p : option ppc) : list Z :=
  match p with Some (PPrint item) => [item] | _ => [] end.
Definition holding (p : option cpc) : list Z :=
  match p with Some (CPrint item) => [item] | _ => [] end.
Definition stored (s : state) : list Z := produced (lines s) ++ pending (producer_at s).
Definition taken (s : state) : list Z := consumed (lines s) ++ holding (consumer_at s).

(** The producer has reserved a slot; has stored but not advanced [in]; has
    stored but not posted [full]. The consumer likewise. *)
Definition reserved (p : option ppc) : Z :=
  match p with Some (PLock _ | PWrite _) => 1 | _ => 0 end.
Definition in_late (p : option ppc) : Z :=
  match p with Some (PPrint _ | PAdvance) => 1 | _ => 0 end.
Definition full_late (p : option ppc) : Z :=
  match p with Some (PPrint _ | PAdvance | PUnlock | PPost) => 1 | _ => 0 end.
Definition claimed (p : option cpc) : Z :=
  match p with Some (CLock | CRead) => 1 | _ => 0 end.
Definition out_late (p : option cpc) : Z :=
  match p with Some (CPrint _ | CAdvance) => 1 | _ => 0 end.
Definition empty_late (p : option cpc) : Z :=
  match p with Some (CPrint _ | CAdvance | CUnlock | CPost) => 1 | _ => 0 end.

Definition producing (p : option ppc) : bool :=
  match p with Some (PWrite _ | PPrint _ | PAdvance | PUnlock) => true | _ => false end.
Definition consuming (p : option cpc) : bool :=
  match p with Some (CRead | CPrint _ | CAdvance | CUnlock) => true | _ => false end.

(** Who holds the mutex, given who is in a critical section. *)
Definition holder (p c : bool) : option (mutex_t actor) :=
  match p, c with
  | false, false => Some Unlocked
  | true, false => Some (LockedBy Producer)
  | false, true => Some (LockedBy Consumer)
  | true, true => None
  end.

(** Once [main] has initialised the mutex. *)
Record inv (s : state) : Prop := {
  inv_size : zlen (buffer s) = BUFFER_SIZE;
  inv_in : in_ s = (zlen (stored s) - in_late (producer_at s)) `mod` BUFFER_SIZE;
  inv_out : out s = (zlen (taken s) - out_late (consumer_at s)) `mod` BUFFER_SIZE;
  inv_empty : ∃ v, empty s = Some v ∧ 0 ≤ v ∧ v = BUFFER_SIZE + zlen (taken s)
    - empty_late (consumer_at s) - zlen (stored s) - reserved (producer_at s);
  inv_full : ∃ v, full s = Some v ∧ 0 ≤ v ∧ v = zlen (stored s)
    - full_late (producer_at s) - zlen (taken s) - claimed (consumer_at s);
  inv_fifo : taken s `prefix_of` stored s;
  inv_slots j : zlen (taken s) ≤ j < zlen (stored s) →
    zlookup (buffer s) (j `mod` BUFFER_SIZE) = zlookup (stored s) j;
  inv_mutex : holder (producing (producer_at s)) (consuming (consumer_at s)) = Some (mutex s) }.

Lemma produced_app l x : produced (l ++ [x]) = produced l ++ produced [x].
Proof. apply omap_app. Qed.
Lemma consumed_app l x : consumed (l ++ [x]) = consumed l ++ consumed [x].
Proof. apply omap_app. Qed.
Lemma reserved_bounds p : 0 ≤ reserved p ≤ 1.
Proof. destruct p as [[]|]; simpl; lia. Qed.
Lemma empty_late_bounds c : 0 ≤ empty_late c ≤ 1.
Proof. destruct c as [[]|]; simpl; lia. Qed.
Lemma full_late_bounds p : 0 ≤ full_late p ≤ 1.
Proof. destruct p as [[]|]; simpl; lia. Qed.
Lemma claimed_bounds c : 0 ≤ claimed c ≤ 1.
Proof. destruct c as [[]|]; simpl; lia. Qed.

Lemma advance_mod n : advance (n `mod` BUFFER_SIZE) = Moved ((n + 1) `mod` BUFFER_SIZE).
Proof.
  unfold advance, int_ok, BUFFER_SIZE. rewrite bool_decide_eq_true_2.
  - f_equal. lia.
  - unfold INT_MIN, INT_MAX. lia.
Qed.

Lemma producer_lock c m m' :
  holder false c = Some m → pthread_mutex_lock Producer m = Moved m' →
  holder true c = Some m'.
Proof. destruct c; simpl; intros; by simplify_eq/=. Qed.
Lemma producer_unlock c m m' :
  holder true c = Some m → pthread_mutex_unlock Producer m = Moved m' →
  holder false c = Some m'.
Proof. destruct c; simpl; intros; by simplify_eq/=. Qed.
Lemma consumer_lock p m m' :
  holder p false = Some m → pthread_mutex_lock Consumer m = Moved m' →
  holder p true = Some m'.
Proof. destruct p; simpl; intros; by simplify_eq/=. Qed.
Lemma consumer_unlock p m m' :
  holder p true = Some m → pthread_mutex_unlock Consumer m = Moved m' →
  holder p false = Some m'.
Proof. destruct p; simpl; intros; by simplify_eq/=. Qed.

(** *** The two moves that touch [buffer] *)

Lemma write_slot (buf st : list Z) item c :
  zlen buf = BUFFER_SIZE → zlen st < c + BUFFER_SIZE →
  (∀ j, c ≤ j < zlen st → zlookup buf (j `mod` BUFFER_SIZE) = zlookup st j) → 0 ≤ c →
  ∃ buf', zupdate buf (zlen st `mod` BUFFER_SIZE) item = Some buf' ∧
    zlen buf' = BUFFER_SIZE ∧
    (∀ j, c ≤ j < zlen st + 1 →
       zlookup buf' (j `mod` BUFFER_SIZE) = zlookup (st ++ [item]) j).
Proof.
  intros Hlen Hroom Hslots Hc. pose proof (zlen_nonneg st).
  rewrite zupdate_in by (rewrite Hlen; unfold BUFFER_SIZE; lia).
  eexists. split; [done|]. split; [unfold zlen in *; by rewrite length_insert|].
  intros j Hj. destruct (decide (j = zlen st)) as [->|Hne].
  - rewrite zlookup_snoc. apply zlookup_Some. split; [unfold BUFFER_SIZE; lia|].
    apply list_lookup_insert_eq. unfold zlen, BUFFER_SIZE in *. lia.
  - rewrite zlookup_app_l by lia. rewrite <- Hslots by lia. unfold zlookup.
    rewrite !bool_decide_eq_true_2 by (unfold BUFFER_SIZE; lia).
    apply list_lookup_insert_ne. unfold BUFFER_SIZE in *. lia.
Qed.

Lemma read_slot (buf st tk : list Z) :
  tk `prefix_of` st → zlen tk < zlen st →
  (∀ j, zlen tk ≤ j < zlen st → zlookup buf (j `mod` BUFFER_SIZE) = zlookup st j) →
  ∃ item, zlookup buf (zlen tk `mod` BUFFER_SIZE) = Some item ∧ tk ++ [item] `prefix_of` st.
Proof.
  intros [rest ->] Hlt Hslots. destruct rest as [|item rest].
  { rewrite app_nil_r in Hlt. lia. }
  exists item. split; [|exists rest; by rewrite <- app_assoc].
  rewrite Hslots by lia. apply zlookup_Some. split; [apply zlen_nonneg|].
  unfold zlen. rewrite Nat2Z.id. by apply list_lookup_middle.
Qed.

(** ** Preservation *)

(** Split a move into its cases and restate the invariant of the new state. *)
Ltac open_inv :=
  repeat match goal with
  | H : ∃ v, _ = Some v ∧ _ |- _ => let v := fresh "v" in
      destruct H as (v & -> & ? & ->)
  end.
Ltac close_inv :=
  constructor; unfold stored, taken; simpl;
  rewrite ?produced_app, ?consumed_app; simpl; rewrite ?app_nil_r in *;
  repeat match goal with |- ∃ v, Some _ = Some v ∧ _ => eexists; split; [reflexivity|] end;
  rewrite ?zlen_app, ?zlen_one in *; unfold BUFFER_SIZE in *; try done; try lia.

(** [sem_post] never meets [SEM_VALUE_MAX]. *)
Ltac post_small :=
  match goal with
  | H : context [?v <? SEM_VALUE_MAX] |- _ => destruct (Z.ltb_spec v SEM_VALUE_MAX);
      [|unfold SEM_VALUE_MAX, INT_MAX, BUFFER_SIZE in *; lia]
  end.

Lemma producer_inv r p s s' :
  inv s → producer_at s = Some p → producer r p s = Moved s' → inv s'.
Proof.
  intros [Hsize Hin Hout Hempty Hfull Hfifo Hslots Hmutex] Hp Hmv.
  destruct s as [buf i o em fu mu ma pc cc l]. unfold stored, taken in *. simpl in *.
  subst pc. open_inv.
  pose proof (empty_late_bounds cc). pose proof (claimed_bounds cc). pose proof (zlen_nonneg (consumed l ++ holding cc)).
  destruct p as [|item|item|item|item| | | |]; simpl in *; rewrite ?app_nil_r in *.
  - case_match; [|done]. injection Hmv as <-. close_inv.
  - case_match; [done|]. injection Hmv as <-. propify. close_inv.
  - destruct (pthread_mutex_lock _ _) as [m| |] eqn:Hm; try done. injection Hmv as <-.
    close_inv. by eapply producer_lock.
  - rewrite Z.sub_0_r in Hin. subst i.
    destruct (write_slot buf (produced l) item (zlen (consumed l ++ holding cc)))
      as (buf' & Hbuf & Hlen & Hnew); [done|lia|done|done|].
    rewrite Hbuf in Hmv. injection Hmv as <-. close_inv.
    by apply prefix_app_r.
  - injection Hmv as <-. close_inv.
  - subst i. rewrite advance_mod in Hmv. injection Hmv as <-. close_inv.
  - destruct (pthread_mutex_unlock _ _) as [m| |] eqn:Hm; try done. injection Hmv as <-.
    close_inv. by eapply producer_unlock.
  - post_small. injection Hmv as <-. close_inv.
  - injection Hmv as <-. close_inv.
Qed.

Lemma consumer_inv p s s' :
  inv s → consumer_at s = Some p → consumer p s = Moved s' → inv s'.
Proof.
  intros [Hsize Hin Hout Hempty Hfull Hfifo Hslots Hmutex] Hp Hmv.
  destruct s as [buf i o em fu mu ma pc cc l]. unfold stored, taken in *. simpl in *.
  subst cc. open_inv.
  pose proof (reserved_bounds pc). pose proof (full_late_bounds pc).
  pose proof (zlen_nonneg (consumed l)).
  destruct p as [| | |item| | | |]; simpl in *; rewrite ?app_nil_r in *.
  - case_match; [done|]. injection Hmv as <-. propify. close_inv.
  - destruct (pthread_mutex_lock _ _) as [m| |] eqn:Hm; try done. injection Hmv as <-.
    close_inv. by eapply consumer_lock.
  - rewrite Z.sub_0_r in Hout. subst o.
    destruct (read_slot buf (produced l ++ pending pc) (consumed l)) as (item & Hitem & Hpre);
      [done|lia|done|].
    rewrite Hitem in Hmv. injection Hmv as <-. close_inv.
    intros j Hj. apply Hslots. lia.
  - injection Hmv as <-. close_inv.
  - subst o. rewrite advance_mod in Hmv. injection Hmv as <-. close_inv.
  - destruct (pthread_mutex_unlock _ _) as [m| |] eqn:Hm; try done. injection Hmv as <-.
    close_inv. by eapply consumer_unlock.
  - post_small. injection Hmv as <-. close_inv.
  - injection Hmv as <-. close_inv.
Qed.

(** *** All the way from [init] *)

Definition sys_inv (s : state) : Prop :=
  match main_at s with
  | MInitEmpty => s = init
  | MInitFull => s = to_main MInitFull (set_empty (Some BUFFER_SIZE) init)
  | MInitMutex =>
    s = to_main MInitMutex (set_full (Some 0) (set_empty (Some BUFFER_SIZE) init))
  | MCreateProducer => inv s ∧ producer_at s = None ∧ consumer_at s = None
  | MCreateConsumer => inv s ∧ is_Some (producer_at s) ∧ consumer_at s = None
  | MJoin => inv s ∧ is_Some (producer_at s) ∧ is_Some (consumer_at s)
  end.

Lemma sys_inv_producer s : sys_inv s → is_Some (producer_at s) → inv s.
Proof.
  unfold sys_inv. destruct (main_at s); intros Hs Hp; destruct_and?; simplify_eq/=; try done;
    by destruct Hp.
Qed.
Lemma sys_inv_consumer s : sys_inv s → is_Some (consumer_at s) → inv s.
Proof.
  unfold sys_inv. destruct (main_at s); intros Hs Hp; destruct_and?; simplify_eq/=; try done;
    by destruct Hp.
Qed.

(** A thread moves only itself. *)
Lemma producer_frame r p s s' :
  producer r p s = Moved s' →
  main_at s' = main_at s ∧ consumer_at s' = consumer_at s ∧ is_Some (producer_at s').
Proof.
  unfold producer, mbind, outcome_bind. intros Hmv.
  destruct p; repeat case_match; simplify_eq/=; eauto.
Qed.
Lemma consumer_frame p s s' :
  consumer p s = Moved s' →
  main_at s' = main_at s ∧ producer_at s' = producer_at s ∧ is_Some (consumer_at s').
Proof.
  unfold consumer, mbind, outcome_bind. intros Hmv.
  destruct p; repeat case_match; simplify_eq/=; eauto.
Qed.

Lemma main_sys_inv s s' : sys_inv s → main s = Moved s' → sys_inv s'.
Proof.
  unfold sys_inv, main. destruct (main_at s) eqn:Hpc; intros Hs Hmv; simplify_eq/=; try done.
  - split; [|done]. split; try first [done|by eexists|by apply prefix_nil].
    intros j. unfold stored, taken, zlen. simpl. lia.
  - destruct Hs as ([] & Hp & Hc). split_and!; [|by eexists|done].
    unfold stored, taken in *. rewrite Hp in *. by split.
  - destruct Hs as ([] & Hp & Hc). split_and!; [|done|by eexists].
    unfold stored, taken in *. rewrite Hc in *. by split.
Qed.

Lemma move_sys_inv t s s' : sys_inv s → move t s = Moved s' → sys_inv s'.
Proof.
  intros Hs Hmv. destruct t as [[] r]; unfold move, bounded_buffer in Hmv.
  - by eapply main_sys_inv.
  - destruct (producer_at s) as [p|] eqn:Hp; [|done].
    assert (inv s) as Hi by (apply sys_inv_producer; [done|by rewrite Hp]).
    pose proof (producer_inv r p s s' Hi Hp Hmv) as Hi'.
    destruct (producer_frame _ _ _ _ Hmv) as (Hm & Hc & Hp').
    unfold sys_inv in *. rewrite Hm, Hc. destruct (main_at s); destruct_and?; simplify_eq/=; done.
  - destruct (consumer_at s) as [p|] eqn:Hp; [|done].
    assert (inv s) as Hi by (apply sys_inv_consumer; [done|by rewrite Hp]).
    pose proof (consumer_inv p s s' Hi Hp Hmv) as Hi'.
    destruct (consumer_frame _ _ _ Hmv) as (Hm & Hc & Hp').
    unfold sys_inv in *. rewrite Hm, Hc. destruct (main_at s); destruct_and?; simplify_eq/=; done.
Qed.

Lemma reachable_sys_inv s : reachable init s → sys_inv s.
Proof. apply reachable_inv; [done|]. intros. by eapply move_sys_inv. Qed.

(** ** Nothing undefined, nobody stuck *)

Lemma producer_defined r p s : inv s → producer_at s = Some p → producer r p s ≠ Undefined.
Proof.
  intros [Hsize Hin Hout Hempty Hfull Hfifo Hslots Hmutex] Hp.
  destruct s as [buf i o em fu mu ma pc cc l].
  unfold stored, taken in *. simpl in *. subst pc. open_inv.
  destruct p; simpl in *; try done; try (by repeat case_match).
  - by destruct (consuming cc); simplify_eq/=.
  - subst i. by rewrite zupdate_in by (rewrite Hsize; unfold BUFFER_SIZE; lia).
  - subst i. by rewrite advance_mod.
  - by destruct (consuming cc); simplify_eq/=.
Qed.

Lemma consumer_defined p s : inv s → consumer_at s = Some p → consumer p s ≠ Undefined.
Proof.
  intros [Hsize Hin Hout Hempty Hfull Hfifo Hslots Hmutex] Hp.
  destruct s as [buf i o em fu mu ma pc cc l].
  unfold stored, taken in *. simpl in *. subst cc. open_inv.
  destruct p; simpl in *; try done; try (by repeat case_match).
  - by destruct (producing pc); simplify_eq/=.
  - destruct (proj2 (zlookup_is_Some buf o)) as [x Hx]; [|by rewrite Hx].
    subst o. rewrite Hsize. unfold BUFFER_SIZE. lia.
  - subst o. by rewrite advance_mod.
  - by destruct (producing pc); simplify_eq/=.
Qed.

(** A thread waits only at its semaphore and at the mutex. *)
Lemma producer_blocked p s :
  producer 0 p s = Blocked →
  (∃ item, p = PWait item ∧ sem_wait (empty s) = Blocked) ∨
  (∃ item, p = PLock item ∧ pthread_mutex_lock Producer (mutex s) = Blocked).
Proof.
  unfold producer, mbind, outcome_bind. intros Hb.
  destruct p; repeat case_match; simplify_eq/=; eauto; exfalso;
    unfold sem_post, pthread_mutex_unlock, advance in *; repeat case_match; done.
Qed.
Lemma consumer_blocked p s :
  consumer p s = Blocked →
  (p = CWait ∧ sem_wait (full s) = Blocked) ∨
  (p = CLock ∧ pthread_mutex_lock Consumer (mutex s) = Blocked).
Proof.
  unfold consumer, mbind, outcome_bind. intros Hb.
  destruct p; repeat case_match; simplify_eq/=; eauto; exfalso;
    unfold sem_post, pthread_mutex_unlock, advance in *; repeat case_match; done.
Qed.

Lemma buffer_progress s : sys_inv s → ∃ t s', move t s = Moved s'.
Proof.
  intros Hs. pose proof Hs as Hsys. unfold sys_inv in Hs.
  destruct (main_at s) eqn:Hm;
    [exists (Main, 0); unfold move, bounded_buffer, main; rewrite Hm; by eexists..|].
  destruct Hs as (Hi & [p Hp] & [c Hc]).
  pose proof (producer_defined 0 p s Hi Hp) as Hpd. pose proof (consumer_defined c s Hi Hc) as Hcd.
  destruct (producer 0 p s) as [s'| |] eqn:Hpm; [|  |done].
  { exists (Producer, 0), s'. unfold move, bounded_buffer. by rewrite Hp. }
  destruct (consumer c s) as [s'| |] eqn:Hcm; [|  |done].
  { exists (Consumer, 0), s'. unfold move, bounded_buffer. by rewrite Hc. }
  exfalso. clear Hpd Hcd. destruct Hi as [_ _ _ Hempty Hfull _ _ Hmutex].
  rewrite Hp, Hc in Hempty, Hfull, Hmutex.
  destruct Hempty as (v & Hev & Hv0 & Hv), Hfull as (v' & Hfv & Hv0' & Hv').
  destruct (producer_blocked _ _ Hpm) as [(item & -> & Hpb)|(item & -> & Hpb)],
    (consumer_blocked _ _ Hcm) as [[-> Hcb]|[-> Hcb]]; injection Hmutex as Hmu;
    rewrite <- ?Hmu in Hpb; rewrite <- ?Hmu in Hcb; try done.
  rewrite Hev in Hpb. rewrite Hfv in Hcb. simpl in *.
  repeat case_match; propify; unfold BUFFER_SIZE in *; simplify_eq/=; lia.
Qed.

Lemma prefix_shorter (l1 l2 l : list Z) :
  l1 `prefix_of` l → l2 `prefix_of` l → zlen l1 ≤ zlen l2 → l1 `prefix_of` l2.
Proof.
  intros H1 H2 Hle. destruct (prefix_weak_total l1 l2 l H1 H2) as [H|H]; [done|].
  rewrite (prefix_length_eq l2 l1); [done|done|]. unfold zlen in Hle. lia.
Qed.

Lemma inv_printed s :
  inv s → consumed (lines s) `prefix_of` produced (lines s) ∧
  zlen (produced (lines s)) ≤ zlen (consumed (lines s)) + BUFFER_SIZE.
Proof.
  intros [_ _ _ (v & _ & Hv0 & Hv) (v' & _ & Hv0' & Hv') Hfifo _ _].
  unfold stored, taken in *. rewrite !zlen_app in *.
  assert (zlen (holding (consumer_at s)) ≤ empty_late (consumer_at s)) as Hh
    by (by destruct (consumer_at s) as [[]|]).
  assert (zlen (pending (producer_at s)) ≤ full_late (producer_at s)) as Hp
    by (by destruct (producer_at s) as [[]|]).
  pose proof (reserved_bounds (producer_at s)). pose proof (claimed_bounds (consumer_at s)).
  pose proof (zlen_nonneg (pending (producer_at s))).
  pose proof (zlen_nonneg (holding (consumer_at s))).
  split; [|lia]. eapply prefix_shorter; [|by apply prefix_app_r|lia].
  etransitivity; [|exact Hfifo]. by apply prefix_app_r.
Qed.

Lemma sys_inv_fifo s :
  sys_inv s → consumed (lines s) `prefix_of` produced (lines s) ∧
  zlen (produced (lines s)) ≤ zlen (consumed (lines s)) + BUFFER_SIZE.
Proof.
  unfold sys_inv. destruct (main_at s); intros Hs;
    first [by rewrite Hs|apply inv_printed; naive_solver].
Qed.

Lemma sys_inv_defined s t : sys_inv s → move t s ≠ Undefined.
Proof.
  intros Hs. destruct t as [[] r]; unfold move, bounded_buffer.
  - unfold main. by destruct (main_at s).
  - destruct (producer_at s) as [p|] eqn:Hp; [|done]. apply producer_defined; [|done].
    apply sys_inv_producer; [done|by rewrite Hp].
  - destruct (consumer_at s) as [p|] eqn:Hp; [|done]. apply consumer_defined; [|done].
    apply sys_inv_consumer; [done|by rewrite Hp].
Qed.

(** ** Progress until the next item is consumed *)

(** Moves of [main] before it joins, with room for what its moves enable. *)
Definition main_left (m : mpc) : nat :=
  match m with
  | MInitEmpty => 500 | MInitFull => 400 | MInitMutex => 300 | MCreateProducer => 200
  | MCreateConsumer => 100 | MJoin => 0
  end.

(** Moves of the producer before it needs a slot, those of the consumer before it
    prints, and the slots that the producer can have until then. *)
Definition producer_left (p : option ppc) : nat :=
  match p with
  | None | Some (PWait _) => 0 | Some PRand => 1 | Some PSleep => 2 | Some PPost => 3
  | Some PUnlock => 4 | Some PAdvance => 5 | Some (PPrint _) => 6 | Some (PWrite _) => 7
  | Some (PLock _) => 8
  end.
Definition consumer_left (c : option cpc) : nat :=
  match c with
  | None | Some (CPrint _) => 0 | Some CRead => 1 | Some CLock => 2 | Some CWait => 3
  | Some CSleep => 4 | Some CPost => 15 | Some CUnlock => 16 | Some CAdvance => 17
  end.
Definition slots (s : state) : nat := match empty s with Some v => Z.to_nat v | None => 0 end.
Definition left (s : state) : nat :=
  (main_left (main_at s) + producer_left (producer_at s) + consumer_left (consumer_at s)
   + 9 * slots s)%nat.
Definition n_consumed (s : state) : nat := length (consumed (lines s)).

Lemma consumed_print x s :
  n_consumed (print x s) = (n_consumed s + length (consumed [x]))%nat.
Proof. unfold n_consumed. simpl. by rewrite consumed_app, length_app. Qed.

Lemma move_advances t s s' :
  move t s = Moved s' →
  (n_consumed s < n_consumed s' ∨ (n_consumed s = n_consumed s' ∧ left s' < left s))%nat.
Proof.
  intros Hmv. destruct t as [[] r]; unfold move, bounded_buffer in Hmv.
  - right. unfold main in Hmv. destruct s as [? ? ? em ? ? ma ? ? ?]. simpl in *.
    unfold left, slots, n_consumed. destruct ma; simplify_eq/=; split; try done; try lia.
    all: unfold BUFFER_SIZE; lia.
  - right. destruct (producer_at s) as [p|] eqn:Hp; [|done].
    destruct s as [? ? ? em ? ? ma ? ? ?]. simpl in *. subst.
    unfold producer, mbind, outcome_bind in Hmv.
    destruct p; repeat case_match; simplify_eq/=; unfold left, slots, n_consumed; simpl;
      rewrite ?consumed_app, ?app_nil_r; (split; [done|]); try lia.
    destruct em as [v|]; [|done]. simpl in *. case_match; simplify_eq/=. propify. lia.
  - destruct (consumer_at s) as [c|] eqn:Hc; [|done].
    destruct s as [? ? ? em ? ? ma ? ? ?]. simpl in *. subst.
    unfold consumer, mbind, outcome_bind in Hmv.
    destruct c; repeat case_match; simplify_eq/=; unfold left, slots, n_consumed; simpl;
      rewrite ?consumed_app, ?length_app; simpl; try (right; split; [done|]; lia).
    + left. lia.
    + right. split; [done|]. destruct em as [v|]; [|done]. simpl in *. simplify_eq/=.
      case_match; lia.
Qed.

(** Whatever [rand] gives, the same threads can move. *)
Lemma enabled_any_rand a r r' s s' :
  0 ≤ r' ≤ RAND_MAX → move (a, r) s = Moved s' → ∃ s'', move (a, r') s = Moved s''.
Proof.
  intros Hr Hmv. destruct a; [by exists s'| |by exists s'].
  unfold move, bounded_buffer in *. destruct (producer_at s) as [p|]; [|done].
  destruct p; simpl in *; try by eexists.
  destruct (Z.leb_spec 0 r'); [|lia]. destruct (Z.leb_spec r' RAND_MAX); [|lia]. by eexists.
Qed.

Lemma produced_grows t s s' l :
  l `prefix_of` produced (lines s) → move t s = Moved s' → l `prefix_of` produced (lines s').
Proof.
  intros Hl Hmv. destruct t as [[] r]; unfold move, bounded_buffer in Hmv.
  - unfold main in Hmv. destruct (main_at s); simplify_eq/=; done.
  - destruct (producer_at s) as [p|]; [|done]. unfold producer, mbind, outcome_bind in Hmv.
    destruct p; repeat case_match; simplify_eq/=; try done.
    rewrite produced_app. by apply prefix_app_r.
  - destruct (consumer_at s) as [c|]; [|done]. unfold consumer, mbind, outcome_bind in Hmv.
    destruct c; repeat case_match; simplify_eq/=; try done.
    rewrite produced_app. by apply prefix_app_r.
Qed.

(** ** Correctness *)

(** C4: under every interleaving and whatever [rand] gives, no call is misused,
    [buffer] is accessed within its bounds, never by both threads at once, and
    somebody can always move; what was consumed is what was produced, in the
    same order, up to at most [BUFFER_SIZE] items that are still to come. *)
Theorem producer_consumer_fifo ts s :
  run ts init = Moved s →
  (∀ t, move t s ≠ Undefined) ∧
  ¬ (producing (producer_at s) ∧ consuming (consumer_at s)) ∧
  (∃ t s', move t s = Moved s') ∧
  consumed (lines s) `prefix_of` produced (lines s) ∧
  zlen (produced (lines s)) ≤ zlen (consumed (lines s)) + BUFFER_SIZE.
Proof.
  intros Hrun. pose proof (reachable_sys_inv s (run_reachable _ _ _ Hrun)) as Hs.
  split; [|split; [|split]].
  - intros t. by apply sys_inv_defined.
  - intros [Hp Hc]. destruct (producer_at s) as [p|] eqn:Hpp; [|done].
    destruct (sys_inv_producer s Hs) as [_ _ _ _ _ _ _ Hmutex]; [by rewrite Hpp|].
    rewrite Hpp in Hmutex. destruct (producing _), (consuming _); done.
  - by apply buffer_progress.
  - by apply sys_inv_fifo.
Qed.

(** C8: under every scheduler that does not forget a thread for ever, every item
    that was produced is consumed sooner or later, in its turn, and items are
    consumed without end. *)
Theorem producer_consumer_live (sched : nat → choice) :
  (∀ n, 0 ≤ (sched n).2 ≤ RAND_MAX) →
  (∀ a n, ∃ m, (n ≤ m)%nat ∧ (sched m).1 = a) →
  (∀ c, ∃ m, (c ≤ n_consumed (exec sched m init))%nat) ∧
  (∀ n i item, produced (lines (exec sched n init)) !! i = Some item →
     ∃ m, consumed (lines (exec sched m init)) !! i = Some item).
Proof.
  intros Hrand Hfair.
  assert (∀ n c, ∃ m, (n ≤ m)%nat ∧ (c ≤ n_consumed (exec sched m init))%nat) as Hlive.
  { intros n c. apply (fair_later fst sched sys_inv left n_consumed); [..|done].
    - intros t s s'. apply move_sys_inv.
    - intros s Hs. destruct (buffer_progress s Hs) as ([a r] & s' & Hmv). exists a.
      intros k <-. destruct (sched k) as [a r'] eqn:Hk.
      eapply enabled_any_rand; [|exact Hmv]. specialize (Hrand k). by rewrite Hk in Hrand.
    - intros t s s' _. apply move_advances.
    - exact Hfair. }
  split; [intros c; destruct (Hlive O c) as (m & _ & Hm); by exists m|].
  intros n i item Hitem. destruct (Hlive n (S i)) as (m & Hle & Hm). exists m.
  destruct (sys_inv_fifo _ (reachable_sys_inv _ (exec_reachable sched m init))) as [Hpre _].
  assert (produced (lines (exec sched n init)) `prefix_of` produced (lines (exec sched m init)))
    as Hgrow by (apply (exec_ind (λ s, produced (lines (exec sched n init)) `prefix_of` produced (lines s)) _ _ _ _ Hle);
      [done|intros t s s'; apply produced_grows]).
  unfold n_consumed in Hm. destruct (lookup_lt_is_Some_2 (consumed (lines (exec sched m init))) i)
    as [x Hx]; [lia|]. rewrite Hx. f_equal.
  pose proof (prefix_lookup_Some _ _ _ _ Hx Hpre). pose proof (prefix_lookup_Some _ _ _ _ Hitem Hgrow).
  congruence.
Qed.

(** The producer fills the buffer, and the consumer takes two items. *)
Definition burst : list choice :=
  replicate 5 (Main, 0) ++ concat ((λ r, replicate 9 (Producer, r)) <$> [183; 7; 42; 99; 100]) ++
  replicate 16 (Consumer, 0).

Lemma producer_consumer_fifo_witness :
  ∃ s, run burst init = Moved s ∧
    produced (lines s) = [83; 7; 42; 99; 0] ∧ consumed (lines s) = [83; 7] ∧
    consumed (lines s) `prefix_of` produced (lines s).
Proof.
  destruct (run burst init) as [s| |] eqn:Hrun; [|vm_compute in Hrun; discriminate..].
  destruct (producer_consumer_fifo burst s Hrun) as (_ & _ & _ & Hfifo & _).
  exists s. split; [reflexivity|]. split; [|split; [|exact Hfifo]];
    vm_compute in Hrun; injection Hrun as <-; reflexivity.
Defined.

(** Round robin. *)
Definition in_turn (n : nat) : choice :=
  match (n mod 3)%nat with O => (Main, 0) | S O => (Producer, 142) | _ => (Consumer, 0) end.

Lemma producer_consumer_live_witness :
  produced (lines (exec in_turn 30 init)) !! 0%nat = Some 42 ∧
  ∃ m, consumed (lines (exec in_turn m init)) !! 0%nat = Some 42.
Proof.
  assert (produced (lines (exec in_turn 30 init)) !! 0%nat = Some 42) as Hp by (vm_compute; reflexivity).
  split; [exact Hp|].
  refine (proj2 (producer_consumer_live in_turn _ _) 30%nat 0%nat 42 Hp).
  - intros n. unfold in_turn. destruct (n mod 3)%nat as [|[|]]; vm_compute; split; discriminate.
  - intros a n. exists (3 * n + match a with Main => 0 | Producer => 1 | Consumer => 2 end)%nat.
    split; [destruct a; lia|]. unfold in_turn.
    rewrite (Nat.mul_comm 3 n), Nat.add_comm, Nat.Div0.mod_add. by destruct a.
Defined.
