(* ===== verification/Process.v ===== *)
(** * Processes, pipes and [fork]

    A program of several processes is written once, in a free monad over the
    calls that it makes ([prog]). The state of a process is the list of the
    replies that it has had: [fork] gives parent and child the same past, and then
    a reply of their own, as in C. Processes interleave call by call; they share
    the pipes and the screen. *)
From S2P Require Export Buffer Format Threads.

(** ** Programs *)

Inductive call :=
| Open (d : bytes)  (* a file with the content [d], for reading *)
| Pipe
| Fork
| Getpid
| Getppid
| Close (fd : Z)
| Dup2 (oldfd newfd : Z)
| Read (fd n : Z)
| Write (fd : Z) (d : bytes)
| Waitpid (pid : Z)
| Catch_sigpipe.  (* signal(SIGPIPE, handler) *)

(** [r_ret] is the value returned; [r_aux] the ends of a new pipe, or the status that
    [waitpid] stores; [r_sig] says that the handler of [SIGPIPE] runs first. *)
Record reply := mkReply { r_ret : Z; r_aux : Z * Z; r_data : bytes; r_sig : bool }.
#[global] Instance reply_eq_dec : EqDecision reply.
Proof. solve_decision. Defined.
Definition returns (z : Z) : reply := mkReply z (0, 0) [] false.

Inductive prog (A : Type) :=
| Ret (a : A)
| Exit (status : Z)
| Wrong (u : ub)
| Ask (c : call) (k : reply → prog A).
Arguments Ret {A} a.
Arguments Exit {A} status.
Arguments Wrong {A} u.
Arguments Ask {A} c k.

#[global] Instance prog_ret : MRet prog := @Ret.
#[global] Instance prog_bind : MBind prog := λ A B f,
  fix bind m := match m with
  | Ret a => f a
  | Exit z => Exit z
  | Wrong u => Wrong u
  | Ask c k => Ask c (λ r, bind (k r))
  end.

Definition ask (c : call) : prog reply := Ask c Ret.

Definition SIGPIPE : Z := 13.

(** Computations on buffers, which make no calls. *)
Definition pure {A} (m : M unit A) : prog A :=
  match m tt with Ok (a, _) => Ret a | UB u => Wrong u | Throw | NoFuel => Wrong BadType end.

(** The screen is a terminal: a line is written when it ends. The text of [errno]
    is left out of what [perror] writes. *)
Definition printf (fmt : string) (args : list arg) : prog unit :=
  ask (Write 1 (format (lit fmt) args));; mret tt.
Definition perror (msg : string) : prog unit := ask (Write 2 (b msg));; mret tt.
Definition close (fd : Z) : prog unit := ask (Close fd);; mret tt.
Definition dup2 (oldfd newfd : Z) : prog unit := ask (Dup2 oldfd newfd);; mret tt.

(** [write], of which [SIGPIPE] may make the handler run first. *)
Definition write_or (handler : Z → prog unit) (fd : Z) (d : bytes) : prog reply :=
  r ← ask (Write fd d);
  (if r_sig r then handler SIGPIPE else mret tt);;
  mret r.

(** ** The system *)

Inductive handle := Tty | ReadEnd (p : nat) | WriteEnd (p : nat).
#[global] Instance handle_eq_dec : EqDecision handle.
Proof. solve_decision. Defined.

(** The status that [waitpid] stores: the exit status, or the signal that has killed
    the process. *)
Definition exited (z : Z) : Z := 256 * (z mod 256).
Definition KILLED : Z := SIGPIPE.
Definition WIFEXITED (st : Z) : bool := Z.land st 127 =? 0.
Definition WEXITSTATUS (st : Z) : Z := Z.land (Z.shiftr st 8) 255.

Inductive status := Running | Zombie (z : Z) | Reaped.
#[global] Instance status_eq_dec : EqDecision status.
Proof. solve_decision. Defined.

Record proc := mkProc {
  p_parent : Z; p_status : status; p_fds : gmap Z handle; p_caught : bool; p_past : list reply }.
#[global] Instance proc_eq_dec : EqDecision proc.
Proof. solve_decision. Defined.

(** Process [i + 1] is the [i]-th that was made. *)
Record sys := mkSys { procs : list proc; pipes : list bytes; screen : list bytes }.
#[global] Instance sys_eq_dec : EqDecision sys.
Proof. solve_decision. Defined.

Definition PIPE_CAPACITY : Z := 65536.

Definition terminal : gmap Z handle := {[0 := Tty; 1 := Tty; 2 := Tty]}.
Definition boot : sys := mkSys [mkProc 0 Running terminal false []] [] [].

Definition holds (h : handle) (p : proc) : bool :=
  existsb (λ x, bool_decide (x.2 = h)) (map_to_list (p_fds p)).
Definition is_open (h : handle) (s : sys) : bool := existsb (holds h) (procs s).

(** The lowest descriptors that are free. *)
Fixpoint free_from (n : nat) (i : Z) (fds : gmap Z handle) : Z :=
  match n with
  | O => i
  | S n => match fds !! i with None => i | Some _ => free_from n (i + 1) fds end
  end.
Definition new_fd (fds : gmap Z handle) : Z := free_from (size fds) 0 fds.

Definition child_of (pid : Z) (x : nat * proc) : bool :=
  (p_parent x.2 =? pid) && negb (bool_decide (p_status x.2 = Reaped)).
Definition zombie (p : proc) : option Z := match p_status p with Zombie z => Some z | _ => None end.

Definition set_status (st : status) (p : proc) : proc :=
  mkProc (p_parent p) st (p_fds p) (p_caught p) (p_past p).
Definition set_fds (fds : gmap Z handle) (p : proc) : proc :=
  mkProc (p_parent p) (p_status p) fds (p_caught p) (p_past p).
Definition heard (r : reply) (p : proc) : proc :=
  mkProc (p_parent p) (p_status p) (p_fds p) (p_caught p) (p_past p ++ [r]).
Definition ended (z : Z) (p : proc) : proc :=
  mkProc (p_parent p) (Zombie z) ∅ (p_caught p) [].

(** The process at place [i] gets the reply [r]. *)
Definition reply_to (i : nat) (p : proc) (r : reply) (s : sys) : sys :=
  mkSys (<[i := heard r p]> (procs s)) (pipes s) (screen s).
Definition finish (i : nat) (p : proc) (z : Z) (s : sys) : sys :=
  mkSys (<[i := ended z p]> (procs s)) (pipes s) (screen s).
Definition with_pipe (q : nat) (d : bytes) (s : sys) : sys :=
  mkSys (procs s) (<[q := d]> (pipes s)) (screen s).
Definition show (d : bytes) (s : sys) : sys := mkSys (procs s) (pipes s) (screen s ++ [d]).

(** A call of process [i]; [ok] says whether [open], [pipe] and [fork] succeed. A write of
    at most [PIPE_BUF] bytes is done at once or waits, and nobody types at the
    terminal. *)
Definition serve (ok : bool) (i : nat) (p : proc) (c : call) (s : sys) : outcome sys :=
  let pid := Z.of_nat i + 1 in
  let done r := Moved (reply_to i p r s) in
  match c with
  | Open d =>
    (* read in order, it is like a pipe that has its content and no writer *)
    if ok then
      let fd := new_fd (p_fds p) in
      Moved (reply_to i (set_fds (<[fd := ReadEnd (length (pipes s))]> (p_fds p)) p) (returns fd)
        (mkSys (procs s) (pipes s ++ [d]) (screen s)))
    else done (returns (-1))
  | Pipe =>
    if ok then
      let rd := new_fd (p_fds p) in
      let fds := <[rd := ReadEnd (length (pipes s))]> (p_fds p) in
      let wr := new_fd fds in
      let fds := <[wr := WriteEnd (length (pipes s))]> fds in
      Moved (reply_to i (set_fds fds p) (mkReply 0 (rd, wr) [] false)
        (mkSys (procs s) (pipes s ++ [[]]) (screen s)))
    else done (returns (-1))
  | Fork =>
    if ok then
      let child := mkProc pid Running (p_fds p) (p_caught p) (p_past p ++ [returns 0]) in
      Moved (reply_to i p (returns (Z.of_nat (length (procs s)) + 1))
        (mkSys (procs s ++ [child]) (pipes s) (screen s)))
    else done (returns (-1))
  | Getpid => done (returns pid)
  | Getppid => done (returns (p_parent p))
  | Close fd =>
    match p_fds p !! fd with
    | None => done (returns (-1))
    | Some _ => Moved (reply_to i (set_fds (delete fd (p_fds p)) p) (returns 0) s)
    end
  | Dup2 oldfd newfd =>
    match p_fds p !! oldfd with
    | None => done (returns (-1))
    | Some h => Moved (reply_to i (set_fds (<[newfd := h]> (p_fds p)) p) (returns newfd) s)
    end
  | Read fd n =>
    match p_fds p !! fd with
    | Some (ReadEnd q) =>
      match pipes s !! q with
      | Some ((_ :: _) as d) =>
        let got := take (Z.to_nat n) d in
        Moved (reply_to i p (mkReply (zlen got) (0, 0) got false) (with_pipe q (drop (Z.to_nat n) d) s))
      | _ => if is_open (WriteEnd q) s then Blocked else done (returns 0)
      end
    | Some Tty => Blocked
    | _ => done (returns (-1))
    end
  | Write fd d =>
    match p_fds p !! fd with
    | Some (WriteEnd q) =>
      if is_open (ReadEnd q) s then
        match pipes s !! q with
        | Some old =>
          if zlen old + zlen d <=? PIPE_CAPACITY
          then Moved (reply_to i p (returns (zlen d)) (with_pipe q (old ++ d) s))
          else Blocked
        | None => Undefined
        end
      else if p_caught p then done (mkReply (-1) (0, 0) [] true)
      else Moved (finish i p KILLED s)
    | Some Tty => Moved (reply_to i p (returns (zlen d)) (show d s))
    | _ => done (returns (-1))
    end
  | Waitpid child =>
    match filter (λ x, child_of pid x = true ∧ (child = -1 ∨ child = Z.of_nat x.1 + 1))
        (imap pair (procs s)) with
    | [] => done (returns (-1))
    | children =>
      match list_find (λ x, is_Some (zombie x.2)) children with
      | Some (_, (j, q)) =>
        Moved (reply_to i p (mkReply (Z.of_nat j + 1) (default 0 (zombie q), 0) [] false)
          (mkSys (<[j := set_status Reaped q]> (procs s)) (pipes s) (screen s)))
      | None => Blocked
      end
    end
  | Catch_sigpipe =>
    Moved (reply_to i (mkProc (p_parent p) (p_status p) (p_fds p) true (p_past p)) (returns 0) s)
  end.

(** What a process does after the replies [past]. *)
Fixpoint resume (m : prog Z) (past : list reply) {struct past} : prog Z :=
  match past, m with
  | r :: past, Ask c k => resume (k r) past
  | _, _ => m
  end.

Lemma resume_snoc m past r :
  resume m (past ++ [r]) = match resume m past with Ask _ k => k r | m' => m' end.
Proof. revert m. induction past as [|r' past IH]; intros [z|z|u|c k]; try done. apply IH. Qed.

Section program.
Context (main : prog Z).

(** The process [t.1] makes its next call, or ends. *)
Definition process_move (t : nat * bool) (s : sys) : outcome sys :=
  match procs s !! t.1 with
  | Some p =>
    match p_status p with
    | Running =>
      match resume main (p_past p) with
      | Ret z | Exit z => Moved (finish t.1 p (exited z) s)
      | Wrong _ => Undefined
      | Ask c _ => serve t.2 t.1 p c s
      end
    | _ => Blocked
    end
  | None => Blocked
  end.
End program.

(** ** All executions of a program *)

(** [open], [pipe] and [fork] do not fail. *)
Definition succeeds (t : nat * bool) : Prop := t.2 = true.

Definition with_success (s : sys) : list (nat * bool) :=
  (λ i, (i, true)) <$> seq 0 (length (procs s)).
Definition with_any (s : sys) : list (nat * bool) :=
  seq 0 (length (procs s)) ≫= λ i, [(i, true); (i, false)].

(** What the calls of all processes may lead to, from the start of the program. *)
Definition execution (main : prog Z) (ts : list (nat * bool)) : outcome sys :=
  run (H := process_move main) ts boot.
Definition always (main : prog Z) (allowed : nat * bool → Prop) (n : nat) (final : sys → Prop) : Prop :=
  completes (H := process_move main) allowed n final boot.

(** Everybody has ended, [main] with the status [z]. *)
Definition over (z : Z) (s : sys) : Prop :=
  Forall (λ p, p_status p ≠ Running) (procs s) ∧ p_status <$> head (procs s) = Some (Zombie (exited z)).

(** What is on the screen, whatever the order of the lines. *)
Definition shows (lines : list bytes) (s : sys) : Prop := screen s ≡ₚ lines.

#[export] Instance over_dec z s : Decision (over z s).
Proof. unfold over. apply _. Defined.
#[export] Instance lines_perm_dec (l l' : list bytes) : Decision (l ≡ₚ l').
Proof.
  destruct (decide (l ∈ permutations l')) as [H|H].
  - left. symmetry. by apply permutations_Permutation.
  - right. intros Hl. apply H, permutations_Permutation. by symmetry.
Defined.
#[export] Instance shows_dec lines s : Decision (shows lines s).
Proof. unfold shows. apply _. Defined.

Lemma move_outside main t s : (length (procs s) ≤ t.1)%nat → process_move main t s = Blocked.
Proof. intros Hle. unfold process_move. by rewrite lookup_ge_None_2. Qed.

Lemma inside main t s : t.1 ∈ seq 0 (length (procs s)) ∨ process_move main t s = Blocked.
Proof.
  destruct (decide (length (procs s) ≤ t.1)%nat); [right; by apply move_outside|left].
  apply elem_of_seq. lia.
Qed.

Lemma success_actors main t s :
  succeeds t → t ∈ with_success s ∨ process_move main t s = Blocked.
Proof.
  destruct t as [i ok]. unfold succeeds. simpl. intros ->.
  destruct (inside main (i, true) s) as [Hin|Hb]; [left|by right].
  apply list_elem_of_fmap. by exists i.
Qed.
Lemma success_only t s : t ∈ with_success s → succeeds t.
Proof. by intros (i & -> & _)%list_elem_of_fmap. Qed.

Lemma any_actors main t s : True → t ∈ with_any s ∨ process_move main t s = Blocked.
Proof.
  intros _. destruct (inside main t s) as [Hin|Hb]; [left|by right].
  apply list_elem_of_bind. exists t.1. split; [|done]. destruct t as [i []]; [left|right; left].
Qed.

Section checks.
Context (main : prog Z) (final : sys → Prop) `{∀ s, Decision (final s)}.

(** The check that a computation makes of all executions. *)
Definition check (actors : sys → list (nat * bool)) (n : nat) : bool :=
  explore (H := process_move main) actors
    (λ s, forallb (λ t, defined (H := process_move main) t s) (actors s) &&
      (bool_decide (final s) || existsb (λ t, moves (H := process_move main) t s) (actors s)))
    (Datatypes.S n) [boot].

Lemma check_success n : check with_success n = true → always main succeeds n final.
Proof. apply explore_completes; [apply success_actors|apply success_only]. Qed.

Lemma check_any n : check with_any n = true → always main (λ _, True) n final.
Proof. apply explore_completes; [apply any_actors|done]. Qed.
End checks.

(** A schedule that picks processes, all of whose calls succeed. *)
Definition picks (l : list nat) : list (nat * bool) := (λ i, (i, true)) <$> l.
Lemma picks_succeed l : Forall succeeds (picks l).
Proof. apply Forall_fmap, Forall_true. done. Qed.

(** Where a schedule leads: to a state from which nobody can ever move again, ... *)
Definition quiet (main : prog Z) (s : sys) : bool :=
  forallb (λ t, match process_move main t s with Blocked => true | _ => false end) (with_any s).
Definition leads (main : prog Z) (ts : list (nat * bool)) (good : sys → bool) : bool :=
  match execution main ts with Moved s => good s && quiet main s | _ => false end.

Lemma leads_sound main ts good :
  leads main ts good = true →
  ∃ s, execution main ts = Moved s ∧ good s = true ∧ ∀ t, process_move main t s = Blocked.
Proof.
  unfold leads. destruct (execution main ts) as [s| |]; [|done..]. intros [Hg Hall]%andb_prop.
  exists s. split_and!; [done..|]. intros t. destruct (any_actors main t s I) as [Ht|Hb]; [|done].
  unfold quiet in Hall. rewrite forallb_forall in Hall. apply list_elem_of_In, Hall in Ht.
  by destruct (process_move main t s).
Qed.

(** ... although [main] has not ended. *)
Definition hangs (main : prog Z) (s : sys) : Prop :=
  p_status <$> head (procs s) = Some Running ∧ ∀ t, process_move main t s = Blocked.

Lemma hung_sound main ts :
  leads main ts (λ s, bool_decide (p_status <$> head (procs s) = Some Running)) = true →
  ∃ s, execution main ts = Moved s ∧ hangs main s.
Proof.
  intros (s & Hrun & Hst & Hs)%leads_sound. exists s. split; [done|].
  split; [by apply bool_decide_eq_true in Hst|done].
Qed.

(** An execution of a program that completes, when nobody can move any more. *)
Lemma completed main n final ts :
  always main succeeds n final → Forall succeeds ts → leads main ts (λ _, true) = true →
  ∃ s, execution main ts = Moved s ∧ final s.
Proof.
  intros Hall Hts (s & Hrun & _ & Hs)%leads_sound. exists s. split; [done|].
  destruct (Hall ts s Hts Hrun) as (_ & _ & [Hf|(t & s' & _ & Hm)]); [done|].
  unfold move in Hm. by rewrite Hs in Hm.
Qed.
