(* ===== verification/TwoPipe.v ===== *)
(** * [05_ipc/pipe/two_pipe.c]: three processes and two pipes *)
From S2P Require Export Process.

Definition STDIN_FILENO : Z := 0.
Definition STDOUT_FILENO : Z := 1.
Definition STDERR_FILENO : Z := 2.
Definition THREAD_NUM : Z := 3.

(** [int pipeAB[2]], indeterminate when [pipe] has failed. *)
Definition ends (r : reply) : cell (Z * Z) := if r_ret r =? 0 then Val (r_aux r) else Indet.

Definition A (pipeAB pipeAC : cell (Z * Z)) : prog Z :=
  AB ← pure (use pipeAB);
  AC ← pure (use pipeAC);
  close AB.1;;
  close AC.1;;
  dup2 AB.2 STDOUT_FILENO;;
  dup2 AC.2 STDERR_FILENO;;
  close AB.2;;
  close AC.2;;
  (* stdout is a pipe, so its line is written by fflush(stdout) *)
  ask (Write STDERR_FILENO (format (lit "on process A, write info into stderr.\n") []));;
  ask (Write STDOUT_FILENO (format (lit "on process A, write info into stdout.\n") []));;
  Exit 0.

Definition B (pipeAB pipeAC : cell (Z * Z)) : prog Z :=
  AB ← pure (use pipeAB);
  AC ← pure (use pipeAC);
  close AB.2;;
  close AC.1;;
  close AC.2;;
  dup2 AB.1 STDIN_FILENO;;
  close AB.1;;
  r ← ask (Read STDIN_FILENO 1024);
  let buf := fill (zeroed 1024) (r_data r) in
  s ← pure (c_str buf);
  printf "stdout = %s" [AStr s];;
  Exit 0.

Definition C (pipeAB pipeAC : cell (Z * Z)) : prog Z :=
  AB ← pure (use pipeAB);
  AC ← pure (use pipeAC);
  close AB.1;;
  close AB.2;;
  close AC.2;;
  dup2 AC.1 STDIN_FILENO;;
  close AC.1;;
  r ← ask (Read STDIN_FILENO 1024);
  let buf := fill (zeroed 1024) (r_data r) in
  s ← pure (c_str buf);
  printf "stderr = %s" [AStr s];;
  Exit 0.

Fixpoint spawn (n : nat) (i : Z) (pipeAB pipeAC : cell (Z * Z)) (children : list Z) : prog (list Z) :=
  match n with
  | O => mret children
  | S n =>
    pid ← ask Fork;
    if r_ret pid =? 0 then
      (if i =? 0 then A pipeAB pipeAC
       else if i =? 1 then B pipeAB pipeAC
       else C pipeAB pipeAC);;
      mret children
    else spawn n (i + 1) pipeAB pipeAC (children ++ [r_ret pid])
  end.

Fixpoint reap (children : list Z) : prog unit :=
  match children with
  | [] => mret tt
  | pid :: children => ask (Waitpid pid);; reap children
  end.

Definition main : prog Z :=
  AB ← ask Pipe;
  AC ← ask Pipe;
  children ← spawn (Z.to_nat THREAD_NUM) 0 (ends AB) (ends AC) [];
  reap children;;
  mret 0.

(** ** Every execution delivers the two lines *)

Definition stdout_line : bytes := lit "stdout = on process A, write info into stdout.\n".
Definition stderr_line : bytes := lit "stderr = on process A, write info into stderr.\n".

(** [main] has exited with 0, its three children with their statuses collected by [waitpid],
    and the screen shows the two lines. *)
Definition delivered (s : sys) : Prop :=
  over 0 s ∧ p_status <$> procs s = [Zombie 0; Reaped; Reaped; Reaped] ∧
  shows [stdout_line; stderr_line] s.
#[export] Instance delivered_dec s : Decision (delivered s).
Proof. unfold delivered. apply _. Defined.

(** C13: when [pipe] and [fork] succeed, every interleaving of the four processes ends,
    within 34 moves and without undefined behaviour: B has printed the line that A
    wrote to its standard output, C the one that A wrote to its standard error, and
    [main] has collected the three of them with [waitpid] before it exits with 0. *)
Theorem two_pipe_delivers : always main succeeds 34 delivered.
Proof. apply (check_success main delivered). vm_compute. reflexivity. Qed.

Lemma two_pipe_delivers_witness :
  ∃ s, execution main (picks ([0; 0; 0; 0; 0] ++ replicate 9 1 ++ replicate 8 2 ++ replicate 8 3 ++ replicate 4 0)%nat)
    = Moved s ∧ delivered s.
Proof.
  apply (completed main 34 delivered); [apply two_pipe_delivers|apply picks_succeed|vm_compute; reflexivity].
Defined.

(** [main] keeps the write ends of both pipes open and ignores the failure of
    [fork]: without A, the others wait for ever for what A would have written, and
    [main] waits for them. *)
Lemma two_pipe_without_A_hangs :
  ∃ s, execution main ([(0, true); (0, true); (0, false)]%nat ++ picks ([0; 0] ++ replicate 5 1 ++ replicate 5 2)%nat)
    = Moved s ∧ hangs main s.
Proof. apply hung_sound. vm_compute. reflexivity. Qed.
