(* ===== verification/ForkDemos.v ===== *)
(** * Small programs that fork or use pipes

    [03_process/01_fork.c], [03_process/two_fork_in_if.c], [03_process/05_sigpipe_a.c],
    [03_process/06_sigpipe_b.c] and [05_ipc/pipe/pipe_test.cpp]. *)
From S2P Require Export Process.

(** ** [01_fork.c]: a line of [std::cout] is one write *)

Definition one_fork_main : prog Z :=
  me ← ask Getpid;
  printf "主进程 pid = %d\n" [AInt (r_ret me)];;
  pid ← ask Fork;
  (if r_ret pid =? 0 then
    me ← ask Getpid;
    printf "子进程getpid() pid = %d\n" [AInt (r_ret me)]
  else if r_ret pid =? -1 then printf "创建子进程失败\n" []
  else printf "子进程 pid = %d\n" [AInt (r_ret pid)]);;
  mret 0.

(** ** [two_fork_in_if.c] *)

Definition two_fork_main : prog Z :=
  pid ← ask Getpid;
  ppid ← ask Getppid;
  printf "main pid = %d, ppid = %d\n" [AInt (r_ret pid); AInt (r_ret ppid)];;
  printf "A\n" [];;
  r ← ask Fork;
  r ← (if r_ret r =? 0 then mret r else ask Fork);
  (if r_ret r =? 0 then mret tt else printf "D\n" []);;
  mret 0.

(** ** [05_sigpipe_a.c] *)

Definition sigpipe_handler (signum : Z) : prog unit :=
  printf "Caught SIGPIPE signal: %d\n" [AInt signum];;
  Exit 1.

Definition sigpipe_a_main : prog Z :=
  let buffer := b "Hello, World!" ++ ["000"%char] in
  r ← ask Pipe;
  if r_ret r =? -1 then
    perror "pipe";;
    Exit 1
  else
  let pipefd := r_aux r in
  ask Catch_sigpipe;;
  close pipefd.1;;
  r ← write_or sigpipe_handler pipefd.2 buffer;
  (if r_ret r =? -1 then perror "write" else mret tt);;
  close pipefd.2;;
  mret 0.

(** ** [06_sigpipe_b.c] *)

Definition sigpipe_b_main : prog Z :=
  r ← ask Pipe;
  if r_ret r =? -1 then
    perror "pipe";;
    Exit 1
  else
  let pipefd := r_aux r in
  ask Catch_sigpipe;;
  pid ← ask Fork;
  if r_ret pid =? 0 then
    close pipefd.2;;
    r ← ask (Read pipefd.1 1024);
    let buf := fill (new_buffer 1024) (r_data r) in
    s ← pure (c_str buf);
    printf "buf:%s\n" [AStr s];;
    close pipefd.1;;
    Exit 0
  else
    let s := b "hello" in
    close pipefd.1;;
    write_or sigpipe_handler pipefd.2 s;;
    printf "close\n" [];;
    ask (Waitpid (r_ret pid));;
    write_or sigpipe_handler pipefd.2 s;;
    mret 0.

(** ** [pipe_test.cpp] *)

Definition pipe_test_main : prog Z :=
  ret ← ask Pipe;
  if r_ret ret =? -1 then
    perror "pipe error!";;
    Exit 1
  else
  let fd := r_aux ret in
  pid ← ask Fork;
  if r_ret pid =? -1 then
    perror "fork error!";;
    Exit 1
  else
  (if r_ret pid =? 0 then
    close fd.2;;
    me ← ask Getpid;
    printf "child = %d\n" [AInt (r_ret me)];;
    ret ← ask (Read fd.1 1024);
    let buf := fill (new_buffer 1024) (r_data ret) in
    d ← pure (contents (Z.to_nat (u64 (r_ret ret))) buf);
    ask (Write 1 d);;
    mret tt
  else
    close fd.1;;
    me ← ask Getpid;
    printf "parent = %d\n" [AInt (r_ret me)];;
    ask (Write fd.2 (lit "hello pipe\n"));;
    ask (Waitpid (-1));;
    mret tt);;
  me ← ask Getpid;
  printf "finished! %d\n" [AInt (r_ret me)];;
  mret 0.

(** ** What they do, in every execution *)

(** The first line comes first; parent and child then name the same process, in
    either order, or the parent says that there is no child. *)
Definition one_fork_end (s : sys) : Prop :=
  over 0 s ∧ head (screen s) = Some (lit "主进程 pid = 1\n") ∧
  (tail (screen s) = [lit "创建子进程失败\n"] ∨
   tail (screen s) ≡ₚ [lit "子进程 pid = 2\n"; lit "子进程getpid() pid = 2\n"]).
#[export] Instance one_fork_end_dec s : Decision (one_fork_end s).
Proof. unfold one_fork_end. apply _. Defined.

Lemma one_fork_prints : always one_fork_main (λ _, True) 10 one_fork_end.
Proof. apply (check_any one_fork_main one_fork_end). vm_compute. reflexivity. Qed.

(** [A] and [D] are printed once each, and at most three processes run, whether
    the calls of [fork] succeed or not. *)
Definition two_fork_end (s : sys) : Prop :=
  over 0 s ∧ (length (procs s) ≤ 3)%nat ∧
  screen s = [lit "main pid = 1, ppid = 0\n"; lit "A\n"; lit "D\n"].
#[export] Instance two_fork_end_dec s : Decision (two_fork_end s).
Proof. unfold two_fork_end. apply _. Defined.

Lemma two_forks_print_once : always two_fork_main (λ _, True) 12 two_fork_end.
Proof. apply (check_any two_fork_main two_fork_end). vm_compute. reflexivity. Qed.

Definition sigpipe_a_end (s : sys) : Prop :=
  over 1 s ∧ (screen s = [b "pipe"] ∨ screen s = [lit "Caught SIGPIPE signal: 13\n"]).
#[export] Instance sigpipe_a_end_dec s : Decision (sigpipe_a_end s).
Proof. unfold sigpipe_a_end. apply _. Defined.

(** The handler ends the program before [perror] can be reached. *)
Lemma sigpipe_is_caught : always sigpipe_a_main (λ _, True) 6 sigpipe_a_end.
Proof. apply (check_any sigpipe_a_main sigpipe_a_end). vm_compute. reflexivity. Qed.

Definition pipe_test_end (s : sys) : Prop :=
  (over 1 s ∧ (screen s = [b "pipe error!"] ∨ screen s = [b "fork error!"])) ∨
  (over 0 s ∧ last (screen s) = Some (lit "finished! 1\n") ∧
   shows [lit "child = 2\n"; lit "parent = 1\n"; lit "hello pipe\n"; lit "finished! 2\n"; lit "finished! 1\n"] s).
#[export] Instance pipe_test_end_dec s : Decision (pipe_test_end s).
Proof. unfold pipe_test_end. apply _. Defined.

(** Whatever fails and however the two processes interleave, the child prints what
    the parent has sent, the parent ends last, and a failure of [pipe] or [fork] is
    reported. *)
Lemma pipe_test_delivers : always pipe_test_main (λ _, True) 18 pipe_test_end.
Proof. apply (check_any pipe_test_main pipe_test_end). vm_compute. reflexivity. Qed.

Definition garbage (s : sys) : bool :=
  bool_decide (screen s = [] ∨ screen s = [lit "close\n"]) &&
  existsb (λ t, moves (H := process_move sigpipe_b_main) t s ||
    negb (defined (H := process_move sigpipe_b_main) t s)) (with_success s).

(** The child prints its buffer, of which only the five bytes that it has read are
    initialised: no execution ends, each can be continued until the undefined
    behaviour of the child is all that is left. *)
Lemma sigpipe_b_reads_garbage ts s :
  Forall succeeds ts → execution sigpipe_b_main ts = Moved s →
  (screen s = [] ∨ screen s = [lit "close\n"]) ∧ (length ts ≤ 8)%nat ∧
  ∃ t, succeeds t ∧
    (process_move sigpipe_b_main t s = Undefined ∨ ∃ s', process_move sigpipe_b_main t s = Moved s').
Proof.
  intros Hts Hrun.
  destruct (explore_sound (H := process_move sigpipe_b_main) succeeds with_success
    (success_actors sigpipe_b_main) garbage 9 [boot] boot ts s) as [Hlen Hg]; [vm_compute; reflexivity|by left|done..|].
  apply andb_prop in Hg as [Hscreen Hg]. split; [by apply bool_decide_eq_true in Hscreen|].
  split; [lia|]. apply existsb_exists in Hg as (t & Ht & Hm).
  exists t. split; [by eapply success_only, list_elem_of_In|].
  unfold moves, defined, move in Hm. destruct (process_move sigpipe_b_main t s) as [s'| |]; [right; by eexists|done|by left].
Qed.
