(* ===== verification/FiveChildren.v ===== *)
(** * [07_signal/five_children.c]: children that are reaped in a signal handler

    The parent, its handler of [SIGCHLD] and the children interleave. A signal that
    arrives while one of its kind is pending is merged with it; while the handler
    runs the parent's own flow stands still and [SIGCHLD] is blocked, as glibc's
    [signal] has it. Times are not modelled: a [sleep] ends at any moment. *)
From S2P Require Export Format Threads.

(** Where a child is; [KStarting] has the value that [i] had at the [fork]. *)
Inductive kpc := KStarting (i : Z) | KAsleep (seconds : Z) | KExiting | KExit | KZombie | KReaped.
#[global] Instance kpc_eq_dec : EqDecision kpc.
Proof. solve_decision. Defined.

(** Where [main] is: before [signal], at the [fork] of round [i], at the test of
    the second loop, in its body, and behind it. *)
Inductive ppc := PInstall | PFork (i : Z) | PTest | PSleep | PPrint | PFinal | PReturned.
#[global] Instance ppc_eq_dec : EqDecision ppc.
Proof. solve_decision. Defined.

(** [reapChildren] is not running, at its [waitpid], or at [numDone++]. *)
Inductive hpc := HIdle | HWait | HCount.
#[global] Instance hpc_eq_dec : EqDecision hpc.
Proof. solve_decision. Defined.

Record state := mkState {
  parent : ppc; handler : hpc; pending : bool; kids : list kpc; numDone : Z; screen : list bytes }.

Definition set_parent (p : ppc) (s : state) : state :=
  mkState p (handler s) (pending s) (kids s) (numDone s) (screen s).
Definition set_kid (k : nat) (q : kpc) (s : state) : state :=
  mkState (parent s) (handler s) (pending s) (<[k := q]> (kids s)) (numDone s) (screen s).
Definition print (line : bytes) (s : state) : state :=
  mkState (parent s) (handler s) (pending s) (kids s) (numDone s) (screen s ++ [line]).

Definition starting_line (pid : Z) : bytes :=
  format (lit "Child process %d starting...\n") [AInt pid].
Definition exiting_line (pid : Z) : bytes :=
  format (lit "Child process %d exiting...\n") [AInt pid].
Definition status_line (status : Z) : bytes :=
  format (lit "Child process exited with status: %d\n") [AInt status].
Definition final_line : bytes :=
  format (lit "All child processes have completed. Parent process exiting...\n") [].

(** [Parent ok] is a move of [main], whose [fork] succeeds when [ok]; [Deliver]
    starts the handler for the pending signal; in [Handler k] the [waitpid] finds
    the [k]-th child. *)
Inductive actor := Parent (ok : bool) | Deliver | Handler (k : nat) | Child (k : nat).

Section program.
(** The process number of the [k]-th child, and what reading the uninitialised
    [status] gives: nothing, as in C, or some value, as most compilers have it. *)
Context (pid_of : nat → Z) (status : option Z).

Definition main (ok : bool) (s : state) : outcome state :=
  match parent s with
  | PInstall => Moved (set_parent (PFork 0) s)
  | PFork i =>
    if i <? 5 then
      Moved (mkState (PFork (i + 1)) (handler s) (pending s)
        (if ok then kids s ++ [KStarting i] else kids s) (numDone s) (screen s))
    else Moved (set_parent PTest s)
  | PTest => Moved (set_parent (if numDone s <? 5 then PSleep else PFinal) s)
  | PSleep => Moved (set_parent PPrint s)
  | PPrint =>
    match status with
    | None => Undefined
    | Some z => Moved (set_parent PTest (print (status_line z) s))
    end
  | PFinal => Moved (set_parent PReturned (print final_line s))
  | PReturned => Blocked
  end.

Definition reapChildren (k : nat) (s : state) : outcome state :=
  match handler s with
  | HIdle => Blocked
  | HWait =>
    if bool_decide (kids s !! k = Some KZombie) then
      Moved (mkState (parent s) HCount (pending s) (<[k := KReaped]> (kids s)) (numDone s) (screen s))
    else if bool_decide (Forall (.= KReaped) (kids s)) then
      Moved (mkState (parent s) HCount (pending s) (kids s) (numDone s) (screen s))
    else Blocked
  | HCount =>
    if int_ok (numDone s + 1) then
      Moved (mkState (parent s) HIdle (pending s) (kids s) (numDone s + 1) (screen s))
    else Undefined
  end.

Definition child (k : nat) (q : kpc) (s : state) : outcome state :=
  match q with
  | KStarting i => Moved (set_kid k (KAsleep (2 * i)) (print (starting_line (pid_of k)) s))
  | KAsleep _ => Moved (set_kid k KExiting s)
  | KExiting => Moved (set_kid k KExit (print (exiting_line (pid_of k)) s))
  | KExit =>
    Moved (mkState (parent s) (handler s) true (<[k := KZombie]> (kids s)) (numDone s) (screen s))
  | KZombie | KReaped => Blocked
  end.

#[local] Instance children : System actor state := λ t s,
  match t with
  | Parent ok => match handler s with HIdle => main ok s | _ => Blocked end
  | Deliver =>
    if pending s && bool_decide (handler s = HIdle) && negb (bool_decide (parent s = PReturned)) then
      Moved (mkState (parent s) HWait false (kids s) (numDone s) (screen s))
    else Blocked
  | Handler k => reapChildren k s
  | Child k => match kids s !! k with None => Blocked | Some q => child k q s end
  end.

Definition init : state := mkState PInstall HIdle false [] 0 [].

(** ** The invariant: what has been counted, and what signals stand for *)

Definition count (P : kpc → bool) (l : list kpc) : Z := zlen (List.filter P l).
Definition is_zombie (q : kpc) : bool := bool_decide (q = KZombie).
Definition is_reaped (q : kpc) : bool := bool_decide (q = KReaped).
Definition alive (q : kpc) : bool := negb (is_zombie q || is_reaped q).

Lemma count_app P l l' : count P (l ++ l') = count P l + count P l'.
Proof. unfold count, zlen. rewrite List.filter_app, length_app. lia. Qed.

Lemma kids_cons q (l : list kpc) : zlen (q :: l) = 1 + zlen l.
Proof. unfold zlen. simpl. lia. Qed.
Lemma kids_insert k q (l : list kpc) : zlen (<[k := q]> l) = zlen l.
Proof. unfold zlen. by rewrite length_insert. Qed.

Lemma count_cons P q l : count P (q :: l) = Z.b2z (P q) + count P l.
Proof. unfold count, zlen. simpl. destruct (P q); simpl; lia. Qed.

Lemma count_new P l i : P (KStarting i) = false → count P (l ++ [KStarting i]) = count P l.
Proof. intros HP. rewrite count_app, count_cons, HP. unfold count. simpl. unfold zlen. simpl. lia. Qed.

Lemma count_nonneg P l : 0 ≤ count P l.
Proof. unfold count, zlen. lia. Qed.

Lemma count_insert P l k q q' :
  l !! k = Some q → count P (<[k := q']> l) = count P l - Z.b2z (P q) + Z.b2z (P q').
Proof.
  revert k. induction l as [|x l IH]; intros [|k] Hk; simplify_eq/=.
  - rewrite !count_cons. lia.
  - rewrite !count_cons, (IH k) by done. lia.
Qed.

Lemma counts_all l : count alive l + count is_zombie l + count is_reaped l = zlen l.
Proof.
  induction l as [|q l IH]; [done|]. rewrite !count_cons, kids_cons.
  unfold alive at 1. destruct q; simpl; lia.
Qed.

Lemma all_reaped l : Forall (.= KReaped) l → count is_reaped l = zlen l ∧ count is_zombie l = 0.
Proof.
  induction 1 as [|q l -> _ [IH1 IH2]]; [done|]. rewrite !count_cons, kids_cons. simpl. lia.
Qed.

Lemma only_reaped l : count is_reaped l = zlen l → Forall (.= KReaped) l.
Proof.
  induction l as [|q l IH]; [constructor|]. rewrite count_cons, kids_cons. intros Hc.
  pose proof (counts_all l). pose proof (count_nonneg alive l). pose proof (count_nonneg is_zombie l).
  destruct q; simpl in Hc; try lia. constructor; [done|]. apply IH. lia.
Qed.

Lemma list_eq_replicate {A} (x : A) l : Forall (.= x) l → l = replicate (length l) x.
Proof. induction 1 as [|y l -> _ IH]; simpl; congruence. Qed.

Definition parent_ok (s : state) : Prop :=
  match parent s with
  | PInstall => kids s = []
  | PFork i => 0 ≤ i ≤ 5 ∧ zlen (kids s) ≤ i
  | PFinal | PReturned => 5 ≤ numDone s
  | _ => True
  end.

Record inv (s : state) : Prop := {
  inv_parent : parent_ok s;
  inv_kids : zlen (kids s) ≤ 5;
  inv_done : numDone s + Z.b2z (bool_decide (handler s = HCount)) = count is_reaped (kids s);
  inv_signal : Z.b2z (pending s) + Z.b2z (bool_decide (handler s = HWait)) ≤ count is_zombie (kids s);
  inv_final : final_line ∈ screen s → parent s = PReturned }.

Lemma inv_start : inv init.
Proof. split; try done. intros []%not_elem_of_nil. Qed.

Lemma not_final line o : line ≠ final_line → final_line ∈ o ++ [line] → final_line ∈ o.
Proof. intros Hne [|Heq%list_elem_of_singleton]%elem_of_app; [done|]. by destruct Hne. Qed.

Lemma other_lines z :
  starting_line z ≠ final_line ∧ exiting_line z ≠ final_line ∧ status_line z ≠ final_line.
Proof. by split_and!. Qed.

Lemma inv_main ok s s' : inv s → handler s = HIdle → main ok s = Moved s' → inv s'.
Proof.
  intros [Hp Hk Hd Hs Hf] Hh Hm. unfold main, parent_ok in *.
  destruct s as [p h g l d o]; simpl in *; subst h; simpl in *.
  destruct p as [|i| | | | |]; simplify_eq/=.
  - split; try done. by intros ?%Hf.
  - destruct (Z.ltb_spec i 5) as [Hi|Hi]; simplify_eq/=.
    + split; simpl; try (by intros ?%Hf).
      * unfold parent_ok. simpl. destruct ok; rewrite ?zlen_app; simpl; unfold zlen in *; simpl; lia.
      * destruct ok; rewrite ?zlen_app; unfold zlen in *; simpl; lia.
      * rewrite Hd. destruct ok; [|done]. by rewrite count_new.
      * destruct ok; [|done]. by rewrite count_new.
    + split; try done. by intros ?%Hf.
  - destruct (Z.ltb_spec d 5); split; try done; by intros ?%Hf.
  - split; try done. by intros ?%Hf.
  - destruct status as [z|]; simplify_eq/=. split; try done. simpl.
    intros Hin%not_final; [by apply Hf in Hin|]. apply other_lines.
  - split; done.
Qed.

Lemma inv_reap k s s' : inv s → reapChildren k s = Moved s' → inv s'.
Proof.
  intros [Hp Hk Hd Hs Hf] Hm. unfold reapChildren, parent_ok in *.
  destruct s as [p h g l d o]; simpl in *. destruct h; simplify_eq/=.
  - case_bool_decide as Hz; simplify_eq/=.
    + split; simpl; rewrite ?kids_insert, ?(count_insert _ _ _ _ _ Hz); simpl; try done; try lia.
      destruct p; unfold parent_ok; simpl; rewrite ?kids_insert; try done.
      by rewrite Hp in Hz.
    + case_bool_decide as Hall; simplify_eq/=. apply all_reaped in Hall. destruct g; simpl in *; lia.
  - destruct (int_ok (d + 1)); simplify_eq/=. split; simpl; try done; try lia.
    destruct p; unfold parent_ok; simpl; try done; lia.
Qed.

Lemma inv_child k q s s' : inv s → kids s !! k = Some q → child k q s = Moved s' → inv s'.
Proof.
  intros [Hp Hk Hd Hs Hf] Hq Hm. unfold child in Hm.
  assert (∀ q', zlen (<[k := q']> (kids s)) ≤ 5 ∧ ∀ h g o,
    parent_ok (mkState (parent s) h g (<[k := q']> (kids s)) (numDone s) o)) as Hp'.
  { intros q'. rewrite kids_insert. split; [done|]. intros. unfold parent_ok in *. simpl.
    destruct (parent s); rewrite ?kids_insert; try done. by rewrite Hp in Hq. }
  assert (∀ z, final_line ∈ screen s ++ [starting_line z] → parent s = PReturned) as Hst.
  { intros z ?%not_final; [by apply Hf|]. apply other_lines. }
  assert (∀ z, final_line ∈ screen s ++ [exiting_line z] → parent s = PReturned) as Hex.
  { intros z ?%not_final; [by apply Hf|]. apply other_lines. }
  destruct q; simplify_eq/=; split; simpl; try apply Hp'; try done; eauto;
    rewrite (count_insert _ _ _ _ _ Hq); simpl; try lia; destruct (pending s); simpl in *; lia.
Qed.

Lemma inv_move t s s' : inv s → move t s = Moved s' → inv s'.
Proof.
  intros Hi Hm. destruct t as [ok| |k|k]; unfold move in Hm; simpl in Hm.
  - destruct (handler s) eqn:Hh; try done. by eapply inv_main.
  - destruct (pending s) eqn:Hg, (handler s) eqn:Hh, (parent s) eqn:Hpa; simplify_eq/=.
    all: destruct Hi as [Hp Hk Hd Hs Hf]; split; unfold parent_ok in *; simpl in *;
      rewrite ?Hg, ?Hh, ?Hpa in *; simpl in *; try done.
  - by eapply inv_reap.
  - destruct (kids s !! k) eqn:Hq; [|done]. by eapply inv_child.
Qed.

Lemma inv_reachable s : reachable init s → inv s.
Proof. apply reachable_inv; [apply inv_start|apply inv_move]. Qed.

(** With a value in [status] no move is undefined: [numDone] does not overflow. *)
Lemma never_undefined t s : is_Some status → reachable init s → move t s ≠ Undefined.
Proof.
  intros [z Hz] [Hp Hk Hd Hs Hf]%inv_reachable.
  assert (count is_reaped (kids s) ≤ 5) as H5.
  { pose proof (counts_all (kids s)). pose proof (count_nonneg alive (kids s)).
    pose proof (count_nonneg is_zombie (kids s)). lia. }
  pose proof (count_nonneg is_reaped (kids s)) as H0.
  destruct t as [ok| |k|k]; unfold move; simpl.
  - destruct (handler s); [|done..]. unfold main. rewrite Hz.
    destruct (parent s) as [|i| | | | |]; try done. by destruct (i <? 5).
  - by destruct (pending s && _ && _).
  - unfold reapChildren. destruct (handler s); [done| |].
    + by repeat case_bool_decide.
    + simpl in Hd. unfold int_ok, INT_MIN, INT_MAX. by rewrite bool_decide_true by lia.
  - destruct (kids s !! k) as [q|]; [|done]. by destruct q.
Qed.

(** Nothing is left to happen but the moves of the second loop. *)
Definition waiting (p : ppc) : bool := match p with PTest | PSleep | PPrint => true | _ => false end.
Definition still (s : state) : Prop :=
  waiting (parent s) = true ∧ handler s = HIdle ∧ pending s = false ∧ count alive (kids s) = 0.

Lemma no_alive l k q : count alive l = 0 → l !! k = Some q → alive q = false.
Proof.
  revert k. induction l as [|x l IH]; intros [|k] Hc Hq; simplify_eq/=;
    rewrite count_cons in Hc; pose proof (count_nonneg alive l).
  - destruct (alive q); simpl in *; [lia|done].
  - apply (IH k); [|done]. destruct (alive x); simpl in *; lia.
Qed.

Lemma still_short t s s' :
  still s ∧ numDone s < 5 → move t s = Moved s' → still s' ∧ numDone s' < 5.
Proof.
  intros [(Hw & Hh & Hp & Ha) Hn] Hm. unfold still. destruct t as [ok| |k|k]; unfold move in Hm; simpl in Hm.
  - rewrite Hh in Hm. unfold main in Hm. destruct (parent s) eqn:Hpa; simplify_eq/=; try done.
    + destruct (Z.ltb_spec (numDone s) 5); [done|lia].
    + by destruct status; simplify_eq/=.
  - by rewrite Hp in Hm.
  - unfold reapChildren in Hm. by rewrite Hh in Hm.
  - destruct (kids s !! k) as [q|] eqn:Hq; [|done].
    apply (no_alive _ _ _ Ha) in Hq. by destruct q.
Qed.

Lemma never_final s s' :
  inv s → still s → numDone s < 5 → reachable s s' → final_line ∉ screen s'.
Proof.
  intros Hi Hs Hn Hr Hin.
  assert (inv s' ∧ (still s' ∧ numDone s' < 5)) as [Hi' [(Hw & _) _]].
  { revert Hr. apply (reachable_inv (λ s, inv s ∧ (still s ∧ numDone s < 5))); [done|].
    intros t s1 s2 [H1 H2] Hm. split; [by eapply inv_move|by eapply still_short]. }
  apply (inv_final _ Hi') in Hin. by rewrite Hin in Hw.
Qed.

Lemma still_short_final s :
  reachable init s → still s → parent s = PTest → 0 < count is_zombie (kids s) →
  ∀ s', reachable s s' → final_line ∉ screen s'.
Proof.
  intros Hi%inv_reachable Hst Hp Hz s'. apply never_final; [done..|].
  destruct Hst as (_ & Hh & _ & Ha). pose proof (inv_done _ Hi) as Hd. rewrite Hh in Hd. simpl in Hd.
  pose proof (counts_all (kids s)). pose proof (inv_kids _ Hi). lia.
Qed.

(** C15: [main] says that all child processes have completed only when five children
    have been made, all have exited and the handler has reaped each of them. *)
Theorem final_after_all_reaped s :
  reachable init s → final_line ∈ screen s →
  numDone s = 5 ∧ kids s = replicate 5 KReaped.
Proof.
  intros Hi%inv_reachable Hin. pose proof (inv_final _ Hi Hin) as Hp.
  destruct Hi as [Hpo Hk Hd Hs _]. unfold parent_ok in Hpo. rewrite Hp in Hpo.
  pose proof (counts_all (kids s)) as Hall. pose proof (count_nonneg alive (kids s)).
  pose proof (count_nonneg is_zombie (kids s)).
  assert (count is_reaped (kids s) = zlen (kids s)) as Heq.
  { destruct (bool_decide (handler s = HCount)); simpl in *; lia. }
  assert (zlen (kids s) = 5) as H5 by (destruct (bool_decide (handler s = HCount)); simpl in *; lia).
  split; [destruct (bool_decide (handler s = HCount)); simpl in *; lia|].
  assert (Forall (.= KReaped) (kids s)) as Hr by (by apply only_reaped).
  replace 5%nat with (length (kids s)) by (unfold zlen in H5; lia).
  by apply list_eq_replicate.
Qed.

(** C7: when no child lives, no signal is pending and no handler runs while [main]
    is at the test of its loop, [numDone] is short by the children that nobody has
    reaped. If none is left of five, two more moves print the last line; otherwise
    [main] sleeps and tests for ever, and the last line is never printed. *)
Theorem still_outcome s :
  reachable init s → still s → parent s = PTest →
  let lost := count is_zombie (kids s) in
  numDone s = zlen (kids s) - lost ∧
  (zlen (kids s) = 5 → lost = 0 →
   run [Parent true; Parent true] s = Moved (set_parent PReturned (print final_line s))) ∧
  (zlen (kids s) < 5 ∨ 0 < lost → ∀ s', reachable s s' → final_line ∉ screen s').
Proof.
  intros Hi%inv_reachable Hst Hp lost. destruct Hst as (Hw & Hh & Hg & Ha).
  pose proof (counts_all (kids s)) as Hall. pose proof (inv_done _ Hi) as Hd.
  rewrite Hh in Hd. simpl in Hd. assert (numDone s = zlen (kids s) - lost) as Heq by (unfold lost; lia).
  split; [done|]. split.
  - intros H5 Hl. assert (main true s = Moved (set_parent PFinal s)) as Hm.
    { unfold main. rewrite Hp, (proj2 (Z.ltb_ge _ _)) by lia. done. }
    simpl. unfold move. simpl. rewrite Hh, Hm. simpl. by rewrite Hh.
  - intros Hor s'. apply never_final; [done|done|].
    pose proof (inv_kids _ Hi). pose proof (count_nonneg is_zombie (kids s)). unfold lost in *. lia.
Qed.
End program.

(** ** Executions *)

Definition par : actor := Parent true.
Definition live_through (k : nat) : list actor := replicate 4 (Child k).

(** Five children are made and all end; the handler runs after each of them. *)
Definition one_by_one : list actor :=
  replicate 7 par ++ (seq 0 5 ≫= λ k, live_through k ++ [Deliver; Handler k; Handler k]).

(** They all end before the first signal is delivered. *)
Definition together : list actor :=
  replicate 7 par ++ (seq 0 5 ≫= live_through) ++ [Deliver; Handler 0; Handler 0].

(** The same while the handler runs for the first of them. *)
Definition during_handler : list actor :=
  replicate 7 par ++ live_through 0 ++ [Deliver] ++ (seq 1 4 ≫= live_through) ++
  [Handler 0; Handler 0; Deliver; Handler 1; Handler 1].

Definition pids (k : nat) : Z := 100 + Z.of_nat k.

Lemma final_after_all_reaped_witness :
  ∃ s, reachable (H := children pids None) init s ∧ final_line ∈ screen s ∧
    numDone s = 5 ∧ kids s = replicate 5 KReaped.
Proof.
  assert (∃ s, run (H := children pids None) (one_by_one ++ [par; par]) init = Moved s ∧
    final_line ∈ screen s) as (s & Hr & Hin).
  { eexists. split; [vm_compute; reflexivity|]. simpl. repeat (by left) || right. }
  apply run_reachable in Hr. exists s. split; [done|]. split; [done|].
  by apply (final_after_all_reaped pids None).
Defined.

Lemma still_outcome_witness :
  ∃ s, reachable (H := children pids None) init s ∧ numDone s = 1 ∧
    ∀ s', reachable (H := children pids None) s s' → final_line ∉ screen s'.
Proof.
  assert (∃ s, run (H := children pids None) together init = Moved s ∧
    still s ∧ parent s = PTest ∧ numDone s = 1 ∧ count is_zombie (kids s) = 4)
    as (s & Hr & Hs & Hp & Hn & Hz).
  { eexists. split; [vm_compute; reflexivity|]. by split_and!. }
  apply run_reachable in Hr. exists s. split; [done|]. split; [done|].
  apply (still_outcome pids None s Hr Hs Hp). right. lia.
Defined.

(** Signals are lost, although no call fails: when the children end before the
    first signal is delivered, or while its handler runs, all further signals become
    one, so that one or two children of the five are reaped, and [main] loops for
    ever with the others as zombies. *)
Lemma signals_lost pid_of status :
  ∃ s1 s2,
    run (H := children pid_of status) together init = Moved s1 ∧
    run (H := children pid_of status) during_handler init = Moved s2 ∧
    kids s1 = KReaped :: replicate 4 KZombie ∧
    kids s2 = replicate 2 KReaped ++ replicate 3 KZombie ∧
    ∀ s', reachable (H := children pid_of status) s1 s' ∨
          reachable (H := children pid_of status) s2 s' → final_line ∉ screen s'.
Proof.
  assert (∃ s1, run (H := children pid_of status) together init = Moved s1 ∧
    kids s1 = KReaped :: replicate 4 KZombie ∧ still s1 ∧ parent s1 = PTest)
    as (s1 & H1 & K1 & S1 & P1).
  { eexists. split; [cbv -[starting_line exiting_line]; reflexivity|].
    split; [reflexivity|]. split; [|reflexivity]. repeat split; reflexivity. }
  assert (∃ s2, run (H := children pid_of status) during_handler init = Moved s2 ∧
    kids s2 = replicate 2 KReaped ++ replicate 3 KZombie ∧ still s2 ∧ parent s2 = PTest)
    as (s2 & H2 & K2 & S2 & P2).
  { eexists. split; [cbv -[starting_line exiting_line]; reflexivity|].
    split; [reflexivity|]. split; [|reflexivity]. repeat split; reflexivity. }
  exists s1, s2. do 4 (split; [done|]). apply run_reachable in H1, H2.
  intros s' [Hr|Hr]; revert Hr.
  - apply (still_short_final _ _ s1 H1 S1 P1). by rewrite K1.
  - apply (still_short_final _ _ s2 H2 S2 P2). by rewrite K2.
Qed.
