(* ===== verification/Signals.v ===== *)
(** * Programs that catch signals

    [07_signal]: [sigaction.c], [signal_handler.c], [fork_sigprocmask.c],
    [setitimer_test.c], [setitimer_test2.c] and [alarm_test.c]. A process has a main
    flow, a mask, a set of pending signals, the signals that it catches, and a timer.
    A handler runs as one move, between two moves of the flow. *)
From S2P Require Export Format Threads.

Definition SIGINT : Z := 2.
Definition SIGUSR1 : Z := 10.
Definition SIGUSR2 : Z := 12.
Definition SIGALRM : Z := 14.
Definition SIGCHLD : Z := 17.

Inductive fate := Exited (z : Z) | Killed (sig : Z).

(** [counter] is the one integer variable of the program; [timer] says, when it is
    armed, whether it is periodic. *)
Record proc (PC : Type) := mkProc {
  at_ : PC; mask : gset Z; pend : gset Z; caught : gset Z; timer : option bool;
  counter : Z; screen : list bytes; over : option fate }.
Arguments mkProc {PC}.
Arguments at_ {PC} _.
Arguments mask {PC} _.
Arguments pend {PC} _.
Arguments caught {PC} _.
Arguments timer {PC} _.
Arguments counter {PC} _.
Arguments screen {PC} _.
Arguments over {PC} _.

Section updates.
Context {PC : Type}.
Implicit Types p : proc PC.

Definition goto (x : PC) p : proc PC :=
  mkProc x (mask p) (pend p) (caught p) (timer p) (counter p) (screen p) (over p).
Definition print (line : bytes) p : proc PC :=
  mkProc (at_ p) (mask p) (pend p) (caught p) (timer p) (counter p) (screen p ++ [line]) (over p).
Definition set_mask (m : gset Z) p : proc PC :=
  mkProc (at_ p) m (pend p) (caught p) (timer p) (counter p) (screen p) (over p).
Definition set_pend (g : gset Z) p : proc PC :=
  mkProc (at_ p) (mask p) g (caught p) (timer p) (counter p) (screen p) (over p).
Definition catch (sig : Z) p : proc PC :=
  mkProc (at_ p) (mask p) (pend p) ({[sig]} ∪ caught p) (timer p) (counter p) (screen p) (over p).
Definition set_timer (t : option bool) p : proc PC :=
  mkProc (at_ p) (mask p) (pend p) (caught p) t (counter p) (screen p) (over p).
Definition set_counter (z : Z) p : proc PC :=
  mkProc (at_ p) (mask p) (pend p) (caught p) (timer p) z (screen p) (over p).
Definition finish (f : fate) p : proc PC :=
  mkProc (at_ p) (mask p) (pend p) (caught p) (timer p) (counter p) (screen p) (Some f).

(** A new process, whose flow starts at [x]. *)
Definition start (x : PC) : proc PC := mkProc x ∅ ∅ ∅ None 0 [] None.

(** A signal that is pending already is not queued again. *)
Definition send (sig : Z) p : proc PC := set_pend ({[sig]} ∪ pend p) p.

(** The default action: of [SIGCHLD] nothing, of the others the end. *)
Definition by_default (sig : Z) p : proc PC := if sig =? SIGCHLD then p else finish (Killed sig) p.
End updates.

(** ** One process and its signals *)

(** A move of the flow ([ok]: its call succeeds), the timer runs out, somebody sends a
    signal, or a pending signal that is not blocked is delivered. *)
Inductive actor := Flow (ok : bool) | Tick | Kill (sig : Z) | Deliver (sig : Z).

Section process.
Context {PC : Type} (flow : bool → proc PC → outcome (proc PC)) (handler : Z → proc PC → outcome (proc PC)).
Context (sent : Z → bool).  (* the signals that other processes may send *)

Definition deliver (sig : Z) (p : proc PC) : outcome (proc PC) :=
  if decide (sig ∈ pend p ∧ sig ∉ mask p) then
    let p := set_pend (pend p ∖ {[sig]}) p in
    if decide (sig ∈ caught p) then handler sig p else Moved (by_default sig p)
  else Blocked.

#[local] Instance signalled : System actor (proc PC) := λ t p,
  match over p with
  | Some _ => Blocked
  | None =>
    match t with
    | Flow ok => flow ok p
    | Tick =>
      match timer p with
      | None => Blocked
      | Some periodic => Moved (send SIGALRM (set_timer (if periodic then Some true else None) p))
      end
    | Kill sig => if sent sig then Moved (send sig p) else Blocked
    | Deliver sig => deliver sig p
    end
  end.

(** What every program keeps when its flow and its handler keep it. *)
Lemma signal_inv (I : proc PC → Prop) p0 p :
  I p0 →
  (∀ ok p p', I p → over p = None → flow ok p = Moved p' → I p') →
  (∀ sig p p', I p → over p = None → sig ∈ pend p → sig ∉ mask p → sig ∈ caught p →
    handler sig (set_pend (pend p ∖ {[sig]}) p) = Moved p' → I p') →
  (∀ sig p, I p → over p = None → sig ∈ pend p → sig ∉ mask p → sig ∉ caught p →
    I (by_default sig (set_pend (pend p ∖ {[sig]}) p))) →
  (∀ sig p, I p → over p = None → sent sig = true → I (send sig p)) →
  (∀ x p, I p → over p = None → timer p = Some x →
    I (send SIGALRM (set_timer (if x then Some true else None) p))) →
  reachable p0 p → I p.
Proof.
  intros H0 Hflow Hhand Hdef Hsend Htick. apply reachable_inv; [done|].
  intros t q q' Hi Hm. unfold move, signalled in Hm. destruct (over q) eqn:Ho; [done|].
  destruct t as [ok| |sig|sig].
  - by eapply Hflow.
  - destruct (timer q) as [x|] eqn:Ht; simplify_eq. by eapply Htick.
  - destruct (sent sig) eqn:Hs; simplify_eq. by apply Hsend.
  - unfold deliver in Hm. case_decide as Hd; [|done]. destruct Hd as [H1 H2]. case_decide as Hc.
    + by eapply Hhand.
    + simplify_eq. by apply Hdef.
Qed.
End process.

Definition no_signals (sig : Z) : bool := false.

Definition error_line (msg : string) : bytes := b msg.

(** The program [p] fails in a call: it says so and ends with status 1. *)
Definition fails {PC} (msg : string) (p : proc PC) : outcome (proc PC) :=
  Moved (finish (Exited 1) (print (error_line msg) p)).

(** ** [sigaction.c] *)

Inductive sa_pc := SaUsr1 | SaUsr2 | SaPrint | SaSleep.

Definition sig_usr (signum : Z) (p : proc sa_pc) : outcome (proc sa_pc) :=
  if signum =? SIGUSR1 then Moved (print (lit "Received SIGUSR1\n") p)
  else if signum =? SIGUSR2 then Moved (print (lit "Received SIGUSR2\n") p)
  else Moved (print (format (lit "Received signal %d\n") [AInt signum]) p).

Definition sigaction_main (pid : Z) (ok : bool) (p : proc sa_pc) : outcome (proc sa_pc) :=
  match at_ p with
  | SaUsr1 =>
    if ok then Moved (goto SaUsr2 (catch SIGUSR1 p)) else fails "sigaction for SIGUSR1 failed" p
  | SaUsr2 =>
    if ok then Moved (goto SaPrint (catch SIGUSR2 p)) else fails "sigaction for SIGUSR2 failed" p
  | SaPrint => Moved (goto SaSleep (print (format (lit "My PID is %d\n") [AInt pid]) p))
  | SaSleep => Moved p
  end.

(** ** [signal_handler.c] *)

Inductive sh_pc := ShSignal | ShPuts | ShKill | ShKilled | ShPrint | ShReturn.
#[global] Instance sh_pc_eq_dec : EqDecision sh_pc.
Proof. solve_decision. Defined.
#[global] Instance fate_eq_dec : EqDecision fate.
Proof. solve_decision. Defined.
#[global] Instance proc_eq_dec {PC} `{EqDecision PC} : EqDecision (proc PC).
Proof. solve_decision. Defined.

(** The process has no child: [waitpid] returns at once. *)
Definition reapChildren (signum : Z) (p : proc sh_pc) : outcome (proc sh_pc) :=
  if int_ok (counter p + 1) then
    Moved (set_counter (counter p + 1) (print (lit "receive signal\n") p))
  else Undefined.

(** [kill] sends the signal to the process itself, and returns when it has been
    delivered. *)
Definition signal_handler_main (ok : bool) (p : proc sh_pc) : outcome (proc sh_pc) :=
  match at_ p with
  | ShSignal => Moved (goto ShPuts (catch SIGCHLD p))
  | ShPuts => Moved (goto ShKill (print (lit "do something!\n") p))
  | ShKill => Moved (goto ShKilled (send SIGCHLD p))
  | ShKilled => if decide (SIGCHLD ∈ pend p ∖ mask p) then Blocked else Moved (goto ShPrint p)
  | ShPrint =>
    Moved (goto ShReturn (print (format (lit "numDone = %d\n") [AInt (counter p)]) p))
  | ShReturn => Moved (finish (Exited 0) p)
  end.

(** ** [setitimer_test.c] and [setitimer_test2.c] *)

Inductive timer_pc := TSignal | TArm | TLoop.
#[global] Instance timer_pc_eq_dec : EqDecision timer_pc.
Proof. solve_decision. Defined.

(** [setitimer], with the [it_interval] that the program gives. *)
Definition my_alarm (interval : Z) (ok : bool) (p : proc timer_pc) : outcome (proc timer_pc) :=
  if ok then Moved (goto TLoop (set_timer (Some (negb (interval =? 0))) p))
  else fails "setitimer error" p.

Definition setitimer_test_main (ok : bool) (p : proc timer_pc) : outcome (proc timer_pc) :=
  match at_ p with
  | TSignal | TArm => my_alarm 0 ok p
  | TLoop =>
    if int_ok (counter p + 1) then
      Moved (set_counter (counter p + 1) (print (format (lit "%d\n") [AInt (counter p)]) p))
    else Undefined
  end.

Definition process_func (x : Z) (p : proc timer_pc) : outcome (proc timer_pc) :=
  Moved (print (lit "I catch a signal. ha ha ha...\n") p).

Definition setitimer_test2_main (ok : bool) (p : proc timer_pc) : outcome (proc timer_pc) :=
  match at_ p with
  | TSignal => Moved (goto TArm (catch SIGALRM p))
  | TArm => my_alarm 3 ok p
  | TLoop => Moved p
  end.

(** ** [alarm_test.c] *)

(** [printf("processing...%lld\n", i)] *)
Definition processing_line (i : Z) : bytes := lit "processing..." ++ show_int i ++ [newline].

Definition alarm_test_main (ok : bool) (p : proc timer_pc) : outcome (proc timer_pc) :=
  match at_ p with
  | TSignal | TArm => Moved (goto TLoop (set_timer (Some false) p))
  | TLoop =>
    let i := counter p + 1 in
    if bool_decide (i < 2 ^ 63) then
      Moved (set_counter i (print (processing_line i) p))
    else Undefined
  end.

(** A program that catches nothing. *)
Definition no_handler {PC} (sig : Z) (p : proc PC) : outcome (proc PC) := Undefined.

(** ** [fork_sigprocmask.c] *)

Inductive fork_pc :=
| FBlock | FFork | FPrint | FSleep | FRestore | FReturn  (* the parent *)
| FSigaction | FSpin.                                    (* the child *)
#[global] Instance fork_pc_eq_dec : EqDecision fork_pc.
Proof. solve_decision. Defined.

Definition handle_sigint (signum : Z) (p : proc fork_pc) : outcome (proc fork_pc) :=
  Moved (print (lit "Received SIGINT in child\n") p).

Section fork_sigprocmask.
(** The mask with which the program starts, and the signals that others send. *)
Context (oldmask : gset Z) (sent : Z → bool).

Definition fork_main (ok : bool) (p : proc fork_pc) : outcome (proc fork_pc) :=
  match at_ p with
  | FBlock =>
    if ok then Moved (goto FFork (set_mask ({[SIGINT]} ∪ mask p) p)) else fails "sigprocmask" p
  | FFork => if ok then Moved (goto FPrint p) else fails "fork" p
  | FPrint => Moved (goto FSleep (print (lit "Parent process\n") p))
  | FSleep => Moved (goto FRestore p)
  | FRestore => if ok then Moved (goto FReturn (set_mask oldmask p)) else fails "sigprocmask" p
  | FReturn => Moved (finish (Exited 0) p)
  | FSigaction => if ok then Moved (goto FSpin (catch SIGINT p)) else fails "sigaction" p
  | FSpin => Moved p
  end.

Record family := mkFamily { par : proc fork_pc; kid : option (proc fork_pc) }.
Inductive member := Par (a : actor) | Kid (a : actor).

(** The child has its parent's mask, and no pending signals. *)
Definition child_of (p : proc fork_pc) : proc fork_pc := goto FSigaction (set_pend ∅ p).
Definition forks (a : actor) (p : proc fork_pc) : bool :=
  match a, over p with Flow true, None => bool_decide (at_ p = FFork) | _, _ => false end.

#[local] Instance two_processes : System member family := λ t s,
  match t with
  | Par a =>
    p ← signalled fork_main handle_sigint sent a (par s);
    Moved (mkFamily p (if forks a (par s) then Some (child_of (par s)) else kid s))
  | Kid a =>
    match kid s with
    | None => Blocked
    | Some q => q ← signalled fork_main handle_sigint sent a q; Moved (mkFamily (par s) (Some q))
    end
  end.

Definition fork_init : family := mkFamily (set_mask oldmask (start FBlock)) None.
End fork_sigprocmask.

(** ** [sigaction.c]: what ends the process, and what it says *)

Definition sa_lines (pid : Z) : list bytes :=
  [lit "Received SIGUSR1\n"; lit "Received SIGUSR2\n"; format (lit "My PID is %d\n") [AInt pid];
   error_line "sigaction for SIGUSR1 failed"; error_line "sigaction for SIGUSR2 failed"].

Definition sa_catches (x : sa_pc) : gset Z :=
  match x with SaUsr1 => ∅ | SaUsr2 => {[SIGUSR1]} | _ => {[SIGUSR1; SIGUSR2]} end.

Record sa_inv (sent : Z → bool) (pid : Z) (p : proc sa_pc) : Prop := {
  sa_caught : caught p = sa_catches (at_ p);
  sa_mask : mask p = ∅;
  sa_timer : timer p = None;
  sa_pend sig : sig ∈ pend p → sent sig = true;
  sa_screen : Forall (.∈ sa_lines pid) (screen p);
  sa_over f : over p = Some f →
    match f with
    | Killed sig => sent sig = true ∧ sig ∉ caught p
    | Exited _ => at_ p = SaUsr1 ∨ at_ p = SaUsr2
    end }.

Lemma said (P : bytes → Prop) line l : Forall P l → P line → Forall P (l ++ [line]).
Proof. intros. apply Forall_app. auto. Qed.

Ltac in_lines := unfold sa_lines; rewrite !elem_of_cons; tauto.

Lemma sa_inv_step sent pid p :
  reachable (H := signalled (sigaction_main pid) sig_usr sent) (start SaUsr1) p →
  sa_inv sent pid p.
Proof.
  apply signal_inv.
  - split; done.
  - intros ok [x m g c t z o f] p' [Hc Hm Ht Hp Hs Ho] Hov Hf. unfold sigaction_main, fails in Hf.
    simpl in *. subst. destruct x; simpl in *; [destruct ok..| |]; simplify_eq; split; simpl; try done.
    all: try (apply said; [done|in_lines]).
    all: intros f' [= <-]; auto.
  - intros sig [x m g c t z o f] p' [Hc Hm Ht Hp Hs Ho] Hov Hg Hn Hca Hf. simpl in *.
    assert (sig = SIGUSR1 ∨ sig = SIGUSR2) as [-> | ->] by (subst c; destruct x; set_solver).
    all: unfold sig_usr in Hf; simpl in Hf; simplify_eq; split; simpl; try done; try set_solver.
    all: apply said; [done|in_lines].
  - intros sig [x m g c t z o f] [Hc Hm Ht Hp Hs Ho] Hov Hg Hn Hca. simpl in *. unfold by_default.
    destruct (sig =? SIGCHLD); split; simpl; try done; try set_solver.
  - intros sig [x m g c t z o f] [Hc Hm Ht Hp Hs Ho] Hov Hse. split; simpl in *; try done.
    intros sig' [->%elem_of_singleton|]%elem_of_union; auto.
  - intros x q [Hc Hm Ht Hp Hs Ho] _ Ht'. by rewrite Ht in Ht'.
Qed.

(** Once [main] is past its calls of [sigaction], neither [SIGUSR1] nor [SIGUSR2] ends
    the process, only another signal does; and the handler's last branch is dead. *)
Lemma sigaction_ends sent pid p :
  reachable (H := signalled (sigaction_main pid) sig_usr sent) (start SaUsr1) p →
  (∀ f, over p = Some f → at_ p = SaPrint ∨ at_ p = SaSleep →
    ∃ sig, f = Killed sig ∧ sent sig = true ∧ sig ≠ SIGUSR1 ∧ sig ≠ SIGUSR2) ∧
  ∀ sig, format (lit "Received signal %d\n") [AInt sig] ∉ screen p.
Proof.
  intros [Hc _ _ _ Hs Ho]%sa_inv_step. split.
  - intros f Hf Hat. specialize (Ho f Hf). destruct f as [z|sig].
    + destruct Hat as [Hat|Hat], Ho as [Ho|Ho]; congruence.
    + destruct Ho as [Hse Hn]. exists sig. rewrite Hc in Hn. split_and!; try done.
      all: intros ->; apply Hn; destruct Hat as [-> | ->]; set_solver.
  - intros sig Hin. rewrite Forall_forall in Hs. apply Hs in Hin. clear -Hin. unfold sa_lines in Hin.
    rewrite !elem_of_cons, elem_of_nil in Hin.
    destruct Hin as [H|[H|[H|[H|[H|[]]]]]]; vm_compute in H; discriminate H.
Qed.

(** ** [signal_handler.c]: the handler runs before [kill] returns *)

Definition sh_actors (p : proc sh_pc) : list actor :=
  [Flow true; Flow false; Tick] ++ (Deliver <$> elements (pend p)).

Definition sh_lines : list bytes :=
  [lit "do something!\n"; lit "receive signal\n"; lit "numDone = 1\n"].

(** It takes at most seven moves, none of which is undefined, and prints these lines. *)
Lemma signal_handler_prints :
  completes (H := signalled signal_handler_main reapChildren no_signals) (λ _, True) 7
    (λ p, over p = Some (Exited 0) ∧ screen p = sh_lines) (start ShSignal).
Proof.
  apply (explore_completes (H := signalled signal_handler_main reapChildren no_signals)
    (λ _, True) sh_actors (λ p, over p = Some (Exited 0) ∧ screen p = sh_lines)); [|done|by vm_compute].
  intros t p _. destruct t as [[]| |sig|sig].
  - left. by left.
  - left. right. by left.
  - left. right. right. by left.
  - right. unfold move, signalled. by destruct (over p).
  - destruct (decide (sig ∈ pend p)) as [Hin|Hout].
    + left. unfold sh_actors. apply elem_of_app. right. apply list_elem_of_fmap.
      exists sig. split; [done|]. by apply elem_of_elements.
    + right. unfold move, signalled, deliver. destruct (over p); [done|].
      by rewrite decide_False by tauto.
Qed.

(** ** The timers *)

(** The process counts until the timer ends it: the lines that it has printed are
    those of the numbers below [counter]; as long as it lives, the timer is armed or
    its signal is pending. *)
Record counting (line : Z → bytes) (p : proc timer_pc) : Prop := {
  co_mask : mask p = ∅;
  co_caught : caught p = ∅;
  co_arm : at_ p ≠ TLoop → timer p = None ∧ counter p = 0 ∧ (over p = None → screen p = []);
  co_count : 0 ≤ counter p;
  co_pend sig : sig ∈ pend p → sig = SIGALRM;
  co_loop : at_ p = TLoop → screen p = line <$> seqZ 0 (counter p);
  co_over f : over p = Some f → at_ p = TLoop → f = Killed SIGALRM;
  co_alive : at_ p = TLoop → over p = None → timer p = Some false ∨ SIGALRM ∈ pend p }.

Lemma counting_signals line sig p :
  counting line p → over p = None → sig ∈ pend p →
  counting line (by_default sig (set_pend (pend p ∖ {[sig]}) p)).
Proof.
  intros [Hm Hc Ha H0 Hp Hs Ho Hl] Hov Hin. pose proof (Hp _ Hin) as ->. simpl.
  split; simpl; try done; try set_solver.
Qed.

Lemma counting_tick line x p :
  counting line p → timer p = Some x →
  counting line (send SIGALRM (set_timer (if x then Some true else None) p)).
Proof.
  intros [Hm Hc Ha H0 Hp Hs Ho Hl] Ht. split; simpl; try done; set_solver.
Qed.

(** When the timer runs out the process ends, and has printed what it had. *)
Lemma counting_stops flow line p :
  counting line p → at_ p = TLoop → over p = None →
  ∃ ts p', run (H := signalled flow no_handler no_signals) ts p = Moved p' ∧
    over p' = Some (Killed SIGALRM) ∧ screen p' = line <$> seqZ 0 (counter p).
Proof.
  intros [Hm Hc Ha H0 Hp Hs Ho Hl] Hat Hov.
  assert (∀ q, mask q = ∅ → caught q = ∅ → over q = None → SIGALRM ∈ pend q →
    move (System := signalled flow no_handler no_signals) (Deliver SIGALRM) q =
    Moved (finish (Killed SIGALRM) (set_pend (pend q ∖ {[SIGALRM]}) q))) as Hdel.
  { intros q Hqm Hqc Hqo Hq. unfold move, signalled. rewrite Hqo. unfold deliver.
    rewrite decide_True by (rewrite Hqm; set_solver). simpl.
    by rewrite decide_False by (rewrite Hqc; set_solver). }
  destruct (Hl Hat Hov) as [Ht|Hin].
  - exists [Tick; Deliver SIGALRM]. eexists. split.
    + assert (move (System := signalled flow no_handler no_signals) Tick p =
        Moved (send SIGALRM (set_timer None p))) as Htick.
      { unfold move, signalled. by rewrite Hov, Ht. }
      simpl. rewrite Htick. simpl. rewrite Hdel by (try done; set_solver). reflexivity.
    + simpl. auto.
  - exists [Deliver SIGALRM]. eexists. split.
    + simpl. rewrite Hdel by done. reflexivity.
    + simpl. auto.
Qed.

(** What the loop adds to the screen. *)
Lemma counting_line line p :
  counting line p → at_ p = TLoop → over p = None →
  counting line (set_counter (counter p + 1) (print (line (counter p)) p)).
Proof.
  intros [Hm Hc Ha H0 Hp Hs Ho Hl] Hat Hov. split; simpl; try done; try lia.
  - rewrite Hs by done. rewrite seqZ_next, fmap_app by done. done.
Qed.

Lemma counting_start line : counting line (start TArm).
Proof. split; try done; simpl; intros ?%elem_of_empty; done. Qed.

Lemma counting_armed line p :
  counting line p → at_ p ≠ TLoop → over p = None →
  counting line (goto TLoop (set_timer (Some false) p)).
Proof.
  intros [Hm Hc Ha H0 Hp Hs Ho Hl] Hat Hov. destruct (Ha Hat) as (Ht & Hz & Hscr).
  split; simpl; try done; [by rewrite Hscr, Hz|by rewrite Hov|by left].
Qed.

Lemma counting_inv flow line p :
  (∀ ok q q', counting line q → over q = None → flow ok q = Moved q' → counting line q') →
  reachable (H := signalled flow no_handler no_signals) (start TArm) p → counting line p.
Proof.
  intros Hflow. apply signal_inv; [apply counting_start|done|done|..|done|].
  - intros sig q Hq Hov Hin _ _. by apply counting_signals.
  - intros x q Hq _. by apply counting_tick.
Qed.

(** [setitimer_test.c] and [alarm_test.c] print numbers in order, from 0 and from 1,
    until the timer ends them. *)
Lemma setitimer_test_counts p :
  reachable (H := signalled setitimer_test_main no_handler no_signals) (start TArm) p →
  counting (λ i, format (lit "%d\n") [AInt i]) p.
Proof.
  apply counting_inv. intros ok q q' Hq Hov Hf. unfold setitimer_test_main, my_alarm, fails in Hf.
  destruct (at_ q) eqn:Hat; [destruct ok..|].
  1, 3: simplify_eq/=; apply counting_armed; [done|by rewrite Hat|done].
  1, 2: simplify_eq/=; destruct Hq as [Hm Hc Ha H0 Hp Hs Ho Hl]; split; simpl; try done;
    rewrite ?Hat in *; try done; intros _; destruct Ha as (? & ? & ?); done.
  destruct (int_ok _); simplify_eq. by apply counting_line.
Qed.

Lemma alarm_test_counts p :
  reachable (H := signalled alarm_test_main no_handler no_signals) (start TArm) p →
  counting (λ i, processing_line (i + 1)) p.
Proof.
  apply counting_inv. intros ok q q' Hq Hov Hf. unfold alarm_test_main in Hf.
  destruct (at_ q) eqn:Hat.
  1, 2: simplify_eq/=; apply counting_armed; [done|by rewrite Hat|done].
  case_bool_decide; simplify_eq. by apply (counting_line (λ i, processing_line (i + 1))).
Qed.

(** [setitimer_test2.c] installs its handler before it arms the timer: [SIGALRM] never
    ends it, and every time that it is delivered a line is printed. *)
Record catching (p : proc timer_pc) : Prop := {
  ca_mask : mask p = ∅;
  ca_caught : caught p = if bool_decide (at_ p = TSignal) then ∅ else {[SIGALRM]};
  ca_timer : timer p = match at_ p with TLoop => Some true | _ => None end;
  ca_pend sig : sig ∈ pend p → sig = SIGALRM ∧ at_ p = TLoop;
  ca_over f : over p = Some f → f = Exited 1 ∧ at_ p = TArm }.

Lemma setitimer_test2_catches p :
  reachable (H := signalled setitimer_test2_main process_func no_signals) (start TSignal) p →
  catching p.
Proof.
  apply signal_inv; [split; done|..|done|].
  - intros ok [x m g c t z o f] p' [Hm Hc Ht Hp Ho] Hov Hf. simpl in *. subst.
    unfold setitimer_test2_main, my_alarm, fails in Hf. destruct x; simpl in Hf; [|destruct ok|]; simplify_eq.
    + split; simpl; try done; set_solver.
    + split; simpl; try done; set_solver.
    + split; simpl; try done. by intros f [= <-].
    + by split.
  - intros sig [x m g c t z o f] p' [Hm Hc Ht Hp Ho] Hov Hin _ Hca Hh. simpl in *.
    unfold process_func in Hh. simplify_eq. split; simpl; try done. set_solver.
  - intros sig [x m g c t z o f] [Hm Hc Ht Hp Ho] Hov Hin _ Hn. simpl in *.
    destruct (Hp _ Hin) as [-> ->]. by destruct Hn; rewrite Hc; set_solver.
  - intros a [x m g c t z o f] [Hm Hc Ht Hp Ho] Hov Hti. simpl in *.
    destruct x; simplify_eq. split; simpl; try done; try set_solver.
Qed.

(** A period of the timer: the line is printed, and all is as before. *)
Lemma setitimer_test2_line p :
  catching p → at_ p = TLoop → over p = None → pend p = ∅ →
  run (H := signalled setitimer_test2_main process_func no_signals) [Tick; Deliver SIGALRM] p =
  Moved (print (lit "I catch a signal. ha ha ha...\n") p).
Proof.
  intros [Hm Hc Ht Hp Ho] Hat Hov Hg. destruct p as [x m g c t z o f]. simpl in *. subst.
  reflexivity.
Qed.

(** ** [fork_sigprocmask.c]: the child never handles [SIGINT] *)

Section fork_sigprocmask_proofs.
Context (oldmask : gset Z) (sent : Z → bool).

#[local] Existing Instance two_processes.

(** [SIGINT] is blocked, and has not been delivered since. *)
Record blocking (p : proc fork_pc) : Prop := {
  bl_mask : SIGINT ∈ mask p;
  bl_screen : lit "Received SIGINT in child\n" ∉ screen p;
  bl_over : over p ≠ Some (Killed SIGINT) }.

Definition protected (x : fork_pc) : bool :=
  match x with FBlock | FReturn => false | _ => true end.
Definition childs (x : fork_pc) : bool :=
  match x with FSigaction | FSpin => true | _ => false end.

Record fork_inv (s : family) : Prop := {
  fi_caught : caught (par s) = ∅;
  fi_parent : childs (at_ (par s)) = false;
  fi_screen : lit "Received SIGINT in child\n" ∉ screen (par s);
  fi_blocking : protected (at_ (par s)) = true → blocking (par s);
  fi_child q : kid s = Some q →
    childs (at_ q) = true ∧ blocking q ∧ ∀ sig, sig ∈ caught q → sig = SIGINT }.

#[local] Abbreviation one_move := (move (System := signalled (fork_main oldmask) handle_sigint sent)).

(** A move other than one of the flow keeps the place and, when it prints, it is the
    handler that does. *)
Lemma signal_move a p p' :
  one_move a p = Moved p' →
  over p = None ∧
  ((∃ ok, a = Flow ok ∧ fork_main oldmask ok p = Moved p') ∨
   (forks a p = false ∧ at_ p' = at_ p ∧ mask p' = mask p ∧ caught p' = caught p ∧
    (screen p' = screen p ∨ ¬ (caught p ⊆ mask p)) ∧
    (over p' = None ∨ ∃ sig, (sig ∉ mask p) ∧ over p' = Some (Killed sig)))).
Proof.
  unfold move, signalled. destruct (over p) eqn:Hov; [done|]. intros Hm. split; [done|].
  destruct a as [ok| |sig|sig]; [left; by exists ok|right..].
  - destruct (timer p) as [x|]; simplify_eq. unfold forks. split_and!; auto.
  - destruct (sent sig); simplify_eq. unfold forks. split_and!; auto.
  - unfold deliver in Hm. case_decide as Hd; [|done]. destruct Hd as [Hin Hmask]. unfold forks.
    case_decide as Hc.
    + unfold handle_sigint in Hm. simplify_eq/=. split_and!; auto.
    + simplify_eq. unfold by_default. destruct (sig =? SIGCHLD); split_and!; simpl; eauto.
Qed.

(** The process goes on with [SIGINT] blocked, unless it restores the old mask. *)
Lemma blocking_move a p p' :
  blocking p → (∀ sig, sig ∈ caught p → sig = SIGINT) → at_ p ≠ FRestore →
  one_move a p = Moved p' → blocking p' ∧ (∀ sig, sig ∈ caught p' → sig = SIGINT).
Proof.
  intros [Hm Hs Ho] Hc Hat Hmv. apply signal_move in Hmv as [Hov [(ok & -> & Hf)|(_ & Hat' & Hm' & Hc' & Hs' & Ho')]].
  - unfold fork_main, fails in Hf. destruct (at_ p); try (by destruct Hat); try destruct ok; simplify_eq/=.
    all: split; [split; simpl; try set_solver|]; try done.
    all: try (intros [Hin|Hin%list_elem_of_singleton]%elem_of_app; [done|by vm_compute in Hin]).
    all: try (by rewrite Hov). set_solver.
  - rewrite Hc'. split; [|done]. split.
    + by rewrite Hm'.
    + destruct Hs' as [-> |Hne]; [done|]. destruct Hne. set_solver.
    + destruct Ho' as [-> |(sig & Hn & ->)]; [done|]. intros [= ->]. done.
Qed.

(** The flow stays in the parent's part, or in the child's. *)
Lemma same_part a p p' : one_move a p = Moved p' → childs (at_ p') = childs (at_ p).
Proof.
  intros [_ [(ok & -> & Hf)|(_ & -> & _)]]%signal_move; [|done].
  unfold fork_main, fails in Hf. destruct (at_ p) eqn:Hat; destruct ok; simplify_eq/=; by rewrite ?Hat.
Qed.

Lemma parent_move a p p' :
  caught p = ∅ → childs (at_ p) = false → lit "Received SIGINT in child\n" ∉ screen p →
  one_move a p = Moved p' → caught p' = ∅ ∧ lit "Received SIGINT in child\n" ∉ screen p'.
Proof.
  intros Hc Hat Hs [_ [(ok & -> & Hf)|(_ & _ & _ & Hc' & Hs' & _)]]%signal_move.
  - unfold fork_main, fails in Hf. destruct (at_ p); try done; destruct ok; simplify_eq/=; split; try done.
    all: intros [Hin|Hin%list_elem_of_singleton]%elem_of_app; [done|by vm_compute in Hin].
  - rewrite Hc'. split; [done|]. destruct Hs' as [-> |Hne]; [done|]. destruct Hne. rewrite Hc. set_solver.
Qed.

(** Where the mask is set, [SIGINT] is blocked from then on. *)
Lemma enters a p p' :
  caught p = ∅ → childs (at_ p) = false → lit "Received SIGINT in child\n" ∉ screen p →
  (protected (at_ p) = true → blocking p) →
  one_move a p = Moved p' → protected (at_ p') = true → blocking p'.
Proof.
  intros Hc Hat Hs Hb Hm Hp'. pose proof (parent_move _ _ _ Hc Hat Hs Hm) as [_ Hs'].
  destruct (decide (at_ p = FBlock)) as [Hx|Hx].
  - apply signal_move in Hm as [Hov [(ok & -> & Hf)|(_ & Hat' & _)]].
    + unfold fork_main, fails in Hf. rewrite Hx in Hf. destruct ok; simplify_eq/=.
      * split; simpl; [set_solver|done|by rewrite Hov].
      * by rewrite Hx in Hp'.
    + by rewrite Hat', Hx in Hp'.
  - destruct (decide (at_ p = FRestore)) as [Hr|Hr].
    + assert (blocking p) as [Hm1 Hs1 Ho1] by (apply Hb; by rewrite Hr).
      apply signal_move in Hm as [Hov [(ok & -> & Hf)|(_ & Hat' & Hm' & _ & _ & Ho')]].
      * unfold fork_main, fails in Hf. rewrite Hr in Hf. by destruct ok; simplify_eq/=.
      * split; [by rewrite Hm'|done|]. destruct Ho' as [-> |(sig & Hn & ->)]; [done|]. by intros [= ->].
    + assert (protected (at_ p) = true) as Hp.
      { destruct (at_ p) eqn:E; try done. apply signal_move in Hm as [_ [(ok & -> & Hf)|(_ & Hat' & _)]].
        - unfold fork_main in Hf. rewrite E in Hf. simplify_eq/=. by rewrite E in Hp'.
        - by rewrite Hat', E in Hp'. }
      apply (blocking_move a p p'); [by apply Hb| |done|done]. rewrite Hc. set_solver.
Qed.

Lemma fork_inv_reachable s :
  reachable (H := two_processes oldmask sent) (fork_init oldmask) s → fork_inv s.
Proof.
  apply reachable_inv.
  { split; try done. simpl. by intros ?%not_elem_of_nil. }
  intros t s1 s2 [Hc Hp Hs Hb Hk] Hm. unfold move, two_processes in Hm. destruct t as [a|a].
  - destruct (signalled _ _ _ a (par s1)) as [p| |] eqn:Hmv; simplify_eq/=.
    pose proof (parent_move _ _ _ Hc Hp Hs Hmv) as [Hc' Hs'].
    split; simpl; try done.
    + rewrite (same_part _ _ _ Hmv). done.
    + by apply (enters a (par s1)).
    + intros q. destruct (forks a (par s1)) eqn:Hf; [|apply Hk]. intros [= <-].
      unfold forks in Hf. destruct a as [[]| | |]; try done. destruct (over (par s1)) eqn:Hov; [done|].
      apply bool_decide_eq_true in Hf. rewrite Hf in Hb. destruct (Hb eq_refl) as [H1 H2 H3].
      split_and!; [done| |simpl; rewrite Hc; set_solver]. by split.
  - destruct (kid s1) as [q|]; [|done]. destruct (signalled _ _ _ a q) as [q'| |] eqn:Hmv; simplify_eq/=.
    split; try done. simpl. intros q'' [= <-]. destruct (Hk q eq_refl) as (H1 & H2 & H3).
    split; [by rewrite (same_part _ _ _ Hmv)|]. apply (blocking_move a q q'); try done.
    intros Hr. by rewrite Hr in H1.
Qed.

(** C17: the child inherits the mask that its parent has set, and only installs the
    handler: however often [SIGINT] is sent to it, it never prints its line, and
    [SIGINT] never ends it either. The parent is not ended by [SIGINT] between its
    two calls of [sigprocmask]. *)
Theorem child_never_handles s :
  reachable (H := two_processes oldmask sent) (fork_init oldmask) s →
  (∀ q, kid s = Some q → SIGINT ∈ mask q ∧ (lit "Received SIGINT in child\n" ∉ screen q) ∧
     over q ≠ Some (Killed SIGINT)) ∧
  (protected (at_ (par s)) = true → over (par s) ≠ Some (Killed SIGINT)).
Proof.
  intros [_ _ _ Hb Hk]%fork_inv_reachable. split.
  - intros q Hq. by destruct (Hk q Hq) as (_ & [H1 H2 H3] & _).
  - intros Hp. by destruct (Hb Hp).
Qed.
End fork_sigprocmask_proofs.

(** An execution in which [SIGINT] is sent to the child. *)
Lemma child_never_handles_witness :
  ∃ s q, reachable (H := two_processes ∅ (λ _, true)) (fork_init ∅) s ∧ kid s = Some q ∧
    SIGINT ∈ pend q ∧ at_ q = FSpin ∧ lit "Received SIGINT in child\n" ∉ screen q.
Proof.
  set (m := run (H := two_processes ∅ (λ _, true))
    [Par (Flow true); Par (Flow true); Kid (Flow true); Kid (Kill SIGINT)] (fork_init ∅)).
  assert (match m with
          | Moved (mkFamily _ (Some q)) => bool_decide (SIGINT ∈ pend q ∧ at_ q = FSpin)
          | _ => false
          end = true) as Hm by (by vm_compute).
  destruct m as [[p [q|]]| |] eqn:Hr; try discriminate Hm.
  apply bool_decide_eq_true in Hm as [Hp Hat]. apply run_reachable in Hr.
  exists (mkFamily p (Some q)), q. do 4 (split; [done|]).
  by apply (child_never_handles ∅ (λ _, true) _ Hr).
Defined.
