(* ===== verification/ThreadDemos.v ===== *)
(** * Threads that print

    [04_thread/pthread.c], whose threads run side by side, and
    [03_process/multi-thread.cpp], which joins each before the next. A line is one
    call of [printf], or one line of [std::cout]. *)
From S2P Require Export Format Threads.

(** ** [pthread.c] *)

Definition NUM_THREADS : Z := 5.

Definition creating_line (t : Z) : bytes := b "In main: creating thread " ++ show_int t ++ [newline].
Definition hello_line (tid : Z) : bytes :=
  b "Hello World! It's me, thread #" ++ show_int tid ++ lit "!\n".
Definition error_line (rc : Z) : bytes :=
  format (lit "ERROR; return code from pthread_create() is %d\n") [AInt rc].

(** Where [main] is: at the test of its loop, at [pthread_create], behind a failure of it, and
    after its own [pthread_exit], or after [exit], which ends all threads. *)
Inductive mpc := MTest (t : Z) | MCreate (t : Z) | MError (rc : Z) | MGone | MExited.
#[global] Instance mpc_eq_dec : EqDecision mpc.
Proof. solve_decision. Defined.

(** A thread has its argument until it has printed its line; then it exits. *)
Inductive tpc := Hello (tid : Z) | Exiting (tid : Z) | Gone (tid : Z).
#[global] Instance tpc_eq_dec : EqDecision tpc.
Proof. solve_decision. Defined.

Record state := mkState { main_at : mpc; threads : list tpc; screen : list bytes }.

(** [Main rc] is a move of [main] in which [pthread_create] returns [rc]. *)
Inductive actor := Main (rc : Z) | Thread (k : nat).

Definition PrintHello (k : nat) (p : tpc) (s : state) : outcome state :=
  match p with
  | Hello tid => Moved (mkState (main_at s) (<[k := Exiting tid]> (threads s)) (screen s ++ [hello_line tid]))
  | Exiting tid => Moved (mkState (main_at s) (<[k := Gone tid]> (threads s)) (screen s))
  | Gone _ => Blocked
  end.

Definition main (rc : Z) (s : state) : outcome state :=
  match main_at s with
  | MTest t =>
    if t <? NUM_THREADS then Moved (mkState (MCreate t) (threads s) (screen s ++ [creating_line t]))
    else Moved (mkState MGone (threads s) (screen s))
  | MCreate t =>
    if rc =? 0 then Moved (mkState (MTest (t + 1)) (threads s ++ [Hello t]) (screen s))
    else Moved (mkState (MError rc) (threads s) (screen s ++ [error_line rc]))
  | MError _ => Moved (mkState MExited (threads s) (screen s))
  | MGone | MExited => Blocked
  end.

#[global] Instance printing : System actor state := λ a s,
  match main_at s with
  | MExited => Blocked
  | _ =>
    match a with
    | Main rc => main rc s
    | Thread k => match threads s !! k with None => Blocked | Some p => PrintHello k p s end
    end
  end.

Definition init : state := mkState (MTest 0) [] [].

(** ** Its invariant *)

(** The lines that the threads have printed. *)
Definition said (p : tpc) : list bytes :=
  match p with Hello _ => [] | Exiting tid | Gone tid => [hello_line tid] end.
Definition number (p : tpc) : Z := match p with Hello t | Exiting t | Gone t => t end.

(** The number of [creating] lines, and the other lines, of [main]. *)
Definition created (p : mpc) (n : Z) : Z * list bytes :=
  match p with
  | MTest t => (t, [])
  | MCreate t => (t + 1, [])
  | MError rc => (n + 1, [error_line rc])
  | MGone | MExited => (n, [])
  end.

(** While the program is not ended by [exit]: thread [k] has the number [k], and what has been printed is, in
    some order, a line of [main] for each thread, and what the threads have said. *)
Record inv (s : state) : Prop := {
  inv_numbers : number <$> threads s = seqZ 0 (zlen (threads s));
  inv_main : match main_at s with
    | MTest t => t = zlen (threads s) ∧ t ≤ NUM_THREADS
    | MCreate t => t = zlen (threads s) ∧ t < NUM_THREADS
    | MGone => zlen (threads s) = NUM_THREADS
    | _ => True
    end;
  inv_screen : match main_at s with
    | MExited => True
    | p => let (n, more) := created p (zlen (threads s)) in
           screen s ≡ₚ (creating_line <$> seqZ 0 n) ++ (threads s ≫= said) ++ more
    end }.

Lemma bind_insert (l : list tpc) (k : nat) p p' :
  l !! k = Some p → said p = [] → (<[k := p']> l ≫= said) ≡ₚ (l ≫= said) ++ said p'.
Proof.
  revert k. induction l as [|q l IH]; intros [|k] Hk Hp; simplify_eq/=.
  - rewrite Hp. simpl. by rewrite Permutation_app_comm.
  - rewrite (IH k) by done. by rewrite app_assoc.
Qed.
Lemma bind_insert_same (l : list tpc) (k : nat) p p' : l !! k = Some p → said p' = said p → <[k := p']> l ≫= said = l ≫= said.
Proof. revert k. induction l as [|q l IH]; intros [|k] Hk Hp; simplify_eq/=; [by rewrite Hp|by rewrite (IH k)]. Qed.
Lemma number_insert (l : list tpc) (k : nat) p p' : l !! k = Some p → number p' = number p → number <$> <[k := p']> l = number <$> l.
Proof.
  intros Hk Hp. rewrite list_fmap_insert. apply list_insert_id. by rewrite list_lookup_fmap, Hk, Hp.
Qed.
Lemma zlen_insert k p (l : list tpc) : zlen (<[k := p]> l) = zlen l.
Proof. unfold zlen. by rewrite length_insert. Qed.

Lemma inv_thread k p s s' :
  inv s → main_at s ≠ MExited → threads s !! k = Some p → PrintHello k p s = Moved s' → inv s'.
Proof.
  intros [Hn Hm Hs] Hne Hk Hp. destruct p as [tid|tid|tid]; simplify_eq/=.
  - split; simpl; rewrite ?zlen_insert; [by rewrite (number_insert _ _ _ _ Hk)|done|].
    destruct (main_at s) as [t|t|rc| |]; try done; cbn in *;
      rewrite (bind_insert _ _ _ (Exiting tid) Hk) by done; rewrite Hs; simpl; solve_Permutation.
  - split; simpl; rewrite ?zlen_insert; [by rewrite (number_insert _ _ _ _ Hk)|done|].
    destruct (main_at s) as [t|t|rc| |]; try done; cbn in *;
      by rewrite (bind_insert_same _ _ _ _ Hk).
Qed.

Lemma inv_main_move rc s s' : inv s → main rc s = Moved s' → inv s'.
Proof.
  intros [Hn Hm Hs] Hp. unfold main in Hp. destruct s as [p l o]. simpl in *.
  destruct p as [t|t|rc'| |]; simplify_eq/=.
  - destruct Hm as [-> Hle]. destruct (Z.ltb_spec (zlen l) NUM_THREADS); simplify_eq/=; split; simpl; try done.
    + rewrite seqZ_next, fmap_app by apply zlen_nonneg. rewrite Hs. simpl. solve_Permutation.
    + lia.
  - destruct Hm as [-> Hlt]. destruct (rc =? 0); simplify_eq/=; split; simpl; try done.
    + rewrite zlen_app, zlen_one, seqZ_next, fmap_app by apply zlen_nonneg. by rewrite Hn.
    + rewrite zlen_app, zlen_one. lia.
    + rewrite Hs, bind_app. simpl. by rewrite !app_nil_r.
    + rewrite Hs. solve_Permutation.
  - by split.
Qed.

Lemma printing_inv s : reachable init s → inv s.
Proof.
  apply reachable_inv; [split; cbn; [done|unfold NUM_THREADS; split; [done|lia]|done]|]. intros a s1 s2 Hi Hm. unfold move, printing in Hm.
  assert (main_at s1 ≠ MExited) as Hne by (intros E; by rewrite E in Hm).
  assert (match a with Main rc => main rc s1
    | Thread k => match threads s1 !! k with None => Blocked | Some p => PrintHello k p s1 end end = Moved s2) as Hm'
    by (by destruct (main_at s1)).
  destruct a as [rc|k]; [by eapply inv_main_move|].
  destruct (threads s1 !! k) as [p|] eqn:Hk; [|done]. by eapply inv_thread.
Qed.

(** When [main] and all threads have gone, each thread has said its line, once, in some
    order, and [main] has announced each. *)
Lemma threads_say_hello s :
  reachable init s → main_at s = MGone → (∀ p, p ∈ threads s → ∃ tid, p = Gone tid) →
  screen s ≡ₚ (creating_line <$> seqZ 0 NUM_THREADS) ++ (hello_line <$> seqZ 0 NUM_THREADS).
Proof.
  intros [Hn Hm Hs]%printing_inv Hmain Hgone. rewrite Hmain in *. cbn in Hs. rewrite Hm in *.
  rewrite Hs, app_nil_r, <- Hn. f_equiv. clear -Hgone.
  induction (threads s) as [|p l IH]; [done|]. destruct (Hgone p) as [tid ->]; [by left|].
  simpl. rewrite IH; [done|]. intros q Hq. apply Hgone. by right.
Qed.

(** ** [multi-thread.cpp] *)

(** Where [main] is: it creates thread [i], joins it, and prints, three times. *)
Inductive jpc := JCreate (i : nat) | JJoin (i : nat) | JPrint (i : nat) | JReturned.
#[global] Instance jpc_eq_dec : EqDecision jpc.
Proof. solve_decision. Defined.

(** What thread [i] prints, and what [main] prints after it. *)
Definition thread_line (i : nat) : bytes :=
  match i with
  | O => lit "hello world\n"
  | 1%nat => lit "hello world lambda\n"
  | _ => lit "transfer parameter\n"
  end.
Definition ended_line (i : nat) : bytes :=
  match i with O => lit "结束了1\n" | 1%nat => lit "结束了2\n" | _ => lit "结束了3\n" end.

(** The one thread that there is at a time, until it has printed. *)
Record jstate := mkJ { j_main : jpc; j_thread : option (nat * bool); j_screen : list bytes }.
#[global] Instance jstate_eq_dec : EqDecision jstate.
Proof. solve_decision. Defined.

(** [true] is a move of [main]. *)
Definition join_main (a : bool) (s : jstate) : outcome jstate :=
  if a then
    match j_main s with
    | JCreate i =>
      if (i <? 3)%nat then Moved (mkJ (JJoin i) (Some (i, false)) (j_screen s))
      else Moved (mkJ JReturned (j_thread s) (j_screen s))
    | JJoin i =>
      match j_thread s with
      | Some (_, true) => Moved (mkJ (JPrint i) None (j_screen s))
      | _ => Blocked
      end
    | JPrint i => Moved (mkJ (JCreate (S i)) (j_thread s) (j_screen s ++ [ended_line i]))
    | JReturned => Blocked
    end
  else
    match j_thread s with
    | Some (i, false) => Moved (mkJ (j_main s) (Some (i, true)) (j_screen s ++ [thread_line i]))
    | _ => Blocked
    end.
#[global] Instance joining : System bool jstate := join_main.

Definition joined_lines : list bytes :=
  [thread_line 0; ended_line 0; thread_line 1; ended_line 1; thread_line 2; ended_line 2].

(** Every execution ends after at most 13 moves, with the lines in this one order. *)
Lemma joined_threads_in_order :
  completes (λ _, True) 13 (λ s, j_main s = JReturned ∧ j_screen s = joined_lines)
    (mkJ (JCreate 0) None []).
Proof.
  apply (explore_completes (λ _, True) (λ _, [true; false])
    (λ s, j_main s = JReturned ∧ j_screen s = joined_lines)); [|done|by vm_compute].
  intros [] s _; left; [by left|by right; left].
Qed.
