(* ===== verification/PipeForkExec.v ===== *)
(** * [05_ipc/pipe/pipe_fork_exec.c]: collecting the output of a command

    The command is another program: [Some (ws, z)] says what it writes, in order
    ([true] for its standard error), and its exit status; [None] that [execlp]
    fails. *)
From S2P Require Export Process.

Definition command : Type := option (list (bool * bytes) * Z).

(** [execlp], which does not return when it succeeds. *)
Definition write_call (w : bool * bytes) : call := Write (if w.1 then 2 else 1) w.2.
Fixpoint steps (cs : list call) (m : prog Z) : prog Z :=
  match cs with [] => m | c :: cs => ask c;; steps cs m end.
Definition execlp (cmd : command) : prog unit :=
  match cmd with
  | None => mret tt
  | Some (ws, z) => steps (write_call <$> ws) (Exit z);; mret tt
  end.

(** [while ((count = read(fd, buffer, sizeof(buffer) - 1)) > 0)] *)
Fixpoint read_all (fuel : nat) (fd out : Z) (fmt : string) : prog unit :=
  match fuel with
  | O => Wrong BadType
  | S fuel =>
    count ← ask (Read fd 127);
    if r_ret count <=? 0 then mret tt
    else
      let buffer := fill (new_buffer 128) (r_data count) in
      buffer ← pure (put buffer (r_ret count) "000"%char);
      s ← pure (c_str buffer);
      ask (Write out (format (lit fmt) [AStr s]));;
      read_all fuel fd out fmt
  end.

Definition child (cmd : command) (stdout_pipe stderr_pipe : Z * Z) : prog Z :=
  close stdout_pipe.1;;
  dup2 stdout_pipe.2 1;;
  close stdout_pipe.2;;
  close stderr_pipe.1;;
  dup2 stderr_pipe.2 2;;
  close stderr_pipe.2;;
  execlp cmd;;
  perror "execlp";;
  Exit 1.

Definition parent (fuel : nat) (pid : Z) (stdout_pipe stderr_pipe : Z * Z) : prog Z :=
  close stdout_pipe.2;;
  close stderr_pipe.2;;
  read_all fuel stdout_pipe.1 1 "Standard Output: %s";;
  read_all fuel stderr_pipe.1 2 "Standard Error: %s";;
  close stdout_pipe.1;;
  close stderr_pipe.1;;
  r ← ask (Waitpid pid);
  let status := (r_aux r).1 in
  (if WIFEXITED status then
     printf "Child process exited with status %d\n" [AInt (WEXITSTATUS status)]
   else
     printf "Child process did not exit successfully\n" []);;
  mret 0.

Definition main (fuel : nat) (cmd : command) : prog Z :=
  r ← ask Pipe;
  if r_ret r =? -1 then
    perror "pipe";;
    Exit 1
  else
  let stdout_pipe := r_aux r in
  r ← ask Pipe;
  if r_ret r =? -1 then
    perror "pipe";;
    Exit 1
  else
  let stderr_pipe := r_aux r in
  pid ← ask Fork;
  if r_ret pid =? -1 then
    perror "fork";;
    Exit 1
  else if r_ret pid =? 0 then child cmd stdout_pipe stderr_pipe
  else parent fuel (r_ret pid) stdout_pipe stderr_pipe.

(** ** What it prints *)

(** What a command writes; when [execlp] fails, the message of [perror]. *)
Definition writes (cmd : command) : list (bool * bytes) :=
  match cmd with Some (ws, _) => ws | None => [(true, b "execlp")] end.
Definition exit_of (cmd : command) : Z := match cmd with Some (_, z) => z | None => 1 end.
Definition written (err : bool) (ws : list (bool * bytes)) : bytes :=
  ws ≫= λ w, if Bool.eqb w.1 err then w.2 else [].

Arguments written : simpl never.

Lemma written_cons err w ws :
  written err (w :: ws) = (if Bool.eqb w.1 err then w.2 else []) ++ written err ws.
Proof. done. Qed.

Definition out_line (d : bytes) : bytes := format (lit "Standard Output: %s") [AStr (upto_nul d)].
Definition err_line (d : bytes) : bytes := format (lit "Standard Error: %s") [AStr (upto_nul d)].
Definition exit_line (z : Z) : bytes :=
  format (lit "Child process exited with status %d\n") [AInt (z mod 256)].

(** The output of the command is printed in pieces, then its errors, then its
    status. *)
Definition collected (cmd : command) (s : sys) : Prop :=
  over 0 s ∧ ∃ outs errs,
    concat outs = written false (writes cmd) ∧ concat errs = written true (writes cmd) ∧
    screen s = (out_line <$> outs) ++ (err_line <$> errs) ++ [exit_line (exit_of cmd)].

(** ** Every execution collects the output, when the errors fit in a pipe *)

(** What the kernel writes at once. *)
Definition PIPE_BUF : Z := 4096.

Lemma steps_exit cs z (f : Z → prog Z) : steps cs (Exit z) ≫= f = steps cs (Exit z).
Proof. induction cs as [|c cs IH]; [done|]. simpl. unfold mbind in *. simpl. by rewrite IH. Qed.

Lemma steps_exit' {A} cs z (f : Z → prog A) (g : A → prog Z) :
  (steps cs (Exit z) ≫= f) ≫= g = steps cs (Exit z).
Proof. induction cs as [|c cs IH]; [done|]. simpl. unfold mbind in *. simpl. by rewrite IH. Qed.

Section general.
Context (fuel : nat) (cmd : command).
Abbreviation W := (writes cmd).
Abbreviation main := (main fuel cmd).

(** *** Where the two processes are *)

Definition all_fds : gmap Z handle :=
  <[6 := WriteEnd 1]> (<[5 := ReadEnd 1]> (<[4 := WriteEnd 0]> (<[3 := ReadEnd 0]> terminal))).

Definition setup : list call := [Close 3; Dup2 4 1; Close 4; Close 5; Dup2 6 2; Close 6].
Definition after_call (c : call) (fds : gmap Z handle) : gmap Z handle :=
  match c with
  | Close fd => delete fd fds
  | Dup2 x y => match fds !! x with Some h => <[y := h]> fds | None => fds end
  | _ => fds
  end.
Definition child_fds (k : nat) : gmap Z handle := foldl (flip after_call) all_fds (take k setup).

(** [ws] is what the child has still to write. *)
Inductive child_at (ws : list (bool * bytes)) : proc → nat → Prop :=
| child_setup k past :
    (k < 6)%nat → ws = W →
    resume main past = steps (drop k setup ++ (write_call <$> W)) (Exit (exit_of cmd)) →
    child_at ws (mkProc 1 Running (child_fds k) false past) (7 - k + length ws)
| child_writes past :
    resume main past = steps (write_call <$> ws) (Exit (exit_of cmd)) →
    child_at ws (mkProc 1 Running (child_fds 6) false past) (1 + length ws)
| child_ended st :
    ws = [] → st = Zombie (exited (exit_of cmd)) ∨ st = Reaped → child_at ws (mkProc 1 st ∅ false []) 0.

Inductive phase :=
| Starting (k : nat) | Out (f : nat) | OutLine (f : nat) (d : bytes)
| Err (f : nat) | ErrLine (f : nat) (d : bytes) | Ending (k : nat).

Definition ending_calls (k : nat) : prog Z :=
  match k with
  | 0%nat => close 3;; close 5;; r ← ask (Waitpid 2); let status := (r_aux r).1 in
    (if WIFEXITED status then
       printf "Child process exited with status %d\n" [AInt (WEXITSTATUS status)]
     else printf "Child process did not exit successfully\n" []);; mret 0
  | 1%nat => close 5;; r ← ask (Waitpid 2); let status := (r_aux r).1 in
    (if WIFEXITED status then
       printf "Child process exited with status %d\n" [AInt (WEXITSTATUS status)]
     else printf "Child process did not exit successfully\n" []);; mret 0
  | 2%nat => r ← ask (Waitpid 2); let status := (r_aux r).1 in
    (if WIFEXITED status then
       printf "Child process exited with status %d\n" [AInt (WEXITSTATUS status)]
     else printf "Child process did not exit successfully\n" []);; mret 0
  | 3%nat => ask (Write 1 (exit_line (exit_of cmd)));; mret 0
  | _ => mret 0
  end.
Definition errs (f : nat) : prog Z := read_all f 5 2 "Standard Error: %s";; ending_calls 0.
Definition outs (f : nat) : prog Z := read_all f 3 1 "Standard Output: %s";; errs fuel.

Definition program (ph : phase) : prog Z :=
  match ph with
  | Starting 0 => close 4;; close 6;; outs fuel
  | Starting _ => close 6;; outs fuel
  | Out f => outs f
  | OutLine f d => ask (Write 1 (out_line d));; outs f
  | Err f => errs f
  | ErrLine f d => ask (Write 2 (err_line d));; errs f
  | Ending k => ending_calls k
  end.

Definition parent_fds (ph : phase) : gmap Z handle :=
  let two := delete 6 (delete 4 all_fds) in
  match ph with
  | Starting 0 => all_fds
  | Starting _ => delete 4 all_fds
  | Ending 1 => delete 3 two
  | Ending (S (S _)) => delete 5 (delete 3 two)
  | _ => two
  end.

(** *** The invariant: what is where, and how many calls are left *)

Definition reading (ph : phase) (err : bool) : bytes :=
  match ph with
  | OutLine _ d => if err then [] else d
  | ErrLine _ d => if err then d else []
  | _ => []
  end.

Definition fits (ph : phase) (ws : list (bool * bytes)) (o e : bytes) (gotE : list bytes) (p : proc) : Prop :=
  let zombie := p_status p = Zombie (exited (exit_of cmd)) in
  match ph with
  | Starting k => gotE = [] ∧ p_status p ≠ Reaped ∧ (k < 2)%nat
  | Out f | OutLine f _ => gotE = [] ∧ p_status p ≠ Reaped ∧ (length o + length (written false ws) < f)%nat
  | Err f | ErrLine f _ => ws = [] ∧ o = [] ∧ zombie ∧ (length e < f)%nat
  | Ending k => ws = [] ∧ o = [] ∧ e = [] ∧ (k < 5)%nat ∧
      if decide (k < 3)%nat then zombie else p_status p = Reaped
  end.

Definition lines (ph : phase) (gotO gotE : list bytes) : list bytes :=
  (out_line <$> gotO) ++ (err_line <$> gotE) ++
  match ph with Ending 4 => [exit_line (exit_of cmd)] | _ => [] end.

Definition parent_left (ph : phase) (ws : list (bool * bytes)) (o e : bytes) : nat :=
  let os := (2 * (length o + length (written false ws)))%nat in
  let es := (2 * (length e + length (written true ws)) + 6)%nat in
  match ph with
  | Starting k => 2 - k + os + 1 + es
  | Out _ => os + 1 + es
  | OutLine _ _ => os + 2 + es
  | Err _ => es
  | ErrLine _ _ => es + 1
  | Ending k => 5 - k
  end.

(** Before the [fork], only [main] runs. *)
Definition early (k : nat) : sys :=
  match execution main (replicate k (0%nat, true)) with Moved s => s | _ => boot end.

Inductive inv : sys → nat → Prop :=
| inv_intro ph ws o e gotO gotE past p n :
    resume main past = program ph → child_at ws p n →
    concat gotO ++ reading ph false ++ o ++ written false ws = written false W →
    concat gotE ++ reading ph true ++ e ++ written true ws = written true W →
    Forall (λ w, zlen w.2 ≤ PIPE_BUF) ws →
    fits ph ws o e gotE p →
    inv (mkSys [mkProc 0 Running (parent_fds ph) false past; p] [o; e] (lines ph gotO gotE))
      (parent_left ph ws o e + n)
| inv_early k :
    (k < 3)%nat → inv (early k) (3 - k + (parent_left (Starting 0) W [] [] + (7 + length W)))
| inv_over s : collected cmd s → (∀ t, process_move main t s = Blocked) → inv s 0.

Lemma child_program :
  child cmd (3, 4) (5, 6) = steps (setup ++ (write_call <$> W)) (Exit (exit_of cmd)).
Proof. destruct cmd as [[ws z]|]; [|done]. unfold child, execlp. cbn. by rewrite steps_exit'. Qed.

Lemma parent_program : parent fuel 2 (3, 4) (5, 6) = program (Starting 0).
Proof. done. Qed.

(** *** The moves of the parent *)

Lemma move_ask m i s p c k :
  procs s !! i = Some p → p_status p = Running → resume m (p_past p) = Ask c k →
  process_move m (i, true) s = serve true i p c s.
Proof using Type. intros Hp Hst Hr. unfold process_move. simpl. by rewrite Hp, Hst, Hr. Qed.

Lemma move_end m i s p z :
  procs s !! i = Some p → p_status p = Running → resume m (p_past p) = Ret z ∨ resume m (p_past p) = Exit z →
  process_move m (i, true) s = Moved (finish i p (exited z) s).
Proof using Type. intros Hp Hst Hr. unfold process_move. simpl. rewrite Hp, Hst. by destruct Hr as [->| ->]. Qed.

(** The program of the parent after the reply [r]. *)
Lemma resume_next m past r c k m' :
  resume m past = Ask c k → k r = m' → resume m (past ++ [r]) = m'.
Proof using Type. intros Hr <-. by rewrite resume_snoc, Hr. Qed.

Definition goes (n : nat) (x : outcome sys) : Prop :=
  ∃ s' n', x = Moved s' ∧ inv s' n' ∧ (n' < n)%nat.

(** What the child holds open. *)
Lemma child_holds ws p n q :
  child_at ws p n → p_status p = Running → (q < 2)%nat → holds (WriteEnd q) p = true.
Proof using Type.
  intros [k past Hk _ _|past _|st _ Hst] Hrun Hq; [| |simpl in Hrun; destruct Hst; congruence].
  - unfold holds. simpl p_fds. do 6 (destruct k as [|k]; [by destruct q as [|[|q]]; [..|lia]; vm_compute|]). lia.
  - unfold holds. simpl p_fds. by destruct q as [|[|q]]; [..|lia]; vm_compute.
Qed.

Lemma read_data i p fd q d n s :
  p_fds p !! fd = Some (ReadEnd q) → pipes s !! q = Some d → d ≠ [] →
  serve true i p (Read fd n) s =
    Moved (reply_to i p (mkReply (zlen (take (Z.to_nat n) d)) (0, 0) (take (Z.to_nat n) d) false)
      (with_pipe q (drop (Z.to_nat n) d) s)).
Proof using Type. intros Hfd Hq Hd. unfold serve. rewrite Hfd, Hq. by destruct d. Qed.

Lemma read_empty i p fd q n s :
  p_fds p !! fd = Some (ReadEnd q) → pipes s !! q = Some [] →
  serve true i p (Read fd n) s =
    if is_open (WriteEnd q) s then Blocked else Moved (reply_to i p (returns 0) s).
Proof using Type. intros Hfd Hq. unfold serve. by rewrite Hfd, Hq. Qed.

Lemma read_all_line m past f fd out fmt (rest : prog Z) d :
  resume m past = (read_all (S f) fd out fmt;; rest) → d ≠ [] → zlen d ≤ 127 →
  resume m (past ++ [mkReply (zlen d) (0, 0) d false]) =
    (ask (Write out (format (lit fmt) [AStr (upto_nul d)]));; read_all f fd out fmt;; rest).
Proof using Type.
  intros Hr Hne Hlen. eapply resume_next; [exact Hr|]. cbn [read_all mbind prog_bind ask].
  assert (0 < zlen d) as Hpos by (destruct d; [done|unfold zlen; simpl; lia]).
  destruct (put_fill (S := unit) d (new_buffer 128)) as (buf & Hput & _ & Hstr);
    [change (zlen (new_buffer 128)) with 128; lia|].
  cbn. replace (zlen d <=? 0) with false by lia. unfold pure. rewrite Hput. cbn. by rewrite Hstr.
Qed.

Lemma read_all_end m past f fd out fmt (rest : prog Z) :
  resume m past = (read_all (S f) fd out fmt;; rest) → resume m (past ++ [returns 0]) = rest.
Proof using Type. intros Hr. eapply resume_next; [exact Hr|done]. Qed.

Lemma take_nonempty {A} n (d : list A) : d ≠ [] → (0 < n)%nat → take n d ≠ [] ∧ (length (drop n d) < length d)%nat.
Proof using Type.
  intros Hd Hn. destruct d as [|x d]; [done|]. split; [destruct n; [lia|done]|].
  rewrite length_drop. cbn [length]. lia.
Qed.

Lemma parent_out_moves f ws o e gotO past p n :
  let s := mkSys [mkProc 0 Running (parent_fds (Out f)) false past; p] [o; e] (lines (Out f) gotO []) in
  resume main past = program (Out f) → child_at ws p n → p_status p ≠ Reaped →
  concat gotO ++ o ++ written false ws = written false W →
  e ++ written true ws = written true W →
  Forall (λ w, zlen w.2 ≤ PIPE_BUF) ws →
  (length o + length (written false ws) < f)%nat → (length (written true W) < fuel)%nat →
  goes (parent_left (Out f) ws o e + n) (process_move main (0%nat, true) s) ∨
  (o = [] ∧ p_status p = Running ∧ process_move main (0%nat, true) s = Blocked).
Proof.
  intros s Hres Hchild Hreaped HO HE Hsmall Hf Hfuel. destruct f as [|f]; [lia|].
  rewrite (move_ask main 0 s _ (Read 3 127) _ eq_refl eq_refl Hres).
  destruct (decide (o = [])) as [->|Hne].
  - rewrite (read_empty _ _ _ 0) by done.
    destruct (is_open (WriteEnd 0) s) eqn:Hopen.
    { right. split_and!; [done| |done]. destruct Hchild; [done|done|]. by vm_compute in Hopen. }
    left. assert (p_status p ≠ Running) as Hrun.
    { intros Hrun. pose proof (child_holds _ _ _ 0 Hchild Hrun ltac:(lia)) as Hh.
      unfold is_open, s in Hopen. simpl in Hopen. by rewrite Hh, orb_comm in Hopen. }
    assert (length e ≤ length (written true W))%nat as He by (rewrite <- HE, length_app; lia).
    destruct Hchild as [k past' Hk -> Hk'|past' Hp|st -> [-> | ->]]; [done..| |done].
    eexists _, _. split; [done|]. split.
    { eapply (inv_intro (Err fuel) [] [] e gotO []); [|by constructor; [|left]|done..|].
      - eapply read_all_end. exact Hres.
      - split_and!; [done..|lia]. }
    cbn. lia.
  - left. rewrite (read_data _ _ _ 0 o) by done.
    destruct (take_nonempty (Z.to_nat 127) o) as [Htake Hdrop]; [done|lia|].
    eexists _, _. split; [done|]. split.
    { eapply (inv_intro (OutLine f (take (Z.to_nat 127) o)) ws (drop (Z.to_nat 127) o) e gotO []);
        [|exact Hchild| |exact HE|done|].
      - eapply read_all_line; [exact Hres|done|]. unfold zlen. rewrite length_take. lia.
      - cbn [reading]. by rewrite <- HO, (app_assoc (take _ _)), take_drop.
      - split_and!; [done..|]. lia. }
    cbn [parent_left]. lia.
Qed.

Lemma exit_status z : WIFEXITED (exited z) = true ∧ WEXITSTATUS (exited z) = z mod 256.
Proof using Type.
  unfold WIFEXITED, WEXITSTATUS, exited. pose proof (Z.mod_pos_bound z 256 ltac:(lia)).
  set (x := z mod 256) in *. change 127 with (Z.ones 7). change 255 with (Z.ones 8).
  rewrite !Z.land_ones, Z.shiftr_div_pow2 by lia. change (2 ^ 7) with 128. change (2 ^ 8) with 256.
  split; [apply Z.eqb_eq|]; lia.
Qed.

Lemma parent_err_moves f e gotO gotE past p n :
  let s := mkSys [mkProc 0 Running (parent_fds (Err f)) false past; p] [[]; e] (lines (Err f) gotO gotE) in
  resume main past = program (Err f) → child_at [] p n → p_status p = Zombie (exited (exit_of cmd)) →
  concat gotO = written false W → concat gotE ++ e = written true W → (length e < f)%nat →
  goes (parent_left (Err f) [] [] e + n) (process_move main (0%nat, true) s).
Proof.
  intros s Hres Hchild Hz HO HE Hf. destruct f as [|f]; [lia|].
  rewrite (move_ask main 0 s _ (Read 5 127) _ eq_refl eq_refl Hres).
  destruct (decide (e = [])) as [->|Hne].
  - rewrite (read_empty _ _ _ 1) by done. rewrite app_nil_r in HE.
    replace (is_open (WriteEnd 1) s) with false by (by destruct Hchild; vm_compute).
    eexists _, _. split; [done|]. split.
    { eapply (inv_intro (Ending 0) [] [] [] gotO gotE); [|exact Hchild|..].
      - eapply read_all_end. exact Hres.
      - cbn. by rewrite app_nil_r.
      - cbn. by rewrite app_nil_r.
      - done.
      - split_and!; [done..|lia|by rewrite decide_True by lia]. }
    cbn. lia.
  - rewrite (read_data _ _ _ 1 e) by done.
    destruct (take_nonempty (Z.to_nat 127) e) as [Htake Hdrop]; [done|lia|].
    eexists _, _. split; [done|]. split.
    { eapply (inv_intro (ErrLine f (take (Z.to_nat 127) e)) [] [] (drop (Z.to_nat 127) e) gotO gotE);
        [|exact Hchild|..].
      - eapply read_all_line; [exact Hres|done|]. unfold zlen. rewrite length_take. lia.
      - cbn. by rewrite app_nil_r.
      - cbn [reading written]. by rewrite <- HE, (app_assoc (take _ _)), take_drop, app_nil_r.
      - done.
      - split_and!; [done..|]. lia. }
    cbn [parent_left]. cbn. lia.
Qed.

Lemma parent_ending_moves k gotO gotE past p n :
  let s := mkSys [mkProc 0 Running (parent_fds (Ending k)) false past; p] [[]; []] (lines (Ending k) gotO gotE) in
  resume main past = program (Ending k) → child_at [] p n → fits (Ending k) [] [] [] gotE p →
  concat gotO = written false W → concat gotE = written true W →
  goes (parent_left (Ending k) [] [] [] + n) (process_move main (0%nat, true) s).
Proof.
  intros s Hres Hchild (_ & _ & _ & Hk & Hz) HO HE.
  assert (∀ j past' p', (j < 5)%nat → resume main past' = program (Ending j) → child_at [] p' n →
    (if decide (j < 3)%nat then p_status p' = Zombie (exited (exit_of cmd)) else p_status p' = Reaped) →
    inv (mkSys [mkProc 0 Running (parent_fds (Ending j)) false past'; p'] [[]; []] (lines (Ending j) gotO gotE))
      (5 - j + n)) as Hnext.
  { intros j past' p' Hj Hres' Hc Hst.
    by apply (inv_intro (Ending j) [] [] [] gotO gotE past' p' n); cbn; rewrite ?app_nil_r. }
  destruct k as [|[|[|[|[|k]]]]]; [..|lia].
  - rewrite (move_ask main 0 s _ (Close 3) _ eq_refl eq_refl Hres). eexists _, _. split; [done|].
    split; [apply (Hnext 1%nat); [lia| |done|done]|cbn; lia]. eapply resume_next; [exact Hres|done].
  - rewrite (move_ask main 0 s _ (Close 5) _ eq_refl eq_refl Hres). eexists _, _. split; [done|].
    split; [apply (Hnext 2%nat); [lia| |done|done]|cbn; lia]. eapply resume_next; [exact Hres|done].
  - rewrite (move_ask main 0 s _ (Waitpid 2) _ eq_refl eq_refl Hres).
    destruct Hchild as [k past' ? ? ?|past' ?|st _ [-> | ->]]; [done|done| |done].
    eexists _, _. split; [done|].
    split; [apply (Hnext 3%nat); [lia| |by constructor; [|right]|done]|cbn; lia].
    eapply resume_next; [exact Hres|]. cbn. destruct (exit_status (exit_of cmd)) as [-> ->]. done.
  - rewrite (move_ask main 0 s _ (Write 1 (exit_line (exit_of cmd))) _ eq_refl eq_refl Hres).
    assert (lines (Ending 4) gotO gotE = lines (Ending 3) gotO gotE ++ [exit_line (exit_of cmd)]) as Hl.
    { unfold lines. by rewrite app_nil_r, app_assoc. }
    eexists _, (1 + n)%nat. split; [done|]. split; [|cbn [parent_left]; lia].
    eapply (Hnext 4%nat) in Hz; [..|exact Hchild]; [|lia|eapply resume_next; [exact Hres|done]].
    rewrite Hl in Hz. exact Hz.
  - rewrite (move_end main 0 s _ 0 eq_refl eq_refl) by (by left).
    destruct Hchild as [k past' ? ? ?|past' ?|st _ [-> | ->]]; [done|done|done|].
    eexists _, 0%nat. split; [done|]. split; [|cbn; lia]. apply inv_over.
    + split; [split; [by repeat constructor|done]|]. by exists gotO, gotE.
    + intros [[|[|i]] ok]; done.
Qed.

(** The parent moves, unless it waits for the child to write or to end. *)
Lemma parent_moves ph ws o e gotO gotE past p n :
  let s := mkSys [mkProc 0 Running (parent_fds ph) false past; p] [o; e] (lines ph gotO gotE) in
  resume main past = program ph → child_at ws p n →
  concat gotO ++ reading ph false ++ o ++ written false ws = written false W →
  concat gotE ++ reading ph true ++ e ++ written true ws = written true W →
  Forall (λ w, zlen w.2 ≤ PIPE_BUF) ws → fits ph ws o e gotE p →
  (length (written false W) < fuel)%nat → (length (written true W) < fuel)%nat →
  goes (parent_left ph ws o e + n) (process_move main (0%nat, true) s) ∨
  (o = [] ∧ p_status p = Running ∧ process_move main (0%nat, true) s = Blocked).
Proof.
  intros s Hres Hchild HO HE Hsmall Hfits HfO HfE.
  destruct ph as [k|f|f d|f|f d|k]; cbn [reading app] in HO, HE.
  - left. destruct Hfits as (-> & Hreap & Hk).
    assert (length o + length (written false ws) < fuel)%nat as Ho
      by (rewrite <- HO, !length_app in HfO; lia).
    destruct k as [|[|k]]; [| |lia].
    + rewrite (move_ask main 0 s _ (Close 4) _ eq_refl eq_refl Hres). eexists _, _. split; [done|].
      split; [|apply Nat.lt_succ_diag_r].
      eapply (inv_intro (Starting 1) ws o e gotO []); [eapply resume_next; [exact Hres|done]|done..|].
      split_and!; [done..|lia].
    + rewrite (move_ask main 0 s _ (Close 6) _ eq_refl eq_refl Hres). eexists _, _. split; [done|].
      split; [|apply Nat.lt_succ_diag_r].
      by eapply (inv_intro (Out fuel) ws o e gotO []); [eapply resume_next; [exact Hres|done]|..].
  - destruct Hfits as (-> & Hreap & Hf). by apply parent_out_moves.
  - left. destruct Hfits as (-> & Hreap & Hf).
    rewrite (move_ask main 0 s _ (Write 1 (out_line d)) _ eq_refl eq_refl Hres).
    assert (lines (Out f) (gotO ++ [d]) [] = lines (OutLine f d) gotO [] ++ [out_line d]) as Hl
      by (unfold lines; by rewrite fmap_app, !app_nil_r).
    eexists _, (parent_left (Out f) ws o e + n)%nat. split; [done|]. split; [|cbn [parent_left]; lia].
    assert (inv (mkSys [mkProc 0 Running (parent_fds (Out f)) false (past ++ [returns (zlen (out_line d))]); p]
      [o; e] (lines (Out f) (gotO ++ [d]) [])) (parent_left (Out f) ws o e + n)) as Hinv.
    { apply inv_intro; [eapply resume_next; [exact Hres|done]|done| |done..].
      by rewrite concat_app, <- app_assoc; cbn; rewrite app_nil_r. }
    rewrite Hl in Hinv. exact Hinv.
  - left. destruct Hfits as (-> & -> & Hz & Hf). cbn in HO, HE. rewrite !app_nil_r in HO, HE.
    by apply parent_err_moves.
  - left. destruct Hfits as (-> & -> & Hz & Hf).
    rewrite (move_ask main 0 s _ (Write 2 (err_line d)) _ eq_refl eq_refl Hres).
    assert (lines (Err f) gotO (gotE ++ [d]) = lines (ErrLine f d) gotO gotE ++ [err_line d]) as Hl
      by (unfold lines; by rewrite fmap_app, !app_nil_r, app_assoc).
    eexists _, (parent_left (Err f) [] [] e + n)%nat. split; [done|]. split; [|cbn [parent_left]; lia].
    assert (inv (mkSys [mkProc 0 Running (parent_fds (Err f)) false (past ++ [returns (zlen (err_line d))]); p]
      [[]; e] (lines (Err f) gotO (gotE ++ [d]))) (parent_left (Err f) [] [] e + n)) as Hinv.
    { apply inv_intro; [eapply resume_next; [exact Hres|done]|done|done| |done|done].
      by rewrite concat_app, <- app_assoc; cbn; rewrite app_nil_r. }
    rewrite Hl in Hinv. exact Hinv.
  - left. pose proof Hfits as (-> & -> & -> & _). cbn in HO, HE. rewrite app_nil_r in HO, HE.
    by apply parent_ending_moves.
Qed.

(** *** The moves of the child *)

(** As long as the child runs the parent keeps its read ends. *)
Lemma parent_holds ph (ws : list (bool * bytes)) (o e : bytes) gotE p past q :
  fits ph ws o e gotE p → p_status p = Running → (q < 2)%nat →
  gotE = [] ∧ holds (ReadEnd q) (mkProc 0 Running (parent_fds ph) false past) = true.
Proof using Type.
  intros Hfits Hrun Hq. unfold holds. simpl p_fds.
  destruct ph as [[|[|k]]|f|f d|f|f d|k]; cbn in Hfits; try (destruct Hfits as (? & ? & ? & ?); congruence).
  - destruct Hfits as (-> & _). split; [done|]. by destruct q as [|[|q]]; [..|lia]; vm_compute.
  - destruct Hfits as (-> & _). split; [done|]. by destruct q as [|[|q]]; [..|lia]; vm_compute.
  - lia.
  - destruct Hfits as (-> & _). split; [done|]. by destruct q as [|[|q]]; [..|lia]; vm_compute.
  - destruct Hfits as (-> & _). split; [done|]. by destruct q as [|[|q]]; [..|lia]; vm_compute.
  - destruct Hfits as (_ & _ & _ & _ & Hk). case_decide; congruence.
Qed.

(** A write by the child succeeds when there is room. *)
Lemma child_write ph (o e : bytes) gotE gotO p0 past w :
  let p := mkProc 1 Running (child_fds 6) false past in
  let s := mkSys [p0; p] [o; e] (lines ph gotO gotE) in
  let q := if (w : bool * bytes).1 then 1%nat else 0%nat in
  let old := if w.1 then e else o in
  is_open (ReadEnd q) s = true →
  serve true 1 p (write_call w) s = if zlen old + zlen w.2 <=? PIPE_CAPACITY
    then Moved (reply_to 1 p (returns (zlen w.2)) (with_pipe q (old ++ w.2) s)) else Blocked.
Proof using Type.
  intros p s q old Hopen. subst q old. destruct w as [[] d]; unfold serve, write_call; cbn [fst snd] in *.
  - replace (p_fds p !! 2) with (Some (WriteEnd 1)) by done. by rewrite Hopen.
  - replace (p_fds p !! 1) with (Some (WriteEnd 0)) by done. by rewrite Hopen.
Qed.

Lemma fits_written ph w (ws : list (bool * bytes)) (o e : bytes) gotE past past' :
  let p := mkProc 1 Running (child_fds 6) false past in
  fits ph (w :: ws) o e gotE p →
  fits ph ws (if w.1 then o else o ++ w.2) (if w.1 then e ++ w.2 else e) gotE
    (mkProc 1 Running (child_fds 6) false past').
Proof using Type.
  intros p Hfits. destruct ph as [k|f|f d|f|f d|k]; cbn in Hfits |- *; [done|..].
  - destruct Hfits as (-> & _ & Hf). split_and!; [done..|]. destruct w as [[] d'].
    + exact Hf.
    + rewrite written_cons in Hf. cbn [fst snd Bool.eqb] in *. rewrite !length_app in *. lia.
  - destruct Hfits as (-> & _ & Hf). split_and!; [done..|]. destruct w as [[] d'].
    + exact Hf.
    + rewrite written_cons in Hf. cbn [fst snd Bool.eqb] in *. rewrite !length_app in *. lia.
  - by destruct Hfits as (? & _).
  - by destruct Hfits as (? & _).
  - by destruct Hfits as (? & _).
Qed.

(** The child moves, unless it waits for the parent to read its output. *)
Lemma child_moves ph ws o e gotO gotE past p n :
  let s := mkSys [mkProc 0 Running (parent_fds ph) false past; p] [o; e] (lines ph gotO gotE) in
  resume main past = program ph → child_at ws p n → p_status p = Running →
  concat gotO ++ reading ph false ++ o ++ written false ws = written false W →
  concat gotE ++ reading ph true ++ e ++ written true ws = written true W →
  Forall (λ w, zlen w.2 ≤ PIPE_BUF) ws → fits ph ws o e gotE p →
  zlen (written true W) ≤ PIPE_CAPACITY →
  goes (parent_left ph ws o e + n) (process_move main (1%nat, true) s) ∨
  (o ≠ [] ∧ process_move main (1%nat, true) s = Blocked).
Proof.
  intros s Hres Hchild Hrun HO HE Hsmall Hfits Hroom.
  destruct Hchild as [k past' Hk -> Hk'|past' Hp|st -> [-> | ->]]; [| |done..].
  - left. assert (∃ c, setup !! k = Some c ∧ serve true 1 (mkProc 1 Running (child_fds k) false past') c s =
      Moved (reply_to 1 (mkProc 1 Running (child_fds (S k)) false past')
        (returns match c with Dup2 _ y => y | _ => 0 end) s)) as (c & Hc & Hserve).
    { do 6 (destruct k as [|k]; [eexists; split; done|]). lia. }
    rewrite (drop_S _ _ _ Hc) in Hk'. cbn [app steps] in Hk'.
    rewrite (move_ask main 1 s _ c _ eq_refl eq_refl Hk'), Hserve.
    eexists _, (parent_left ph W o e + (6 - k + length W))%nat. split; [done|]. split; [|lia].
    eapply inv_intro; [exact Hres| |exact HO|exact HE|exact Hsmall|by destruct ph].
    destruct (decide (k = 5%nat)) as [->|Hne].
    + apply child_writes. eapply resume_next; [exact Hk'|done].
    + replace (6 - k + length W)%nat with (7 - S k + length W)%nat by lia.
      apply child_setup; [lia|done|]. eapply resume_next; [exact Hk'|done].
  - destruct ws as [|w ws]; cbn [fmap list_fmap steps] in Hp.
    + left. rewrite (move_end main 1 s _ (exit_of cmd) eq_refl eq_refl) by (by right).
      eexists _, (parent_left ph [] o e + 0)%nat. split; [done|]. split; [|lia].
      eapply inv_intro; [exact Hres|by constructor; [|left]|exact HO|exact HE|exact Hsmall|].
      destruct ph as [k|f|f d|f|f d|k]; cbn in Hfits |- *.
      * destruct Hfits as (? & ? & ?). by split_and!.
      * destruct Hfits as (? & ? & ?). by split_and!.
      * destruct Hfits as (? & ? & ?). by split_and!.
      * by destruct Hfits as (? & ? & ? & ?).
      * by destruct Hfits as (? & ? & ? & ?).
      * destruct Hfits as (? & ? & ? & ? & Hz). case_decide; congruence.
    + rewrite (move_ask main 1 s _ (write_call w) _ eq_refl eq_refl Hp).
      apply Forall_cons in Hsmall as [Hw Hsmall].
      destruct (parent_holds _ _ _ _ _ _ past (if w.1 then 1 else 0)%nat Hfits Hrun) as [-> Hh];
        [destruct w.1; lia|].
      pose proof (child_write ph o e [] gotO (mkProc 0 Running (parent_fds ph) false past) past' w) as Hcw.
      cbv zeta in Hcw. unfold s. rewrite Hcw by (unfold is_open; cbn [procs existsb]; by rewrite Hh). clear Hcw.
      destruct (_ <=? PIPE_CAPACITY) eqn:Hcap; propify.
      * left. eexists _, (parent_left ph ws (if w.1 then o else o ++ w.2) (if w.1 then e ++ w.2 else e) +
          (1 + length ws))%nat. split; [done|]. split.
        { replace (with_pipe _ _ _) with (mkSys (procs s)
            [if w.1 then o else o ++ w.2; if w.1 then e ++ w.2 else e] (screen s)) by (by destruct w as [[] d]).
          eapply inv_intro; [exact Hres| | | |exact Hsmall|by eapply fits_written].
          - apply child_writes. eapply resume_next; [exact Hp|done].
          - rewrite <- HO, written_cons. destruct w as [[] d]; cbn [fst snd Bool.eqb]; [done|].
            by rewrite <- app_assoc.
          - rewrite <- HE, written_cons. destruct w as [[] d]; cbn [fst snd Bool.eqb]; [|done].
            by rewrite <- app_assoc. }
        assert (parent_left ph ws (if w.1 then o else o ++ w.2) (if w.1 then e ++ w.2 else e) =
          parent_left ph (w :: ws) o e) as ->; [|simpl; lia].
        destruct w as [[] d], ph; cbn [parent_left]; rewrite ?written_cons;
          cbn [fst snd Bool.eqb]; rewrite ?length_app; simpl; lia.
      * right. split; [|done]. intros ->. destruct w as [[] d]; cbn [fst snd] in *.
        -- rewrite <- HE, written_cons in Hroom. unfold zlen in *. cbn [fst snd Bool.eqb] in Hroom.
           rewrite !length_app in Hroom. lia.
        -- unfold PIPE_BUF, PIPE_CAPACITY, zlen in *. simpl in Hcap. lia.
Qed.

(** *** All executions *)

Context (Hsmall : Forall (λ w, zlen w.2 ≤ PIPE_BUF) W) (Hroom : zlen (written true W) ≤ PIPE_CAPACITY).
Context (HfO : (length (written false W) < fuel)%nat) (HfE : (length (written true W) < fuel)%nat).

Lemma early_moves k :
  (k < 3)%nat → goes (3 - k + (parent_left (Starting 0) W [] [] + (7 + length W)))
    (process_move main (0%nat, true) (early k)).
Proof using HfO HfE Hsmall.
  intros Hk. assert (process_move main (0%nat, true) (early k) = Moved (early (S k))) as ->
    by (destruct k as [|[|[|k]]]; [done..|lia]).
  eexists _, _. split; [done|].
  destruct (decide (k = 2%nat)) as [->|Hne]; [|split; [apply inv_early; lia|lia]].
  split; [|apply Nat.lt_succ_diag_r].
  apply (inv_intro (Starting 0) W [] [] [] []); [done| |done|done|done|by split_and!; [..|lia]].
  apply (child_setup W 0); [lia|done|]. etransitivity; [|exact child_program]. done.
Qed.

Lemma inv_moves s n :
  inv s n → (∀ t, succeeds t → process_move main t s = Blocked ∨ goes n (process_move main t s)) ∧
    (collected cmd s ∨ ∃ t, succeeds t ∧ goes n (process_move main t s)).
Proof using All.
  intros [ph ws o e gotO gotE past p m Hres Hchild HO HE Hws Hfits|k Hk|s' Hover Hstop].
  - pose proof (parent_moves ph ws o e gotO gotE past p m Hres Hchild HO HE Hws Hfits HfO HfE) as Hp.
    assert (p_status p = Running ∨ p_status p ≠ Running ∧ ∀ x ok, procs x !! 1%nat = Some p →
      process_move main (1%nat, ok) x = Blocked) as [Hrun|[Hrun Hblock]].
    { destruct Hchild as [| |st ? [-> | ->]]; [by left..| |]; right; (split; [done|]);
        intros x ok Hx; unfold process_move; simpl; by rewrite Hx. }
    + pose proof (child_moves ph ws o e gotO gotE past p m Hres Hchild Hrun HO HE Hws Hfits Hroom) as Hc.
      split.
      * intros [[|[|i]] ok] Hok; unfold succeeds in Hok; simpl in Hok; subst ok.
        -- destruct Hp as [|(_ & _ & Hb)]; auto.
        -- destruct Hc as [|(_ & Hb)]; auto.
        -- by left.
      * right. destruct Hc as [Hc|[Hne _]]; [by exists (1%nat, true)|].
        destruct Hp as [Hp|(-> & _)]; [by exists (0%nat, true)|done].
    + destruct Hp as [Hp|(_ & Hr & _)]; [|done]. split.
      * intros [[|[|i]] ok] Hok; unfold succeeds in Hok; simpl in Hok; subst ok; [by right|left|by left].
        by apply Hblock.
      * right. by exists (0%nat, true).
  - pose proof (early_moves k Hk) as Hgo. split.
    + intros [[|i] ok] Hok; unfold succeeds in Hok; simpl in Hok; subst ok; [by right|left].
      apply move_outside. simpl. destruct k as [|[|[|k]]]; simpl; lia.
    + right. by exists (0%nat, true).
  - split; [by left|by left].
Qed.

Lemma inv_runs ts s s' n :
  inv s n → Forall succeeds ts → run (H := process_move main) ts s = Moved s' →
  ∃ n', inv s' n' ∧ (length ts + n' ≤ n)%nat.
Proof using All.
  revert s n. induction ts as [|t ts IH]; intros s n Hinv Hts Hrun.
  - injection Hrun as <-. exists n. split; [done|simpl; lia].
  - apply Forall_cons in Hts as [Ht Hts]. simpl in Hrun. unfold move in Hrun.
    destruct (inv_moves s n Hinv) as [Hm _].
    destruct (Hm t Ht) as [Hb|(s1 & n1 & Hm1 & Hinv1 & Hlt)]; [by rewrite Hb in Hrun|].
    rewrite Hm1 in Hrun. destruct (IH s1 n1 Hinv1 Hts Hrun) as (n' & Hinv' & Hle).
    exists n'. split; [done|simpl; lia].
Qed.
End general.

(** C9: a command that writes at most as much to its standard error as a pipe holds:
    under every interleaving the program ends, without undefined behaviour and in
    a bounded number of moves, and has printed all that the command wrote to its
    standard output, then all that it wrote to its standard error, then its exit
    status; when [execlp] fails, the message of the child and status 1. *)
Theorem output_is_collected fuel cmd :
  Forall (λ w, zlen w.2 ≤ PIPE_BUF) (writes cmd) → zlen (written true (writes cmd)) ≤ PIPE_CAPACITY →
  (length (written false (writes cmd)) < fuel)%nat → (length (written true (writes cmd)) < fuel)%nat →
  always (main fuel cmd) succeeds
    (19 + length (writes cmd) + 2 * length (written false (writes cmd)) + 2 * length (written true (writes cmd)))
    (collected cmd).
Proof.
  intros Hsmall Hroom HfO HfE ts s Hts Hrun.
  destruct (inv_runs fuel cmd Hsmall Hroom HfO HfE ts boot s
    (3 - 0 + (parent_left (Starting 0) (writes cmd) [] [] + (7 + length (writes cmd)))))
    as (n & Hinv & Hlen); [apply (inv_early _ _ 0); lia|done|done|].
  destruct (inv_moves fuel cmd Hsmall Hroom HfO HfE s n Hinv) as [Hm Hgo]. split_and!.
  - simpl in Hlen. lia.
  - intros t Ht Hu. unfold move in Hu. destruct (Hm t Ht) as [Hb|(s' & n' & Hm' & _)]; congruence.
  - destruct Hgo as [|(t & Ht & s' & n' & Hm' & _)]; [by left|right]. by exists t, s'.
Qed.

Lemma output_is_collected_witness :
  ∃ s, execution (main 9 (Some ([(false, b "hello"); (true, b "oops")], 3)))
      (picks [0; 0; 0; 1; 1; 1; 1; 1; 1; 1; 1; 1; 0; 0; 0; 0; 0; 0; 0; 0; 0; 0; 0; 0; 0]%nat) = Moved s ∧
    collected (Some ([(false, b "hello"); (true, b "oops")], 3)) s.
Proof.
  set (cmd := Some ([(false, b "hello"); (true, b "oops")], 3)). eapply completed.
  - apply (output_is_collected 9 cmd); [by repeat constructor|by vm_compute|vm_compute; lia..].
  - apply picks_succeed.
  - vm_compute. reflexivity.
Defined.

(** ** A command with more errors than a pipe holds *)

Definition noisy : command := Some (replicate 17 (true, replicate 4096 "x"%char), 0).

(** The parent reads the standard error only after the end of the standard
    output. A command that first writes 68 KB to its standard error waits for the
    parent to read them, while the parent waits for its standard output: neither
    can ever move again. *)
Lemma noisy_command_hangs fuel :
  ∃ ts s, Forall succeeds ts ∧ execution (main (S fuel) noisy) ts = Moved s ∧
    hangs (main (S fuel) noisy) s.
Proof.
  exists (picks ([0; 0; 0; 0; 0] ++ replicate 22 1)%nat).
  destruct (hung_sound (main (S fuel) noisy) (picks ([0; 0; 0; 0; 0] ++ replicate 22 1)%nat))
    as (s & Hrun & Hs); [vm_compute; reflexivity|].
  exists s. split; [apply picks_succeed|]. exact (conj Hrun Hs).
Qed.
