(* ===== verification/Shell.v ===== *)
(** * [10_project/myshell.c]: [cat file | wc -l] for each file

    The two commands are other programs; [None] stands for one that cannot be
    executed. A file is given by its name and its content. *)
From S2P Require Export Process.

Definition command : Type := option (prog Z).

(** [execvp]: the process goes on as the command, or the call fails. *)
Definition execvp (cmd : command) : prog unit :=
  match cmd with None => mret tt | Some m => z ← m; Exit z end.

(** The local variables that the loops share. *)
Record vars := mkVars {
  fd : cell Z; pipeFd : cell (Z * Z); pids : list (cell Z); status : Z }.

Definition strcpy_args (argv : list (bytes * bytes)) : prog unit :=
  if bool_decide (length argv ≤ 1024)%nat && forallb (λ a, zlen a.1 <? 1024) argv then mret tt
  else Wrong OutOfBounds.

(** The body of the loop over the commands, for the [i]-th. *)
Definition run_command (cmd : command) (i : nat) (v : vars) : prog vars :=
  r ← ask Pipe;
  let pfd := if r_ret r =? -1 then pipeFd v else Val (r_aux r) in
  pid ← ask Fork;
  p ← pure (use pfd);
  if 0 <? r_ret pid then
    close p.2;;
    mret (mkVars (Val p.1) pfd (<[i := Val (r_ret pid)]> (pids v)) (status v))
  else
    f ← pure (use (fd v));
    dup2 f 0;;
    close f;;
    dup2 p.2 1;;
    close p.2;;
    execvp cmd;;
    mret (mkVars (fd v) pfd (pids v) (status v)).

Fixpoint run_commands (cmds : list command) (i : nat) (v : vars) : prog vars :=
  match cmds with
  | [] => mret v
  | cmd :: cmds => v ← run_command cmd i v; run_commands cmds (S i) v
  end.

(** [waitpid(pids[i], &status, 0)] for the first [n]. *)
Fixpoint reap (n i : nat) (v : vars) : prog vars :=
  match n with
  | O => mret v
  | S n =>
    pid ← pure (match pids v !! i with Some c => use c | None => ub_fail OutOfBounds end);
    r ← ask (Waitpid pid);
    reap n (S i) (mkVars (fd v) (pipeFd v) (pids v)
      (if r_ret r =? -1 then status v else (r_aux r).1))
  end.

(** The loop over the files. *)
Fixpoint each_file (cmds : list command) (files : list (bytes * bytes)) (v : vars) : prog vars :=
  match files with
  | [] => mret v
  | (_, content) :: files =>
    r ← ask (Open content);
    v ← run_commands cmds 0 (mkVars (Val (r_ret r)) (pipeFd v) (pids v) (status v));
    v ← reap (length cmds) 0 v;
    each_file cmds files v
  end.

Definition main (cmds : list command) (argv : list (bytes * bytes)) : prog Z :=
  strcpy_args argv;;
  v ← each_file cmds argv (mkVars Indet Indet (replicate 1024 Indet) 0);
  f ← pure (use (fd v));
  n ← ask (Read f 1024);
  s ← pure (c_str (fill (zeroed 1024) (r_data n)));
  printf "read bytes = %d, value = %s" [AInt (r_ret n); AStr s];;
  mret (WEXITSTATUS (status v)).

(** ** The commands, as their manual pages describe them *)

(** [cat] copies its standard input to its standard output. *)
Fixpoint cat (fuel : nat) : prog Z :=
  match fuel with
  | O => Wrong BadType
  | S fuel =>
    r ← ask (Read 0 1024);
    if r_ret r <=? 0 then mret (if r_ret r =? 0 then 0 else 1)
    else ask (Write 1 (r_data r));; cat fuel
  end.

(** [wc -l] writes the number of newlines in its standard input. *)
Definition newlines (d : bytes) : Z := zlen (List.filter (λ c, bool_decide (c = newline)) d).
Fixpoint wc_l (fuel : nat) (count : Z) : prog Z :=
  match fuel with
  | O => Wrong BadType
  | S fuel =>
    r ← ask (Read 0 1024);
    if r_ret r <=? 0 then ask (Write 1 (show_int count ++ [newline]));; mret 0
    else wc_l fuel (count + newlines (r_data r))
  end.

Definition cmdArray : list command := [Some (cat 3); Some (wc_l 3 0)].

(** ** Its executions *)

Definition sample : list (bytes * bytes) := [(b "f", lit "one\ntwo\nthree\n")].

Definition counted (s : sys) : Prop := over 0 s ∧ screen s = [lit "read bytes = 2, value = 3\n"].
#[export] Instance counted_dec s : Decision (counted s).
Proof. unfold counted. apply _. Defined.

(** On a file of three lines every interleaving of the shell and its two commands ends,
    within 40 moves and without a deadlock, with the number of the lines. *)
Lemma shell_counts : always (main cmdArray sample) succeeds 40 counted.
Proof. apply (check_success (main cmdArray sample) counted). vm_compute. reflexivity. Qed.
