(* ===== verification/Uring.v ===== *)
(** * [12_aio/io_uring_1.c]: one read through io_uring

    liburing is not part of the program: what its functions return, and what the
    read delivers, are parameters of the model. *)
From S2P Require Export Buffer Format.

Definition QUEUE_DEPTH : Z := 1.
Definition BLOCK_SIZE : Z := 4096.

(** What the calls return, in the order of the program; [q_res] is the result in the
    completion event, [q_data] what the kernel stores in the buffer. *)
Record answers := mkAnswers {
  q_malloc : bool; q_init : Z; q_open : Z; q_submit : Z; q_wait : Z; q_res : Z; q_data : bytes }.

(** The documented results: [io_uring_queue_init] returns 0 or a negative error,
    [open] -1 or a descriptor, and a read that succeeds has stored as many bytes as it
    says, at most those asked for. *)
Definition documented (a : answers) : Prop :=
  q_init a ≤ 0 ∧ -1 ≤ q_open a ∧ (0 ≤ q_res a → zlen (q_data a) = q_res a ∧ q_res a ≤ BLOCK_SIZE).

Inductive line :=
| Perror (msg : string)
| Read_failed (err : Z)               (* [strerror] of the error *)
| Read_bytes (n : Z) (text : bytes).

(** The objects that the program holds: the allocated buffer, the ring, the open
    descriptor, the submission entry that was taken but not submitted, the completion
    event that was not marked as seen. *)
Record state := mkState {
  buf : option buffer; ring : bool; file : option Z; entry : option Z; event : bool; out : list line }.
Definition boot : state := mkState None false None None false [].

Section program.
Context (a : answers).

Definition perror (msg : string) : M state unit := modify (λ s,
  mkState (buf s) (ring s) (file s) (entry s) (event s) (out s ++ [Perror msg])).
Definition say (x : line) : M state unit := modify (λ s,
  mkState (buf s) (ring s) (file s) (entry s) (event s) (out s ++ [x])).

(** [malloc]; the content of the buffer is indeterminate. *)
Definition malloc : M state bool := λ s,
  if q_malloc a then
    Ok (true, mkState (Some (new_buffer BLOCK_SIZE)) (ring s) (file s) (entry s) (event s) (out s))
  else Ok (false, s).
Definition free : M state unit := λ s,
  match buf s with
  | None => UB UseAfterFree
  | Some _ => Ok (tt, mkState None (ring s) (file s) (entry s) (event s) (out s))
  end.

Definition io_uring_queue_init (depth : Z) : M state Z := λ s,
  Ok (q_init a, mkState (buf s) (q_init a =? 0) (file s) (entry s) (event s) (out s)).
Definition io_uring_queue_exit : M state unit := λ s,
  if ring s then Ok (tt, mkState (buf s) false (file s) (entry s) (event s) (out s)) else UB UseAfterFree.

Definition open_file (filename : string) : M state Z := λ s,
  Ok (q_open a, mkState (buf s) (ring s)
    (if q_open a =? -1 then file s else Some (q_open a)) (entry s) (event s) (out s)).
Definition close (fd : Z) : M state unit := λ s,
  Ok (tt, mkState (buf s) (ring s)
    (if bool_decide (file s = Some fd) then None else file s) (entry s) (event s) (out s)).

(** The queue has [QUEUE_DEPTH] entries, so that one can be had; [io_uring_prep_read]
    fills it. *)
Definition io_uring_get_sqe : M state bool := λ s,
  if ring s then Ok (bool_decide (entry s = None), s) else UB UseAfterFree.
Definition io_uring_prep_read (sqe : bool) (fd n off : Z) : M state unit := λ s,
  if sqe then Ok (tt, mkState (buf s) (ring s) (file s) (Some fd) (event s) (out s)) else UB NullDeref.
Definition io_uring_submit : M state Z := λ s,
  if ring s then
    Ok (q_submit a, mkState (buf s) (ring s) (file s)
      (if q_submit a <? 0 then entry s else None) (event s) (out s))
  else UB UseAfterFree.

(** When the event arrives the kernel has stored the data in the buffer. *)
Definition io_uring_wait_cqe : M state Z := λ s,
  if ring s then
    if q_wait a <? 0 then Ok (q_wait a, s)
    else Ok (q_wait a, mkState
      (if q_res a <? 0 then buf s else (λ x, fill x (q_data a)) <$> buf s)
      (ring s) (file s) (entry s) true (out s))
  else UB UseAfterFree.
Definition cqe_res : M state Z := λ s, if event s then Ok (q_res a, s) else UB UseAfterFree.
Definition io_uring_cqe_seen : M state unit := λ s,
  if event s then Ok (tt, mkState (buf s) (ring s) (file s) (entry s) false (out s)) else UB UseAfterFree.

(** The buffer as [%s] reads it. *)
Definition buffer_text : M state bytes := λ s,
  match buf s with None => UB UseAfterFree | Some x => c_str x s end.

Definition clean_up (fd : Z) : M state unit :=
  close fd;;
  io_uring_queue_exit;;
  free.

#[local] Arguments clean_up fd : simpl never.

Definition io_uring_read_example (filename : string) : M state unit :=
  got ← malloc;
  if negb got then perror "malloc" else
  ret ← io_uring_queue_init QUEUE_DEPTH;
  if negb (ret =? 0) then perror "io_uring_queue_init";; free else
  fd ← open_file filename;
  if fd =? -1 then perror "open";; io_uring_queue_exit;; free else
  sqe ← io_uring_get_sqe;
  io_uring_prep_read sqe fd BLOCK_SIZE 0;;
  ret ← io_uring_submit;
  if ret <? 0 then perror "io_uring_submit";; clean_up fd else
  ret ← io_uring_wait_cqe;
  if ret <? 0 then perror "io_uring_wait_cqe";; clean_up fd else
  res ← cqe_res;
  (if res <? 0 then say (Read_failed (- res))
   else s ← buffer_text; say (Read_bytes res s));;
  io_uring_cqe_seen;;
  clean_up fd.

Definition main : M state Z := io_uring_read_example "testfile.txt";; mret 0.

(** ** What becomes of the resources, and of the text *)

(** What is printed when no call is undefined. *)
Definition outcome : list line :=
  if negb (q_malloc a) then [Perror "malloc"]
  else if negb (q_init a =? 0) then [Perror "io_uring_queue_init"]
  else if q_open a =? -1 then [Perror "open"]
  else if q_submit a <? 0 then [Perror "io_uring_submit"]
  else if q_wait a <? 0 then [Perror "io_uring_wait_cqe"]
  else if q_res a <? 0 then [Read_failed (- q_res a)]
  else [Read_bytes (q_res a) (upto_nul (q_data a))].

(** The program gets as far as printing data. *)
Definition prints_data : bool :=
  q_malloc a && (q_init a =? 0) && negb (q_open a =? -1) && (0 <=? q_submit a) &&
  (0 <=? q_wait a) && (0 <=? q_res a).

Lemma c_str_fill {S} (d : bytes) x (s : S) :
  "000"%char ∈ d → c_str (fill x d) s = Ok (upto_nul d, s).
Proof.
  unfold fill. generalize (drop (length d) x). intros rest.
  induction d as [|c d IH]; intros Hd; [by apply not_elem_of_nil in Hd|]. cbn.
  case_bool_decide as Hc; [done|]. apply elem_of_cons in Hd as [Hd|Hd]; [congruence|].
  by erewrite bind_Ok by exact (IH Hd).
Qed.

Lemma c_str_fresh {S} (d : bytes) n (s : S) :
  "000"%char ∉ d → zlen d ≤ n →
  c_str (fill (new_buffer n) d) s = UB (if zlen d =? n then OutOfBounds else Uninit).
Proof.
  intros Hd Hn. unfold fill, new_buffer. rewrite drop_replicate.
  assert (∀ rest, c_str ((Val <$> d) ++ rest) s =
    match rest with [] => UB OutOfBounds | Indet :: _ => UB Uninit | Val _ :: _ =>
      c_str ((Val <$> d) ++ rest) s end) as ->.
  { clear Hn. induction d as [|c d IH]; intros rest; [by destruct rest as [|[|c]]|].
    apply not_elem_of_cons in Hd as [Hc Hd]. cbn. rewrite bool_decide_false by congruence.
    unfold mbind, M_bind. rewrite (IH Hd). by destruct rest as [|[|c']]. }
  destruct (Z.eqb_spec (zlen d) n) as [Heq|Hne].
  - replace (Z.to_nat n - length d)%nat with 0%nat by (unfold zlen in *; lia). done.
  - destruct (Z.to_nat n - length d)%nat eqn:E; [unfold zlen in *; lia|done].
Qed.

Definition released (o : list line) (s : state) : Prop :=
  buf s = None ∧ ring s = false ∧ file s = None ∧ event s = false ∧ out s = o.

Lemma clean_up_releases fd x en o :
  clean_up fd (mkState (Some x) true (Some fd) en false o) =
  Ok (tt, mkState None false None en false o).
Proof. unfold clean_up. mrun. by rewrite bool_decide_true. Qed.

(** C29: on every path but that of a text without NUL, the function gives back all that it
    has taken - the buffer, the ring, the descriptor and the completion event - each
    once, and says which call failed or what was read up to the first NUL. *)
Theorem uring_releases filename :
  documented a → (prints_data = true → "000"%char ∈ q_data a) →
  ∃ s, io_uring_read_example filename boot = Ok (tt, s) ∧ released outcome s.
Proof.
  intros (Hi & Ho & Hr) Hn. unfold io_uring_read_example, outcome, prints_data, boot in *. mrun.
  unfold malloc. destruct (q_malloc a); simpl; [|eexists; split; [reflexivity|done]].
  destruct (Z.eqb_spec (q_init a) 0) as [H0|H0]; simpl; [|eexists; split; [reflexivity|done]].
  destruct (Z.eqb_spec (q_open a) (-1)) as [H1|H1]; simpl; [eexists; split; [reflexivity|done]|].
  unfold io_uring_submit, io_uring_get_sqe, io_uring_wait_cqe, cqe_res, buffer_text.
  destruct (q_submit a <? 0) eqn:H2; simpl; rewrite ?H2; simpl.
  { rewrite clean_up_releases. eexists. split; [reflexivity|done]. }
  destruct (q_wait a <? 0) eqn:H3; simpl; rewrite ?H3; simpl.
  { rewrite clean_up_releases. eexists. split; [reflexivity|done]. }
  destruct (q_res a <? 0) eqn:H4; simpl; rewrite ?H4; simpl.
  { rewrite clean_up_releases. eexists. split; [reflexivity|done]. }
  rewrite c_str_fill.
  - simpl. rewrite clean_up_releases. eexists. split; [reflexivity|done].
  - apply Hn. apply Z.ltb_ge in H2, H3, H4. simpl. by rewrite !(proj2 (Z.leb_le _ _)) by lia.
Qed.

(** The buffer is not ended with a NUL: when the data has none, printing it with [%s]
    reads indeterminate memory, or runs out of the buffer when it is full. *)
Theorem uring_text_undefined filename :
  documented a → prints_data = true → "000"%char ∉ q_data a →
  io_uring_read_example filename boot =
    UB (if q_res a =? BLOCK_SIZE then OutOfBounds else Uninit).
Proof.
  intros (Hi & Ho & Hr) Hp Hn. unfold prints_data in Hp. rewrite !andb_true_iff in Hp.
  destruct Hp as (((((Hm & H0) & H1) & H2) & H3) & H4).
  apply Z.leb_le in H2, H3, H4. destruct (Hr H4) as [Hlen Hmax].
  apply negb_true_iff in H1. apply Z.ltb_ge in H2, H3, H4.
  unfold io_uring_read_example, boot. mrun. unfold malloc. rewrite Hm. simpl.
  rewrite H0. simpl. rewrite H1. simpl.
  unfold io_uring_submit, io_uring_get_sqe, io_uring_wait_cqe, cqe_res, buffer_text.
  rewrite ?H2, ?H3, ?H4. simpl. rewrite ?H2. simpl. rewrite ?H3. simpl. rewrite ?H4. simpl.
  by rewrite c_str_fresh, Hlen by (done || lia).
Qed.
End program.

Definition all_well (d : bytes) : answers := mkAnswers true 0 3 1 0 (zlen d) d.

Lemma uring_releases_witness :
  let a := all_well (b "some text" ++ ["000"%char]) in
  ∃ s, io_uring_read_example a "testfile.txt" boot = Ok (tt, s) ∧
    released [Read_bytes 10 (b "some text")] s.
Proof.
  apply (uring_releases (all_well (b "some text" ++ ["000"%char]))).
  - split; [done|]. split; [done|]. done.
  - intros _. apply elem_of_app. right. by left.
Defined.

Lemma uring_text_undefined_witness :
  io_uring_read_example (all_well (b "some text")) "testfile.txt" boot = UB Uninit.
Proof.
  apply (uring_text_undefined (all_well (b "some text"))); [split; [done|]; split; done|done|].
  by apply (bool_decide_unpack _).
Defined.
