(* ===== verification/BubbleSort.v ===== *)
(** * [01_linux/bubble_sort.c]: sorting with a comparison function *)
From S2P Require Export Prelude.

(** The array that [arr] points to and what was printed. *)
Inductive line := Text (s : string) | Number (z : Z).
Record state := mkState { arr : list Z; out : list line }.

(** A [compare_func_t] reads nothing but its arguments. *)
Definition compare_func_t : Type := Z → Z → Z.

Definition load (i : Z) : M state Z := λ s,
  match zlookup (arr s) i with None => UB OutOfBounds | Some x => Ok (x, s) end.
Definition store (i x : Z) : M state unit := λ s,
  match zupdate (arr s) i x with
  | None => UB OutOfBounds
  | Some l => Ok (tt, mkState l (out s))
  end.
Definition print (x : line) : M state unit := λ s, Ok (tt, mkState (arr s) (out s ++ [x])).

(** [a] and [b] are pointers into the array. *)
Definition swap (a d : Z) : M state unit :=
  temp ← load a;
  x ← load d;
  store a x;;
  store d temp.

Definition compare_step (compare : compare_func_t) (j : Z) : M state unit :=
  x ← load j;
  y ← load (j + 1);
  if negb (compare x y =? 0) then swap j (j + 1) else mret tt.

Definition bubbleSort (n : Z) (compare : compare_func_t) : M state unit :=
  m ← int_val (n - 1);
  for_up 0 m (λ i _,
    k ← int_val (n - i);
    k ← int_val (k - 1);
    for_up 0 k (λ j _, compare_step compare j) tt) tt.

Definition ascendingCompare : compare_func_t := λ a d, Z.b2z (d <? a).
Definition descendingCompare : compare_func_t := λ a d, Z.b2z (a <? d).

Definition main_arr : list Z := [64; 34; 25; 12; 22; 11; 90].

Definition print_all (n : Z) : M state unit :=
  for_up 0 n (λ i _, x ← load i; print (Number x)) tt;;
  print (Text "\n").

Definition main : M state Z :=
  let n := zlen main_arr in
  print (Text "升序排序结果: ");;
  bubbleSort n ascendingCompare;;
  print_all n;;
  print (Text "降序排序结果: ");;
  bubbleSort n descendingCompare;;
  print_all n;;
  mret 0.

(** ** One pass carries the last of its elements to the end *)

Lemma load_at l i x o : l !! i = Some x → load (Z.of_nat i) (mkState l o) = Ok (x, mkState l o).
Proof. intros Hx. unfold load. simpl. unfold zlookup.
  rewrite bool_decide_eq_true_2 by lia. by rewrite Nat2Z.id, Hx. Qed.
Lemma store_at l i x o :
  (i < length l)%nat →
  store (Z.of_nat i) x (mkState l o) = Ok (tt, mkState (<[i := x]> l) o).
Proof.
  intros Hi. unfold store. simpl. rewrite zupdate_in by (unfold zlen; lia).
  by rewrite Nat2Z.id.
Qed.

Arguments load : simpl never.
Arguments store : simpl never.

Lemma swap_adjacent p x y rest o :
  swap (zlen p) (zlen p + 1) (mkState (p ++ x :: y :: rest) o) =
  Ok (tt, mkState (p ++ y :: x :: rest) o).
Proof.
  assert (zlen p + 1 = Z.of_nat (S (length p))) as -> by (unfold zlen; lia).
  unfold swap, zlen. mrun.
  rewrite (load_at _ _ x) by (by apply list_lookup_middle). simpl.
  rewrite (load_at _ _ y) by (by rewrite (cons_middle x), app_assoc; apply list_lookup_middle;
    rewrite length_app; simpl; lia).
  rewrite store_at by (rewrite length_app; simpl; lia).
  rewrite store_at by (rewrite length_insert, length_app; simpl; lia).
  do 3 f_equal. rewrite list_insert_insert_ne by lia.
  rewrite (insert_app_r_alt _ _ (S _)) by lia. replace (S (length p) - length p)%nat with 1%nat by lia.
  rewrite insert_app_r_alt by lia. by rewrite Nat.sub_diag.
Qed.

Lemma compare_step_runs compare p x y rest o :
  compare_step compare (zlen p) (mkState (p ++ x :: y :: rest) o) =
  Ok (tt, mkState (if compare x y =? 0 then p ++ x :: y :: rest else p ++ y :: x :: rest) o).
Proof.
  pose proof (swap_adjacent p x y rest o) as Hswap. unfold compare_step. mrun.
  unfold zlen at 1. rewrite (load_at _ _ x) by (by apply list_lookup_middle).
  assert (zlen p + 1 = Z.of_nat (S (length p))) as Hp by (unfold zlen; lia).
  rewrite Hp, (load_at _ _ y), <- Hp by (by rewrite (cons_middle x), app_assoc;
    apply list_lookup_middle; rewrite length_app; simpl; lia).
  by destruct (compare x y =? 0).
Qed.

Section sorting.
Context (compare : compare_func_t).

(** [x] may stay before [y]. *)
Definition in_order (x y : Z) : Prop := compare x y = 0.

Context (in_order_total : ∀ x y, in_order x y ∨ in_order y x).
Context (in_order_trans : ∀ x y z, in_order x y → in_order y z → in_order x z).

(** What the [j]-loop has done when it is at [j]: the cells before [j] and the
    one at [j] are a permutation of what they were, and the one at [j] is a last
    one of them. *)
Definition pass_inv (a tail : list Z) (o : list line) (j : Z) (s : state) : Prop :=
  ∃ p x rest, s = mkState (p ++ x :: rest ++ tail) o ∧ zlen p = j ∧
    p ++ x :: rest ≡ₚ a ∧ Forall (λ y, in_order y x) p.

Lemma pass_step a tail o j s :
  0 ≤ j < zlen a - 1 → pass_inv a tail o j s →
  ∃ s', compare_step compare j s = Ok (tt, s') ∧ pass_inv a tail o (j + 1) s'.
Proof.
  intros Hj (p & x & rest & -> & <- & Hperm & Hx). destruct rest as [|y rest].
  { apply Permutation_length in Hperm. rewrite length_app in Hperm. unfold zlen in Hj.
    simpl in Hperm. lia. }
  simpl. rewrite compare_step_runs. eexists. split; [done|]. 
  destruct (Z.eqb_spec (compare x y) 0) as [Hxy|Hxy].
  - exists (p ++ [x]), y, rest. rewrite <- !app_assoc, zlen_app, zlen_one. split_and!; try done.
    apply Forall_app. split; [|by constructor]. eapply Forall_impl; [done|].
    intros z Hz. exact (in_order_trans _ _ _ Hz Hxy).
  - exists (p ++ [y]), x, rest. rewrite <- !app_assoc, zlen_app, zlen_one. split_and!; try done.
    + rewrite <- Hperm. apply Permutation_app_head, Permutation_swap.
    + apply Forall_app. split; [done|]. constructor; [|done].
      destruct (in_order_total x y); [by destruct Hxy|done].
Qed.

(** A pass over [a], and its effect. *)
Lemma pass_runs a tail o :
  a ≠ [] →
  ∃ p x, for_up 0 (zlen a - 1) (λ j _, compare_step compare j) tt (mkState (a ++ tail) o) =
      Ok (tt, mkState (p ++ x :: tail) o) ∧
    p ++ [x] ≡ₚ a ∧ Forall (λ y, in_order y x) p.
Proof.
  intros Ha. destruct a as [|x0 a0]; [done|].
  destruct (for_up_rule (λ j _ s, pass_inv (x0 :: a0) tail o j s) 0 (zlen (x0 :: a0) - 1)
    (λ j _, compare_step compare j) tt (mkState ((x0 :: a0) ++ tail) o))
    as ([] & s' & Hrun & (p & x & rest & -> & Hp & Hperm & Hx)).
  - unfold zlen. simpl. lia.
  - exists [], x0, a0. split_and!; done.
  - intros k [] s Hk Hinv. destruct (pass_step _ _ _ _ _ Hk Hinv) as (s' & ? & ?). eauto.
  - apply Permutation_length in Hperm as Hlen. rewrite length_app in Hlen.
    unfold zlen in Hp. simpl in Hlen, Hp. destruct rest; [|simpl in Hlen; lia].
    exists p, x. simpl in *. done.
Qed.

(** What the [i]-loop has done when it is at [i]: the last [i] of the [n] cells
    are in order and after all the others. *)
Definition sort_inv (l tail : list Z) (o : list line) (i : Z) (s : state) : Prop :=
  ∃ a d, s = mkState (a ++ d ++ tail) o ∧ zlen d = i ∧ a ++ d ≡ₚ l ∧
    StronglySorted in_order d ∧ Forall (λ y, Forall (in_order y) d) a.

Lemma sort_step l tail o i s :
  zlen l ≤ INT_MAX → 0 ≤ i < zlen l - 1 → sort_inv l tail o i s →
  ∃ s', (k ← int_val (zlen l - i); k ← int_val (k - 1);
         for_up 0 k (λ j _, compare_step compare j) tt) s = Ok (tt, s') ∧
    sort_inv l tail o (i + 1) s'.
Proof.
  intros Hmax Hi (a & d & -> & <- & Hperm & Hsort & Hbefore).
  assert (zlen a = zlen l - zlen d) as Ha.
  { apply Permutation_length in Hperm. rewrite length_app in Hperm. unfold zlen. lia. }
  pose proof (zlen_nonneg d). unfold mbind, M_bind.
  rewrite !int_val_ok by (unfold INT_MIN, INT_MAX in *; lia). rewrite <- Ha.
  destruct (pass_runs a (d ++ tail) o) as (p & x & -> & Hp & Hx).
  { intros ->. unfold zlen in *. simpl in Ha. lia. }
  eexists. split; [done|]. exists p, (x :: d). rewrite <- Hp in Hbefore.
  apply Forall_app in Hbefore as [Hpd Hxd]. rewrite Forall_singleton in Hxd. split_and!.
  - done.
  - unfold zlen. simpl. lia.
  - by rewrite (cons_middle x p d), app_assoc, Hp.
  - by constructor.
  - rewrite Forall_forall in Hx, Hpd |- *. intros y Hy. constructor; auto.
Qed.

Lemma bubbleSort_runs l tail o :
  zlen l ≤ INT_MAX →
  ∃ l', bubbleSort (zlen l) compare (mkState (l ++ tail) o) = Ok (tt, mkState (l' ++ tail) o) ∧
    l' ≡ₚ l ∧ StronglySorted in_order l'.
Proof.
  intros Hmax. pose proof (zlen_nonneg l) as Hl. unfold bubbleSort.
  erewrite bind_Ok by (apply int_val_ok; unfold INT_MIN, INT_MAX in *; lia).
  destruct l as [|x0 l0].
  { exists []. split_and!; [done|done|constructor]. }
  remember (x0 :: l0) as l eqn:Hl0.
  destruct (for_up_rule (λ i _ s, sort_inv l tail o i s) 0 (zlen l - 1)
    (λ i _, k ← int_val (zlen l - i); k ← int_val (k - 1);
            for_up 0 k (λ j _, compare_step compare j) tt) tt (mkState (l ++ tail) o))
    as ([] & s' & -> & (a & d & -> & Hd & Hperm & Hsort & Hbefore)).
  - rewrite Hl0. unfold zlen. simpl. lia.
  - exists l, []. rewrite app_nil_r. split_and!; [done|done|done|constructor|].
    apply Forall_true. constructor.
  - intros k [] s Hk Hinv. destruct (sort_step _ _ _ _ _ Hmax Hk Hinv) as (s' & ? & ?). eauto.
  - apply Permutation_length in Hperm as Hlen. rewrite length_app in Hlen. unfold zlen in Hd.
    destruct a as [|x [|]]; simpl in Hlen; [lia| |unfold zlen in *; lia].
    exists (x :: d). split_and!; [done|done|]. inversion Hbefore; subst. by constructor.
Qed.
End sorting.

Definition descending (x y : Z) : Prop := y ≤ x.
#[global] Instance descending_dec x y : Decision (descending x y).
Proof. unfold descending. apply _. Defined.
#[global] Instance descending_total : Total descending.
Proof. intros x y. unfold descending. lia. Qed.
#[global] Instance descending_trans : Transitive descending.
Proof. intros x y z. unfold descending. lia. Qed.
#[global] Instance descending_antisymm : AntiSymm eq descending.
Proof. intros x y. unfold descending. lia. Qed.

Lemma ascending_in_order x y : in_order ascendingCompare x y ↔ x ≤ y.
Proof. unfold in_order, ascendingCompare. destruct (Z.ltb_spec y x); simpl; lia. Qed.
Lemma descending_in_order x y : in_order descendingCompare x y ↔ descending x y.
Proof. unfold in_order, descendingCompare, descending. destruct (Z.ltb_spec x y); simpl; lia. Qed.

(** There is only one sorted permutation of a list. *)
Lemma sorts_like_merge_sort (compare : compare_func_t) (R : relation Z)
    `{!∀ x y, Decision (R x y), !Total R, !Transitive R, !AntiSymm eq R} (l tail : list Z) o :
  (∀ x y, in_order compare x y ↔ R x y) → zlen l ≤ INT_MAX →
  bubbleSort (zlen l) compare (mkState (l ++ tail) o) =
    Ok (tt, mkState (merge_sort R l ++ tail) o).
Proof.
  intros HR Hmax. destruct (bubbleSort_runs compare) with l tail o as (l' & -> & Hp & Hs); [| |done|].
  - intros x y. rewrite !HR. apply (total R).
  - intros x y z. rewrite !HR. intros. by etransitivity.
  - do 4 f_equal. apply (StronglySorted_unique R).
    + eapply StronglySorted_mono; [|exact Hs]. intros x y _ _. apply HR.
    + apply StronglySorted_merge_sort; apply _.
    + by rewrite merge_sort_Permutation.
Qed.

(** C31: sorting the first [n] elements of an array puts them in the order that a
    reference sort gives them, ascending or descending, changes nothing after
    them and stays within the array; with [n <= 0] it does nothing. *)
Theorem bubbleSort_sorts (l tail : list Z) o :
  zlen l ≤ INT_MAX →
  bubbleSort (zlen l) ascendingCompare (mkState (l ++ tail) o) =
    Ok (tt, mkState (merge_sort Z.le l ++ tail) o) ∧
  bubbleSort (zlen l) descendingCompare (mkState (l ++ tail) o) =
    Ok (tt, mkState (merge_sort descending l ++ tail) o) ∧
  (∀ n compare, INT_MIN < n ≤ 0 → bubbleSort n compare (mkState l o) = Ok (tt, mkState l o)).
Proof.
  intros Hmax. split_and!.
  - apply (sorts_like_merge_sort _ Z.le); [apply ascending_in_order|done].
  - apply (sorts_like_merge_sort _ descending); [apply descending_in_order|done].
  - intros n compare Hn. unfold bubbleSort.
    erewrite bind_Ok by (apply int_val_ok; unfold INT_MIN, INT_MAX in *; lia).
    unfold for_up. by replace (Z.to_nat (n - 1 - 0)) with O by lia.
Qed.

Lemma bubbleSort_sorts_witness :
  bubbleSort 7 ascendingCompare (mkState main_arr []) =
    Ok (tt, mkState [11; 12; 22; 25; 34; 64; 90] []) ∧
  bubbleSort 3 descendingCompare (mkState [1; 2; 3; 9] []) = Ok (tt, mkState [3; 2; 1; 9] []).
Proof.
  split.
  - destruct (bubbleSort_sorts main_arr [] []) as [H _]; [by vm_compute|]. exact H.
  - destruct (bubbleSort_sorts [1; 2; 3] [9] []) as (_ & H & _); [by vm_compute|]. exact H.
Defined.

Example main_prints : ∃ s, main (mkState main_arr []) = Ok (0, s) ∧
  out s = [Text "升序排序结果: "] ++ (Number <$> [11; 12; 22; 25; 34; 64; 90]) ++ [Text "\n"] ++
    [Text "降序排序结果: "] ++ (Number <$> [90; 64; 34; 25; 22; 12; 11]) ++ [Text "\n"].
Proof. eexists. split; vm_compute; reflexivity. Qed.
