(* ===== verification/Numeric.v ===== *)
(** * Programs that compute

    [C/Lecture02/primes.c], [C/Lecture02/test.c], [C/GProf/main.c],
    [13_profiling/main.c] (its [int] part) and the sums of
    [03_process/multi-process.cpp]. *)
From Stdlib Require Import Znumtheory.
From S2P Require Export Format.

(** The array of the program, if it has one, and what it has printed. *)
Record state := mkState { arr : list Z; out : list (string * list arg) }.

Definition printf (fmt : string) (args : list arg) : M state unit := λ s,
  Ok (tt, mkState (arr s) (out s ++ [(fmt, args)])).
Definition load (i : Z) : M state Z := λ s,
  match zlookup (arr s) i with None => UB OutOfBounds | Some x => Ok (x, s) end.
Definition store (i x : Z) : M state unit := λ s,
  match zupdate (arr s) i x with
  | None => UB OutOfBounds
  | Some l => Ok (tt, mkState l (out s))
  end.

(** [x % y] and [x / y] on [int]s, both of which round towards zero. *)
Definition int_rem {S} (x y : Z) : M S Z :=
  if y =? 0 then ub_fail DivByZero
  else _ ← int_val (Z.quot x y); mret (Z.rem x y).
Definition int_div {S} (x y : Z) : M S Z :=
  if y =? 0 then ub_fail DivByZero else int_val (Z.quot x y).

(** ** [primes.c] *)

(** The loop [for (int j = 2; j < i; j++)], from [j] on; [n] is [i - j]. It gives
    [is_prime]. *)
Fixpoint trial (n : nat) (i j : Z) : M state Z :=
  match n with
  | O => mret 1
  | S n =>
    r ← int_rem i j;
    if r =? 0 then mret 0
    else j ← int_val (j + 1); trial n i j
  end.

Definition primes_below (max : Z) : M state Z :=
  for_up 2 max (λ i _,
    is_prime ← trial (Z.to_nat (i - 2)) i 2;
    if negb (is_prime =? 0) then printf "%d " [AInt i] else mret tt) tt;;
  mret 0.

Definition primes_main : M state Z := primes_below 100000.

(** ** [test.c] *)

Definition reverse (n : Z) : M state unit :=
  h ← int_div n 2;
  for_up 0 h (λ i _,
    temp ← load i;
    k ← int_val (n - 1);
    k ← int_val (k - i);
    x ← load k;
    store i x;;
    k ← int_val (n - i);
    k ← int_val (k - 1);
    store k temp) tt.

(** [a] is given its initial values when [main] starts. *)
Definition test_a : list Z := [11; 22; 3; 44; 55].

Definition test_main : M state Z :=
  reverse 5;;
  for_up 0 5 (λ i _, x ← load i; printf "%d " [AInt x]) tt;;
  mret 0.

(** ** [GProf/main.c] *)

(** The program's own [INT32_MAX]. *)
Definition INT32_MAX : Z := 1061109567.  (* 0x3f3f3f3f *)

(** The value of [t] at the end. *)
Definition xor_calc : M state Z :=
  for_up 0 INT32_MAX (λ i t, mret (Z.lxor t i)) 0.
Definition time_cost1 : M state unit := for_up 0 3 (λ _ _, _ ← xor_calc; mret tt) tt.
Definition time_cost2 : M state unit := for_up 0 5 (λ _ _, _ ← xor_calc; mret tt) tt.
Definition gprof_main : M state Z := time_cost1;; time_cost2;; mret 0.

(** ** [13_profiling/main.c] *)

Definition int_power (x y : Z) : M state Z := for_up 1 y (λ _ r, int_val (r * x)) x.

Definition int_math_helper (x y : Z) : M state Z :=
  q ← int_div x y;
  p ← int_power y x;
  q ← int_val (q * p);
  p ← int_power x y;
  int_div q p.
Definition int_math (x y : Z) : M state Z := int_math_helper x y.

(** [r1] after the loop. *)
Definition profile_r1 : M state Z :=
  for_up 0 10000000 (λ _ r1, z ← int_math 10 3; int_val (r1 + z)) 0.

(** ** [multi-process.cpp] *)

Definition long_val {S} (z : Z) : M S Z :=
  if bool_decide (- 2 ^ 63 ≤ z < 2 ^ 63) then mret z else ub_fail IntOverflow.

(** The number of the process, and its [temp]. *)
Definition interval_sum {S} (start : Z) : M S (Z * Z) :=
  start ← int_val (start * 20000);
  stop ← int_val (start + 20000);
  temp ← for_up start stop (λ i temp, sq ← long_val (i * i); long_val (temp + sq)) 0;
  k ← int_div start 20000;
  mret (k, temp).

(** ** The primes *)

Lemma int_val_in {S} z (s : S) : 0 ≤ z ≤ INT_MAX → int_val z s = Ok (z, s).
Proof. intros. apply int_val_ok. unfold INT_MIN. lia. Qed.

Lemma quot_bounds x y : 0 ≤ x → 0 < y → 0 ≤ Z.quot x y ≤ x.
Proof. intros. rewrite Z.quot_div_nonneg by lia. split; [by apply Z.div_pos|]. apply Z.div_le_upper_bound; nia. Qed.

Lemma int_rem_ok {S} x y (s : S) : 0 ≤ x ≤ INT_MAX → 0 < y → int_rem x y s = Ok (Z.rem x y, s).
Proof.
  intros Hx Hy. unfold int_rem. destruct (Z.eqb_spec y 0); [lia|]. mrun.
  rewrite int_val_in; [done|]. pose proof (quot_bounds x y). lia.
Qed.

Lemma int_div_ok {S} x y (s : S) : 0 ≤ x ≤ INT_MAX → 0 < y → int_div x y s = Ok (Z.quot x y, s).
Proof.
  intros Hx Hy. unfold int_div. destruct (Z.eqb_spec y 0); [lia|].
  apply int_val_in. pose proof (quot_bounds x y). lia.
Qed.

(** The trial divisions from [j] on find a divisor or there is none. *)
Lemma trial_runs n i j s :
  2 ≤ j → i = j + Z.of_nat n → i ≤ INT_MAX →
  ∃ r, trial n i j s = Ok (r, s) ∧ (r ≠ 0 ↔ ∀ d, j ≤ d < i → ¬ (d | i)).
Proof.
  revert j. induction n as [|n IH]; intros j Hj Hi Hmax.
  - exists 1. split; [done|]. split; [lia|done].
  - cbn [trial]. mrun. rewrite int_rem_ok by lia.
    destruct (Z.eqb_spec (Z.rem i j) 0) as [H0|H0].
    + exists 0. split; [done|]. split; [done|]. intros Hd. exfalso. apply (Hd j); [lia|].
      by apply Z.rem_divide; [lia|].
    + rewrite int_val_in by lia. destruct (IH (j + 1)) as (r & Hr & Hiff); [lia..|].
      exists r. split; [done|]. rewrite Hiff. split; intros Hd d Hd'.
      * destruct (decide (d = j)) as [->|]; [|apply Hd; lia]. by rewrite <- Z.rem_divide by lia.
      * apply Hd. lia.
Qed.

#[export] Instance prime_decision p : Decision (prime p).
Proof. destruct (prime_dec p); [by left|by right]. Defined.

Lemma trial_prime i s :
  2 ≤ i ≤ INT_MAX → ∃ r, trial (Z.to_nat (i - 2)) i 2 s = Ok (r, s) ∧ (r ≠ 0 ↔ prime i).
Proof.
  intros Hi. destruct (trial_runs (Z.to_nat (i - 2)) i 2 s) as (r & Hr & Hiff); [lia..|].
  exists r. split; [done|]. rewrite Hiff. split.
  - intros Hd. apply prime_alt. split; [lia|]. intros n Hn. apply Hd. lia.
  - intros [_ Hp]%prime_alt d Hd. apply Hp. lia.
Qed.

Definition prime_line (p : Z) : string * list arg := ("%d "%string, [AInt p]).

(** C18: [primes.c] prints the primes below [max], each once and in order, and nothing
    else; in particular for the [max] of its [main]. *)
Theorem primes_printed max s :
  2 ≤ max ≤ INT_MAX →
  primes_below max s =
    Ok (0, mkState (arr s) (out s ++ (prime_line <$> filter prime (seqZ 2 (max - 2))))).
Proof.
  intros Hmax. unfold primes_below.
  destruct (for_up_rule (λ i _ s', s' = mkState (arr s) (out s ++ (prime_line <$> filter prime (seqZ 2 (i - 2)))))
    2 max (λ i _, is_prime ← trial (Z.to_nat (i - 2)) i 2;
      if negb (is_prime =? 0) then printf "%d " [AInt i] else mret tt) tt s) as ([] & s' & Hrun & ->).
  - lia.
  - destruct s. by rewrite app_nil_r.
  - intros k [] s' Hk ->. exists tt.
    destruct (trial_prime k (mkState (arr s) (out s ++ (prime_line <$> filter prime (seqZ 2 (k - 2))))))
      as (r & Hr & Hiff); [lia|].
    mrun. rewrite Hr. replace (seqZ 2 (k + 1 - 2)) with (seqZ 2 (k - 2) ++ [k]).
    2:{ replace (k + 1 - 2) with (k - 2 + 1) by lia. rewrite seqZ_app by lia.
        by replace (2 + (k - 2)) with k by lia. }
    rewrite filter_app, fmap_app. destruct (Z.eqb_spec r 0) as [-> |Hr0]; simpl; eexists.
    + split; [reflexivity|]. rewrite filter_cons_False by (intros Hp%Hiff; lia). by rewrite app_nil_r.
    + split; [reflexivity|]. rewrite filter_cons_True by (by apply Hiff). by rewrite app_assoc.
  - by rewrite (bind_Ok _ _ _ _ _ Hrun).
Qed.

Lemma primes_printed_witness :
  ∃ s, primes_main (mkState [] []) = Ok (0, s) ∧ prime_line 2 ∈ out s.
Proof.
  eexists. split; [apply (primes_printed 100000); unfold INT_MAX; lia|].
  apply list_elem_of_fmap. exists 2. split; [done|]. apply list_elem_of_filter.
  split; [apply prime_alt; split; lia|]. apply elem_of_seqZ. lia.
Defined.

(** ** [reverse] *)

Lemma load_in i s x : zlookup (arr s) i = Some x → load i s = Ok (x, s).
Proof. intros Hx. unfold load. by rewrite Hx. Qed.

Lemma store_in i x s :
  0 ≤ i < zlen (arr s) →
  store i x s = Ok (tt, mkState (<[Z.to_nat i := x]> (arr s)) (out s)).
Proof. intros Hi. unfold store. by rewrite zupdate_in. Qed.

(** After [i] rounds the [i] first and the [i] last elements are exchanged. *)
Definition exchanged (a l : list Z) (i : Z) : Prop :=
  length l = length a ∧
  ∀ k, (k < length a)%nat →
    l !! k = a !! (if bool_decide (Z.of_nat k < i ∨ zlen a - i ≤ Z.of_nat k)%Z
                   then length a - 1 - k else k)%nat.

Lemma exchanged_all a l i : exchanged a l i → zlen a - 1 ≤ 2 * i → l = rev a.
Proof.
  intros [Hlen Hl] Hi. apply list_eq. intros k.
  destruct (decide (k < length a)%nat) as [Hk|Hk].
  - rewrite Hl by done. rewrite rev_alt. change (rev_append a []) with (list_basics.list.reverse a).
    rewrite reverse_lookup by done. case_bool_decide as Hc; f_equal; unfold zlen in *; lia.
  - rewrite !lookup_ge_None_2; rewrite ?length_rev; [done|lia..].
Qed.

Lemma exchange_step a l i x y :
  exchanged a l i → 0 ≤ i → 2 * i < zlen a - 1 →
  l !! Z.to_nat i = Some x → l !! Z.to_nat (zlen a - 1 - i) = Some y →
  exchanged a (<[Z.to_nat (zlen a - i - 1) := x]> (<[Z.to_nat i := y]> l)) (i + 1).
Proof.
  intros [Hlen Hl] Hi Hmid Hx Hy. unfold exchanged, zlen in *. split; [by rewrite !length_insert|].
  intros k Hk. rewrite Hl in Hx by lia. rewrite Hl in Hy by lia.
  rewrite bool_decide_false in Hx by lia. rewrite bool_decide_false in Hy by lia.
  destruct (decide (k = Z.to_nat (Z.of_nat (length a) - i - 1))) as [->|Hne].
  - rewrite list_lookup_insert_eq by (rewrite length_insert; lia). rewrite bool_decide_true by lia.
    rewrite <- Hx. f_equal. lia.
  - rewrite list_lookup_insert_ne by done. destruct (decide (k = Z.to_nat i)) as [->|Hne'].
    + rewrite list_lookup_insert_eq by lia. rewrite bool_decide_true by lia. rewrite <- Hy. f_equal. lia.
    + rewrite list_lookup_insert_ne by done. rewrite Hl by done. f_equal.
      repeat case_bool_decide; lia.
Qed.

(** [reverse] computes the reference function [rev] on arrays of any length. *)
Lemma reverse_rev a o :
  zlen a ≤ INT_MAX → reverse (zlen a) (mkState a o) = Ok (tt, mkState (rev a) o).
Proof.
  intros Hmax. unfold reverse. pose proof (zlen_nonneg a).
  rewrite (bind_Ok _ _ _ _ _ (int_div_ok (zlen a) 2 _ ltac:(lia) ltac:(lia))).
  rewrite Z.quot_div_nonneg by lia.
  match goal with |- for_up 0 _ ?f tt _ = _ => set (body := f) end.
  destruct (for_up_rule (λ i _ s, ∃ l, s = mkState l o ∧ exchanged a l i) 0 (zlen a / 2) body tt (mkState a o))
    as ([] & s' & Hrun & l & -> & Hl).
  - apply Z.div_pos; lia.
  - exists a. split; [done|]. split; [done|]. intros k Hk. rewrite bool_decide_false; [done|].
    unfold zlen. lia.
  - intros i [] s Hi (l & -> & Hl). pose proof Hl as [Hlen _].
    assert (2 * i < zlen a - 1) as Hmid by lia.
    destruct (lookup_lt_is_Some_2 l (Z.to_nat i)) as [x Hx]; [unfold zlen in *; lia|].
    destruct (lookup_lt_is_Some_2 l (Z.to_nat (zlen a - 1 - i))) as [y Hy]; [unfold zlen in *; lia|].
    exists tt. eexists. split.
    + unfold body. mrun. rewrite (load_in _ _ x) by (apply zlookup_Some; split; [lia|done]).
      rewrite !int_val_in by lia. rewrite (load_in _ _ y) by (apply zlookup_Some; split; [lia|done]).
      rewrite store_in by (simpl; unfold zlen in *; lia). rewrite !int_val_in by lia.
      rewrite store_in by (simpl; unfold zlen in *; rewrite length_insert; lia). reflexivity.
    + eexists. split; [reflexivity|]. apply exchange_step; first [done|lia].
  - rewrite Hrun. do 3 f_equal. apply (exchanged_all a l _ Hl). lia.
Qed.

Lemma test_prints :
  test_main (mkState test_a []) =
  Ok (0, mkState (rev test_a) ((λ x, ("%d "%string, [AInt x])) <$> rev test_a)).
Proof. by vm_compute. Qed.

(** ** [xor_calc]: the exclusive or of all numbers below a bound *)

Definition xor_below (n : Z) : Z :=
  match n mod 4 with 0 => 0 | 1 => n - 1 | 2 => 1 | _ => n end.

Lemma lxor_even_succ n : 0 ≤ n → Z.lxor (2 * n) (2 * n + 1) = 1.
Proof.
  intros Hn. apply Z.bits_inj'. intros k Hk. rewrite Z.lxor_spec.
  destruct (decide (k = 0)) as [->|Hk0].
  - by rewrite Z.testbit_even_0, Z.testbit_odd_0.
  - replace k with (Z.succ (k - 1)) by lia.
    rewrite Z.testbit_even_succ, Z.testbit_odd_succ by lia.
    change 1 with (2 * 0 + 1). rewrite Z.testbit_odd_succ by lia.
    by rewrite Z.testbit_0_l, xorb_nilpotent.
Qed.

Lemma lxor_one_even n : 0 ≤ n → Z.lxor 1 (2 * n) = 2 * n + 1.
Proof.
  intros Hn. rewrite <- (lxor_even_succ n) by done.
  rewrite <- (lxor_even_succ n) at 1 by done.
  by rewrite (Z.lxor_comm _ (2 * n)), <- Z.lxor_assoc, Z.lxor_nilpotent, Z.lxor_0_l.
Qed.

Lemma xor_below_step n : 0 ≤ n → Z.lxor (xor_below n) n = xor_below (n + 1).
Proof.
  intros Hn. unfold xor_below.
  assert (n mod 4 = 0 ∨ n mod 4 = 1 ∨ n mod 4 = 2 ∨ n mod 4 = 3) as Hm.
  { pose proof (Z.mod_pos_bound n 4). lia. }
  pose proof (Z_div_mod_eq_full n 4) as Hd.
  destruct Hm as [Hm|[Hm|[Hm|Hm]]]; rewrite Hm.
  - replace ((n + 1) mod 4) with 1 by (rewrite <- Zplus_mod_idemp_l, Hm; done).
    rewrite Z.lxor_0_l. lia.
  - replace ((n + 1) mod 4) with 2 by (rewrite <- Zplus_mod_idemp_l, Hm; done).
    replace (n - 1) with (2 * (2 * (n / 4))) by lia. replace n with (2 * (2 * (n / 4)) + 1) at 2 by lia.
    apply lxor_even_succ. pose proof (Z.div_pos n 4). lia.
  - replace ((n + 1) mod 4) with 3 by (rewrite <- Zplus_mod_idemp_l, Hm; done).
    replace n with (2 * (2 * (n / 4) + 1)) by lia. rewrite lxor_one_even; [done|].
    pose proof (Z.div_pos n 4). lia.
  - replace ((n + 1) mod 4) with 0 by (rewrite <- Zplus_mod_idemp_l, Hm; done).
    apply Z.lxor_nilpotent.
Qed.

Lemma xor_calc_value s : xor_calc s = Ok (xor_below INT32_MAX, s).
Proof.
  destruct (for_up_rule (λ i t s', s' = s ∧ t = xor_below i) 0 INT32_MAX
    (λ i t, mret (Z.lxor t i)) 0 s) as (t & s' & Hrun & -> & ->).
  - done.
  - done.
  - intros k t s' Hk [-> ->]. exists (Z.lxor (xor_below k) k), s. split; [done|]. split; [done|].
    apply xor_below_step. lia.
  - done.
Qed.

Lemma xor_calls n s : for_steps n 1 0 (λ _ _, _ ← xor_calc; mret tt) tt s = Ok (tt, s).
Proof.
  generalize 0. induction n as [|n IH]; intros z; [done|]. cbn [for_steps].
  rewrite (bind_Ok _ _ s tt s); [apply IH|]. by rewrite (bind_Ok _ _ _ _ _ (xor_calc_value s)).
Qed.

(** The eight calls have no effect: the program ends, and nothing is printed. *)
Lemma gprof_ends s : gprof_main s = Ok (0, s).
Proof.
  unfold gprof_main. rewrite (bind_Ok time_cost1 _ _ _ _ (xor_calls 3 s)).
  by rewrite (bind_Ok time_cost2 _ _ _ _ (xor_calls 5 s)).
Qed.

(** ** Powers *)

(** [int_power x y] is a power when [y >= 1] and it fits; it is [x], not 1, for [y = 0]. *)
Lemma int_power_pow x y s :
  1 ≤ x → 1 ≤ y → x ^ y ≤ INT_MAX → int_power x y s = Ok (x ^ y, s).
Proof.
  intros Hx Hy Hmax. unfold int_power.
  destruct (for_up_rule (λ i r s', s' = s ∧ r = x ^ i) 1 y (λ _ r, int_val (r * x)) x s)
    as (r & s' & Hrun & -> & ->).
  - done.
  - by rewrite Z.pow_1_r.
  - intros k r s' Hk [-> ->]. exists (x ^ (k + 1)), s.
    rewrite Z.pow_add_r, Z.pow_1_r by lia. split; [|done]. apply int_val_in.
    replace (x ^ k * x) with (x ^ (k + 1)) by (rewrite Z.pow_add_r, Z.pow_1_r by lia; done).
    split; [apply Z.pow_nonneg; lia|].
    etransitivity; [|exact Hmax]. apply Z.pow_le_mono_r; lia.
  - done.
Qed.

Lemma int_power_zero x s : int_power x 0 s = Ok (x, s).
Proof. done. Qed.

(** [r1] does not overflow. *)
Lemma profile_r1_value s : profile_r1 s = Ok (1770000000, s).
Proof.
  destruct (for_up_rule (λ i r s', s' = s ∧ r = 177 * i) 0 10000000
    (λ _ r1, z ← int_math 10 3; int_val (r1 + z)) 0 s) as (r & s' & Hrun & -> & ->).
  - done.
  - done.
  - intros k r s' Hk [-> ->]. exists (177 * (k + 1)), s. split; [|done].
    assert (int_math 10 3 s = Ok (177, s)) as Hm by (destruct s; by vm_compute).
    rewrite (bind_Ok _ _ _ _ _ Hm). replace (177 * (k + 1)) with (177 * k + 177) by lia.
    apply int_val_in. unfold INT_MAX. lia.
  - exact Hrun.
Qed.

(** ** The sums of squares *)

Definition squares_below (n : Z) : Z := (n - 1) * n * (2 * n - 1) / 6.

Lemma squares_step n : 0 ≤ n → squares_below (n + 1) = squares_below n + n * n.
Proof.
  intros Hn. unfold squares_below.
  replace ((n + 1 - 1) * (n + 1) * (2 * (n + 1) - 1)) with ((n - 1) * n * (2 * n - 1) + n * n * 6) by ring.
  by rewrite Z.div_add by lia.
Qed.

Lemma squares_grow m k : 0 ≤ m → squares_below m ≤ squares_below (m + Z.of_nat k).
Proof.
  intros Hm. induction k as [|k IH]; [by rewrite Z.add_0_r|].
  replace (m + Z.of_nat (Datatypes.S k)) with (m + Z.of_nat k + 1) by lia.
  rewrite squares_step by lia. nia.
Qed.

Lemma squares_mono m n : 0 ≤ m ≤ n → 0 ≤ squares_below m ≤ squares_below n.
Proof.
  intros Hm. pose proof (squares_grow 0 (Z.to_nat m) ltac:(lia)) as H0.
  pose proof (squares_grow m (Z.to_nat (n - m)) ltac:(lia)) as H1. rewrite !Z2Nat.id in * by lia.
  replace (m + (n - m)) with n in H1 by lia. change (squares_below 0) with 0 in H0.
  by rewrite Z.add_0_l in H0.
Qed.

(** What the process of round [k] computes: the sum of the squares of its interval, by
    the closed form; nothing overflows. *)
Definition interval_squares (k : Z) : Z :=
  squares_below (20000 * k + 20000) - squares_below (20000 * k).

Lemma interval_sum_runs {S} k (s : S) :
  0 ≤ k < 5 → interval_sum k s = Ok ((k, interval_squares k), s).
Proof.
  intros Hk. set (temp := interval_squares k). unfold interval_sum, INT_MAX in *.
  rewrite (bind_Ok _ _ s _ _ (int_val_in (k * 20000) s ltac:(unfold INT_MAX; lia))).
  rewrite (bind_Ok _ _ s _ _ (int_val_in (k * 20000 + 20000) s ltac:(unfold INT_MAX; lia))).
  assert (for_up (k * 20000) (k * 20000 + 20000)
    (λ i temp, sq ← long_val (i * i); long_val (temp + sq)) 0 s = Ok (temp, s)) as Hsum.
  { destruct (for_up_rule (λ i t s', s' = s ∧ t = squares_below i - squares_below (k * 20000))
      (k * 20000) (k * 20000 + 20000) (λ i temp, sq ← long_val (i * i); long_val (temp + sq)) 0 s)
      as (t & s' & Hrun & -> & ->).
    - lia.
    - split; [done|lia].
    - intros i t s' Hi [-> ->]. exists (squares_below (i + 1) - squares_below (k * 20000)), s.
      split; [|done]. rewrite squares_step by lia.
      pose proof (squares_mono (k * 20000) i ltac:(lia)) as H1.
      pose proof (squares_mono i 100000 ltac:(lia)) as H2.
      change (squares_below 100000) with 333328333350000 in H2.
      assert (0 ≤ i * i < 2 ^ 34) as H3 by nia.
      unfold long_val. mrun. rewrite bool_decide_true by lia. rewrite bool_decide_true by lia.
      do 2 f_equal. lia.
    - rewrite Hrun. do 2 f_equal. unfold temp, interval_squares. by rewrite !(Z.mul_comm 20000). }
  rewrite (bind_Ok _ _ _ _ _ Hsum).
  rewrite (bind_Ok _ _ _ _ _ (int_div_ok (k * 20000) 20000 s ltac:(unfold INT_MAX; lia) ltac:(lia))).
  by rewrite Z.quot_mul by lia.
Qed.

(** The five intervals together have the sum of the squares below 100,000. *)
Lemma intervals_total : foldr Z.add 0 (interval_squares <$> seqZ 0 5) = squares_below 100000.
Proof. by vm_compute. Qed.
