(* ===== verification/Profile.v ===== *)
(** * [13_profiling/main.c]: the same sum in [int] and in [float]

    The [int] half is in Numeric.v. A [float] is a [spec_float] of 24 bits with exponents up
    to 128, and every operation rounds to the nearest, ties to even, as IEEE 754 has it and as C compilers
    do on machines that compute in single precision. *)
From Stdlib Require Import SpecFloat.
From S2P Require Export Numeric.

Definition prec : Z := 24.
Definition emax : Z := 128.

Definition fadd : spec_float → spec_float → spec_float := SFadd prec emax.
Definition fmul : spec_float → spec_float → spec_float := SFmul prec emax.
Definition fdiv : spec_float → spec_float → spec_float := SFdiv prec emax.
(** The conversion of an [int]. *)
Definition float_of_int (z : Z) : spec_float := binary_normalize prec emax z 0 false.

(** ** The code *)

(** The loop of [float_power]; [i < y] compares as [float]s. *)
Fixpoint float_power_loop (fuel : nat) (x y : spec_float) (i : Z) (r : spec_float) : M state spec_float :=
  match fuel with
  | O => no_fuel
  | S fuel =>
    if SFltb (float_of_int i) y then
      i' ← int_val (i + 1);
      float_power_loop fuel x y i' (fmul r x)
    else mret r
  end.
Definition float_power (fuel : nat) (x y : spec_float) : M state spec_float := float_power_loop fuel x y 1 x.

Definition float_math_helper (fuel : nat) (x y : spec_float) : M state spec_float :=
  p ← float_power fuel y x;
  q ← float_power fuel x y;
  mret (fdiv (fmul (fdiv x y) p) q).
Definition float_math (fuel : nat) (x y : spec_float) : M state spec_float := float_math_helper fuel x y.

(** [r1] and [r2] after the loop of [main], whose result is 0. *)
Definition profile_sums (fuel : nat) : M state (Z * spec_float) :=
  let x1 := 10 in
  let y1 := 3 in
  let x2 := float_of_int 10 in
  let y2 := float_of_int 3 in
  for_up 0 10000000 (λ _ '(r1, r2),
    d ← int_math x1 y1;
    r1 ← int_val (r1 + d);
    d ← float_math fuel x2 y2;
    mret (r1, fadd r2 d)) (0, S754_zero false).
Definition profile_main (fuel : nat) : M state Z := profile_sums fuel;; mret 0.

(** ** Addition within a binade *)

Lemma iter_pos_iter {A} (f : A → A) n x : SpecFloat.iter_pos f n x = Pos.iter f x n.
Proof.
  revert x. induction n as [n IH|n IH|]; intros x; cbn; [|by rewrite !IH|done].
  rewrite !IH. by rewrite !Pos.iter_swap.
Qed.

Lemma digits2_log2 p : Z.pos (digits2_pos p) = Z.log2 (Z.pos p) + 1.
Proof.
  induction p as [p IH|p IH|]; [| |done]; cbn [digits2_pos]; rewrite Pos2Z.inj_succ, IH.
  - rewrite Pos2Z.inj_xI. rewrite Z.log2_succ_double by lia. lia.
  - rewrite Pos2Z.inj_xO. rewrite Z.log2_double by lia. lia.
Qed.

(** [x] is [M] shifted right by [k] bits, with what is known of the bits shifted out. *)
Definition shifted (M k : Z) (x : shr_record) : Prop :=
  shr_m x = M / 2 ^ k ∧
  match shr_r x, shr_s x with
  | false, false => M mod 2 ^ k = 0
  | false, true => 0 < 2 * (M mod 2 ^ k) < 2 ^ k
  | true, false => 2 * (M mod 2 ^ k) = 2 ^ k
  | true, true => 2 ^ k < 2 * (M mod 2 ^ k)
  end.

Lemma shr_1_shifted M k x : 0 ≤ M → 0 ≤ k → shifted M k x → shifted M (k + 1) (shr_1 x).
Proof.
  intros HM Hk [Hm Hb]. destruct x as [q r s]. cbn in *.
  assert (2 ^ (k + 1) = 2 * 2 ^ k) as E by (rewrite Z.pow_add_r by lia; lia).
  pose proof (Z.pow_pos_nonneg 2 k ltac:(lia) Hk) as Hp.
  assert (0 ≤ q) as Hq by (subst q; apply Z.div_pos; lia).
  pose proof (Z.mod_pos_bound M (2 ^ k) Hp) as Hf.
  pose proof (Z_div_mod_eq_full M (2 ^ k)) as HM'. rewrite <- Hm in HM'.
  set (f := M mod 2 ^ k) in *.
  assert (∀ q' (odd : bool), q = 2 * q' + Z.b2z odd →
    M / 2 ^ (k + 1) = q' ∧ M mod 2 ^ (k + 1) = Z.b2z odd * 2 ^ k + f) as H.
  { intros q' odd Ho. rewrite E. assert (M = 2 * 2 ^ k * q' + (Z.b2z odd * 2 ^ k + f)) as EM.
    { rewrite HM', Ho. ring. }
    assert (0 ≤ Z.b2z odd * 2 ^ k + f < 2 * 2 ^ k) as Hr by (destruct odd; cbn [Z.b2z]; lia).
    split; symmetry; [by eapply Z.div_unique_pos|by eapply Z.mod_unique_pos]. }
  destruct q as [|[q|q|]|q]; [..|lia]; unfold shifted; cbn [shr_1 shr_m shr_r shr_s].
  - destruct (H 0 false eq_refl) as [-> Hf']. rewrite Hf', E. cbn [Z.b2z]. split; [done|].
    destruct r, s; cbn; lia.
  - destruct (H (Z.pos q) true) as [-> Hf']; [done|]. rewrite Hf', E. cbn [Z.b2z]. split; [done|].
    destruct r, s; cbn; lia.
  - destruct (H (Z.pos q) false) as [-> Hf']; [done|]. rewrite Hf', E. cbn [Z.b2z]. split; [done|].
    destruct r, s; cbn; lia.
  - destruct (H 0 true eq_refl) as [-> Hf']. rewrite Hf', E. cbn [Z.b2z]. split; [done|].
    destruct r, s; cbn; lia.
Qed.

Lemma iter_shr_shifted M k :
  0 ≤ M → shifted M (Z.pos k) (SpecFloat.iter_pos shr_1 k (Build_shr_record M false false)).
Proof.
  intros HM. rewrite iter_pos_iter. induction k as [|k IH] using Pos.peano_ind.
  - change (Z.pos 1) with (0 + 1). apply (shr_1_shifted M 0); [done|done|]. unfold shifted. cbn.
    by rewrite Z.div_1_r, Z.mod_1_r.
  - rewrite Pos.iter_succ, Pos2Z.inj_succ. apply shr_1_shifted; [done|lia|exact IH].
Qed.

(** [M / 2^k], rounded, when it is not in the middle of two integers. *)
Definition rounded (M k : Z) : Z := M / 2 ^ k + if 2 ^ k <? 2 * (M mod 2 ^ k) then 1 else 0.

Lemma shifted_rounded M k x :
  shifted M k x → 2 * (M mod 2 ^ k) ≠ 2 ^ k →
  round_nearest_even (shr_m x) (loc_of_shr_record x) = rounded M k.
Proof.
  intros [Hm Hb] Ht. unfold rounded. destruct x as [q r s]. cbn in *. subst q.
  destruct r, s; cbn; try done; [rewrite (proj2 (Z.ltb_lt _ _)) by lia; done|..];
    rewrite (proj2 (Z.ltb_ge _ _)); try lia.
Qed.

Lemma iter_xO m n : Z.pos (Pos.iter xO m n) = Z.pos m * 2 ^ Z.pos n.
Proof.
  induction n as [|n IH] using Pos.peano_ind.
  - cbn [Pos.iter]. rewrite Pos2Z.inj_xO. change (2 ^ 1) with 2. lia.
  - rewrite Pos.iter_succ, Pos2Z.inj_xO, IH, Pos2Z.inj_succ, Z.pow_succ_r by lia. ring.
Qed.

Lemma digits_bounds M n : 0 ≤ n → 2 ^ n ≤ Z.pos M < 2 ^ (n + 1) → Z.pos (digits2_pos M) = n + 1.
Proof.
  intros Hn HM. rewrite digits2_log2. f_equal. apply Z.log2_unique; [done|].
  by replace (Z.succ n) with (n + 1) by lia.
Qed.

(** A mantissa of 24 bits is shifted no further. *)
Lemma shr_fexp_normal m e :
  2 ^ 23 ≤ m < 2 ^ 24 → -149 ≤ e → shr_fexp prec emax m e loc_Exact = (Build_shr_record m false false, e).
Proof.
  intros Hm He. destruct m as [|m|m]; [lia| |lia]. unfold shr_fexp, Zdigits2.
  rewrite (digits_bounds m 23) by (done || lia). unfold fexp, emin, prec, emax.
  replace (Z.max (23 + 1 + e - 24) (3 - 128 - 24) - e) with 0 by lia. done.
Qed.

(** The sum of [M] and [2^ec], rounded to 24 bits. *)
Lemma binary_round_normal M ec k :
  0 < k → -149 ≤ ec + k ≤ 104 → 2 ^ 23 * 2 ^ k ≤ Z.pos M → 2 * (Z.pos M mod 2 ^ k) ≠ 2 ^ k →
  rounded (Z.pos M) k < 2 ^ 24 →
  binary_round prec emax false M ec = S754_finite false (Z.to_pos (rounded (Z.pos M) k)) (ec + k).
Proof.
  intros Hk He Hlo Ht Hhi. pose proof (Z.pow_pos_nonneg 2 k ltac:(lia) ltac:(lia)) as Hp.
  assert (2 ^ 23 ≤ Z.pos M / 2 ^ k) as Hq by (apply Z.div_le_lower_bound; lia).
  assert (2 ^ 23 ≤ rounded (Z.pos M) k) as Hr by (unfold rounded; destruct (_ <? _); lia).
  assert (Z.pos M < 2 ^ 24 * 2 ^ k) as HM.
  { pose proof (Z_div_mod_eq_full (Z.pos M) (2 ^ k)) as E. pose proof (Z.mod_pos_bound (Z.pos M) (2 ^ k) Hp).
    assert (Z.pos M / 2 ^ k ≤ 2 ^ 24 - 1) by (unfold rounded in Hhi; destruct (_ <? _); lia). nia. }
  assert (fexp prec emax (Z.pos (digits2_pos M) + ec) - ec = k) as Hf.
  { rewrite (digits_bounds M (23 + k)); [|lia|].
    - unfold fexp, emin, prec, emax. lia.
    - rewrite !Z.pow_add_r by lia. change (2 ^ 1) with 2. change (2 ^ 24) with (2 ^ 23 * 2) in HM. lia. }
  unfold binary_round, shl_align. rewrite Hf. destruct k as [|k|k]; [lia| |lia].
  unfold binary_round_aux. unfold shr_fexp at 1, Zdigits2. rewrite Hf. cbn [shr shr_record_of_loc].
  rewrite (shifted_rounded (Z.pos M) (Z.pos k)) by (done || by apply iter_shr_shifted).
  rewrite shr_fexp_normal by lia. cbn [shr_m].
  destruct (rounded (Z.pos M) (Z.pos k)) as [|q|q] eqn:Eq; [lia| |lia].
  unfold emax, prec. by rewrite (proj2 (Z.leb_le _ _)) by lia.
Qed.

Lemma add_step m e c ec :
  ec < e → -149 ≤ e ≤ 104 → 2 ^ 23 ≤ Z.pos m → 2 * (Z.pos c mod 2 ^ (e - ec)) ≠ 2 ^ (e - ec) →
  Z.pos m + rounded (Z.pos c) (e - ec) < 2 ^ 24 →
  fadd (S754_finite false m e) (S754_finite false c ec) =
    S754_finite false (Z.to_pos (Z.pos m + rounded (Z.pos c) (e - ec))) e.
Proof.
  intros Hk He Hm Ht Hhi. unfold fadd, SFadd. rewrite Z.min_r by lia. unfold shl_align at 2.
  rewrite Z.sub_diag. unfold shl_align. destruct (ec - e) as [|k|k] eqn:Ek; [lia|lia|].
  replace (e - ec) with (Z.pos k) in * by lia. cbn [fst cond_Zopp].
  set (A := Pos.iter xO m k). change (Z.pos A + Z.pos c) with (Z.pos (A + c)). cbn [binary_normalize].
  pose proof (Z.pow_pos_nonneg 2 (Z.pos k) ltac:(lia) ltac:(lia)) as Hp.
  assert (Z.pos (A + c) = Z.pos c + Z.pos m * 2 ^ Z.pos k) as E by (rewrite Pos2Z.inj_add, <-iter_xO; unfold A; lia).
  assert (rounded (Z.pos (A + c)) (Z.pos k) = Z.pos m + rounded (Z.pos c) (Z.pos k)) as Er.
  { unfold rounded. rewrite E, Z.div_add, Z.mod_add by lia. lia. }
  rewrite <-Er. replace e with (ec + Z.pos k) by lia. apply binary_round_normal; try lia.
  - rewrite E. nia.
  - by rewrite E, Z.mod_add by lia.
Qed.

(** ** Many additions *)

(** [r] after [n] additions of [x]. *)
Definition add_times (n : Z) (x r : spec_float) : spec_float := Nat.iter (Z.to_nat n) (λ r, fadd r x) r.

Lemma add_times_0 x r : add_times 0 x r = r.
Proof. done. Qed.
Lemma add_times_succ n x r : 0 ≤ n → add_times (n + 1) x r = fadd (add_times n x r) x.
Proof. intros Hn. unfold add_times. by replace (Z.to_nat (n + 1)) with (S (Z.to_nat n)) by lia. Qed.
Lemma add_times_add n n' x r : 0 ≤ n → 0 ≤ n' → add_times (n + n') x r = add_times n' x (add_times n x r).
Proof. intros Hn Hn'. unfold add_times. by rewrite Z2Nat.inj_add, Nat.add_comm, Nat.iter_add. Qed.

(** How many of [n] additions of [c * 2^ec] to [m * 2^e] are known to add the same, and
    what they add to the mantissa. *)
Definition increment (c : positive) (ec e : Z) : Z := rounded (Z.pos c) (e - ec).
Definition same (n : Z) (m : positive) (e : Z) (c : positive) (ec : Z) : Z :=
  if (ec <? e) && (-149 <=? e) && (e <=? 104) && (2 ^ 23 <=? Z.pos m) &&
     negb (2 * (Z.pos c mod 2 ^ (e - ec)) =? 2 ^ (e - ec)) && (0 <? increment c ec e)
  then Z.min n ((2 ^ 24 - 1 - Z.pos m) / increment c ec e) else 0.

Lemma same_adds n m e c ec j :
  0 ≤ j ≤ same n m e c ec →
  add_times j (S754_finite false c ec) (S754_finite false m e) =
    S754_finite false (Z.to_pos (Z.pos m + j * increment c ec e)) e.
Proof.
  intros [Hj0 Hj]. unfold same in Hj. destruct (_ && _) eqn:Hb.
  2: { replace j with 0 by lia. rewrite Z.mul_0_l, Z.add_0_r. done. }
  rewrite !andb_true_iff, negb_true_iff in Hb. destruct Hb as [[[[[Hb1 Hb2] Hb3] Hb4] Hb5] Hb6].
  propify. assert (j * increment c ec e ≤ 2 ^ 24 - 1 - Z.pos m) as Hmax.
  { pose proof (Z.mul_div_le (2 ^ 24 - 1 - Z.pos m) (increment c ec e) ltac:(lia)). nia. }
  clear Hj. revert j Hj0 Hmax. apply (natlike_ind (λ j, j * increment c ec e ≤ 2 ^ 24 - 1 - Z.pos m → _)).
  - intros _. by rewrite Z.mul_0_l, Z.add_0_r.
  - intros j Hj IH Hmax. rewrite <-Z.add_1_r, add_times_succ, IH by lia. unfold increment in *.
    rewrite add_step by lia. do 2 f_equal. lia.
Qed.

(** The same computation in big steps; [fuel] bounds the number of steps. *)
Fixpoint add_fast (fuel : nat) (n : Z) (c : positive) (ec : Z) (r : spec_float) : option spec_float :=
  match fuel with
  | O => None
  | S fuel =>
    if n <=? 0 then Some r
    else
      match r with
      | S754_finite false m e =>
        let j := same n m e c ec in
        if 0 <? j then add_fast fuel (n - j) c ec (S754_finite false (Z.to_pos (Z.pos m + j * increment c ec e)) e)
        else add_fast fuel (n - 1) c ec (fadd r (S754_finite false c ec))
      | _ => add_fast fuel (n - 1) c ec (fadd r (S754_finite false c ec))
      end
  end.

Lemma add_fast_ok fuel n c ec r r' :
  0 ≤ n → add_fast fuel n c ec r = Some r' → add_times n (S754_finite false c ec) r = r'.
Proof.
  revert n r. induction fuel as [|fuel IH]; intros n r Hn; [done|]. cbn [add_fast].
  destruct (Z.leb_spec n 0).
  { intros [= <-]. by replace n with 0 by lia. }
  assert (∀ r, add_fast fuel (n - 1) c ec (fadd r (S754_finite false c ec)) = Some r' →
    add_times n (S754_finite false c ec) r = r') as Hone.
  { intros r1 Hr. replace n with (1 + (n - 1)) by lia. rewrite add_times_add by lia.
    apply IH; [lia|]. exact Hr. }
  destruct r as [| | |[] m e]; try apply Hone.
  destruct (Z.ltb_spec 0 (same n m e c ec)); [|apply Hone].
  set (j := same n m e c ec) in *. assert (j ≤ n) by (unfold j, same; destruct (_ && _); lia).
  intros Hr. replace n with (j + (n - j)) by lia. rewrite add_times_add by lia.
  rewrite (same_adds n) by (unfold j in *; lia). apply IH; [lia|exact Hr].
Qed.

(** ** What the program computes *)

(** [float_math 10 3] is the [float] closest to 196.83, the value of the formula. *)
Definition step_float : spec_float := S754_finite false 12899451 (-16).

Lemma float_math_value fuel s :
  (10 ≤ fuel)%nat → float_math fuel (float_of_int 10) (float_of_int 3) s = Ok (step_float, s).
Proof.
  intros Hf. do 10 (destruct fuel as [|fuel]; [lia|]). destruct s. vm_compute. reflexivity.
Qed.

(** The value of a finite [float], times [2^k]. *)
Definition scaled (k : Z) (x : spec_float) : option Z :=
  match x with
  | S754_zero _ => Some 0
  | S754_finite neg m e => if 0 <=? e + k then Some ((if neg then -1 else 1) * Z.pos m * 2 ^ (e + k)) else None
  | _ => None
  end.

(** It is within half a unit in the last place of [10 / 3 * 3^10 / 10^3 = 19683 / 100]. *)
Lemma step_float_closest : ∃ v, scaled 17 step_float = Some v ∧ Z.abs (100 * v - 2 ^ 17 * 19683) ≤ 100.
Proof. by eexists. Qed.

Lemma ten_million_steps : add_times 10000000 step_float (S754_zero false) = S754_finite false 8623425 8.
Proof. apply (add_fast_ok 200); [done|]. by vm_compute. Qed.

(** C30: the loop of [main] does not overflow; [r1] counts 177, the truncated value, ten million
    times. [r2], to which each step adds the closest [float] to 196.83, ends up more than 12
    percent above the sum of the steps: in its upper binades an addition is rounded to 256. *)
Theorem float_sum_drifts fuel s :
  (10 ≤ fuel)%nat →
  ∃ r2 v, profile_sums fuel s = Ok ((1770000000, r2), s) ∧ scaled 0 r2 = Some v ∧ v = 2207596800 ∧
    let exact := 10000000 * 19683 / 100 in exact < v ∧ 12 * exact < 100 * (v - exact).
Proof.
  intros Hf. exists (S754_finite false 8623425 8), 2207596800. split; [|by vm_compute].
  destruct (for_up_rule (λ i '(r1, r2) s', s' = s ∧ r1 = 177 * i ∧ r2 = add_times i step_float (S754_zero false))
    0 10000000 (λ _ '(r1, r2),
      d ← int_math 10 3;
      r1 ← int_val (r1 + d);
      d ← float_math fuel (float_of_int 10) (float_of_int 3);
      mret (r1, fadd r2 d)) (0, S754_zero false) s) as ([r1 r2] & s' & Hrun & -> & -> & ->).
  - done.
  - done.
  - intros i [r1 r2] s' Hi (-> & -> & ->).
    exists (177 * (i + 1), add_times (i + 1) step_float (S754_zero false)), s. split; [|done].
    assert (int_math 10 3 s = Ok (177, s)) as Hm by (destruct s; by vm_compute).
    erewrite bind_Ok by exact Hm. replace (177 * (i + 1)) with (177 * i + 177) by lia.
    erewrite bind_Ok by (apply int_val_in; unfold INT_MAX; lia).
    erewrite bind_Ok by (by apply float_math_value). by rewrite add_times_succ by lia.
  - rewrite ten_million_steps in Hrun. exact Hrun.
Qed.

Lemma float_sum_drifts_witness :
  ∃ r2 v, profile_sums 10 (mkState [] []) = Ok ((1770000000, r2), mkState [] []) ∧ scaled 0 r2 = Some v ∧ v = 2207596800.
Proof.
  destruct (float_sum_drifts 10 (mkState [] [])) as (r2 & v & Hrun & Hv & Hval & _); [lia|].
  exists r2, v. split; [exact Hrun|]. split; [exact Hv|exact Hval].
Defined.
