(* ===== verification/Maths.v ===== *)
(** * [C/Lecture01]: change and moles

    [change.c] and [mol.c] compute with [float] and [double]; a [double] is a [spec_float] of 53 bits
    with exponents up to 1024. [floor], [ceil] and [round] are those of the C library; for
    [pow], whose result C does not prescribe to the last bit, the programs have an argument. *)
From Stdlib Require Import SpecFloat.
From S2P Require Export Profile.

Definition dprec : Z := 53.
Definition demax : Z := 1024.

Definition dmul : spec_float → spec_float → spec_float := SFmul dprec demax.
Definition ddiv : spec_float → spec_float → spec_float := SFdiv dprec demax.
Definition double_of_int (z : Z) : spec_float := binary_normalize dprec demax z 0 false.
(** The conversion of a [float], which is exact. *)
Definition double_of_float (x : spec_float) : spec_float :=
  match x with S754_finite s m e => binary_round dprec demax s m e | x => x end.

Definition fsub : spec_float → spec_float → spec_float := SFsub prec emax.

(** ** [floor], [ceil] and [round]

    Of [m * 2^e] with [e < 0]; [m] has the sign. *)
Definition floor_z (m e : Z) : Z := m / 2 ^ (- e).
Definition ceil_z (m e : Z) : Z := - (- m / 2 ^ (- e)).
(** Half-way cases are rounded away from zero. *)
Definition round_z (m e : Z) : Z := Z.sgn m * ((2 * Z.abs m + 2 ^ (- e)) / 2 ^ (- e + 1)).

Definition to_integer (f : Z → Z → Z) (x : spec_float) : spec_float :=
  match x with
  | S754_finite s m e =>
    if 0 <=? e then x else binary_normalize dprec demax (f (if s then Z.neg m else Z.pos m) e) 0 s
  | x => x
  end.
Definition floor : spec_float → spec_float := to_integer floor_z.
Definition ceil : spec_float → spec_float := to_integer ceil_z.
Definition round : spec_float → spec_float := to_integer round_z.

(** What the programs have printed. *)
Definition screen : Type := list (string * list spec_float).
Definition print (fmt : string) (args : list spec_float) : M screen unit := λ s, Ok (tt, s ++ [(fmt, args)]).

(** ** [change.c] *)

(** [3.1415926] as a [float]. *)
Definition pi : spec_float := S754_finite false 13176794 (-22).

(** [typed] is what [scanf] reads, if it reads a number. *)
Definition show_change (typed : option spec_float) : M screen unit :=
  print "Please enter the price (yuan): " [];;
  let price := default (S754_zero false) typed in
  let change := fsub (float_of_int 100) price in
  print "floor: Change: %.3f yuan.\n" [floor (double_of_float change)];;
  print "ceil: Change: %.3f yuan.\n" [ceil (double_of_float change)];;
  print "round: pi = %.3f yuan.\n" [round (double_of_float pi)].

(** A [long long], shifted to the left. *)
Definition shl64 (x k : Z) : M screen Z :=
  if (0 <=? x) && (0 <=? k) && (k <? 64) && (x * 2 ^ k <? 2 ^ 63) then mret (x * 2 ^ k) else ub_fail IntOverflow.

(** The last [scanf] is given a [float] in the place of a pointer. *)
Definition change_main (typed : option spec_float) : M screen Z :=
  show_change typed;;
  _ ← shl64 1 63;
  ub_fail BadType.

(** ** [mol.c] *)

Definition MOL : spec_float := S754_finite false 8970499038696289 26.
Definition six_02 : spec_float := S754_finite false 6777917439192596 (-50).

Definition mol_main (pow : spec_float → spec_float → spec_float) : M screen Z :=
  let Q := dmul (dmul (ddiv (double_of_int 6) (double_of_int 32)) six_02)
             (pow (double_of_int 10) (double_of_int 23)) in
  let Q2 := dmul (ddiv (double_of_int 6) (double_of_int 32)) MOL in
  print "%.3e\n" [Q2];;
  print "%5e\n" [Q];;
  print "%.5g\n" [Q];;
  mret 0.

(** ** What the functions round to *)

Section rounding.
Context (m e : Z) (He : e < 0).

Lemma power_positive : 0 < 2 ^ (- e).
Proof using He. apply Z.pow_pos_nonneg; lia. Qed.

Lemma floor_z_below : floor_z m e * 2 ^ (- e) ≤ m < (floor_z m e + 1) * 2 ^ (- e).
Proof using He.
  pose proof power_positive. unfold floor_z. pose proof (Z_div_mod_eq_full m (2 ^ (- e))).
  pose proof (Z.mod_pos_bound m (2 ^ (- e))). lia.
Qed.

Lemma ceil_z_above : (ceil_z m e - 1) * 2 ^ (- e) < m ≤ ceil_z m e * 2 ^ (- e).
Proof using He.
  pose proof power_positive. unfold ceil_z. pose proof (Z_div_mod_eq_full (- m) (2 ^ (- e))).
  pose proof (Z.mod_pos_bound (- m) (2 ^ (- e))). lia.
Qed.

(** The closest integer, and the one away from zero when there are two. *)
Lemma round_z_closest :
  2 * Z.abs (m - round_z m e * 2 ^ (- e)) ≤ 2 ^ (- e) ∧
  (2 * Z.abs (m - round_z m e * 2 ^ (- e)) = 2 ^ (- e) → Z.abs m < Z.abs (round_z m e) * 2 ^ (- e)).
Proof using He.
  pose proof power_positive as Hp. unfold round_z. rewrite Z.pow_add_r by lia. change (2 ^ 1) with 2.
  set (k := 2 ^ (- e)) in *. set (q := (2 * Z.abs m + k) / (k * 2)).
  pose proof (Z_div_mod_eq_full (2 * Z.abs m + k) (k * 2)) as E. fold q in E.
  pose proof (Z.mod_pos_bound (2 * Z.abs m + k) (k * 2) ltac:(lia)) as Hm.
  assert (0 ≤ q) as Hq by (apply Z.div_pos; lia).
  assert (- k ≤ 2 * (Z.abs m - q * k) < k) as Hb by lia. clear E Hm.
  destruct (Z.lt_trichotomy m 0) as [H|[->|H]].
  - rewrite (Z.sgn_neg m) by lia. replace (-1 * q * k) with (- (q * k)) by ring.
    replace (Z.abs (-1 * q) * k) with (q * k) by (rewrite (Z.abs_neq (-1 * q)); lia). lia.
  - cbn in *. lia.
  - rewrite (Z.sgn_pos m) by lia. replace (1 * q * k) with (q * k) by ring.
    replace (Z.abs (1 * q) * k) with (q * k) by (rewrite (Z.abs_eq (1 * q)); lia). lia.
Qed.
End rounding.

(** ** What the programs show *)

(** The change for a whole number of yuan, up to 100, is shown exactly, both ways. *)
Definition whole (p : Z) : bool :=
  match show_change (Some (float_of_int p)) [] with
  | Ok (_, [_; (_, [x]); (_, [y]); (_, [z])]) =>
    SFeqb x (double_of_int (100 - p)) && SFeqb y (double_of_int (100 - p)) && SFeqb z (double_of_int 3)
  | _ => false
  end.
Lemma whole_change p : 0 ≤ p ≤ 100 → whole p = true.
Proof.
  intros Hp. assert (forallb whole (seqZ 0 101) = true) as H by (vm_compute; reflexivity).
  rewrite forallb_forall in H. apply H, list_elem_of_In, elem_of_seqZ. lia.
Qed.

(** Of 62.75 yuan it shows 62 and 63. *)
Lemma part_change :
  ∃ x y z, show_change (Some (S754_finite false 9764864 (-18))) [] =
    Ok (tt, [("Please enter the price (yuan): ", []); ("floor: Change: %.3f yuan.\n", [x]);
             ("ceil: Change: %.3f yuan.\n", [y]); ("round: pi = %.3f yuan.\n", [z])]%string) ∧
    SFeqb x (double_of_int 62) = true ∧ SFeqb y (double_of_int 63) = true ∧ SFeqb z (double_of_int 3) = true.
Proof. eexists _, _, _. split; [vm_compute; reflexivity|]. by vm_compute. Qed.

(** Whatever is typed, the program ends in the overflow of its shift. *)
Lemma change_undefined typed s : change_main typed s = UB IntOverflow.
Proof. done. Qed.

(** [Q2] is 1.12875e23 to 16 digits. *)
Lemma mol_prints pow s :
  ∃ Q Q2 v, mol_main pow s = Ok (0, s ++ [("%.3e\n", [Q2]); ("%5e\n", [Q]); ("%.5g\n", [Q])]%string) ∧
    scaled 0 Q2 = Some v ∧ Z.abs (v - 112875 * 10 ^ 18) ≤ 10 ^ 7.
Proof.
  eexists _, (S754_finite false 6727874279022217 24), _. split; [|split; [reflexivity|by vm_compute]].
  unfold mol_main, print, mbind, M_bind, mret, M_ret.
  replace (dmul _ MOL) with (S754_finite false 6727874279022217 24) by (vm_compute; reflexivity).
  by rewrite <-!app_assoc.
Qed.
