(* ===== verification/ForkSum.v ===== *)
(** * [03_process/multi-process.cpp]: a sum in five processes

    The program as one process runs it: [fork] returns 0 in a child, which leaves the
    loop and computes its part, and another number in the parent. *)
From S2P Require Import Numeric.
From S2P Require Export SockLib.

Definition THREAD_NUM : Z := 5.

Section program.
Context {e : Env}.

Definition get_interval_sum (start : Z) : M trace Z :=
  '(k, temp) ← interval_sum start;
  printf "I'm %dth, temp = %lld\n" [AInt k; ANum ILLong temp];;
  mret temp.

(** The body of the loop that makes the children, over [i] and [total_sum]. *)
Definition spawn (st : Z * Z) : M trace (ctl (Z * Z) (Z * Z)) :=
  let '(i, total_sum) := st in
  if i <? THREAD_NUM then
    pid ← sys (Libcall "fork" []);
    if r_ret pid =? 0 then
      z ← get_interval_sum i;
      total_sum ← long_val (total_sum + z);
      mret (Break (i, total_sum))
    else mret (Next (i + 1, total_sum))
  else mret (Break (i, total_sum)).

(** The body of the loop that waits for them, without blocking: [WNOHANG] is 1. *)
Definition reclaim (reclaim_num : Z) : M trace (ctl Z unit) :=
  wpid ← sys (Libcall "waitpid" [-1; 1]);
  let reclaim_num := if 0 <? r_ret wpid then reclaim_num + 1 else reclaim_num in
  if negb (reclaim_num =? THREAD_NUM) then mret (Next reclaim_num) else mret (Break tt).

(** The parent is followed for [n] rounds of its waiting loop; the clock is the [r_off] of
    the reply. *)
Definition main (n : nat) : M trace (option Z) :=
  start ← sys (Libcall "clock" []);
  x ← loop 6 spawn (0, 0);
  match x with
  | Returned z => mret (Some z)
  | Left (i, total_sum) =>
    if i <? THREAD_NUM then mret (Some 0)
    else
      after_rounds (rounds n reclaim 0) (λ _,
        pid ← sys (Libcall "getpid" []);
        ppid ← sys (Libcall "getppid" []);
        printf "I'm parent, pid = %u, ppid = %u\n" [AInt (r_ret pid); AInt (r_ret ppid)];;
        printf "multi-process result = %lld\n" [ANum ILLong total_sum];;
        stop ← sys (Libcall "clock" []);
        let duration_ms := r_off stop - r_off start in
        printf "多进程花费了%lld毫秒\n" [ANum ILong duration_ms];;
        mret 0)
  end.
End program.

Definition sum_line (k : Z) : output :=
  Printf "I'm %dth, temp = %lld\n" [AInt k; ANum ILLong (interval_squares k)].

Lemma interval_small k : 0 ≤ k < 5 → 0 ≤ interval_squares k < 2 ^ 50.
Proof.
  intros Hk. assert (k = 0 ∨ k = 1 ∨ k = 2 ∨ k = 3 ∨ k = 4) as Hc by lia.
  by repeat destruct Hc as [->|Hc]; [..|subst k].
Qed.

Section proofs.
Context {e : Env} {w0 : world} (Henv : legal_env w0).
Abbreviation runs := (runs w0).

Lemma runs_call name args w (Q : reply → world → Prop) :
  (∀ r, -1 ≤ r_ret r → Q r w) → runs (sys (Libcall name args)) w Q.
Proof. apply (runs_libcall Henv). Qed.

(** A child prints the sum of its part; what it has added up is lost with it: the parent
    prints 0, after it has reaped as many processes as it has tried to make, or it goes on
    waiting. *)
Lemma multi_process_prints n w :
  runs (main n) w (λ r w',
    (r = Some 0 ∧ ∃ k, 0 ≤ k < 5 ∧ outs w' = outs w ++ [sum_line k]) ∨
    (r = None ∧ outs w' = outs w) ∨
    (r = Some 0 ∧ ∃ pid ppid d, outs w' = outs w ++
       [Printf "I'm parent, pid = %u, ppid = %u\n" [AInt pid; AInt ppid];
        Printf "multi-process result = %lld\n" [ANum ILLong 0];
        Printf "多进程花费了%lld毫秒\n" [ANum ILong d]])).
Proof.
  unfold main. step. apply runs_call. intros start _. step.
  apply (runs_loop (λ st w1, 0 ≤ st.1 ≤ 5 ∧ st.2 = 0 ∧ outs w1 = outs w) (λ st _, Z.to_nat (5 - st.1)));
    [done|cbn; lia|].
  intros [i total] w1 (Hi & Ht & Ho). cbn in Hi, Ht. subst total. unfold spawn. step.
  - step. apply runs_call. intros pid _. step.
    + unfold get_interval_sum. step. step. eapply runs_pure.
      { intros tr. apply interval_sum_runs. unfold THREAD_NUM in *. lia. }
      cbn beta iota. steps. eapply runs_pure.
      { intros tr. unfold long_val. rewrite bool_decide_true; [done|].
        pose proof (interval_small i). unfold THREAD_NUM in *. lia. }
      step. rewrite (proj2 (Z.ltb_lt _ _)) by done. step. left. split; [done|].
      exists i. unfold THREAD_NUM in *. split; [lia|]. cbn. by rewrite Ho.
    + step. cbn. unfold THREAD_NUM in *. split_and!; [lia..|done|done|lia].
  - step. rewrite (proj2 (Z.ltb_ge _ _)) by done. step.
    apply (runs_rounds (λ _ w2, outs w2 = outs w)); [done| |].
    { intros _ w2 Hw2. right. by left. }
    intros k w2 Hw2. unfold reclaim. step. apply runs_call. intros r _. step; [by step|].
    do 2 step. apply runs_call. intros ? _. step. apply runs_call. intros ? _. steps.
    apply runs_call. intros stop _. steps. right. right. split; [done|].
    eexists _, _, _. cbn. by rewrite Hw2, <- !app_assoc.
Qed.
End proofs.
