(* ===== verification/Exercises.v ===== *)
(** * Small exercises in C

    The byte order programs of [00_basic], [C/Lecture02/bytes.c],
    [00_basic/calloc.c], the function pointers of [01_linux] and
    [C/CallBackFunction], and the global variable of [C/StaticUsage]. *)
From S2P Require Export Format.

(** What the program has printed, and its global variable, if it has one. *)
Record state := mkState { globalVar : Z; out : list (string * list arg) }.

Definition printf (fmt : string) (args : list arg) : M state unit := λ s,
  Ok (tt, mkState (globalVar s) (out s ++ [(fmt, args)])).
Definition puts (text : string) : M state unit := printf (text +:+ "\n") [].
Definition boot : state := mkState 0 [].

(** ** The representation of integers *)

Fixpoint le_bytes (n : nat) (x : Z) : list Z :=
  match n with O => [] | S n => x mod 256 :: le_bytes n (x / 256) end.
Fixpoint le_value (l : list Z) : Z :=
  match l with [] => 0 | x :: l => x + 256 * le_value l end.

(** The bytes of an [n]-byte integer in memory; a big-endian machine has the most
    significant byte first. *)
Definition representation (little : bool) (n : nat) (x : Z) : list Z :=
  if little then le_bytes n (x mod 2 ^ (8 * Z.of_nat n))
  else rev (le_bytes n (x mod 2 ^ (8 * Z.of_nat n))).

(** The byte as a [char], which is signed. *)
Definition char_of_byte (x : Z) : Z := if x <? 128 then x else x - 256.

Definition byte_at (i : Z) (l : list Z) : M state Z :=
  match zlookup l i with None => ub_fail OutOfBounds | Some x => mret x end.

Section endian.
Context (little : bool).

Definition check_endian_main : M state Z :=
  let x := representation little 4 305419896 in  (* 0x12345678 *)
  p ← byte_at 0 x;
  (if p =? 120 then printf "系统是小端（Little Endian）\n" []
   else if p =? 18 then printf "系统是大端（Big Endian）\n" []
   else printf "无法识别字节序\n" []);;
  mret 0.

Definition little_endian_main : M state Z :=
  let a := representation little 4 305419896 in
  p ← byte_at 0 a;
  (if char_of_byte p =? 120 then printf "little endian\n" []
   else
   p ← byte_at 0 a;
   if char_of_byte p =? 18 then printf "big endian\n" [] else mret tt);;
  mret 0.

(** [&&] reads [b[1]] only when the first comparison holds. *)
Definition both_bytes (t : list Z) (x0 x1 : Z) : M state bool :=
  p0 ← byte_at 0 t;
  if char_of_byte p0 =? x0 then p1 ← byte_at 1 t; mret (char_of_byte p1 =? x1)
  else mret false.

Definition union_main : M state Z :=
  let test := representation little 2 258 in  (* 0x0102 *)
  big ← both_bytes test 1 2;
  (if (big : bool) then printf "big endian.\n" []
   else
   small ← both_bytes test 2 1;
   if (small : bool) then printf "small endian.\n" [] else printf "unknown endian.\n" []);;
  mret 0.
End endian.

(** ** [bytes.c] *)

Definition uint8 (z : Z) : Z := z mod 256.
Definition bytes_main : M state Z :=
  let t := -1 in
  printf "original int8 t = %d\n" [AInt t];;
  printf "unsigned uint8 t = %u\n" [AInt (uint8 t)];;
  printf "unsigned uint8 t = %x\n" [AInt (uint8 t)];;
  mret 0.

(** ** [calloc.c] *)

(** What [malloc] and [calloc] give: [None] when there is no memory. *)
Definition malloc_ints (room : bool) (n : nat) : option (list (cell Z)) :=
  if room then Some (replicate n Indet) else None.
Definition calloc_ints (room : bool) (n : nat) : option (list (cell Z)) :=
  if room then Some (replicate n (Val 0)) else None.

Definition read_int (p : option (list (cell Z))) (i : Z) : M state Z :=
  match p with
  | None => ub_fail NullDeref
  | Some l => match zlookup l i with None => ub_fail OutOfBounds | Some c => use c end
  end.

Definition print_ints (p : option (list (cell Z))) : M state unit :=
  for_up 0 20 (λ i _, x ← read_int p i; printf "%d " [AInt x]) tt.

Definition calloc_main (room1 room2 : bool) : M state Z :=
  let malloc_ptr := malloc_ints room1 20 in
  let calloc_ptr := calloc_ints room2 20 in
  print_ints malloc_ptr;;
  puts "";;
  print_ints calloc_ptr;;
  puts "";;
  mret 0.

(** ** Function pointers *)

(** A pointer to a function of two [int]s; calling [NULL] is undefined. *)
Definition callback_t : Type := option (Z → Z → M state Z).
Definition call (f : callback_t) (a d : Z) : M state Z :=
  match f with None => ub_fail NullDeref | Some f => f a d end.

Definition add (a d : Z) : M state Z := int_val (a + d).
Definition subtract (a d : Z) : M state Z := int_val (a - d).
Definition multiply (a d : Z) : M state Z := int_val (a * d).

Definition pointer_func_main : M state Z :=
  let my_func_ptr := Some add in
  res ← call my_func_ptr 1 2;
  printf "res = %d\n" [AInt res];;
  mret 0.

Definition NUM : nat := 100.
(** [callback_array] after [init]; it is a global variable, [NULL] at first. *)
Definition init_callbacks : list callback_t :=
  <[1%nat := Some subtract]> (<[0%nat := Some add]> (replicate NUM None)).

Definition call_both (callback_array : list callback_t) : M state Z :=
  for_up 0 2 (λ i _,
    match zlookup callback_array i with
    | None => ub_fail OutOfBounds
    | Some f => res ← call f 99 11; printf "res = %d\n" [AInt res]
    end) tt;;
  mret 0.
Definition pointer_func_2_main : M state Z := call_both init_callbacks.

(** [g_call_inst] has two members, the second of which stays [NULL]. *)
Record callback := mkCallback {
  send_func : option (string → bool → M state bool); recv_func : option (string → M state bool) }.
Definition tcp_send_data (msg_data : string) (is_sync : bool) : M state bool :=
  puts "send data";; mret true.
Definition pointer_func_3_main : M state Z :=
  let g_call_inst := mkCallback (Some tcp_send_data) None in
  match send_func g_call_inst with
  | None => ub_fail NullDeref
  | Some f => f "hello"%string true;; mret 0
  end.

Definition compute (a d : Z) (callback : callback_t) : M state Z := call callback a d.
Definition callback_main : M state Z :=
  let x := 5 in
  let y := 10 in
  sum ← compute x y (Some add);
  printf "Sum: %d\n" [AInt sum];;
  product ← compute x y (Some multiply);
  printf "Product: %d\n" [AInt product];;
  mret 0.

(** ** [StaticUsage] *)

Definition set_global (z : Z) : M state unit := λ s, Ok (tt, mkState z (out s)).

Definition incrementGlobalVar : M state unit :=
  g ← gets globalVar; g ← int_val (g + 1); set_global g.
Definition printGlobalVar : M state unit :=
  g ← gets globalVar; printf "Global Variable in file1: %d\n" [AInt g].
Definition accessGlobalVar : M state unit :=
  g ← gets globalVar;
  g ← int_val (g + 1);
  set_global g;;
  g ← gets globalVar;
  printf "Global Variable in file2: %d\n" [AInt g].
Definition static_usage_main : M state Z :=
  incrementGlobalVar;; printGlobalVar;; accessGlobalVar;; printGlobalVar;; mret 0.

(** ** What they print *)

(** The bytes in memory give the value back, in either order. *)
Lemma le_bytes_value n x : 0 ≤ x < 2 ^ (8 * Z.of_nat n) → le_value (le_bytes n x) = x.
Proof.
  revert x. induction n as [|n IH]; intros x Hx.
  - change (2 ^ (8 * Z.of_nat 0)) with 1 in Hx. simpl. lia.
  - replace (8 * Z.of_nat (S n)) with (8 + 8 * Z.of_nat n) in Hx by lia.
    rewrite Z.pow_add_r in Hx by lia. change (2 ^ 8) with 256 in Hx. cbn [le_bytes le_value].
    rewrite IH; [pose proof (Z_div_mod_eq_full x 256); lia|].
    split; [apply Z.div_pos; lia|]. apply Z.div_lt_upper_bound; lia.
Qed.

Lemma representation_value (little : bool) n x :
  0 ≤ x < 2 ^ (8 * Z.of_nat n) →
  le_value (if little then representation little n x else rev (representation little n x)) = x.
Proof.
  intros Hx. unfold representation. rewrite Z.mod_small by done.
  destruct little; [|rewrite rev_involutive]; by apply le_bytes_value.
Qed.

(** On a machine of either byte order the three programs name that order, and the
    bytes that they look at are those of the integer. *)
Lemma endianness_found (little : bool) :
  check_endian_main little boot = Ok (0, mkState 0
    [((if little then "系统是小端（Little Endian）\n" else "系统是大端（Big Endian）\n")%string, [])]) ∧
  little_endian_main little boot = Ok (0, mkState 0
    [((if little then "little endian\n" else "big endian\n")%string, [])]) ∧
  union_main little boot = Ok (0, mkState 0
    [((if little then "small endian.\n" else "big endian.\n")%string, [])]).
Proof. by destruct little. Qed.

Lemma bytes_printed :
  bytes_main boot = Ok (0, mkState 0
    [("original int8 t = %d\n", [AInt (-1)]); ("unsigned uint8 t = %u\n", [AInt 255]);
     ("unsigned uint8 t = %x\n", [AInt 255])]%string).
Proof. done. Qed.

(** The first loop of [calloc.c] is undefined, whether there is memory or not; on the
    memory of [calloc] the loop prints zeros. *)
Lemma calloc_undefined (room1 room2 : bool) :
  calloc_main room1 room2 boot = UB (if room1 then Uninit else NullDeref).
Proof. by destruct room1. Qed.

Lemma calloc_zeros s :
  print_ints (calloc_ints true 20) s =
  Ok (tt, mkState (globalVar s) (out s ++ replicate 20 ("%d "%string, [AInt 0]))).
Proof.
  set (line := ("%d "%string, [AInt 0])).
  destruct (for_up_rule
    (λ i _ s', s' = mkState (globalVar s) (out s ++ replicate (Z.to_nat i) line)) 0 20
    (λ i _, x ← read_int (calloc_ints true 20) i; printf "%d " [AInt x]) tt s) as ([] & s' & Hrun & ->).
  - lia.
  - destruct s. by rewrite app_nil_r.
  - intros i [] s' Hi ->. exists tt.
    assert (zlookup (replicate 20 (Val 0)) i = Some (Val 0)) as Hz.
    { apply zlookup_Some. split; [lia|]. apply lookup_replicate. split; [done|lia]. }
    unfold read_int, calloc_ints. rewrite Hz. eexists. split; [reflexivity|]. simpl.
    replace (Z.to_nat (i + 1)) with (Z.to_nat i + 1)%nat by lia.
    by rewrite replicate_add, app_assoc.
  - exact Hrun.
Qed.

Lemma pointers_print :
  pointer_func_main boot = Ok (0, mkState 0 [("res = %d\n"%string, [AInt 3])]) ∧
  pointer_func_2_main boot =
    Ok (0, mkState 0 [("res = %d\n"%string, [AInt 110]); ("res = %d\n"%string, [AInt 88])]) ∧
  pointer_func_3_main boot = Ok (0, mkState 0 [("send data\n"%string, [])]) ∧
  callback_main boot =
    Ok (0, mkState 0 [("Sum: %d\n"%string, [AInt 15]); ("Product: %d\n"%string, [AInt 50])]).
Proof. done. Qed.

(** Before [init] the calls through the array are undefined. *)
Lemma callbacks_before_init s : call_both (replicate NUM None) s = UB NullDeref.
Proof. done. Qed.

(** Both files work on one variable. *)
Lemma static_usage_prints :
  static_usage_main boot = Ok (0, mkState 2
    [("Global Variable in file1: %d\n", [AInt 1]); ("Global Variable in file2: %d\n", [AInt 2]);
     ("Global Variable in file1: %d\n", [AInt 2])]%string).
Proof. done. Qed.
