(* ===== verification/Arrays.v ===== *)
(** * Arrays, addresses and several files

    Exercises of [C]: [Lecture02/multiarray.c], [pointer.c], [chararray.c], [iplus.c], [temp.c],
    [Lecture01/hello_world.c], [Valgrind/uninitalize.cpp], and the programs made of several
    files ([Extern], [StaticAndDynamic], [CForCPP], [RepeatHeader]). They run in the monad of
    Exercises.v; what [std::cout] shows is an entry of [out] like what [printf] prints. *)
From S2P Require Export Buffer Exercises.

(** The size of an [int], which is also the distance of two in an array. *)
Definition sizeof_int : Z := 4.
Definition sizeof_pointer : Z := 8.

(** ** [multiarray.c] *)

Definition ROW : Z := 3.
Definition COL : Z := 4.
Definition a : list (list Z) := [[0; 1; 2; 3]; [1; 2; 3; 4]; [2; 3; 4; 5]].

Definition a_at (i j : Z) : M state Z :=
  match zlookup a i with
  | None => ub_fail OutOfBounds
  | Some row => match zlookup row j with None => ub_fail OutOfBounds | Some x => mret x end
  end.

(** [&a[i][j]], for the address [p] of the array: rows follow each other in memory. *)
Definition a_address (p i j : Z) : Z := p + (i * COL + j) * sizeof_int.

Definition print_cell (p i j : Z) : M state unit :=
  x ← a_at i j;
  printf "&a[%d][%d] = %p, a[%d][%d] = %d \n"
    [AInt i; AInt j; ANum IPtr (a_address p i j); AInt i; AInt j; AInt x].

Definition multiarray_main (p : Z) : M state Z :=
  for_up 0 ROW (λ i _,
    for_up 0 COL (λ j _, print_cell p i j) tt;;
    printf "\n" []) tt;;
  printf "%d\n" [ANum size_t (ROW * COL * sizeof_int)];;
  printf "%d\n" [ANum size_t (COL * sizeof_int)];;
  printf "%d\n" [ANum size_t sizeof_int];;
  mret 0.

(** ** [pointer.c] *)

Definition my_func (p : Z) : M state unit :=
  printf "p = %p, sizeof = %ld\n" [ANum IPtr p; ANum size_t sizeof_pointer];;
  printf "p+1 = %p\n" [ANum IPtr (p + 1)];;
  printf "p+2 = %p\n" [ANum IPtr (p + 2)];;
  printf "p+3 = %p\n" [ANum IPtr (p + 3)].

(** [str] is the address of the array. *)
Definition pointer_main (str : Z) : M state Z :=
  for_up 0 4 (λ i _, printf "i = %p\n" [ANum IPtr (str + i)]) tt;;
  my_func str;;
  mret 0.

(** ** [chararray.c] *)

(** [char array2[][6]]: an initialiser with more than six characters fills its row, and
    leaves no room for a NUL. *)
Definition row_of (s : bytes) : buffer :=
  take 6 ((Val <$> s) ++ replicate 6 (Val "000"%char)).
Definition array2 : buffer := row_of (b "Hello") ++ row_of (b "Worldxxyz").

(** The row of that number: a pointer into the array. *)
Definition row (i : nat) (l : buffer) : buffer := drop (6 * i) l.

Definition print_rows (l : buffer) : M state unit :=
  s0 ← c_str (row 0 l);
  s1 ← c_str (row 1 l);
  printf "%s, %s\n" [AStr s0; AStr s1].

(** [scanf("%s", array2[1])]: the word and a NUL, wherever they end. *)
Definition scan_second (word : bytes) (l : buffer) : M state buffer :=
  if zlen word <? zlen (row 1 l) then mret (take 6 l ++ fill (row 1 l) (word ++ ["000"%char]))
  else ub_fail OutOfBounds.

Definition chararray_main (word : bytes) : M state Z :=
  print_rows array2;;
  l ← scan_second word array2;
  print_rows l;;
  mret 0.

(** ** [iplus.c] *)

Definition N_ : Z := 4.

(** [a[i] = b[i++]]: the index of [a] is computed before [b[i++]] is, if [left_first], or
    after it. *)
Definition assign (left_first : bool) (arr : list Z) (i : Z) (brr : list Z) : M state (list Z * Z) :=
  match zlookup brr i with
  | None => ub_fail OutOfBounds
  | Some v =>
    i' ← int_val (i + 1);
    match zupdate arr (if left_first then i else i') v with
    | None => ub_fail OutOfBounds
    | Some arr => mret (arr, i')
    end
  end.

Fixpoint iplus_loop (fuel : nat) (left_first : bool) (arr : list Z) (i : Z) (brr : list Z) : M state unit :=
  match fuel with
  | O => no_fuel
  | S fuel =>
    if i <? N_ then
      '(arr, i) ← assign left_first arr i brr;
      printf "i = %d\n" [AInt i];;
      iplus_loop fuel left_first arr i brr
    else mret tt
  end.

Definition iplus_main (fuel : nat) (left_first : bool) : M state Z :=
  iplus_loop fuel left_first (replicate (Z.to_nat N_) 0) 0 (replicate (Z.to_nat N_) 0);;
  mret 0.

(** ** [temp.c]

    Its last statement, an unfinished call of [itoa], does not parse; what comes before it
    is modelled. *)

Definition ARRAY_LENGTH : Z := 5.

(** [scanf("%d", &array[i])]; [typed i] is the number that it reads, if it reads one. *)
Definition scan_int (typed : Z → option Z) (i : Z) (array : list Z) : M state (list Z) :=
  match typed i with
  | None => mret array
  | Some x => match zupdate array i x with None => ub_fail OutOfBounds | Some array => mret array end
  end.

Definition element (array : list Z) (i : Z) : M state Z :=
  match zlookup array i with None => ub_fail OutOfBounds | Some x => mret x end.

Definition scan_and_show (typed : Z → option Z) : M state (list Z) :=
  let array := replicate (Z.to_nat ARRAY_LENGTH) 0 in
  array ← for_up 0 5 (λ i array, scan_int typed i array) array;
  for_up 0 5 (λ i _, x ← element array i; printf "%d" [AInt x]) tt;;
  mret array.

Definition temp_main (typed : Z → option Z) : M state Z :=
  array ← scan_and_show typed;
  x ← element array 5;
  printf "%d\n" [AInt x];;
  mret 0.

(** ** [uninitalize.cpp] *)

Definition uninitalize_main : M state Z :=
  let x : cell Z := Indet in
  x ← use x;
  (if x =? 0 then puts "X is zero" else mret tt);;
  mret 0.

(** ** Programs of several files *)

(** [Extern]: [a] is defined in [func.c], and is the global variable of the state. *)
Definition extern_boot : state := mkState 10 [].
Definition g : M state unit := printf "g  hello\n" [].
Definition extern_main : M state Z :=
  g;;
  x ← gets globalVar;
  printf "a = %d\n" [AInt x];;
  mret 0.

(** [StaticAndDynamic] *)
Definition lib_add (x y : Z) : M state Z := int_val (x + y).
Definition sub (x y : Z) : M state Z :=
  lib_add x y;;
  int_val (x - y).

(** [CForCPP] *)
Definition c_add (x y : Z) : M state Z := int_val (x + y).
Definition cforcpp_main : M state Z :=
  puts "Hello World!";;
  z ← c_add 1 2;
  printf "%d\n" [AInt z];;
  mret 0.

(** [RepeatHeader], and two programs that greet. *)
Definition prog_main : M state Z := mret 0.
Definition hello_world_main : M state Z :=
  let s := b "hello" in
  let i := 10 in
  printf "the string = %s, int = %d\n" [AStr s; AInt i];;
  mret 0.
Definition hello_main : M state Z := puts "Hello, Bazel + C++!";; mret 0.

(** ** What they print *)

(** The cells in the order of their addresses, [a[i][j]] being [i + j]. *)
Definition cell_line (p i j : Z) : string * list arg :=
  ("&a[%d][%d] = %p, a[%d][%d] = %d \n"%string,
   [AInt i; AInt j; ANum IPtr (p + 4 * (4 * i + j)); AInt i; AInt j; AInt (i + j)]).

Lemma print_cell_ok p i j s :
  0 ≤ i < ROW → 0 ≤ j < COL → print_cell p i j s = Ok (tt, mkState (globalVar s) (out s ++ [cell_line p i j])).
Proof.
  unfold ROW, COL. intros Hi Hj. assert (a_at i j s = Ok (i + j, s)) as Ha.
  { assert (i = 0 ∨ i = 1 ∨ i = 2) as [-> | [-> | ->]] by lia;
      assert (j = 0 ∨ j = 1 ∨ j = 2 ∨ j = 3) as [-> | [-> | [-> | ->]]] by lia; by destruct s. }
  unfold print_cell, mbind, M_bind. rewrite Ha. unfold printf, cell_line, a_address, COL, sizeof_int.
  by replace (p + (i * 4 + j) * 4) with (p + 4 * (4 * i + j)) by lia.
Qed.

Lemma print_row_ok p i s :
  0 ≤ i < ROW →
  for_up 0 COL (λ j _, print_cell p i j) tt s =
    Ok (tt, mkState (globalVar s) (out s ++ (cell_line p i <$> seqZ 0 COL))).
Proof.
  intros Hi. destruct (for_up_rule
    (λ j _ s', s' = mkState (globalVar s) (out s ++ (cell_line p i <$> seqZ 0 j))) 0 COL
    (λ j _, print_cell p i j) tt s) as ([] & s' & Hrun & ->); [done| | |exact Hrun].
  - destruct s. cbn. by rewrite app_nil_r.
  - intros j [] s' Hj ->. exists tt. rewrite print_cell_ok by done. eexists. split; [done|].
    cbn. rewrite seqZ_next by lia. by rewrite fmap_app, app_assoc.
Qed.

Lemma multiarray_prints p :
  multiarray_main p boot = Ok (0, mkState 0
    ((seqZ 0 ROW ≫= λ i, (cell_line p i <$> seqZ 0 COL) ++ [("\n"%string, [])]) ++
     [("%d\n", [ANum size_t 48]); ("%d\n", [ANum size_t 16]); ("%d\n", [ANum size_t 4])]%string)).
Proof.
  destruct (for_up_rule
    (λ i _ s', s' = mkState 0 (seqZ 0 i ≫= λ i, (cell_line p i <$> seqZ 0 COL) ++ [("\n"%string, [])])) 0 ROW
    (λ i _, for_up 0 COL (λ j _, print_cell p i j) tt;; printf "\n" []) tt boot)
    as ([] & s' & Hrun & ->); [done|done| |].
  - intros i [] s' Hi ->. exists tt. unfold mbind at 1, M_bind at 1. rewrite print_row_ok by done.
    eexists. split; [done|]. cbn. rewrite seqZ_next, bind_app by lia. cbn. by rewrite app_nil_r, app_assoc.
  - unfold multiarray_main, mbind at 1, M_bind at 1. rewrite Hrun. unfold mbind, M_bind, printf. cbn [globalVar out]. by rewrite <-!app_assoc.
Qed.

(** A byte is one further than the one before it. *)
Lemma pointer_prints str :
  ∃ s, pointer_main str boot = Ok (0, s) ∧
    out s = ((λ i, ("i = %p\n"%string, [ANum IPtr (str + i)])) <$> seqZ 0 4) ++
      [("p = %p, sizeof = %ld\n", [ANum IPtr str; ANum size_t 8]); ("p+1 = %p\n", [ANum IPtr (str + 1)]);
       ("p+2 = %p\n", [ANum IPtr (str + 2)]); ("p+3 = %p\n", [ANum IPtr (str + 3)])]%string.
Proof. by eexists. Qed.

(** "Worldx" has no NUL, and printing it runs out of the array, whatever is typed. *)
Lemma chararray_undefined word s : chararray_main word s = UB OutOfBounds.
Proof. done. Qed.

(** After the input there is one, if the word has at most five characters; a longer one is
    stored beyond the array. *)
Lemma scan_second_fits (word : bytes) s :
  "000"%char ∉ word →
  (zlen word ≤ 5 → ∃ l, scan_second word array2 s = Ok (l, s) ∧
     print_rows l s = Ok (tt, mkState (globalVar s) (out s ++ [("%s, %s\n"%string, [AStr (b "Hello"); AStr word])]))) ∧
  (5 < zlen word → scan_second word array2 s = UB OutOfBounds).
Proof.
  intros Hn. change (zlen (row 1 array2)) with 6. unfold scan_second. change (zlen (row 1 array2)) with 6. split; intros Hlen.
  - rewrite (proj2 (Z.ltb_lt _ _)) by lia. eexists. split; [reflexivity|]. unfold print_rows.
    change (row 0 (take 6 array2 ++ fill (row 1 array2) (word ++ ["000"%char])))
      with (row_of (b "Hello") ++ fill (row 1 array2) (word ++ ["000"%char])).
    change (row 1 (take 6 array2 ++ fill (row 1 array2) (word ++ ["000"%char])))
      with (fill (row 1 array2) (word ++ ["000"%char])).
    erewrite bind_Ok; [|by destruct s]. erewrite bind_Ok; [reflexivity|].
    unfold fill. generalize (drop (length (word ++ ["000"%char])) (row 1 array2)). intros rest. clear Hlen.
    induction word as [|c word IH]; [done|]. apply not_elem_of_cons in Hn as [Hc Hn]. cbn.
    rewrite bool_decide_eq_false_2 by congruence. unfold mbind, M_bind. by rewrite IH.
  - by rewrite (proj2 (Z.ltb_ge _ _)) by lia.
Qed.

(** C prescribes no order for [a[i] = b[i++]]: with one all is well, with the other the last
    assignment is outside of [a]. *)
Lemma iplus_order_matters :
  (∃ s, iplus_main 5 true boot = Ok (0, s) ∧ out s = (λ i, ("i = %d\n"%string, [AInt i])) <$> seqZ 1 4) ∧
  iplus_main 5 false boot = UB OutOfBounds.
Proof. split; [by eexists|done]. Qed.

(** Five numbers are read and shown, a 0 for one that was not typed; then the array is read
    behind its end. *)
Lemma temp_shows typed :
  let array := (λ i, default 0 (typed i)) <$> seqZ 0 ARRAY_LENGTH in
  scan_and_show typed boot = Ok (array, mkState 0 ((λ x, ("%d"%string, [AInt x])) <$> array)).
Proof.
  intros array.
  assert (array = [default 0 (typed 0); default 0 (typed 1); default 0 (typed 2); default 0 (typed 3); default 0 (typed 4)])
    as -> by done.
  unfold scan_and_show, scan_int, for_up. change (Z.to_nat (5 - 0)) with 5%nat. unfold mbind, M_bind.
  destruct (typed 0) eqn:E0, (typed 1) eqn:E1, (typed 2) eqn:E2, (typed 3) eqn:E3, (typed 4) eqn:E4;
    cbv; rewrite E0; cbv; rewrite E1; cbv; rewrite E2; cbv; rewrite E3; cbv; rewrite E4; reflexivity.
Qed.
Lemma temp_undefined typed : temp_main typed boot = UB OutOfBounds.
Proof. unfold temp_main. erewrite bind_Ok by apply temp_shows. done. Qed.

Lemma uninitalize_undefined s : uninitalize_main s = UB Uninit.
Proof. done. Qed.

(** [sub] also adds: it is undefined when only the sum is out of range. *)
Lemma sub_difference x y s :
  INT_MIN ≤ x + y ≤ INT_MAX → INT_MIN ≤ x - y ≤ INT_MAX → sub x y s = Ok (x - y, s).
Proof.
  intros Ha Hs. unfold sub, lib_add. erewrite bind_Ok by by apply int_val_ok. by apply int_val_ok.
Qed.
Lemma sub_overflows s : sub INT_MAX 1 s = UB IntOverflow.
Proof. done. Qed.

Lemma several_files_print :
  extern_main extern_boot = Ok (0, mkState 10 [("g  hello\n", []); ("a = %d\n", [AInt 10])]%string) ∧
  cforcpp_main boot = Ok (0, mkState 0 [("Hello World!\n", []); ("%d\n", [AInt 3])]%string) ∧
  hello_world_main boot = Ok (0, mkState 0 [("the string = %s, int = %d\n"%string, [AStr (b "hello"); AInt 10])]) ∧
  hello_main boot = Ok (0, mkState 0 [("Hello, Bazel + C++!\n"%string, [])]) ∧
  prog_main boot = Ok (0, boot).
Proof. done. Qed.
