(* ===== verification/Objects.v ===== *)
(** * Objects behind pointers

    [C/Lecture02/struct.c], where a function stores into a pointer of its caller, and
    [C/CppForC], where C code holds a C++ object through a wrapper. *)
From S2P Require Export Cmem Format.

(** A [node], a [MyClassWrapper] with its [instance], and a [MyClass], which has no members. *)
Inductive obj := ONode (val : cell Z) | OWrapper (instance : ptr) | OMyClass.
Record state := mkState { objs : gmap loc obj; out : list (string * list arg) }.

#[export] Program Instance state_heap : HasHeap state obj := {|
  heap_of := objs;
  set_heap h s := mkState h (out s);
|}.
Solve Obligations with by intros; try destruct s.

Definition boot : state := mkState ∅ [].
Definition printf (fmt : string) (args : list arg) : M state unit := λ s,
  Ok (tt, mkState (objs s) (out s ++ [(fmt, args)])).

(** The number that [%p] shows. *)
Definition address (p : ptr) : Z := match p with None => 0 | Some l => Z.pos l end.

Section code.
Context {alc : Allocator}.

(** ** [struct.c] *)

Definition node_val (p : ptr) : M state Z :=
  o ← load p; match o with ONode v => use v | _ => ub_fail BadType end.
Definition set_val (p : ptr) (z : Z) : M state unit :=
  o ← load p; match o with ONode _ => store p (ONode (Val z)) | _ => ub_fail BadType end.

(** The result is what [init] stores in [*p]. *)
Definition init : M state ptr :=
  p ← malloc (ONode Indet);
  printf "init, p content = %p\n" [ANum IPtr (address p)];;
  set_val p 10;;
  mret p.

Definition struct_main : M state Z :=
  let p : ptr := None in
  printf "p = %p\n" [ANum IPtr (address p)];;
  p ← init;
  v ← node_val p;
  printf "p = %p, val = %d\n" [ANum IPtr (address p); AInt v];;
  mret 0.

(** ** [CppForC] *)

(** [MyClass::Add] *)
Definition Add (this : ptr) (x y : Z) : M state Z :=
  o ← load this; match o with OMyClass => int_val (x + y) | _ => ub_fail BadType end.

(** [new MyClassWrapper{ new MyClass() }]: C++11 leaves open which of the two is allocated
    first. *)
Definition MyClass_create (wrapper_first : bool) : M state ptr :=
  if wrapper_first then
    w ← new (OWrapper None);
    i ← new OMyClass;
    store (Some w) (OWrapper (Some i));;
    mret (Some w)
  else
    i ← new OMyClass;
    w ← new (OWrapper (Some i));
    mret (Some w).

Definition instance (wrapper : ptr) : M state ptr :=
  o ← load wrapper; match o with OWrapper i => mret i | _ => ub_fail BadType end.

Definition MyClass_add (wrapper : ptr) (x y : Z) : M state Z :=
  i ← instance wrapper;
  Add i x y.

Definition MyClass_destroy (wrapper : ptr) : M state unit :=
  i ← instance wrapper;
  free i;;
  free wrapper.

Definition cppforc_main (wrapper_first : bool) : M state Z :=
  myClass ← MyClass_create wrapper_first;
  result ← MyClass_add myClass 3 4;
  printf "3 + 4 = %d\n" [AInt result];;
  MyClass_destroy myClass;;
  mret 0.

(** ** What they do *)

(** [init] gives its caller a node of its own, which holds 10 and stays allocated; without
    memory it stores through [NULL]. *)
Lemma struct_prints :
  match pick ∅ with
  | None => struct_main boot = UB NullDeref
  | Some l => struct_main boot = Ok (0, mkState {[l := ONode (Val 10)]}
      [("p = %p\n", [ANum IPtr 0]); ("init, p content = %p\n", [ANum IPtr (Z.pos l)]);
       ("p = %p, val = %d\n", [ANum IPtr (Z.pos l); AInt 10])]%string)
  end.
Proof.
  unfold struct_main, init, node_val, set_val, malloc, load, store, printf, use, mbind, M_bind, mret, M_ret.
  cbn. rewrite dom_empty_L. destruct (pick ∅) as [l|]; [|done].
  cbn. rewrite lookup_insert_eq. cbn. rewrite lookup_insert_eq. cbn. rewrite lookup_insert_eq. cbn.
  by rewrite insert_insert_eq.
Qed.

(** A wrapper and its object, from creation to destruction: the objects of [h] stay as
    they are. *)
Definition wraps (h : gmap loc obj) (w i : loc) (s : state) : Prop :=
  w ≠ i ∧ h !! w = None ∧ h !! i = None ∧ objs s = <[w := OWrapper (Some i)]> (<[i := OMyClass]> h).

Lemma create_wraps first s :
  (∃ w i s', MyClass_create first s = Ok (Some w, s') ∧ wraps (objs s) w i s' ∧ out s' = out s) ∨
  MyClass_create first s = Throw.
Proof.
  destruct s as [h o], first; unfold MyClass_create, new, store, mbind, M_bind, mret, M_ret; cbn;
    (destruct (pick (dom h)) as [l1|] eqn:H1; [|by right]); apply pick_fresh, not_elem_of_dom in H1; cbn.
  all: match goal with |- context [pick (dom ?x)] => destruct (pick (dom x)) as [l2|] eqn:H2 end;
    [left|by right]; apply pick_fresh, not_elem_of_dom, lookup_insert_None in H2 as [H2 Hne]; cbn.
  - rewrite lookup_insert_ne by congruence. rewrite lookup_insert_eq. exists l1, l2. eexists. split; [done|].
    split; [|done]. split; [done|]. split; [done|]. split; [done|]. cbn.
    rewrite (insert_insert_ne _ l1 l2) by congruence. rewrite insert_insert_eq. by apply insert_insert_ne.
  - exists l2, l1. eexists. split; [done|]. split; [|done]. by split_and!.
Qed.

Lemma add_adds h w i x y s :
  wraps h w i s → INT_MIN ≤ x + y ≤ INT_MAX → MyClass_add (Some w) x y s = Ok (x + y, s).
Proof.
  intros (Hne & Hw & Hi & Hs) Hxy. unfold MyClass_add, instance, Add, load, mbind, M_bind. cbn.
  rewrite Hs, lookup_insert_eq. cbn. rewrite Hs, lookup_insert_ne, lookup_insert_eq by done. by apply int_val_ok.
Qed.

Lemma destroy_frees h w i s : wraps h w i s → MyClass_destroy (Some w) s = Ok (tt, mkState h (out s)).
Proof.
  intros (Hne & Hw & Hi & Hs). unfold MyClass_destroy, instance, load, free, mbind, M_bind. cbn.
  rewrite Hs, lookup_insert_eq. cbn. rewrite Hs, lookup_insert_ne, lookup_insert_eq by done. cbn.
  rewrite lookup_delete_ne, lookup_insert_eq by done. cbn.
  rewrite delete_insert_ne by done. rewrite (delete_insert_id h i) by done. by rewrite delete_insert_id.
Qed.

(** Whatever the order of the allocations, the program prints 7 and frees both objects, or
    it ends by [std::bad_alloc] before it prints. *)
Lemma cppforc_prints first s :
  cppforc_main first s = Ok (0, mkState (objs s) (out s ++ [("3 + 4 = %d\n"%string, [AInt 7])])) ∨
  cppforc_main first s = Throw.
Proof.
  unfold cppforc_main. destruct (create_wraps first s) as [(w & i & s' & Hc & Hw & Ho)|Hc].
  - left. erewrite bind_Ok by exact Hc. erewrite bind_Ok by (by eapply add_adds).
    unfold mbind at 1, M_bind at 1. unfold printf.
    erewrite bind_Ok by (apply (destroy_frees (objs s) w i (mkState (objs s') _)); exact Hw).
    cbn. by rewrite Ho.
  - right. unfold mbind, M_bind. by rewrite Hc.
Qed.
End code.

(** With memory it does not throw. *)
Lemma cppforc_prints_with_memory first :
  cppforc_main (alc := bump_allocator) first boot = Ok (0, mkState ∅ [("3 + 4 = %d\n"%string, [AInt 7])]).
Proof.
  destruct (cppforc_prints (alc := bump_allocator) first boot) as [H|H]; [exact H|].
  destruct first; vm_compute in H; discriminate H.
Qed.
