(* ===== verification/Fifo.v ===== *)
(** * Named pipes, and a mapping without a file

    [05_ipc/pipe/fifo_write.cpp] and [fifo_read.cpp], and [05_ipc/mmap/mmap_test.c]. What the
    system answers is an argument of the programs; they print in the monad of Exercises.v. *)
From S2P Require Export Buffer Exercises.

Definition P_FIFO : string := "/tmp/p_fifo".

(** ** [fifo_read.cpp] *)

(** The size of [cache]. *)
Definition CACHE : Z := 100.

(** What the calls of the reader answer: whether [access] finds the FIFO, whether [execlp]
    has replaced the program by [rm], whether [mkfifo] succeeds, and the result of the
    [i]-th [read] with the bytes it has stored. *)
Record answers := mkAnswers {
  found : bool; replaced : bool; made : bool; reads : Z → Z * bytes }.

(** A [read] fails, or stores as many bytes as it says. *)
Definition legal (x : answers) : Prop :=
  ∀ i, let '(n, data) := reads x i in (n = -1 ∧ data = []) ∨ (0 ≤ n ≤ CACHE ∧ zlen data = n).

(** One round of [while (1)]; [sleep] does nothing. *)
Definition read_round (x : answers) (i : Z) : M state unit :=
  let cache := fill (zeroed CACHE) (reads x i).2 in
  if (reads x i).1 =? 0 then printf "nodata:\n" []
  else
    s ← c_str cache;
    printf "getdata:%s\n" [AStr s].

(** The first [n] rounds; [false] when the program has been replaced before them. *)
Definition fifo_read_main (x : answers) (n : Z) : M state bool :=
  let rest :=
    (if made x then mret tt else printf "createnamed pipe failed.\n" []);;
    for_up 0 n (λ i _, read_round x i) tt;;
    mret true in
  if found x then
    if replaced x then mret false
    else printf "access.\n" [];; rest
  else rest.

(** ** [fifo_write.cpp] *)

(** [opened] is the result of [open], and the second component of the program's result what
    it has written. The arguments are memory: [argv1] is the memory from [argv[1]] on. *)
Definition fifo_write_main (argc : Z) (opened : Z) (argv1 : buffer) : M state (Z * option bytes) :=
  if argc <? 2 then
    printf "please input the write data.\n" [];;
    mret (1, None)
  else
  if opened =? -1 then
    printf "open failed!\n" [];;
    mret (0, None)
  else
  printf "open success!" [];;
  d ← contents 100 argv1;
  mret (0, Some d).

(** ** [mmap_test.c] *)

Definition GiB : Z := 1024 * 1024 * 1024.

(** The mapping [p]: its length, and the [int]s that have been stored in it, by their
    offset; the others are 0. [None] is [MAP_FAILED]. *)
Definition mapping : Type := option (Z * gmap Z Z).

Definition store_int (p : mapping) (off v : Z) : M state mapping :=
  match p with
  | Some (len, cells) =>
    if (0 <=? off) && (off + 4 <=? len) then mret (Some (len, <[off := v]> cells)) else ub_fail OutOfBounds
  | None => ub_fail OutOfBounds
  end.
Definition load_int (p : mapping) (off : Z) : M state Z :=
  match p with
  | Some (len, cells) =>
    if (0 <=? off) && (off + 4 <=? len) then mret (default 0 (cells !! off)) else ub_fail OutOfBounds
  | None => ub_fail OutOfBounds
  end.

Definition mmap_test_main (mapped : bool) : M state Z :=
  let p : mapping := if mapped then Some (3 * GiB, ∅) else None in
  (match p with
   | None => printf "mmap failed!\n" []
   | Some _ => printf "mmap success!\n" []
   end);;
  p ← store_int p (1 * GiB) 114;
  p ← store_int p (2 * GiB) 115;
  v ← load_int p (2 * GiB);
  printf "read = %d\n" [AInt v];;
  mret 0.

(** ** What the reader shows *)

(** The line for one answer: a failed [read], as when a writer is there but has written
    nothing yet, is shown as data without text. *)
Definition shown (r : Z * bytes) : string * list arg :=
  if r.1 =? 0 then ("nodata:\n"%string, []) else ("getdata:%s\n"%string, [AStr (upto_nul r.2)]).

(** A [read] that fills [cache] leaves no NUL, unless the data has one. *)
Definition readable (r : Z * bytes) : Prop := r.1 < CACHE ∨ "000"%char ∈ r.2.

Section reader.
Context (x : answers) (Hx : legal x).

Lemma read_round_shows i s :
  readable (reads x i) → read_round x i s = Ok (tt, mkState (globalVar s) (out s ++ [shown (reads x i)])).
Proof using Hx.
  intros Hr. specialize (Hx i). unfold read_round, shown. destruct (reads x i) as [n d]. cbn in *.
  destruct (Z.eqb_spec n 0) as [->|Hn]; [done|].
  assert (c_str (fill (zeroed CACHE) d) s = Ok (upto_nul d, s)) as Hs.
  { destruct Hr as [Hr|Hr]; [apply c_str_zeroed|by apply c_str_has_nul].
    destruct Hx as [[_ ->]|[_ Hd]]; cbn in *; [done|lia]. }
  by erewrite bind_Ok by exact Hs.
Qed.

Lemma read_rounds_show n s :
  0 ≤ n → (∀ i, 0 ≤ i < n → readable (reads x i)) →
  for_up 0 n (λ i _, read_round x i) tt s =
    Ok (tt, mkState (globalVar s) (out s ++ ((λ i, shown (reads x i)) <$> seqZ 0 n))).
Proof using Hx.
  intros Hn Hr. destruct (for_up_rule
    (λ j _ s', s' = mkState (globalVar s) (out s ++ ((λ i, shown (reads x i)) <$> seqZ 0 j))) 0 n
    (λ i _, read_round x i) tt s) as ([] & s' & Hrun & ->); [done| | |exact Hrun].
  - destruct s. cbn. by rewrite app_nil_r.
  - intros j [] s' Hj ->. exists tt. rewrite read_round_shows by (apply Hr; lia). eexists. split; [done|].
    cbn. rewrite seqZ_next by lia. by rewrite fmap_app, app_assoc.
Qed.

(** Without an old FIFO the reader shows the data of each [read], for any number of rounds;
    with one it is replaced by [rm] before it reads anything. *)
Theorem fifo_reader_shows n :
  0 ≤ n → (∀ i, 0 ≤ i < n → readable (reads x i)) →
  fifo_read_main x n boot =
    if found x && replaced x then Ok (false, boot)
    else Ok (true, mkState 0 ((if found x then [("access.\n"%string, [])] else []) ++
           (if made x then [] else [("createnamed pipe failed.\n"%string, [])]) ++
           ((λ i, shown (reads x i)) <$> seqZ 0 n))).
Proof using Hx.
  intros Hn Hr. unfold fifo_read_main. destruct (found x), (replaced x), (made x); try done;
    unfold mbind, M_bind, printf, mret, M_ret; cbn [boot globalVar out andb app];
    by rewrite read_rounds_show.
Qed.

(** A [read] of 100 bytes without NUL is printed beyond the end of [cache]. *)
Lemma full_read_undefined i s :
  (reads x i).1 = CACHE → "000"%char ∉ (reads x i).2 → read_round x i s = UB OutOfBounds.
Proof using Hx.
  intros Hn Hd. specialize (Hx i). unfold read_round. destruct (reads x i) as [n d].
  cbn [fst snd] in *. subst n. destruct Hx as [[? _]|[_ Hlen]]; [done|].
  change (CACHE =? 0) with false. cbv iota. unfold mbind, M_bind.
  rewrite c_str_full; [done| |done]. unfold zlen, zeroed in *. by rewrite length_replicate.
Qed.
End reader.

(** ** What the writer writes *)

(** 100 bytes from the argument on: the argument, its NUL and whatever follows it. When there are
    fewer the call reads beyond the memory of the arguments. *)
Lemma fifo_write_writes argc opened (mem : bytes) s :
  2 ≤ argc → opened ≠ -1 →
  fifo_write_main argc opened (Val <$> mem) s =
    if zlen mem <? 100 then UB OutOfBounds
    else Ok ((0, Some (take 100 mem)), mkState (globalVar s) (out s ++ [("open success!"%string, [])])).
Proof.
  intros Hargc Ho. unfold fifo_write_main. rewrite (proj2 (Z.ltb_ge _ _)), (proj2 (Z.eqb_neq _ _)) by lia.
  unfold mbind, M_bind, printf, contents. rewrite length_fmap. destruct (Z.ltb_spec (zlen mem) 100).
  - rewrite bool_decide_eq_false_2; [done|]. unfold zlen in *. lia.
  - rewrite bool_decide_eq_true_2 by (unfold zlen in *; lia). by rewrite <-fmap_take, mapM_use.
Qed.

(** What the writer was given is what the reader shows, if it has less than 100 characters. *)
Theorem fifo_carries_argument (arg rest : bytes) argc opened s :
  2 ≤ argc → opened ≠ -1 → "000"%char ∉ arg → zlen arg < 100 ≤ zlen (arg ++ "000"%char :: rest) →
  ∃ d s', fifo_write_main argc opened (Val <$> (arg ++ "000"%char :: rest)) s = Ok ((0, Some d), s') ∧
    zlen d = CACHE ∧ shown (zlen d, d) = ("getdata:%s\n"%string, [AStr arg]).
Proof.
  intros Hargc Ho Hn [Hlen Hmem]. rewrite fifo_write_writes by done. rewrite (proj2 (Z.ltb_ge _ _)) by lia.
  eexists _, _. split; [done|].
  assert (zlen (take 100 (arg ++ "000"%char :: rest)) = CACHE) as Hz.
  { unfold zlen in *. rewrite length_take. unfold CACHE. lia. }
  split; [done|]. unfold shown. rewrite Hz. cbn [fst snd]. change (CACHE =? 0) with false. cbv iota.
  rewrite take_app_ge by (unfold zlen in *; lia). do 3 f_equal.
  destruct (100 - length arg)%nat eqn:E; [unfold zlen in *; lia|]. cbn. clear -Hn.
  induction arg as [|c arg IH]; [done|]. apply not_elem_of_cons in Hn as [Hc Hn]. cbn.
  rewrite bool_decide_eq_false_2 by congruence. by rewrite IH.
Qed.

(** A mapping of 3 GiB keeps what was stored; without it the stores go nowhere. *)
Lemma mmap_test_reads :
  mmap_test_main true boot = Ok (0, mkState 0
    [("mmap success!\n", []); ("read = %d\n", [AInt 115])]%string) ∧
  mmap_test_main false boot = UB OutOfBounds.
Proof. split; vm_compute; reflexivity. Qed.
