(* ===== verification/WellTyped.v ===== *)
(** * The arguments of the [printf] family

    C does not check that the arguments of [printf] and [fprintf] are as many as the
    conversions of the format, and of their kinds; a call in which they are not is
    undefined. Here that is checked for the programs that call the system, whatever
    the system answers. *)
From S2P Require Import StandardIO Sendfile Splice PageCache LibAio EpollFiles BufferedIO.
From S2P Require Import Cat Unblocking Mmap DirectIO NonBlocking.
From S2P Require Import EpollServer EpollEt EpollEcho EpollHup TcpUdp TwoPhase TeeDemo EpollListen.
From S2P Require Import UpperServer UpperClient UpperFork UpperThreads.
From S2P Require Import TcpDemos UdpDemos UnixDemos PipeDemos ForkSum.
From S2P Require Import Sys SysStdio SockLib.

(** ** Formats and arguments *)

(** What a conversion takes: an [int], another integer or a pointer of a given type, a string,
    a [double]. *)
Inductive cls := CInt | CNum (t : ctype) | CStr | CFloat.
#[global] Instance cls_eq_dec : EqDecision cls.
Proof. solve_decision. Defined.

(** The conversion character [c] after the length modifier [len], which changes the type of
    an integer; what is shorter than an [int] is passed as one. A combination that is not
    here is undefined, or not one that the programs use. *)
Definition conversion_char (len : bytes) (c : ascii) : option (list cls) :=
  if bool_decide (c ∈ b "di") then
    if bool_decide (len ∈ [[]; b "h"; b "hh"]) then Some [CInt]
    else if bool_decide (len = b "l") then Some [CNum ILong]
    else if bool_decide (len = b "ll") then Some [CNum ILLong]
    else if bool_decide (len = b "z") then Some [CNum ssize_t]
    else None
  else if bool_decide (c ∈ b "ouxX") then
    if bool_decide (len = []) then Some [CNum IUInt]
    else if bool_decide (len ∈ [b "h"; b "hh"]) then Some [CInt]
    else if bool_decide (len = b "l") then Some [CNum IULong]
    else if bool_decide (len = b "ll") then Some [CNum IULLong]
    else if bool_decide (len = b "z") then Some [CNum size_t]
    else None
  else if bool_decide (len ≠ []) then None
  else if bool_decide (c = "c"%char) then Some [CInt]
  else if bool_decide (c = "p"%char) then Some [CNum IPtr]
  else if bool_decide (c = "s"%char) then Some [CStr]
  else if bool_decide (c ∈ b "feEgG") then Some [CFloat]
  else if bool_decide (c = "%"%char) then Some []
  else None.

(** The conversion that starts behind a [%]: flags, width and precision, in which a star
    takes an [int], then the length modifier, of which [len] has been read, then the
    conversion character. The classes of its arguments, and the rest of the format. *)
Fixpoint conversion (len : bytes) (s : bytes) : option (list cls * bytes) :=
  match s with
  | [] => None
  | c :: s =>
    if bool_decide (c ∈ b "lhz") then conversion (len ++ [c]) s
    else if bool_decide (len = [] ∧ c ∈ b "0123456789.-+ #") then conversion len s
    else if bool_decide (len = [] ∧ c = "*"%char) then
      '(l, s) ← conversion len s; Some (CInt :: l, s)
    else l ← conversion_char len c; Some (l, s)
  end.

(** The classes of the arguments that a format takes; a format of [n] characters has at
    most [n] conversions. *)
Fixpoint conversions (n : nat) (s : bytes) : option (list cls) :=
  match n, s with
  | _, [] => Some []
  | O, _ => None
  | S n, c :: s =>
    if bool_decide (c = "%"%char) then
      '(l, s) ← conversion [] s;
      l' ← conversions n s;
      Some (l ++ l')
    else conversions n s
  end.

Definition class_of (x : arg) : cls :=
  match x with
  | AInt _ => CInt | ANum t _ => CNum t | AStr _ => CStr | AFloat _ _ | AVal _ _ _ => CFloat
  end.

Definition fits (fmt : string) (args : list arg) : bool :=
  bool_decide (conversions (length (b fmt)) (b fmt) = Some (class_of <$> args)).

Definition typed_call (c : call) : bool :=
  match c with
  | Output (Printf fmt args) | Output (Eprintf fmt args) | Stdio _ (Fprintf fmt args) => fits fmt args
  | _ => true
  end.
Definition typed_event (x : event) : Prop := typed_call x.1 = true.

(** Every call of [m] is typed, whatever is answered. *)
Definition typed {A} (m : M trace A) : Prop :=
  ∀ tr a tr', m tr = Ok (a, tr') → Forall typed_event tr → Forall typed_event tr'.

(** ** Rules *)

Section rules.
Context {e : Env}.

Lemma typed_ret {A} (a : A) : typed (mret a).
Proof. by intros tr a' tr' [= <- <-]. Qed.

Lemma typed_bind {A B} (m : M trace A) (k : A → M trace B) :
  typed m → (∀ a, typed (k a)) → typed (m ≫= k).
Proof.
  intros Hm Hk tr z tr' Hrun Htr. unfold mbind, M_bind in Hrun.
  destruct (m tr) as [[a tr1]| | |] eqn:E; try discriminate Hrun.
  eapply Hk; [exact Hrun|]. by eapply Hm.
Qed.

Lemma typed_sys c : typed_call c = true → typed (sys c).
Proof. intros Hc tr a tr' [= <- <-] Htr. apply Forall_app. split; [done|]. by constructor. Qed.

Lemma typed_printf fmt args : fits fmt args = true → typed (printf fmt args).
Proof. intros Hf. apply typed_bind; [by apply typed_sys|intros _; apply typed_ret]. Qed.
Lemma typed_eprintf fmt args : fits fmt args = true → typed (eprintf fmt args).
Proof. intros Hf. apply typed_bind; [by apply typed_sys|intros _; apply typed_ret]. Qed.
Lemma typed_perror msg : typed (perror msg).
Proof. apply typed_bind; [by apply typed_sys|intros _; apply typed_ret]. Qed.
Lemma typed_close fd : typed (close fd).
Proof. apply typed_bind; [by apply typed_sys|intros _; apply typed_ret]. Qed.

Lemma typed_fails {A} (m : M trace A) : (∀ tr x, m tr ≠ Ok x) → typed m.
Proof. intros Hm tr a tr' Hrun. by destruct (Hm tr (a, tr')). Qed.

(** Computations that make no calls. *)
Lemma typed_pure {A} (m : M trace A) : (∀ tr a tr', m tr = Ok (a, tr') → tr' = tr) → typed m.
Proof. intros Hm tr a tr' Hrun Htr. by rewrite (Hm _ _ _ Hrun). Qed.

Lemma typed_loop {A B} fuel (body : A → M trace (ctl A B)) a :
  (∀ a, typed (body a)) → typed (loop fuel body a).
Proof.
  intros Hb. revert a. induction fuel as [|fuel IH]; intros a; [by apply typed_fails|].
  apply typed_bind; [done|]. intros [a'|x|z]; [apply IH|apply typed_ret..].
Qed.

Lemma typed_after {B} (m : M trace (loop_exit B)) k :
  typed m → (∀ x, typed (k x)) → typed (after m k).
Proof. intros Hm Hk. apply typed_bind; [done|]. intros [x|z]; [apply Hk|apply typed_ret]. Qed.

Lemma typed_rounds {A B} n (body : A → M trace (ctl A B)) a :
  (∀ a, typed (body a)) → typed (rounds n body a).
Proof.
  intros Hb. revert a. induction n as [|n IH]; intros a; [apply typed_ret|].
  apply typed_bind; [done|]. intros [a'|x|z]; [apply IH|apply typed_ret..].
Qed.

Lemma typed_after_rounds {A B} (m : M trace (ctl A B)) k :
  typed m → (∀ x, typed (k x)) → typed (after_rounds m k).
Proof.
  intros Hm Hk. apply typed_bind; [done|]. intros [a|x|z]; [apply typed_ret| |apply typed_ret].
  apply typed_bind; [done|intros; apply typed_ret].
Qed.

Lemma typed_for_steps {A} n d i (body : Z → A → M trace A) a :
  (∀ i a, typed (body i a)) → typed (for_steps n d i body a).
Proof.
  intros Hb. revert i a. induction n as [|n IH]; intros i a; [apply typed_ret|].
  apply typed_bind; [done|]. intros a'. apply IH.
Qed.

Lemma typed_for_exit n i (body : Z → M trace (option Z)) :
  (∀ i, typed (body i)) → typed (for_exit n i body).
Proof.
  intros Hb. revert i. induction n as [|n IH]; intros i; [apply typed_ret|].
  apply typed_bind; [done|]. intros [z|]; [apply typed_ret|apply IH].
Qed.

Lemma typed_mapM {A B} (f : A → M trace B) l : (∀ a, typed (f a)) → typed (mapM f l).
Proof.
  intros Hf. induction l as [|x l IH]; [apply typed_ret|].
  apply typed_bind; [done|]. intros y. apply typed_bind; [done|]. intros ys. apply typed_ret.
Qed.

Lemma typed_use {A} (c : cell A) : typed (use c).
Proof. destruct c; [by apply typed_fails|apply typed_ret]. Qed.
Lemma typed_put buf i c : typed (put buf i c).
Proof. unfold put. destruct (zupdate _ _ _); [apply typed_ret|by apply typed_fails]. Qed.
Lemma typed_contents n buf : typed (contents n buf).
Proof.
  unfold contents. case_bool_decide; [|by apply typed_fails]. apply typed_mapM. apply typed_use.
Qed.
Lemma typed_c_str buf : typed (c_str buf).
Proof.
  induction buf as [|[|c] buf IH]; [by apply typed_fails..|]. cbn. case_bool_decide; [apply typed_ret|].
  apply typed_bind; [done|]. intros. apply typed_ret.
Qed.
Lemma typed_c_strn n buf : typed (c_strn n buf).
Proof.
  revert buf. induction n as [|n IH]; intros buf; [apply typed_ret|].
  destruct buf as [|[|c] buf]; [by apply typed_fails..|]. cbn. case_bool_decide; [apply typed_ret|].
  apply typed_bind; [done|]. intros. apply typed_ret.
Qed.
End rules.

Create HintDb typed.
#[export] Hint Resolve typed_ret typed_perror typed_close typed_use typed_put typed_contents
  typed_c_str typed_c_strn : typed.

(** The rules follow the syntax of the program; a definition is unfolded when no rule
    applies to it. *)
Ltac typed_step :=
  lazymatch goal with
  | |- typed (_ ≫= _) => apply typed_bind; [|intros ?]
  | |- typed (mret _) => apply typed_ret
  | |- typed (sys _) => apply typed_sys; reflexivity
  | |- typed (printf _ _) => apply typed_printf; reflexivity
  | |- typed (eprintf _ _) => apply typed_eprintf; reflexivity
  | |- typed (ub_fail _) => by apply typed_fails
  | |- typed (loop _ _ _) => apply typed_loop; intros ?
  | |- typed (rounds _ _ _) => apply typed_rounds; intros ?
  | |- typed (after _ _) => apply typed_after; [|intros ?]
  | |- typed (after_rounds _ _) => apply typed_after_rounds; [|intros ?]
  | |- typed (for_steps _ _ _ _ _) => apply typed_for_steps; intros ??
  | |- typed (for_exit _ _ _) => apply typed_for_exit; intros ?
  | |- typed (mapM _ _) => apply typed_mapM; intros ?
  | |- typed (match ?x with _ => _ end) => destruct x
  | |- typed (let _ := _ in _) => cbv zeta
  | |- typed ?m =>
    first [solve [auto with typed]
          | let h := head_of m in progress unfold h; cbv beta]
  end
with head_of m := lazymatch m with ?f _ => head_of f | ?f => f end.

(** ** The programs *)

Section programs.
Context {e : Env}.

(** Functions of the C library. *)
Context (strerror : Z → bytes) (inet_addr : string → Z).

Definition ran {A} (m : M trace A) : M trace unit := m;; mret tt.

(** The loops over arrays. *)
Lemma typed_free_buffers l : typed (LibAio.free_buffers l).
Proof using Type. induction l as [|p l IH]; [apply typed_ret|]. cbn. repeat typed_step. Qed.
Lemma typed_listen_all epfd addrs : typed (EpollListen.listen_all inet_addr epfd addrs).
Proof using Type.
  induction addrs as [|[ip port] addrs IH]; [apply typed_ret|]. cbn. repeat typed_step.
Qed.
#[local] Hint Resolve typed_free_buffers typed_listen_all : typed.

(** The programs that run on the model of the system. [fuel] and [n] bound their loops,
    [m] is the number of connections whose child is seen, [argv] the arguments, [lfd] the number
    that stands for the listening socket in EpollListen.v. *)
Definition programs (fuel n m : nat) (lfd : Z) (argv : list string) : list (M trace unit) :=
  [ran (StandardIO.main fuel); ran (Sendfile.main fuel); ran (Splice.main fuel n);
   ran PageCache.main; ran (EpollFiles.main fuel);
   ran (BufferedIO.write_file BufferedIO.main_filename BufferedIO.main_data);
   ran (BufferedIO.read_file fuel BufferedIO.main_filename);
   ran (BufferedIO.read_line_by_line fuel BufferedIO.main_filename);
   ran (BufferedIO.fprintf_example BufferedIO.main_filename);
   ran (Cat.main fuel argv); ran (Unblocking.main fuel);
   ran Mmap.mmap_main; ran Mmap.mmap_test2_main; ran Mmap.mmap_test3_main;
   ran DirectIO.main; ran NonBlocking.main;
   ran (EpollEt.main fuel n argv); ran (EpollEcho.main n); ran (EpollHup.main n);
   ran (TcpUdp.main fuel n argv); ran TwoPhase.main;
   ran (UpperServer.main n); ran (UpperClient.main n); ran (UpperFork.main n m);
   ran (UpperThreads.main n);
   ran TcpDemos.bind_ip_main; ran (TcpDemos.ephemeral_port_main argv);
   ran TcpDemos.tcp_client_main; ran (TcpDemos.tcp_server_main n argv);
   ran TcpDemos.gethostbyname_main;
   ran (UdpDemos.udp_server_main n); ran (UdpDemos.udp_client_main n);
   ran (UnixDemos.unix_server_main fuel); ran (UnixDemos.unix_client_main fuel);
   ran (PipeDemos.basic_io_main fuel); ran (PipeDemos.A_main fuel);
   ran (LibAio.main strerror); ran (EpollListen.main inet_addr lfd n); ran (TeeDemo.main argv)].

Lemma typed_ran {A} (m : M trace A) : typed m → typed (ran m).
Proof. intros Hm. apply typed_bind; [done|intros; apply typed_ret]. Qed.


(** The values that [fscanf] has stored are of the kinds that its format asks for. *)
Definition scans : Prop := ∀ tr fp fmt,
  let vals := r_vals (env tr (Stdio fp (Fscanf fmt))) in
  ∀ cs, conversions (length (b fmt)) (b fmt) = Some cs → class_of <$> vals = take (length vals) cs.

Lemma typed_scan {A} fp ffmt fmt c (k : M trace A) :
  scans → conversions (length (b ffmt)) (b ffmt) = Some [c] →
  (∀ v, class_of v = c → fits fmt [v] = true) → typed k →
  typed (r ← sys (Stdio fp (Fscanf ffmt));
         (if r_ret r =? 1 then v ← BufferedIO.the_val r; printf fmt [v] else mret tt);; k).
Proof.
  intros Hs Hc Hf Hk tr a tr' Hrun Htr. unfold mbind at 1, M_bind at 1 in Hrun.
  change (sys ?c tr) with (Ok (env tr c, tr ++ [(c, env tr c)])) in Hrun. cbv beta iota in Hrun.
  specialize (Hs tr fp ffmt [c] Hc).
  set (r := env tr (Stdio fp (Fscanf ffmt))) in *. unfold BufferedIO.the_val in Hrun.
  eapply (typed_bind (if r_ret r =? 1 then match r_vals r with v :: _ => mret v | [] => ub_fail Uninit end
    ≫= (λ v, printf fmt [v]) else mret tt) (λ _, k)); [|by intros _|exact Hrun|].
  - destruct (r_ret r =? 1); [|apply typed_ret].
    destruct (r_vals r) as [|v vals]; [by apply typed_fails|].
    apply typed_printf, Hf. simpl in Hs. by injection Hs.
  - apply Forall_app. split; [done|]. by constructor.
Qed.

(** With that, the program that reads with [fscanf] is typed too. *)
Lemma fscanf_example_typed filename : scans → typed (BufferedIO.fscanf_example filename).
Proof.
  intros Hs. unfold BufferedIO.fscanf_example.
  apply typed_bind; [typed_step|intros _]. apply typed_bind; [typed_step|intros fp]. cbv zeta.
  destruct (r_off fp =? 0); [by repeat typed_step|].
  do 3 (eapply typed_scan; [done|reflexivity|by intros [] [=]|]). repeat typed_step.
Qed.
End programs.

(** ** A program that is not typed

    [03_process/multi-process.cpp] prints a duration, which is a [long] on 64-bit Linux,
    with [%lld]: a [long long] has the same width there, but is another type. *)
Definition five_children : Env := λ _ c,
  match c with Libcall _ _ => answer 1 [] 0 | _ => answer 0 [] 0 end.

Lemma multi_process_untyped :
  ∃ tr w', ForkSum.main (e := five_children) 5 [] = Ok (Some 0, tr) ∧
    replay (boot ∅) tr = Some w' ∧ ¬ Forall typed_event tr ∧
    fits "多进程花费了%lld毫秒\n" [ANum ILong 0] = false ∧
    fits "多进程花费了%lld毫秒\n" [ANum ILLong 0] = true.
Proof.
  eexists _, _. split; [vm_compute; reflexivity|]. split; [vm_compute; reflexivity|].
  split; [|done]. intros H. rewrite Forall_forall in H.
  specialize (H (Output (Printf "多进程花费了%lld毫秒\n" [ANum ILong 0]), answer 0 [] 0)).
  discriminate H. set_solver.
Qed.
